(* ===== verification/_CoqProject ===== *)
-Q . S2P
Prelude.v
GoBig.v
Common.v
Curve.v
Ckd.v
CtMul.v
Field.v
Vss.v
Commit.v
Schnorr.v
Paillier.v
Mta.v
MtaCorrect.v
DlnProof.v
FacProof.v
ModProof.v
Bits.v
OtExt.v
OtExtCorrect.v
BaseOt.v
Ole.v
Party.v
Handler.v
Round.v
Json.v
Dkls.v
DklsSetup.v
DklsSign.v
DklsSignCorrect.v
DklsKeygen.v
DklsPresign.v
DklsChecked.v
DklsReshare.v
DklsLife.v
DklsHd.v
DklsEcho.v
DklsRoster.v
DklsSigningParty.v
DklsSigningSafe.v
DklsSigningRun.v
DklsSigningCorrect.v
DklsKeygenParty.v
DklsKeygenRun.v
DklsKeygenNet.v
DklsKeygenSafe.v
DklsKeygenAgree.v
DklsKeygenAgreement.v
