(* ===== verification/Prelude.v ===== *)
(** * A verification development for tss-lib

    tss-lib is a Go library of threshold signature protocols.  A group of [n]
    parties holds shares of one private key; any [t + 1] of them sign, and no [t]
    learn anything.  The library has three layers: number-theoretic and
    oblivious-transfer building blocks ([common/], [crypto/]), the machinery of a
    distributed run ([tss/]), and the protocols ([dklstss/], [ecdsatss/],
    [eddsatss/], [frosttss/] and others).  This development models the first two
    layers and, of the third, the in-process core of [dklstss/]: key generation,
    signing (plain, checked and presigned), refresh, resharing, import and
    hierarchical derivation of the DKLs threshold-ECDSA protocol on secp256k1, with
    everything they call, and its networked key generation: the state machine of a
    party, the echo broadcast and the network of parties around them.

    ** How the program is modelled

    - A Go call that can fail is a value of [res]: [Ok] its result, [Err] its
      error (the constant part of the text), [Panic] a run-time panic (nil
      dereference, slice out of range, explicit panic).  Nothing is swallowed: a
      theorem that says [Ok] also says that no panic happens.
    - [*big.Int] is [Z], or [option Z] where the code lets it be nil; a byte is a
      [Z] in [0, 256) and [GoBig] gives the operations of [math/big] their
      documented behaviour (minimal big-endian bytes, Euclidean [Mod], nil results
      of [Exp] and [ModInverse]).  Machine integers wrap where it matters.
    - An [io.Reader] is the list of bytes it will deliver, and a call returns the
      rest of it; a reader that runs short is an error.  A Go function that takes
      no reader, or a nil one, draws from the system's generator, which is one
      more such list.  A retry loop over a reader runs on fuel: every attempt
      consumes at least one byte, so the length of the reader bounds the attempts
      and the fuel never runs out before the reader does.  The loops without a
      reader (hash-driven rejection in [Paillier], the commitment parser, the
      ladder over 256 bits, the popcount of a byte, the recursion of
      [BaseUpdate]) have a stated bound, and the theorem about them proves that it
      is enough ([PrivateKey_Proof_complete], [ParseSecrets_terminates],
      [ctScalarMultSecp256k1_correct], [BaseUpdate_settles]).
    - A pointer shared by several holders is a reference into a heap ([Party]: the
      identities, whose index [SortPartyIDs] writes; [DklsPresign]: the outputs
      that concurrent calls share, whose atomic steps interleave).  Slices written in place
      are lists that the call returns.  A call on a locked mutex by its own holder
      is the panic ["deadlock"].
    - Code outside the repository is a parameter with its documented laws in a
      type class: [Hash] (SHA-512/256), the curves ([Curve], [CurveLaws]), the
      field and group arithmetic of the secp256k1 and edwards25519 packages
      ([Secp256k1Lib], [Ed25519Lib]), [Aes], protobuf and JSON, the primality test
      of [math/big] and the concurrent safe-prime search.  Two small curves, small
      keys and small hashes instantiate them and evaluate the theorems.

    ** The files

    - [Prelude]: results, notations, the tactics and hints of the library, and
      lemmas on lists and congruences.  [GoBig]: the standard library.
      [Common]: [common/] (modular integers, slices, hashing, samplers).
    - [Curve]: [tss/curve.go], [crypto/ecpoint.go].  [CtMul]: the constant-time
      arithmetic of [crypto/ct_modmul.go], [crypto/ct_edwards.go],
      [crypto/ctmul/].  [Field]: reference polynomials and interpolation.
      [Vss]: [crypto/vss/].  [Commit]: [crypto/commitments/].  [Schnorr]:
      [crypto/schnorr/].
    - [Paillier]: [crypto/paillier/].  [Mta], [MtaCorrect]: [crypto/mta/].
      [DlnProof], [FacProof], [ModProof]: [crypto/dlnproof/], [crypto/facproof/],
      [crypto/modproof/].
    - [Bits]: packed bits.  [OtExt], [OtExtCorrect]: [crypto/ot/otext/].
      [BaseOt]: [crypto/ot/baseot/].  [Ole]: [crypto/ot/ole/].
    - [Party]: [tss/party_id.go], [tss/peers.go], [tss/params.go], [tss/error.go].
      [Round]: [tss/message.go], [tss/wire.go], [tss/party.go], [tss/round.go].
      [Json]: [tss/json.go], [tss/broker.go].
    - [Ckd]: [crypto/ckd/].  [Dkls]: [dklstss/key.go], [lagrange.go],
      [verify_gate.go].  [DklsSetup]: [setup.go].  [DklsSign], [DklsSignCorrect]:
      [signing.go], and the steps that the other two ways of signing share with it.
      [DklsKeygen]: [keygen.go].  [DklsPresign]: [presign.go].  [DklsChecked]:
      [signing_checked.go].  [DklsReshare]: [refresh.go], [resharing.go],
      [import.go].  [DklsLife]: their correctness, over the whole life of a
      committee.  [DklsHd]: [hd.go].
    - [Handler]: what the brokered protocols share: the state and error monad of the
      callbacks, the machine of a party (what it sent, which collectors it connected)
      and the proof rules for its invariants.  [DklsEcho]: [echo.go].
      [DklsRoster]: a committee's identities and what a party makes of them.
    - [DklsSigningParty]: [signing_party.go], one signer's state machine.
      [DklsSigningSafe]: its invariant under arbitrary callbacks.  [DklsSigningRun]:
      a lockstep session and what each round does in it.  [DklsSigningCorrect]: the
      session signs.
    - [DklsKeygenParty]: [keygen_party.go], [once_send.go], one party's state
      machine.  [DklsKeygenRun]: what each of its callbacks does when it returns.
      [DklsKeygenNet]: the network of the honest parties as a step relation.
      [DklsKeygenSafe]: its invariant.  [DklsKeygenAgree], [DklsKeygenAgreement]:
      agreement, and a whole run of two parties.
    A definition has the name of its Go function, with the receiver's type in
    front when it is a method ([Share_Verify] is [Share.Verify]); a loop body or a
    run of statements that has no name in the source has a descriptive one.

    ** The theorems

    The theorem the library is for is [life_Sign_correct] ([DklsLife]): keys made by
    key generation or import, then refreshed and reshared in any order, keep their
    public key, and any threshold of them signs every digest.
    - It rests on [Refresh_correct] and [Reshare_correct] and, below them, on the
      chain base transfer ([BaseOT_correct]), pairwise setup ([setupPairs_wired]),
      transfer extension ([Extend_correct]), multiplication ([Mul_correct]),
      sharing ([Create_reconstructs]), interpolation and digest reduction.
      [consistent] and [committee] are the invariants that carry it;
      [good_signature] and [degenerate] name the two outcomes of a run.
    - [Sign_sound], [SignChecked_sound]: whatever the keys and the peers' states
      hold, no signature leaves that does not verify, and a party that is blamed
      has a transfer state that does not match ([SignChecked_correct],
      [CheckedMul_detects] are the positive sides).
    - [brokered_signing_correct]: the same end to end for the networked signing: in a
      lockstep session of T + 1 machines whose brokers deliver, all of them end with
      one signature that verifies.  [generic] is the condition on the drawn scalars
      under which no partial sum is degenerate; [new_total] says that the machines
      start.  [signing_party_sound]: for one machine under any sequence of callbacks
      with any packets, and any broker, at most one signature is delivered, and it
      passes the gate.
    - [presign_once], [presign_store_once]: single use of a presign output, in
      memory and over the caller's store, in every interleaving of concurrent
      calls; [call_alone] says that the steps refine the functions, and
      [Presign_Sign_correct] that an output is worth a signature.
    - [life_DeriveAndSign_correct]: threshold signing for derived children;
      [DeriveChildKeyFromHierarchy_app] and [derived_String_roundtrip] are about
      the derivation itself.
    - [brokered_keygen_agreement]: the networked key generation against dishonest
      parties.  A configuration is the state of every honest party; a step starts
      one or delivers any message to one, with the only condition that what comes in
      an honest party's name is something it sent.  Loss, delay, repetition and
      reordering are schedules of these steps; a dishonest party is the absence of
      any condition.  [reachable_invariant] follows every party through its
      phases, and the agreement is a consequence of it and of
      [verifyEchoes_accepts]; [verifyEchoes_blames] says when the blame is right,
      and [lying_echoer_frames_dealer] when it is not.  [CurveLog] is the
      assumption that every accepted point is a multiple of the generator.
    - [Vss], [MtaCorrect], [Paillier], [ModProof], [FacProof], [DlnProof],
      [Schnorr]: verification rejects shares off the polynomial, the Paillier
      conversion yields shares of the product, decryption inverts encryption, and
      each zero-knowledge proof is complete; Schnorr proofs have special soundness.
    - [ctScalarMultSecp256k1_correct]: the blinded ladder computes the plain
      multiple.
    - The run-time: [BaseUpdate] terminates and settles, every reachable state keeps
      its mutex free, the JSON collector implements an abstract collection and
      completes; parties are sorted and parameters bounded.
    - Encodings and commitments: round trips, termination of the parser, injectivity
      and binding up to a collision.
    - Inputs on which the code panics or does not return are theorems too, in the
      files of their components.

    ** Not modelled, and why

    - Statistical facts: that a random draw is uniform, that a check fails with
      small probability, and secrecy.  The theorems are about what each run
      computes; a draw that is degenerate appears as its own case.
    - Constant time: the model has the values, not the running time.
    - Timing of goroutines beyond the order of their results (a callback of a
      networked party runs to its end before the next one of that party); logging,
      printed forms.  Of a channel only the value it was given first, of a context
      only what it answers.
    - The message-driven parties of checked signing, presigning, refresh and
      resharing of [dklstss/], which have the shape of the key generation's and the
      signing's, and the JSON form of a key: what the parties exchange and compute is
      modelled, their message flow is not.
    - [ecdsatss/], [eddsatss/], [frosttss/], [frostristretto255tss/],
      [mldsatss/], the round implementations of [ecdsa/] and [eddsa/], and the
      group wrappers of [crypto/group/] and [crypto/frost/].
    *)
From Stdlib Require Import ZArith String List Lia Bool Setoid Morphisms.
From Stdlib Require Import Zcong Zpow_facts.
Import ListNotations.
Open Scope Z_scope.

(** ** Results of Go calls

    A Go call either returns its value, returns a non-nil [error] (kept as the
    text of its constant part), or panics at run time (nil dereference, slice
    out of range, explicit [panic]). *)
Inductive res (A : Type) : Type :=
| Ok (a : A)
| Err (msg : string)
| Panic (why : string).
Arguments Ok {A} a.
Arguments Err {A} msg.
Arguments Panic {A} why.

Definition rbind {A B} (c : res A) (k : A -> res B) : res B :=
  match c with Ok a => k a | Err m => Err m | Panic w => Panic w end.

(** A pointer that may be nil is an [option]; using it dereferences it. *)
Definition deref {A} (o : option A) : res A :=
  match o with Some a => Ok a | None => Panic "nil pointer dereference" end.

(** [guard b m] is the early return [if !b { return errors.New(m) }]. *)
Definition guard (b : bool) (m : string) : res unit :=
  if b then Ok tt else Err m.

Declare Scope tss_scope.
Delimit Scope tss_scope with tss.
Open Scope tss_scope.
Notation "'let!' x := c 'in' k" := (rbind c (fun x => k))
  (at level 10, x pattern, c at level 200, k at level 200) : tss_scope.
Notation "c ';!' k" := (rbind c (fun _ : unit => k))
  (at level 199, k at level 200, right associativity) : tss_scope.

(** The pattern [if !b { return false }] of the verifiers. *)
Notation "'require!' b 'in' k" := (if b then k else Ok false)
  (at level 10, b at level 200, k at level 200) : tss_scope.

Definition is_ok {A} (c : res A) : bool := match c with Ok _ => true | _ => false end.
Definition is_panic {A} (c : res A) : bool := match c with Panic _ => true | _ => false end.

(** A call whose error is replaced by the caller's own message, the pattern
    [if err != nil { return errors.New(m) }]. *)
Definition rewrap {A} (m : string) (c : res A) : res A :=
  match c with Err _ => Err m | _ => c end.

(** The pattern [if err != nil { return false }] of the verifiers. *)
Definition or_false (c : res bool) : res bool :=
  match c with Err _ => Ok false | _ => c end.

Fixpoint mapM {A B} (f : A -> res B) (l : list A) : res (list B) :=
  match l with
  | [] => Ok []
  | a :: l => let! b := f a in let! bs := mapM f l in Ok (b :: bs)
  end.

Fixpoint foldM {A S} (f : S -> A -> res S) (s : S) (l : list A) : res S :=
  match l with
  | [] => Ok s
  | a :: l => let! s' := f s a in foldM f s' l
  end.

(** A verifier's loop: stops at the first element that fails the test. *)
Fixpoint allM {A} (f : A -> res bool) (l : list A) : res bool :=
  match l with
  | [] => Ok true
  | a :: l => let! b := f a in if b then allM f l else Ok false
  end.

(** Index into a slice: out of range panics. *)
Definition idx {A} (l : list A) (i : nat) : res A :=
  match nth_error l i with
  | Some a => Ok a
  | None => Panic "index out of range"
  end.

(** [l[a:b]] with 64-bit signed indices; [b] is at most the length in every use,
    so the capacity plays no role. *)
Definition slice {A} (l : list A) (a b : Z) : res (list A) :=
  if (0 <=? a) && (a <=? b) && (b <=? Z.of_nat (length l))
  then Ok (firstn (Z.to_nat (b - a)) (skipn (Z.to_nat a) l))
  else Panic "slice bounds out of range".

(** The pairs (index, element), the loop [for i, a := range l]. *)
Definition enum {A} (l : list A) : list (nat * A) := combine (seq 0 (length l)) l.

(** ** Randomness

    An [io.Reader] is the finite stream of bytes it will deliver; reading
    past its end is the reader's error. *)
Definition reader := list Z.
Definition rnd (A : Type) := reader -> res (A * reader).

Definition rret {A} (a : A) : rnd A := fun r => Ok (a, r).
Definition rlift {A} (c : res A) : rnd A := fun r => let! a := c in Ok (a, r).
Definition rnd_bind {A B} (c : rnd A) (k : A -> rnd B) : rnd B :=
  fun r => let! p := c r in k (fst p) (snd p).
Notation "'let~' x := c 'in' k" := (rnd_bind c (fun x => k))
  (at level 10, x pattern, c at level 200, k at level 200) : tss_scope.

Fixpoint rmapM {A B} (f : A -> rnd B) (l : list A) : rnd (list B) :=
  match l with
  | [] => rret []
  | a :: l => let~ b := f a in let~ bs := rmapM f l in rret (b :: bs)
  end.

(** ** Sums and products *)
Definition zsum (l : list Z) : Z := fold_right Z.add 0 l.
Definition zprod (l : list Z) : Z := fold_right Z.mul 1 l.

(** ** Congruence modulo n *)
Definition cong (n a b : Z) : Prop := (n | a - b).

(** ** Lemmas on results *)
Lemma rbind_ok {A B} (c : res A) (k : A -> res B) (b : B) :
  rbind c k = Ok b <-> exists a, c = Ok a /\ k a = Ok b.
Proof.
  destruct c; cbn; split; intros H; try discriminate; eauto;
    destruct H as (? & ? & ?); congruence.
Qed.

Lemma rnd_bind_ok {A B} (c : rnd A) (k : A -> rnd B) r (b : B * reader) :
  rnd_bind c k r = Ok b <-> exists a r', c r = Ok (a, r') /\ k a r' = Ok b.
Proof.
  unfold rnd_bind. rewrite rbind_ok. split.
  - intros ([a r'] & H & K). eauto.
  - intros (a & r' & H & K). eauto.
Qed.

Lemma rlift_ok {A} (c : res A) r (a : A) r' :
  rlift c r = Ok (a, r') <-> c = Ok a /\ r' = r.
Proof.
  unfold rlift. rewrite rbind_ok. split.
  - intros (x & H & K). injection K as <- <-. auto.
  - intros (H & ->). eauto.
Qed.

Lemma guard_ok b m u : guard b m = Ok u <-> b = true.
Proof. destruct b, u; cbn; split; congruence. Qed.

Lemma deref_ok {A} (o : option A) a : deref o = Ok a <-> o = Some a.
Proof. destruct o; cbn; split; congruence. Qed.

Lemma idx_ok {A} (l : list A) i a : idx l i = Ok a <-> nth_error l i = Some a.
Proof. unfold idx. destruct nth_error; split; congruence. Qed.

Lemma rewrap_ok {A} m (c : res A) a : rewrap m c = Ok a -> c = Ok a.
Proof. destruct c; cbn; congruence. Qed.

(** Takes a successful run apart into its steps. *)
Ltac inv_res :=
  repeat match goal with
  | H : Ok _ = Ok _ |- _ => injection H; clear H; intros
  | H : Ok _ = Err _ |- _ => discriminate H
  | H : Ok _ = Panic _ |- _ => discriminate H
  | H : Err _ = _ |- _ => discriminate H
  | H : Panic _ = _ |- _ => discriminate H
  | H : rret _ _ = Ok _ |- _ => unfold rret in H
  | H : rbind _ _ = Ok _ |- _ => apply rbind_ok in H as (? & ? & H)
  | H : rnd_bind _ _ _ = Ok _ |- _ => apply rnd_bind_ok in H as (? & ? & ? & H)
  | H : rlift _ _ = Ok (_, _) |- _ => apply rlift_ok in H as (H & ?)
  | H : guard _ _ = Ok _ |- _ => apply guard_ok in H
  | H : deref _ = Ok _ |- _ => apply deref_ok in H
  | H : idx _ _ = Ok _ |- _ => apply idx_ok in H
  | H : (_, _) = (_, _) |- _ => injection H; clear H; intros
  end; subst.

Lemma mapM_ok {A B} (f : A -> res B) (g : A -> B) (l : list A) :
  (forall a, In a l -> f a = Ok (g a)) -> mapM f l = Ok (map g l).
Proof.
  induction l as [|a l IH]; intros H; cbn; [reflexivity|].
  rewrite (H a) by (now left). cbn. rewrite IH; [reflexivity|].
  intros b Hb. apply H. now right.
Qed.

Lemma mapM_inv {A B} (f : A -> res B) (l : list A) (bs : list B) :
  mapM f l = Ok bs -> Forall2 (fun a b => f a = Ok b) l bs.
Proof.
  revert bs. induction l as [|a l IH]; cbn; intros bs H; inv_res; auto.
Qed.

Lemma Forall2_nth_error_l {A B} (R : A -> B -> Prop) l1 l2 i a :
  Forall2 R l1 l2 -> nth_error l1 i = Some a -> exists b, nth_error l2 i = Some b /\ R a b.
Proof.
  intros F. revert i. induction F as [|x y l1 l2 Hxy F IH]; intros [|i] E; try discriminate E; cbn in *.
  - injection E as <-. eauto.
  - eauto.
Qed.

Lemma Forall2_In_r {A B} (R : A -> B -> Prop) l1 l2 : Forall2 R l1 l2 -> forall b, In b l2 -> exists a, In a l1 /\ R a b.
Proof.
  induction 1 as [|x y l1 l2 Hxy _ IH]; intros b [].
  - subst. exists x. split; [now left|assumption].
  - destruct (IH b H) as (a & Ha & Hr). exists a. split; [now right|assumption].
Qed.

Lemma nth_error_seq_0 n i : (i < 0 + n)%nat -> nth_error (seq 0 n) i = Some i.
Proof. intros H. rewrite nth_error_nth' with (d := 0%nat) by (rewrite length_seq; lia). f_equal. now apply seq_nth. Qed.

Lemma foldM_app {A S} (f : S -> A -> res S) s l1 l2 :
  foldM f s (l1 ++ l2) = rbind (foldM f s l1) (fun s' => foldM f s' l2).
Proof.
  revert s. induction l1 as [|a l1 IH]; intros s; cbn; [reflexivity|].
  destruct (f s a); cbn; auto.
Qed.

Lemma allM_true {A} (f : A -> res bool) (l : list A) :
  (forall a, In a l -> f a = Ok true) -> allM f l = Ok true.
Proof.
  induction l as [|a l IH]; intros H; cbn; [reflexivity|].
  rewrite (H a) by (now left). cbn. apply IH. intros b Hb. apply H. now right.
Qed.

Lemma allM_true_inv {A} (f : A -> res bool) (l : list A) :
  allM f l = Ok true -> Forall (fun a => f a = Ok true) l.
Proof.
  induction l as [|a l IH]; cbn; intros H; constructor; inv_res.
  - destruct x; [assumption|discriminate].
  - destruct x; [auto|discriminate].
Qed.

(** An indexed loop over a slice is a loop over its elements. *)
Lemma foldM_idx {A S} (f : S -> A -> res S) (s : S) (pre l : list A) :
  foldM (fun s i => let! a := idx (pre ++ l) i in f s a) s (seq (length pre) (length l)) = foldM f s l.
Proof.
  revert pre s. induction l as [|a l IH]; intros pre s; cbn [length seq foldM]; [reflexivity|].
  unfold idx at 1. rewrite nth_error_app2, Nat.sub_diag by lia. cbn [nth_error rbind].
  destruct (f s a) as [s'| |]; cbn [rbind]; [|reflexivity..].
  specialize (IH (pre ++ [a]) s'). rewrite <- app_assoc, length_app, Nat.add_1_r in IH. exact IH.
Qed.

(** The same from index 1, the loop [for i := 1; i <= len(l); i++]. *)
Lemma foldM_idx1 {A S} (f : S -> A -> res S) (s : S) (x : A) (l : list A) n : n = length l ->
  foldM (fun s i => let! a := idx (x :: l) i in f s a) s (seq 1 n) = foldM f s l.
Proof. intros ->. exact (foldM_idx f s [x] l). Qed.

Lemma foldM_ext {A S} (f g : S -> A -> res S) (s : S) (l : list A) :
  (forall s a, f s a = g s a) -> foldM f s l = foldM g s l.
Proof.
  intros H. revert s. induction l as [|a l IH]; intros s; cbn; [reflexivity|].
  rewrite H. destruct (g s a); cbn; auto.
Qed.

Lemma enum_In {A} (l : list A) i a : In (i, a) (enum l) <-> nth_error l i = Some a.
Proof.
  unfold enum. enough (H : forall k, In (i, a) (combine (seq k (length l)) l) <->
    (k <= i)%nat /\ nth_error l (i - k) = Some a).
  { rewrite H, Nat.sub_0_r. intuition lia. }
  induction l as [|b l IH]; intros k; cbn [length seq combine].
  - cbn. split; [tauto|]. intros [_ H]. destruct (i - k)%nat; discriminate.
  - cbn [In]. rewrite IH. split.
    + intros [E|[Hk E]].
      * injection E as -> ->. rewrite Nat.sub_diag. auto.
      * split; [lia|]. now replace (i - k)%nat with (S (i - S k)) by lia.
    + intros [Hk E]. destruct (Nat.eq_dec i k) as [->|Hn].
      * rewrite Nat.sub_diag in E. injection E as ->. now left.
      * right. split; [lia|]. now replace (i - k)%nat with (S (i - S k)) in E by lia.
Qed.

Lemma enum_nth {A} (l : list A) i a : nth_error l i = Some a -> nth_error (enum l) i = Some (i, a).
Proof.
  unfold enum. enough (K : forall k i, nth_error l i = Some a -> nth_error (combine (seq k (length l)) l) i = Some ((k + i)%nat, a))
    by apply (K 0%nat i).
  clear i. induction l as [|b l IH]; intros k [|i] E; try discriminate E; cbn [length seq combine nth_error] in *.
  - injection E as ->. now rewrite Nat.add_0_r.
  - rewrite (IH (S k) i E). do 2 f_equal. lia.
Qed.

Lemma enum_map_nth {A B} (g : A -> B) (l : list A) n x : nth_error (enum (map g l)) n = Some x -> exists a, nth_error l n = Some a /\ x = (n, g a).
Proof.
  intros E. destruct (nth_error l n) as [a|] eqn:Ea.
  - exists a. split; [reflexivity|]. rewrite (enum_nth _ n (g a)) in E; [now injection E|]. now rewrite nth_error_map, Ea.
  - apply nth_error_None in Ea. assert (L : (n < length (enum (map g l)))%nat) by (apply nth_error_Some; congruence).
    unfold enum in L. rewrite length_combine, length_seq, length_map in L. lia.
Qed.

Lemma enum_snd {A} (l : list A) : map snd (enum l) = l.
Proof.
  unfold enum. generalize 0%nat. induction l as [|a l IH]; intros k; cbn; [reflexivity|]. now rewrite IH.
Qed.

Lemma mapM_idx_pre {A B} (g : A -> B) (pre l : list A) :
  mapM (fun i => let! a := idx (pre ++ l) i in Ok (g a)) (seq (length pre) (length l)) = Ok (map g l).
Proof.
  revert pre. induction l as [|a l IH]; intros pre; cbn [length seq mapM map]; [reflexivity|].
  unfold idx at 1. rewrite nth_error_app2, Nat.sub_diag by lia. cbn [nth_error rbind].
  specialize (IH (pre ++ [a])). rewrite <- app_assoc, length_app, Nat.add_1_r in IH.
  cbn [app] in IH. rewrite IH. reflexivity.
Qed.

Lemma mapM_idx {A B} (g : A -> B) (l : list A) n : n = length l ->
  mapM (fun i => let! a := idx l i in Ok (g a)) (seq 0 n) = Ok (map g l).
Proof. intros ->. exact (mapM_idx_pre g [] l). Qed.

Lemma skipn_repeat {A} (x : A) k m : skipn k (repeat x m) = repeat x (m - k).
Proof.
  revert m. induction k as [|k IH]; intros [|m]; cbn; try reflexivity. apply IH.
Qed.

Create HintDb tss.
Create Rewrite HintDb tss.
#[export] Hint Rewrite @length_map @length_app @length_seq @repeat_length @length_rev : tss.

(** ** Lemmas on sums and products *)
Lemma zsum_cons a l : zsum (a :: l) = a + zsum l.
Proof. reflexivity. Qed.

Lemma zprod_cons a l : zprod (a :: l) = a * zprod l.
Proof. reflexivity. Qed.
#[export] Hint Rewrite zsum_cons zprod_cons : tss.

Lemma zsum_app l1 l2 : zsum (l1 ++ l2) = zsum l1 + zsum l2.
Proof. induction l1; cbn [app]; autorewrite with tss; [reflexivity|lia]. Qed.

Lemma zsum_map_add {A} (f g : A -> Z) l :
  zsum (map (fun a => f a + g a) l) = zsum (map f l) + zsum (map g l).
Proof. induction l; cbn [map]; autorewrite with tss; [reflexivity|lia]. Qed.

Lemma zsum_map_mul_l {A} (c : Z) (f : A -> Z) l :
  zsum (map (fun a => c * f a) l) = c * zsum (map f l).
Proof. induction l; cbn [map]; autorewrite with tss; [cbn; lia|lia]. Qed.

Lemma zprod_app l1 l2 : zprod (l1 ++ l2) = zprod l1 * zprod l2.
Proof. induction l1; cbn [app]; autorewrite with tss; [now destruct (zprod l2)|lia]. Qed.

(** ** Congruence: an equivalence compatible with the ring operations *)
Lemma cong_iff n a b : cong n a b <-> a mod n = b mod n.
Proof.
  unfold cong. destruct (Z.eq_dec n 0) as [->|Hn].
  - rewrite !Z.mod_0_r. split; [intros H%Z.divide_0_l; lia|].
    intros ->. rewrite Z.sub_diag. apply Z.divide_0_r.
  - rewrite Z.cong_iff_0, Z.mod_divide by assumption. reflexivity.
Qed.

#[export] Instance cong_equiv n : Equivalence (cong n).
Proof.
  split; [intros a|intros a b|intros a b c]; rewrite ?cong_iff; congruence.
Qed.

Lemma cong_mod n a : cong n (a mod n) a.
Proof. apply cong_iff, Z.mod_mod_divide, Z.divide_refl. Qed.

#[export] Instance cong_add n : Proper (cong n ==> cong n ==> cong n) Z.add.
Proof.
  intros a a' H b b' K. unfold cong in *.
  replace (a + b - (a' + b')) with ((a - a') + (b - b')) by ring.
  now apply Z.divide_add_r.
Qed.

#[export] Instance cong_opp n : Proper (cong n ==> cong n) Z.opp.
Proof.
  intros a a' H. unfold cong in *.
  replace (- a - - a') with (- (a - a')) by ring. now apply Z.divide_opp_r.
Qed.

#[export] Instance cong_sub n : Proper (cong n ==> cong n ==> cong n) Z.sub.
Proof. intros a a' H b b' K. rewrite <- !Z.add_opp_r. now rewrite H, K. Qed.

#[export] Instance cong_mul n : Proper (cong n ==> cong n ==> cong n) Z.mul.
Proof.
  intros a a' H b b' K. unfold cong in *.
  replace (a * b - a' * b') with ((a - a') * b + a' * (b - b')) by ring.
  apply Z.divide_add_r; [now apply Z.divide_mul_l|now apply Z.divide_mul_r].
Qed.

#[export] Instance cong_modulo n : Proper (cong n ==> eq) (fun a => a mod n).
Proof. intros a a' H. now apply cong_iff. Qed.

Lemma cong_pow n a b k : cong n a b -> cong n (a ^ k) (b ^ k).
Proof.
  intros H. destruct (Z.ltb_spec k 0) as [Hk|Hk].
  - rewrite !Z.pow_neg_r by lia. reflexivity.
  - revert k Hk. apply natlike_ind; [reflexivity|].
    intros k Hk IH. rewrite !Z.pow_succ_r by lia. now apply cong_mul.
Qed.

#[export] Instance cong_pow_proper n : Proper (cong n ==> eq ==> cong n) Z.pow.
Proof. intros a a' H k k' <-. now apply cong_pow. Qed.

Lemma cong_eq n a b : a = b -> cong n a b.
Proof. intros ->. reflexivity. Qed.

Lemma cong_small n a b : 0 <= a < n -> 0 <= b < n -> cong n a b -> a = b.
Proof. intros Ha Hb H%cong_iff. now rewrite !Z.mod_small in H. Qed.

(** [mod_ring] proves [a mod n = b mod n] and [cong n a b] for expressions that
    are equal as ring expressions once the inner reductions are dropped. *)
Ltac mod_ring :=
  match goal with
  | |- ?a mod ?n = ?b mod ?n => apply cong_iff
  | _ => idtac
  end;
  match goal with
  | |- cong ?n _ _ => rewrite ?(cong_mod n); apply cong_eq; ring
  end.

Lemma cong_zsum n l1 l2 : Forall2 (cong n) l1 l2 -> cong n (zsum l1) (zsum l2).
Proof.
  induction 1 as [|a b l1 l2 H _ IH]; [reflexivity|].
  change (cong n (a + zsum l1) (b + zsum l2)). now rewrite H, IH.
Qed.

Lemma cong_zsum_map {A} n (f g : A -> Z) l :
  (forall a, In a l -> cong n (f a) (g a)) -> cong n (zsum (map f l)) (zsum (map g l)).
Proof.
  induction l as [|a l IH]; intros H; [reflexivity|].
  change (cong n (f a + zsum (map f l)) (g a + zsum (map g l))).
  rewrite (H a), IH; [reflexivity| |now left]. intros b Hb. apply H. now right.
Qed.
