(* ===== verification/GoBig.v ===== *)
(** * The parts of Go's [math/big] and [crypto/rand] the program uses

    Arbitrary-precision integers are [Z]; a byte is a [Z] in [0, 256).  The
    functions follow the documented behaviour of the standard library: [Bytes]
    is the minimal big-endian magnitude, [Mod] is Euclidean and panics on a
    zero modulus, [Exp] and [ModInverse] return nil ([None]) where the package
    does, and [Int64] wraps. *)
From Stdlib Require Import ZArith String List Lia Bool Zcong Zpow_facts Znumtheory.
From S2P Require Import Prelude.
Import ListNotations.
Open Scope Z_scope.
Open Scope string_scope.
Open Scope Z_scope.
Open Scope list_scope.

Definition bytes := list Z.
Definition is_byte (b : Z) : Prop := 0 <= b < 256.

(** [sha256.Sum256] *)
Class Sha256 := { sha256 : bytes -> bytes }.

(** [x.BitLen()] *)
Definition BitLen (x : Z) : Z := if x =? 0 then 0 else Z.log2 (Z.abs x) + 1.

(** [n] bytes of [x], least significant first: [binary.LittleEndian.PutUint*]. *)
Fixpoint le_bytes (n : nat) (x : Z) : bytes :=
  match n with
  | O => []
  | S n => x mod 256 :: le_bytes n (x / 256)
  end.
Definition be_bytes (n : nat) (x : Z) : bytes := rev (le_bytes n x).

Fixpoint le_val (bs : bytes) : Z :=
  match bs with [] => 0 | b :: bs => b + 256 * le_val bs end.

(** [x.Bytes()] *)
Definition Bytes (x : Z) : bytes := be_bytes (Z.to_nat ((BitLen x + 7) / 8)) (Z.abs x).

(** [new(big.Int).SetBytes(bs)] *)
Definition SetBytes (bs : bytes) : Z := fold_left (fun acc b => acc * 256 + b) bs 0.

(** [x.FillBytes(buf)] with [len(buf) = n]. *)
Definition FillBytes (n : nat) (x : Z) : res bytes :=
  if Z.abs x <? 256 ^ Z.of_nat n then Ok (be_bytes n (Z.abs x))
  else Panic "math/big: buffer too small to fit value".

(** [x.Bit(i)] *)
Definition Bit (x : Z) (i : Z) : Z := if Z.testbit x i then 1 else 0.

(** [z.Mod(x, y)] *)
Definition Mod (x y : Z) : res Z :=
  if y =? 0 then Panic "division by zero" else Ok (x mod Z.abs y).

(** [z.Div(x, y)]: Euclidean division. *)
Definition Div (x y : Z) : res Z :=
  if y =? 0 then Panic "division by zero" else Ok (Z.sgn y * (x / Z.abs y)).

(** [z.GCD(nil, nil, a, b)] *)
Definition GCD (a b : Z) : Z := Z.gcd a b.

(** [z.ModInverse(g, n)] *)
Definition ModInverse (g n : Z) : res (option Z) :=
  if n =? 0 then Panic "division by zero"
  else Ok (if Z.gcd g n =? 1 then Some (Z.invmod g (Z.abs n)) else None).

(** [z.Exp(x, y, m)]; [None] is the nil result for a negative exponent and a
    base with no inverse. *)
Definition Exp (x y m : Z) : option Z :=
  if m =? 0 then Some (if y <=? 0 then 1 else x ^ y)
  else if y <? 0 then
    if Z.gcd x m =? 1 then Some (Zpow_mod (Z.invmod x (Z.abs m)) (- y) (Z.abs m)) else None
  else Some (Zpow_mod x y (Z.abs m)).

(** [x.Int64()] of a value: the low 64 bits, as a signed integer. *)
Definition wrap64 (x : Z) : Z := (x + 2 ^ 63) mod 2 ^ 64 - 2 ^ 63.
Definition Int64 (x : Z) : Z := wrap64 x.

(** [x.Cmp(y)] *)
Definition Cmp (x y : Z) : Z :=
  match x ?= y with Lt => -1 | Eq => 0 | Gt => 1 end.

(** [big.Jacobi(x, y)]: panics for an even [y]; the loop of the package, whose
    second operand strictly decreases. *)
Fixpoint jacobi_loop (fuel : nat) (a b j : Z) : Z :=
  match fuel with
  | O => 0
  | S fuel =>
    if b =? 1 then j
    else if a =? 0 then 0
    else
      let a := a mod b in
      if a =? 0 then 0
      else
        let s := Z.log2 (Z.land a (- a)) in
        let j := if Z.odd s && ((b mod 8 =? 3) || (b mod 8 =? 5)) then - j else j in
        let c := Z.shiftr a s in
        let j := if (b mod 4 =? 3) && (c mod 4 =? 3) then - j else j in
        jacobi_loop fuel b c j
  end.
Definition Jacobi (x y : Z) : res Z :=
  if Z.even y then Panic "big: invalid 2nd argument to Int.Jacobi: need odd integer"
  else
    let j := if (y <? 0) && (x <? 0) then -1 else 1 in
    Ok (jacobi_loop (2 * Z.to_nat (BitLen y) + 2) x (Z.abs y) j).

(** [z.Sqrt(x)] *)
Definition Sqrt (x : Z) : res Z :=
  if x <? 0 then Panic "square root of negative number" else Ok (Z.sqrt x).

(** [io.ReadFull(rand, buf)] with [len(buf) = n]. *)
Definition ReadFull (n : nat) : rnd bytes := fun r =>
  if (length r <? n)%nat then Err "unexpected EOF"
  else Ok (firstn n r, skipn n r).

Definition mask_top (b : Z) (bs : bytes) : bytes :=
  match bs with [] => [] | x :: bs => Z.land x (2 ^ b - 1) :: bs end.

(** The rejection loop of [cryptorand.Int]; every round reads [k >= 1] bytes, so
    the length of the stream bounds the number of rounds. *)
Fixpoint rand_int_loop (fuel k : nat) (b max : Z) : rnd Z :=
  match fuel with
  | O => fun _ => Err "unexpected EOF"
  | S fuel =>
    let~ bs := ReadFull k in
    let n := SetBytes (mask_top b bs) in
    if n <? max then rret n else rand_int_loop fuel k b max
  end.

(** [cryptorand.Int(rand, max)] *)
Definition rand_Int (max : Z) : rnd Z := fun r =>
  if max <=? 0 then Panic "crypto/rand: argument to Int is <= 0"
  else
    let bitLen := BitLen (max - 1) in
    if bitLen =? 0 then Ok (0, r)
    else
      let k := Z.to_nat ((bitLen + 7) / 8) in
      let b := if bitLen mod 8 =? 0 then 8 else bitLen mod 8 in
      rand_int_loop (S (length r)) k b max r.

(** ** Lemmas: byte strings *)
Lemma le_bytes_length n x : length (le_bytes n x) = n.
Proof. revert x. induction n; cbn; auto. Qed.

Lemma be_bytes_length n x : length (be_bytes n x) = n.
Proof. unfold be_bytes. now rewrite length_rev, le_bytes_length. Qed.
#[export] Hint Rewrite le_bytes_length be_bytes_length : tss.

Lemma le_bytes_byte n x : Forall is_byte (le_bytes n x).
Proof.
  revert x. induction n; cbn; constructor; auto.
  unfold is_byte. apply Z.mod_pos_bound. lia.
Qed.

Lemma be_bytes_byte n x : Forall is_byte (be_bytes n x).
Proof. apply Forall_rev, le_bytes_byte. Qed.

Lemma le_val_bytes n x : 0 <= x -> le_val (le_bytes n x) = x mod 256 ^ Z.of_nat n.
Proof.
  revert x. induction n as [|n IH]; intros x Hx.
  - cbn. now rewrite Z.mod_1_r.
  - cbn [le_bytes le_val]. rewrite IH by (apply Z.div_pos; lia).
    rewrite Nat2Z.inj_succ, Z.pow_succ_r by lia.
    now rewrite Z.rem_mul_r by lia.
Qed.

Lemma le_val_inj n x y : 0 <= x < 256 ^ Z.of_nat n -> 0 <= y < 256 ^ Z.of_nat n ->
  le_bytes n x = le_bytes n y -> x = y.
Proof.
  intros Hx Hy H. apply (f_equal le_val) in H.
  rewrite !le_val_bytes, !Z.mod_small in H; lia.
Qed.

Lemma le_val_app a b : le_val (a ++ b) = le_val a + 256 ^ Z.of_nat (length a) * le_val b.
Proof.
  induction a as [|x a IH]; cbn [le_val app length].
  - rewrite Z.pow_0_r. ring.
  - rewrite IH, Nat2Z.inj_succ, Z.pow_succ_r by lia. ring.
Qed.

Lemma SetBytes_rev bs : SetBytes bs = le_val (rev bs).
Proof.
  induction bs as [|b bs IH] using rev_ind; [reflexivity|].
  unfold SetBytes in *. rewrite fold_left_app, rev_app_distr. cbn [fold_left rev app le_val].
  rewrite IH. ring.
Qed.

Lemma SetBytes_be n x : 0 <= x < 256 ^ Z.of_nat n -> SetBytes (be_bytes n x) = x.
Proof.
  intros H. rewrite SetBytes_rev. unfold be_bytes.
  rewrite rev_involutive, le_val_bytes by lia. now apply Z.mod_small.
Qed.

Lemma le_val_bound bs : Forall is_byte bs -> 0 <= le_val bs < 256 ^ Z.of_nat (length bs).
Proof.
  induction 1 as [|b bs Hb _ IH]; cbn [le_val length]; [cbn; lia|].
  rewrite Nat2Z.inj_succ, Z.pow_succ_r by lia. unfold is_byte in Hb. nia.
Qed.

Lemma SetBytes_bound bs :
  Forall is_byte bs -> 0 <= SetBytes bs < 256 ^ Z.of_nat (length bs).
Proof.
  intros H. rewrite SetBytes_rev, <- length_rev. apply le_val_bound, Forall_rev, H.
Qed.

Lemma le_bytes_val bs : Forall is_byte bs -> le_bytes (length bs) (le_val bs) = bs.
Proof.
  induction 1 as [|b bs Hb _ IH]; cbn [le_val length le_bytes]; [reflexivity|].
  unfold is_byte in Hb. f_equal.
  - rewrite (Z.mul_comm 256), Z.mod_add by lia. apply Z.mod_small. lia.
  - rewrite (Z.mul_comm 256), Z.div_add, Z.div_small by lia. exact IH.
Qed.

Lemma be_bytes_Set bs : Forall is_byte bs -> be_bytes (length bs) (SetBytes bs) = bs.
Proof.
  intros H. unfold be_bytes. rewrite SetBytes_rev, <- (length_rev bs).
  rewrite le_bytes_val by now apply Forall_rev. apply rev_involutive.
Qed.

Lemma BitLen_nonneg x : 0 <= BitLen x.
Proof. unfold BitLen. destruct (Z.eqb_spec x 0); [lia|]. pose proof (Z.log2_nonneg (Z.abs x)). lia. Qed.

Lemma BitLen_spec x : 0 < x -> 2 ^ (BitLen x - 1) <= x < 2 ^ BitLen x.
Proof.
  intros H. unfold BitLen. destruct (Z.eqb_spec x 0); [lia|].
  rewrite Z.abs_eq by lia. replace (Z.log2 x + 1 - 1) with (Z.log2 x) by lia.
  rewrite Z.add_1_r. apply Z.log2_spec. lia.
Qed.

Lemma BitLen_pow_le x : Z.abs x < 2 ^ BitLen x.
Proof.
  unfold BitLen. destruct (Z.eqb_spec x 0) as [->|H]; [cbn; lia|].
  rewrite Z.add_1_r. apply Z.log2_spec. lia.
Qed.

Lemma Bytes_fit x : Z.abs x < 256 ^ Z.of_nat (Z.to_nat ((BitLen x + 7) / 8)).
Proof.
  pose proof (BitLen_nonneg x) as Hb.
  rewrite Z2Nat.id by (apply Z.div_pos; lia).
  change 256 with (2 ^ 8). rewrite <- Z.pow_mul_r by (try apply Z.div_pos; lia).
  eapply Z.lt_le_trans; [apply BitLen_pow_le|].
  apply Z.pow_le_mono_r; [lia|]. pose proof (Z.mul_div_le (BitLen x + 7) 8).
  pose proof (Z.mod_pos_bound (BitLen x + 7) 8). pose proof (Z.div_mod (BitLen x + 7) 8). lia.
Qed.

Lemma SetBytes_Bytes x : SetBytes (Bytes x) = Z.abs x.
Proof. apply SetBytes_be. split; [lia|]. apply Bytes_fit. Qed.

Lemma SetBytes_Bytes_pos x : 0 <= x -> SetBytes (Bytes x) = x.
Proof. intros H. rewrite SetBytes_Bytes. lia. Qed.
#[export] Hint Rewrite SetBytes_Bytes_pos using lia : tss.

Lemma Bytes_byte x : Forall is_byte (Bytes x).
Proof. apply Forall_rev, le_bytes_byte. Qed.

Lemma Bytes_abs x : Bytes (Z.abs x) = Bytes x.
Proof.
  unfold Bytes, BitLen. rewrite Z.abs_idemp.
  replace (Z.abs x =? 0) with (x =? 0); [reflexivity|].
  destruct (Z.eqb_spec x 0), (Z.eqb_spec (Z.abs x) 0); lia.
Qed.

Lemma Bytes_inj x y : Bytes x = Bytes y -> Z.abs x = Z.abs y.
Proof. intros H. rewrite <- !SetBytes_Bytes. now rewrite H. Qed.

Lemma FillBytes_ok n x : 0 <= x < 256 ^ Z.of_nat n -> FillBytes n x = Ok (be_bytes n x).
Proof. intros H. unfold FillBytes. rewrite Z.abs_eq by lia. destruct (Z.ltb_spec x (256 ^ Z.of_nat n)); [reflexivity|lia]. Qed.

Lemma lxor_byte x y : is_byte x -> is_byte y -> is_byte (Z.lxor x y).
Proof.
  unfold is_byte. intros Hx Hy. split; [rewrite Z.lxor_nonneg; lia|].
  destruct (Z.eq_dec (Z.lxor x y) 0) as [->|H]; [lia|].
  change 256 with (2 ^ 8). apply Z.log2_lt_pow2.
  - pose proof (Z.lxor_nonneg x y). lia.
  - eapply Z.le_lt_trans; [apply Z.log2_lxor; lia|].
    apply Z.max_lub_lt; [destruct (Z.eq_dec x 0) as [->|]|destruct (Z.eq_dec y 0) as [->|]];
      try (cbn; lia); apply Z.log2_lt_pow2; lia.
Qed.

(** ** Lemmas: modular arithmetic *)
Lemma Mod_ok x y : 0 < y -> Mod x y = Ok (x mod y).
Proof. intros H. unfold Mod. destruct (Z.eqb_spec y 0); [lia|]. now rewrite Z.abs_eq by lia. Qed.

Lemma ModInverse_coprime g n : 0 < n -> Z.gcd g n = 1 -> ModInverse g n = Ok (Some (Z.invmod g n)).
Proof.
  intros Hn H. unfold ModInverse. rewrite H, Z.eqb_refl.
  destruct (Z.eqb_spec n 0); [lia|]. now rewrite Z.abs_eq by lia.
Qed.

Lemma invmod_range g n : 0 < n -> 0 <= Z.invmod g n < n.
Proof. intros H. rewrite <- Z.mod_invmod. apply Z.mod_pos_bound, H. Qed.

Lemma cong_invmod g n : Z.gcd g n = 1 -> cong n (Z.invmod g n * g) 1.
Proof. intros H. apply cong_iff. now rewrite Z.invmod_ok, H. Qed.

Lemma Exp_nonneg x y m : 0 < m -> 0 <= y -> Exp x y m = Some (x ^ y mod m).
Proof.
  intros Hm Hy. unfold Exp.
  destruct (Z.eqb_spec m 0), (Z.ltb_spec y 0); try lia.
  rewrite Z.abs_eq by lia. now rewrite Zpow_mod_correct by lia.
Qed.

Lemma Exp_neg x y m : 0 < m -> y < 0 -> Z.gcd x m = 1 ->
  Exp x y m = Some (Z.invmod x m ^ (- y) mod m).
Proof.
  intros Hm Hy G. unfold Exp.
  destruct (Z.eqb_spec m 0), (Z.ltb_spec y 0); try lia.
  rewrite G, Z.eqb_refl. rewrite Z.abs_eq by lia. now rewrite Zpow_mod_correct by lia.
Qed.

Lemma Exp_neg_nil x y m : m <> 0 -> y < 0 -> Z.gcd x m <> 1 -> Exp x y m = None.
Proof.
  intros Hm Hy G. unfold Exp.
  destruct (Z.eqb_spec m 0), (Z.ltb_spec y 0), (Z.eqb_spec (Z.gcd x m) 1); congruence || lia.
Qed.

Lemma Int64_small x : - 2 ^ 63 <= x < 2 ^ 63 -> Int64 x = x.
Proof. intros H. unfold Int64, wrap64. rewrite Z.mod_small; lia. Qed.

Lemma Cmp_eq x y : (Cmp x y =? 0) = (x =? y).
Proof. unfold Cmp. destruct (Z.compare_spec x y), (Z.eqb_spec x y); cbn; lia. Qed.
Lemma Cmp_lt x y : (Cmp x y =? -1) = (x <? y).
Proof. unfold Cmp, Z.ltb. now destruct (x ?= y). Qed.

Lemma Cmp_ge x y : (0 <=? Cmp x y) = (y <=? x).
Proof. unfold Cmp. destruct (Z.compare_spec x y), (Z.leb_spec y x); cbn; lia. Qed.

(** ** Lemmas: random sampling *)
Lemma ReadFull_ok n r bs r' :
  ReadFull n r = Ok (bs, r') <-> (n <= length r)%nat /\ bs = firstn n r /\ r' = skipn n r.
Proof.
  unfold ReadFull. destruct (Nat.ltb_spec (length r) n); split.
  - discriminate.
  - lia.
  - intros E. injection E as <- <-. auto.
  - intros (_ & -> & ->). reflexivity.
Qed.

Lemma Forall_split_at {A} (P : A -> Prop) n l :
  Forall P l -> Forall P (firstn n l) /\ Forall P (skipn n l).
Proof. intros H. rewrite <- (firstn_skipn n l) in H. now apply Forall_app in H. Qed.

Lemma mask_top_byte b bs : 0 <= b <= 8 -> Forall is_byte bs -> Forall is_byte (mask_top b bs).
Proof.
  intros Hb [|x bs' Hx H]; cbn; constructor; auto.
  unfold is_byte in *.
  replace (2 ^ b - 1) with (Z.ones b) by (rewrite Z.ones_equiv; lia).
  rewrite Z.land_ones by lia. pose proof (Z.mod_pos_bound x (2 ^ b)).
  pose proof (Z.pow_le_mono_r 2 b 8). change (2 ^ 8) with 256 in *. lia.
Qed.

Lemma rand_int_loop_range fuel k b max r n r' :
  Forall is_byte r -> 0 <= b <= 8 ->
  rand_int_loop fuel k b max r = Ok (n, r') -> 0 <= n < max /\ Forall is_byte r'.
Proof.
  intros Hr Hb. revert r Hr. induction fuel as [|fuel IH]; cbn [rand_int_loop]; intros r Hr H; inv_res.
  match goal with E : ReadFull _ _ = _ |- _ => apply ReadFull_ok in E as (? & -> & ->) end.
  assert (Hs : Forall is_byte (skipn k r)) by now apply Forall_split_at.
  destruct (Z.ltb_spec (SetBytes (mask_top b (firstn k r))) max) as [Hlt|Hge].
  - unfold rret in H. injection H as <- <-.
    split; [|assumption]. split; [|assumption].
    apply SetBytes_bound, mask_top_byte; [lia|]. now apply Forall_split_at.
  - eauto.
Qed.

Lemma rand_Int_range max r n r' :
  Forall is_byte r -> rand_Int max r = Ok (n, r') -> 0 <= n < max /\ Forall is_byte r'.
Proof.
  intros Hr. unfold rand_Int.
  destruct (Z.leb_spec max 0); [discriminate|].
  destruct (Z.eqb_spec (BitLen (max - 1)) 0) as [E|E].
  - intros K. injection K as <- <-. split; [lia|assumption].
  - apply rand_int_loop_range; [assumption|].
    pose proof (Z.mod_pos_bound (BitLen (max - 1)) 8). destruct Z.eqb; lia.
Qed.

(** A digest for the evaluations of the other files. *)
Definition toy_sha : Sha256 := {| sha256 := fun m => repeat (SetBytes m mod 256) 32 |}.
