(* ===== verification/Common.v ===== *)
(** * Package [common]

    [int.go] (modular integers, intervals), [slice.go], [hash.go] and
    [hash_utils.go] (SHA-512/256 with its framing of several inputs),
    [random.go] (rejection samplers) and [zeroize.go].  The compression function
    [crypto/sha512] is a parameter ([Hash]); what the program relies on is that
    a digest is 32 bytes ([HashLaws]). *)
From Stdlib Require Import ZArith String List Lia Bool Znumtheory.
From S2P Require Import Prelude GoBig.
Import ListNotations.
Open Scope string_scope.
Open Scope Z_scope.
Open Scope list_scope.

(** ** int.go *)

(** [ModInt(m)] is the modulus itself; the methods take it first. *)
Definition modInt_Add (mi x y : Z) : res Z := Mod (x + y) mi.
Definition modInt_Sub (mi x y : Z) : res Z := Mod (x - y) mi.
Definition modInt_Mul (mi x y : Z) : res Z := Mod (x * y) mi.

(** Integer quotient, then reduction; nil for a nil or zero divisor. *)
Definition modInt_Div (mi x : Z) (y : option Z) : res (option Z) :=
  match y with
  | None => Ok None
  | Some y =>
    if Z.sgn y =? 0 then Ok None
    else let! i := Div x y in let! r := Mod i mi in Ok (Some r)
  end.
Definition modInt_Exp (mi x y : Z) : option Z := Exp x y mi.
Definition modInt_ModInverse (mi g : Z) : res (option Z) := ModInverse g mi.

Definition IsInInterval (b bound : Z) : bool :=
  (Cmp b bound =? -1) && (0 <=? Cmp b 0).

Definition AppendBigIntToBytesSlice (commonBytes : bytes) (appended : Z) : bytes :=
  commonBytes ++ Bytes appended.

(** ** slice.go *)

(** A nil entry stays a nil (empty) slice. *)
Definition BigIntsToBytes (bigInts : list (option Z)) : list bytes :=
  map (fun o => match o with None => [] | Some x => Bytes x end) bigInts.

Definition MultiBytesToBigInts (bs : list bytes) : list Z := map SetBytes bs.

Definition NonEmptyBytes (bz : bytes) : bool := (0 <? length bz)%nat.

(** [expectLen] is the variadic argument. *)
Definition NonEmptyMultiBytes (bzs : list bytes) (expectLen : option nat) : bool :=
  if (length bzs =? 0)%nat then false
  else if match expectLen with Some n => negb (n =? length bzs)%nat | None => false end then false
  else forallb NonEmptyBytes bzs.

Fixpoint pad_front (k : nat) (src : bytes) : bytes :=
  match k with O => src | S k => pad_front k ([0] ++ src) end.
Definition PadToLengthBytesInPlace (src : bytes) (len : nat) : bytes :=
  let oriLen := length src in
  if (oriLen <? len)%nat then pad_front (len - oriLen) src else src.

(** ** hash.go *)
Class Hash := { sha512_256 : bytes -> bytes }.
Class HashLaws `{Hash} := {
  sha512_256_length : forall m, length (sha512_256 m) = 32%nat;
  sha512_256_byte : forall m, Forall is_byte (sha512_256 m)
}.

Definition hashInputDelimiter : Z := 36.

(** The framing of one byte string: contents, delimiter, length. *)
Definition frame_block (bz : bytes) : bytes :=
  bz ++ [hashInputDelimiter] ++ le_bytes 8 (Z.of_nat (length bz)).
Definition frame (ins : list bytes) : bytes :=
  le_bytes 8 (Z.of_nat (length ins)) ++ flat_map frame_block ins.

Definition hash_sign (n : option Z) : Z :=
  match n with None => 0 | Some n => if n <? 0 then 1 else 0 end.
Definition hash_mag (n : option Z) : bytes :=
  match n with None => Bytes 0 | Some n => Bytes n end.
Definition frame_int (n : option Z) : bytes := hash_sign n :: frame_block (hash_mag n).
Definition frame_ints (ins : list (option Z)) : bytes :=
  le_bytes 8 (Z.of_nat (length ins)) ++ flat_map frame_int ins.

Section Hashing.
Context `{Hash}.

Definition SHA512_256 (ins : list bytes) : option bytes :=
  match ins with [] => None | _ => Some (sha512_256 (frame ins)) end.

Definition SHA512_256i (ins : list (option Z)) : option Z :=
  match ins with [] => None | _ => Some (SetBytes (sha512_256 (frame_ints ins))) end.

(** The digest of the tag is written twice before the framed operands. *)
Definition SHA512_256i_TAGGED (tag : bytes) (ins : list (option Z)) : option Z :=
  let tagBz := sha512_256 (frame [tag]) in
  match ins with
  | [] => None
  | _ => Some (SetBytes (sha512_256 (tagBz ++ tagBz ++ frame_ints ins)))
  end.

Definition SHA512_256iOne (n : option Z) : option Z :=
  match n with
  | None => None
  | Some x => Some (SetBytes (sha512_256 ((if x <? 0 then 1 else 0) :: Bytes x)))
  end.
End Hashing.

(** ** hash_utils.go *)
Definition RejectionSample (q eHash : Z) : res Z := Mod eHash q.

(** ** random.go *)
Definition mustGetRandomIntMaxBits : Z := 5000.
Definition randomSamplingMaxIters : nat := 100.

Definition MustGetRandomInt (bits : Z) : rnd Z := fun r =>
  if (bits <=? 0) || (mustGetRandomIntMaxBits <? bits) then
    Panic "MustGetRandomInt: bits should be positive, non-zero and less than"
  else
    let max := 2 ^ bits - 1 in
    match rand_Int max r with
    | Err _ => Panic "rand.Int failure in MustGetRandomInt"
    | x => x
    end.

(** The unbounded [for] loop: a stream of [length r] bytes cannot serve more
    than [length r] rounds, since each round reads at least one byte. *)
Fixpoint random_positive_loop (fuel : nat) (lessThan : Z) : rnd Z :=
  match fuel with
  | O => fun _ => Panic "rand.Int failure in MustGetRandomInt"
  | S fuel =>
    let~ try := MustGetRandomInt (BitLen lessThan) in
    if Z.sgn try =? 0 then random_positive_loop fuel lessThan
    else if Cmp try lessThan <? 0 then rret try
    else random_positive_loop fuel lessThan
  end.

Definition GetRandomPositiveInt (lessThan : option Z) : rnd (option Z) := fun r =>
  match lessThan with
  | None => Ok (None, r)
  | Some lessThan =>
    if negb (Cmp 0 lessThan =? -1) then Ok (None, r)
    else if Cmp lessThan 1 <=? 0 then Ok (None, r)
    else
      let! p := random_positive_loop (S (length r)) lessThan r in
      Ok (Some (fst p), snd p)
  end.

Definition IsNumberInMultiplicativeGroup (n v : option Z) : bool :=
  match n, v with
  | Some n, Some v =>
    if negb (Cmp 0 n =? -1) then false
    else (Cmp v n <? 0) && (0 <=? Cmp v 1) && (Cmp (GCD v n) 1 =? 0)
  | _, _ => false
  end.

Fixpoint relprime_loop (iters : nat) (n : Z) : rnd (option Z) :=
  match iters with
  | O => rret None
  | S iters =>
    let~ try := MustGetRandomInt (BitLen n) in
    if IsNumberInMultiplicativeGroup (Some n) (Some try) then rret (Some try)
    else relprime_loop iters n
  end.

Definition GetRandomPositiveRelativelyPrimeInt (n : option Z) : rnd (option Z) :=
  match n with
  | None => rret None
  | Some n =>
    if negb (Cmp 0 n =? -1) then rret None
    else relprime_loop randomSamplingMaxIters n
  end.

Definition GetRandomGeneratorOfTheQuadraticResidue (n : option Z) : rnd Z :=
  let~ f := GetRandomPositiveRelativelyPrimeInt n in
  let~ f := rlift (deref f) in
  let~ n := rlift (deref n) in
  rlift (Mod (f * f) n).

Fixpoint nonresidue_loop (iters : nat) (n : Z) : rnd (option Z) :=
  match iters with
  | O => rret None
  | S iters =>
    let~ w := GetRandomPositiveInt (Some n) in
    match w with
    | None => rret None
    | Some w =>
      let~ j := rlift (Jacobi w n) in
      if j =? -1 then rret (Some w) else nonresidue_loop iters n
    end
  end.
Definition GetRandomQuadraticNonResidue (n : Z) : rnd (option Z) :=
  nonresidue_loop randomSamplingMaxIters n.

(** A nil reader falls back on the system's [crypto/rand.Reader], [sys]. *)
Definition GetRandomBytes (sys : reader) (rand : option reader) (len : Z) : res bytes :=
  guard (0 <? len) "invalid random bytes length" ;!
  let rand := match rand with None => sys | Some r => r end in
  let! p := ReadFull (Z.to_nat len) rand in
  Ok (fst p).

(** ** zeroize.go: the contents of the buffers after the call. *)
Definition ZeroizeBigInt (b : option Z) : option Z :=
  match b with None => None | Some _ => Some 0 end.
Definition ZeroizeBytes (b : bytes) : bytes := map (fun _ => 0) b.

(** A concrete digest, on which the theorems about hashing can be evaluated. *)
Definition toy_hash : Hash := 
  {| sha512_256 m := be_bytes 32 (fold_left (fun h b => (h * 1000003 + b + 1) mod (2 ^ 127 - 1)) m 0) |}.

(** These two messages are different and have the same digest. *)
Definition collides `{Hash} (m1 m2 : bytes) : Prop := m1 <> m2 /\ sha512_256 m1 = sha512_256 m2.
(** What [SHA512_256i_TAGGED] hashes. *)
Definition tagged_msg `{Hash} (tag : bytes) (l : list (option Z)) : bytes :=
  sha512_256 (frame [tag]) ++ sha512_256 (frame [tag]) ++ frame_ints l.

(** Lengths that a 64-bit prefix holds, and the integer an operand denotes. *)
Definition fits64 (n : nat) : Prop := Z.of_nat n < 2 ^ 64.
Definition hash_norm (n : option Z) : Z := match n with None => 0 | Some n => n end.

(** ** Lemmas: modular integers and slices *)
Lemma modInt_Add_ok m x y : 0 < m -> modInt_Add m x y = Ok ((x + y) mod m).
Proof. apply Mod_ok. Qed.
Lemma modInt_Sub_ok m x y : 0 < m -> modInt_Sub m x y = Ok ((x - y) mod m).
Proof. apply Mod_ok. Qed.
Lemma modInt_Mul_ok m x y : 0 < m -> modInt_Mul m x y = Ok ((x * y) mod m).
Proof. apply Mod_ok. Qed.
Lemma RejectionSample_ok q e : 0 < q -> RejectionSample q e = Ok (e mod q).
Proof. apply Mod_ok. Qed.
#[export] Hint Rewrite modInt_Add_ok modInt_Sub_ok modInt_Mul_ok RejectionSample_ok Mod_ok using lia : tss.

Lemma modInt_Exp_ok m x y : 0 < m -> 0 <= y -> modInt_Exp m x y = Some (x ^ y mod m).
Proof. apply Exp_nonneg. Qed.
#[export] Hint Rewrite modInt_Exp_ok using lia : tss.

Lemma modInt_ModInverse_ok m g : 0 < m -> Z.gcd g m = 1 ->
  modInt_ModInverse m g = Ok (Some (Z.invmod g m)).
Proof. intros Hm Hg. now apply ModInverse_coprime. Qed.

Lemma IsInInterval_spec b bound : IsInInterval b bound = (0 <=? b) && (b <? bound).
Proof. unfold IsInInterval. rewrite Cmp_lt, Cmp_ge. apply andb_comm. Qed.

Lemma IsInInterval_iff b bound : IsInInterval b bound = true <-> 0 <= b < bound.
Proof. rewrite IsInInterval_spec, andb_true_iff, Z.leb_le, Z.ltb_lt. reflexivity. Qed.

Lemma NonEmptyBytes_pos x : 0 < x -> NonEmptyBytes (Bytes x) = true.
Proof.
  intros Hx. unfold NonEmptyBytes. apply Nat.ltb_lt. destruct (Bytes x) as [|b l] eqn:E; cbn; [|lia].
  pose proof (SetBytes_Bytes_pos x ltac:(lia)) as S. rewrite E in S. cbn in S. lia.
Qed.

Lemma MultiBytes_BigInts l : Forall (fun x => 0 <= x) l ->
  MultiBytesToBigInts (BigIntsToBytes (map Some l)) = l.
Proof.
  intros H. unfold MultiBytesToBigInts, BigIntsToBytes. rewrite !map_map.
  induction H as [|x l Hx _ IH]; cbn; [reflexivity|]. now rewrite SetBytes_Bytes_pos, IH.
Qed.

Lemma pad_front_repeat k src : pad_front k src = repeat 0 k ++ src.
Proof.
  revert src. induction k as [|k IH]; intros src; [reflexivity|].
  cbn [pad_front repeat]. rewrite IH.
  change ([0] ++ src) with ([0] ++ src). rewrite app_assoc, <- repeat_cons. reflexivity.
Qed.

Lemma SetBytes_zeros k src : SetBytes (repeat 0 k ++ src) = SetBytes src.
Proof.
  rewrite !SetBytes_rev, rev_app_distr, le_val_app.
  replace (le_val (rev (repeat 0 k))) with 0; [ring|].
  induction k as [|k IH]; [reflexivity|]. cbn [repeat rev].
  rewrite le_val_app, <- IH. cbn. ring.
Qed.

(** ** Lemmas: samplers *)
Lemma MustGetRandomInt_range bits r n r' :
  Forall is_byte r -> MustGetRandomInt bits r = Ok (n, r') ->
  0 <= n < 2 ^ bits - 1 /\ Forall is_byte r'.
Proof.
  unfold MustGetRandomInt. destruct (_ || _); [discriminate|].
  intros Hr H. destruct (rand_Int (2 ^ bits - 1) r) as [[m s]| |] eqn:E; try discriminate.
  inv_res. eauto using rand_Int_range.
Qed.

Lemma random_positive_loop_range fuel n r x r' :
  Forall is_byte r -> random_positive_loop fuel n r = Ok (x, r') ->
  1 <= x < n /\ Forall is_byte r'.
Proof.
  revert r. induction fuel as [|fuel IH]; cbn [random_positive_loop]; intros r Hr H; [discriminate|].
  inv_res. match goal with E : MustGetRandomInt _ _ = _ |- _ =>
    apply MustGetRandomInt_range in E as [? ?]; [|assumption] end.
  match type of H with context [Z.sgn ?t =? 0] => destruct (Z.eqb_spec (Z.sgn t) 0) as [E|E] end; [eauto|].
  match type of H with context [Cmp ?t n <? 0] => unfold Cmp in H; destruct (Z.compare_spec t n) end; cbn in H;
    eauto.
  inv_res. split; [|assumption]. lia.
Qed.

(** What the callers rely on: a value of [1, n) or nil. *)
Lemma GetRandomPositiveInt_range n r x r' :
  Forall is_byte r -> GetRandomPositiveInt (Some n) r = Ok (Some x, r') ->
  1 <= x < n /\ Forall is_byte r'.
Proof.
  unfold GetRandomPositiveInt. intros Hr H.
  destruct negb; [discriminate|]. destruct (_ <=? 0); [discriminate|].
  inv_res. destruct x0; cbn [fst snd] in *. eauto using random_positive_loop_range.
Qed.

Lemma IsNumberInMultiplicativeGroup_iff n v :
  IsNumberInMultiplicativeGroup (Some n) (Some v) = true <->
  0 < n /\ 1 <= v < n /\ Z.gcd v n = 1.
Proof.
  unfold IsNumberInMultiplicativeGroup, GCD. rewrite Cmp_lt, Cmp_ge.
  replace (Cmp v n <? 0) with (v <? n)
    by (unfold Cmp; destruct (Z.ltb_spec v n), (Z.compare_spec v n); cbn; lia).
  replace (Cmp (Z.gcd v n) 1 =? 0) with (Z.gcd v n =? 1)
    by (unfold Cmp; destruct (Z.eqb_spec (Z.gcd v n) 1), (Z.compare_spec (Z.gcd v n) 1); cbn; lia).
  destruct (Z.ltb_spec 0 n); cbn; rewrite ?andb_true_iff, ?Z.ltb_lt, ?Z.leb_le, ?Z.eqb_eq;
    intuition (try discriminate; lia).
Qed.

Lemma relprime_loop_range iters n r x r' :
  Forall is_byte r -> relprime_loop iters n r = Ok (Some x, r') ->
  (1 <= x < n /\ Z.gcd x n = 1) /\ Forall is_byte r'.
Proof.
  revert r. induction iters as [|k IH]; cbn [relprime_loop]; intros r Hr H; [discriminate|].
  inv_res. match goal with E : MustGetRandomInt _ _ = _ |- _ =>
    apply MustGetRandomInt_range in E as [? ?]; [|assumption] end.
  destruct IsNumberInMultiplicativeGroup eqn:E; [|eauto].
  apply IsNumberInMultiplicativeGroup_iff in E. inv_res. tauto.
Qed.

Lemma GetRandomPositiveRelativelyPrimeInt_range n r x r' :
  Forall is_byte r -> GetRandomPositiveRelativelyPrimeInt (Some n) r = Ok (Some x, r') ->
  (1 <= x < n /\ Z.gcd x n = 1) /\ Forall is_byte r'.
Proof.
  unfold GetRandomPositiveRelativelyPrimeInt. intros Hr H.
  destruct negb; [discriminate|]. eauto using relprime_loop_range.
Qed.

(** ** Lemmas: framing *)
Lemma app_inj_len {A} (a b c d : list A) :
  length b = length d -> a ++ b = c ++ d -> a = c /\ b = d.
Proof.
  intros L E. assert (La : length a = length c)
    by (apply (f_equal (@length A)) in E; rewrite !length_app in E; lia).
  revert c La E. induction a as [|x a IH]; intros [|y c] La E; try discriminate; cbn in *; [auto|].
  injection E as -> E. destruct (IH c) as [-> ->]; auto.
Qed.

Lemma app_inj_len_l {A} (a b c d : list A) :
  length a = length c -> a ++ b = c ++ d -> a = c /\ b = d.
Proof.
  intros L E. apply app_inj_len; [|assumption].
  apply (f_equal (@length A)) in E. rewrite !length_app in E. lia.
Qed.

Lemma le8_inj (m n : nat) : fits64 m -> fits64 n ->
  le_bytes 8 (Z.of_nat m) = le_bytes 8 (Z.of_nat n) -> m = n.
Proof.
  unfold fits64. intros Hm Hn H. apply Nat2Z.inj.
  apply (le_val_inj 8); [| |exact H]; change (256 ^ Z.of_nat 8) with (2 ^ 64); lia.
Qed.

(** A frame is parsed from its end: the trailing length gives the block. *)
Lemma frame_block_inj a b x y : fits64 (length x) -> fits64 (length y) ->
  a ++ frame_block x = b ++ frame_block y -> a = b /\ x = y.
Proof.
  unfold frame_block. intros Hx Hy E. rewrite !app_assoc in E.
  apply app_inj_len in E as [E L]; [|now autorewrite with tss].
  apply le8_inj in L; [|assumption..].
  apply app_inj_len in E as [E _]; [|reflexivity].
  now apply app_inj_len in E.
Qed.

Lemma flat_map_snoc {A B} (f : A -> list B) l x : flat_map f (l ++ [x]) = flat_map f l ++ f x.
Proof. rewrite flat_map_app. cbn. now rewrite app_nil_r. Qed.

Lemma frame_blocks_inj l1 : forall l2, length l1 = length l2 ->
  Forall (fun x => fits64 (length x)) l1 -> Forall (fun x => fits64 (length x)) l2 ->
  flat_map frame_block l1 = flat_map frame_block l2 -> l1 = l2.
Proof.
  induction l1 as [|x l1 IH] using rev_ind; intros l2 L F1 F2 E.
  - destruct l2; [reflexivity|discriminate].
  - destruct l2 as [|y l2 _] using rev_ind; [rewrite length_app in L; cbn in L; lia|].
    rewrite !length_app in L. cbn in L. rewrite !flat_map_snoc in E.
    apply Forall_app in F1 as [F1 Hx], F2 as [F2 Hy].
    inversion_clear Hx. inversion_clear Hy.
    apply frame_block_inj in E as [E ->]; [|assumption..].
    now rewrite (IH l2) by (assumption || lia).
Qed.

Lemma hash_sign_mag a b :
  hash_sign a = hash_sign b -> hash_mag a = hash_mag b -> hash_norm a = hash_norm b.
Proof.
  unfold hash_sign, hash_mag, hash_norm. intros S M.
  destruct a as [a|], b as [b|]; try apply Bytes_inj in M; try reflexivity;
    repeat match type of S with context [?x <? 0] => destruct (Z.ltb_spec x 0) end; lia.
Qed.

Lemma frame_ints_body_inj l1 : forall l2, length l1 = length l2 ->
  Forall (fun x => fits64 (length (hash_mag x))) l1 ->
  Forall (fun x => fits64 (length (hash_mag x))) l2 ->
  flat_map frame_int l1 = flat_map frame_int l2 -> map hash_norm l1 = map hash_norm l2.
Proof.
  induction l1 as [|x l1 IH] using rev_ind; intros l2 L F1 F2 E.
  - destruct l2; [reflexivity|discriminate].
  - destruct l2 as [|y l2 _] using rev_ind; [rewrite length_app in L; cbn in L; lia|].
    rewrite !length_app in L. cbn in L. rewrite !flat_map_snoc in E. unfold frame_int in E at 2 4.
    apply Forall_app in F1 as [F1 Hx], F2 as [F2 Hy].
    inversion_clear Hx. inversion_clear Hy.
    change (hash_sign x :: ?b) with ([hash_sign x] ++ b) in E.
    change (hash_sign y :: ?b) with ([hash_sign y] ++ b) in E.
    rewrite !app_assoc in E.
    apply frame_block_inj in E as [E M]; [|assumption..].
    apply app_inj_tail in E as [E S].
    rewrite !map_app, (IH l2) by (assumption || lia). cbn [map].
    now rewrite (hash_sign_mag x y S M).
Qed.

#[export] Instance toy_hash_laws : @HashLaws toy_hash.
Proof.
  split; intros m; [exact (be_bytes_length 32 _)|apply Forall_rev, le_bytes_byte].
Qed.

Section Binding.
Context `{HL : HashLaws}.

Lemma sha_inj_or m1 m2 : sha512_256 m1 = sha512_256 m2 -> m1 = m2 \/ collides m1 m2.
Proof. intros E. destruct (list_eq_dec Z.eq_dec m1 m2) as [|Hn]; [now left|now right]. Qed.

Lemma sha_int_inj m1 m2 :
  SetBytes (sha512_256 m1) = SetBytes (sha512_256 m2) -> m1 = m2 \/ collides m1 m2.
Proof.
  intros E. apply sha_inj_or.
  rewrite <- (be_bytes_Set (sha512_256 m1)), <- (be_bytes_Set (sha512_256 m2))
    by apply sha512_256_byte.
  now rewrite !sha512_256_length, E.
Qed.

Lemma frame_inj l1 l2 :
  fits64 (length l1) -> fits64 (length l2) ->
  Forall (fun x => fits64 (length x)) l1 -> Forall (fun x => fits64 (length x)) l2 ->
  frame l1 = frame l2 -> l1 = l2.
Proof.
  unfold frame. intros L1 L2 F1 F2 E.
  apply app_inj_len_l in E as [L E]; [|now autorewrite with tss].
  apply le8_inj in L; [|assumption..]. now apply frame_blocks_inj.
Qed.

Lemma frame_ints_inj l1 l2 :
  fits64 (length l1) -> fits64 (length l2) ->
  Forall (fun x => fits64 (length (hash_mag x))) l1 ->
  Forall (fun x => fits64 (length (hash_mag x))) l2 ->
  frame_ints l1 = frame_ints l2 -> map hash_norm l1 = map hash_norm l2.
Proof.
  unfold frame_ints. intros L1 L2 F1 F2 E.
  apply app_inj_len_l in E as [L E]; [|now autorewrite with tss].
  apply le8_inj in L; [|assumption..]. now apply frame_ints_body_inj.
Qed.

(** SHA512_256 binds the whole list of byte strings: two non-empty
    lists with the same result are equal, or their two framings are a collision of
    the digest itself. *)
Theorem SHA512_256_binding l1 l2 d
  (L1 : fits64 (length l1)) (L2 : fits64 (length l2))
  (F1 : Forall (fun x => fits64 (length x)) l1)
  (F2 : Forall (fun x => fits64 (length x)) l2)
  (E1 : SHA512_256 l1 = Some d) (E2 : SHA512_256 l2 = Some d) :
  l1 = l2 \/ collides (frame l1) (frame l2).
Proof.
  destruct l1 as [|x l1]; [discriminate|]. destruct l2 as [|y l2]; [discriminate|].
  injection E1 as E1. injection E2 as E2. rewrite <- E2 in E1.
  apply sha_inj_or in E1 as [E|]; [left|now right]. now apply frame_inj.
Qed.

(** SHA512_256i_TAGGED binds the tag and, up to the documented
    nil-is-zero convention, every signed operand, unless the two framed tags or the
    two hashed messages are a collision of the digest. *)
Theorem SHA512_256i_TAGGED_binding tag1 tag2 l1 l2 d
  (T1 : fits64 (length tag1)) (T2 : fits64 (length tag2))
  (L1 : fits64 (length l1)) (L2 : fits64 (length l2))
  (F1 : Forall (fun x => fits64 (length (hash_mag x))) l1)
  (F2 : Forall (fun x => fits64 (length (hash_mag x))) l2)
  (E1 : SHA512_256i_TAGGED tag1 l1 = Some d) (E2 : SHA512_256i_TAGGED tag2 l2 = Some d) :
  (tag1 = tag2 /\ map hash_norm l1 = map hash_norm l2) \/
  collides (frame [tag1]) (frame [tag2]) \/ collides (tagged_msg tag1 l1) (tagged_msg tag2 l2).
Proof.
  unfold SHA512_256i_TAGGED in *.
  destruct l1 as [|x l1]; [discriminate|]. destruct l2 as [|y l2]; [discriminate|].
  injection E1 as E1. injection E2 as E2. rewrite <- E2 in E1. fold (tagged_msg tag1 (x :: l1)) (tagged_msg tag2 (y :: l2)) in E1.
  apply sha_int_inj in E1 as [E|]; [|now right; right]. unfold tagged_msg in E.
  apply app_inj_len_l in E as [T E]; [|now rewrite !sha512_256_length].
  apply sha_inj_or in T as [T|]; [|now right; left].
  apply app_inj_len_l in E as [_ E]; [|now rewrite !sha512_256_length].
  left. split; [|now apply frame_ints_inj].
  apply frame_inj in T; [now injection T|cbv; reflexivity..| |]; now constructor.
Qed.
End Binding.

Lemma fits_small n : (n <= 100)%nat -> fits64 n.
Proof. unfold fits64. change (2 ^ 64) with 18446744073709551616. lia. Qed.

Lemma fits_bytes (l : list bytes) :
  forallb (fun x => (length x <=? 100)%nat) l = true -> Forall (fun x => fits64 (length x)) l.
Proof.
  intros H. rewrite forallb_forall in H. apply Forall_forall. intros x Hx.
  apply fits_small, Nat.leb_le, H, Hx.
Qed.

Lemma fits_mags (l : list (option Z)) :
  forallb (fun x => (length (hash_mag x) <=? 100)%nat) l = true ->
  Forall (fun x => fits64 (length (hash_mag x))) l.
Proof.
  intros H. rewrite forallb_forall in H. apply Forall_forall. intros x Hx.
  apply fits_small, Nat.leb_le, (H x Hx).
Qed.

Lemma SHA512_256_binding_witness :
  [[1]; [2; 3]] = [[1]; [2; 3]] \/ @collides toy_hash (frame [[1]; [2; 3]]) (frame [[1]; [2; 3]]).
Proof.
  apply (@SHA512_256_binding toy_hash [[1]; [2; 3]] [[1]; [2; 3]]
    (@sha512_256 toy_hash (frame [[1]; [2; 3]])));
    first [apply fits_small; cbn; lia|apply fits_bytes; reflexivity|reflexivity].
Defined.

Lemma SHA512_256i_TAGGED_binding_witness :
  ([7] = [7] /\ map hash_norm [Some 5; None] = map hash_norm [Some 5; Some 0]) \/
  @collides toy_hash (frame [[7]]) (frame [[7]]) \/
  @collides toy_hash (@tagged_msg toy_hash [7] [Some 5; None]) (@tagged_msg toy_hash [7] [Some 5; Some 0]).
Proof.
  apply (@SHA512_256i_TAGGED_binding toy_hash toy_hash_laws [7] [7] [Some 5; None] [Some 5; Some 0]
    (SetBytes (@sha512_256 toy_hash (@sha512_256 toy_hash (frame [[7]]) ++
       @sha512_256 toy_hash (frame [[7]]) ++ frame_ints [Some 5; None]))));
    first [apply fits_small; cbn; lia|apply fits_mags; reflexivity|reflexivity].
Defined.
