(* ===== verification/Curve.v ===== *)
(** * Elliptic curves: package [tss/curve.go] and [crypto/ecpoint.go]

    An [elliptic.Curve] is a third-party object: its operations are the fields
    of [Curve].  [CurveLaws C pt id_on] states what the program relies on: [pt k]
    are the affine coordinates of [k G], the operations compute in the group of
    multiples of the base point, whose order [N] is prime, and the identity is
    on the curve exactly when [id_on] (Edwards: yes, Weierstrass: no).

    [ECPoint] models [crypto.ECPoint]: a curve and two coordinates that may be
    nil.  Two toy curves with the same shapes ([toy256], a Weierstrass curve of
    order 31 over F_43, and [toyEd], an Edwards curve with a subgroup of order 13
    over F_89) satisfy the laws and serve to evaluate the theorems. *)
From Stdlib Require Import ZArith String List Lia Bool Zdivisibility Zpow_facts.
From S2P Require Import Prelude GoBig Common.
Import ListNotations.
Open Scope string_scope.
Open Scope Z_scope.
Open Scope list_scope.

Record Curve := {
  cId : string;                                  (* identity of the curve value *)
  cType : string;                                (* its Go type *)
  cN : Z;                                        (* Params().N *)
  cP : Z;                                        (* Params().P *)
  cGx : Z;
  cGy : Z;
  cIsOnCurve : Z -> Z -> bool;
  cAdd : Z -> Z -> Z -> Z -> Z * Z;
  cScalarMult : Z -> Z -> bytes -> Z * Z;
  cScalarBaseMult : bytes -> Z * Z
}.

(** [c1 == c2] on interface values. *)
Definition curve_eqb (c1 c2 : Curve) : bool := String.eqb (cId c1) (cId c2).

Class CurveLaws (C : Curve) (pt : Z -> Z * Z) (id_on : bool) := {
  cl_prime : Z.prime (cN C);
  cl_N : cN C < 2 ^ 256;
  cl_P : cP C < 2 ^ 256;
  cl_eq : forall a b, pt a = pt b <-> cong (cN C) a b;
  cl_base : pt 1 = (cGx C, cGy C);
  cl_add : forall a b, cAdd C (fst (pt a)) (snd (pt a)) (fst (pt b)) (snd (pt b)) = pt (a + b);
  cl_mult : forall a bs, Forall is_byte bs ->
    cScalarMult C (fst (pt a)) (snd (pt a)) bs = pt (SetBytes bs * a);
  cl_bmult : forall bs, Forall is_byte bs -> cScalarBaseMult C bs = pt (SetBytes bs);
  cl_on : forall a, cIsOnCurve C (fst (pt a)) (snd (pt a)) = id_on || negb (a mod cN C =? 0);
  cl_id : pt 0 = if id_on then (0, 1) else (0, 0);
  cl_x : forall a, 0 <= fst (pt a) < cP C;
  cl_y : forall a, 0 <= snd (pt a) < cP C
}.

(** The two curves the library is used with: [secp256k1.S256()] and
    [edwards25519.Edwards()]. *)
Class Curves := { S256 : Curve; Edwards : Curve }.

(** ** tss/curve.go *)
Definition CurveName := string.
Definition Secp256k1 : CurveName := "secp256k1".
Definition Ed25519 : CurveName := "ed25519".

(** The package's globals: the default curve and the registry. *)
Record CurveState := { ec : Curve; registry : list (CurveName * Curve) }.

Section CurveRegistry.
Context `{Curves}.

Definition curve_init : CurveState :=
  {| ec := S256; registry := [(Secp256k1, S256); (Ed25519, Edwards)] |}.

(** A map write: replaces the binding of the name or adds one. *)
Fixpoint reg_insert (name : CurveName) (c : Curve) (m : list (CurveName * Curve)) :=
  match m with
  | [] => [(name, c)]
  | (n, e) :: m => if String.eqb n name then (name, c) :: m else (n, e) :: reg_insert name c m
  end.

Definition RegisterCurve (name : CurveName) (c : Curve) (s : CurveState) : CurveState :=
  {| ec := ec s; registry := reg_insert name c (registry s) |}.

Fixpoint reg_lookup (name : CurveName) (m : list (CurveName * Curve)) : option Curve :=
  match m with
  | [] => None
  | (n, e) :: m => if String.eqb n name then Some e else reg_lookup name m
  end.

Definition GetCurveByName (name : CurveName) (s : CurveState) : option Curve :=
  reg_lookup name (registry s).

(** The first entry, in the map's iteration order, whose type is that of [c]. *)
Fixpoint reg_find_type (c : Curve) (m : list (CurveName * Curve)) : option CurveName :=
  match m with
  | [] => None
  | (n, e) :: m => if String.eqb (cType c) (cType e) then Some n else reg_find_type c m
  end.

Definition GetCurveName (c : Curve) (s : CurveState) : option CurveName :=
  reg_find_type c (registry s).

Definition SameCurve (lhs rhs : Curve) (s : CurveState) : bool :=
  match GetCurveName lhs s, GetCurveName rhs s with
  | Some l, Some r => String.eqb l r
  | _, _ => false
  end.

Definition SetCurve (c : option Curve) (s : CurveState) : res CurveState :=
  match c with
  | None => Panic "SetCurve received a nil curve"
  | Some c => Ok {| ec := c; registry := registry s |}
  end.
End CurveRegistry.

(** ** crypto/ecpoint.go *)
Record ECPoint := { curve : Curve; coords : option Z * option Z }.

Definition isOnCurve (c : Curve) (x y : option Z) : bool :=
  match x, y with
  | Some x, Some y => cIsOnCurve c x y
  | _, _ => false
  end.

Definition NewECPointNoCurveCheck (c : Curve) (X Y : Z) : ECPoint :=
  {| curve := c; coords := (Some X, Some Y) |}.

Definition NewECPoint (c : Curve) (X Y : option Z) : res ECPoint :=
  if negb (isOnCurve c X Y) then
    Err "NewECPoint: the given point is not on the elliptic curve"
  else Ok {| curve := c; coords := (X, Y) |}.

(** Copying a nil coordinate panics. *)
Definition ECPoint_X (p : ECPoint) : res Z := deref (fst (coords p)).
Definition ECPoint_Y (p : ECPoint) : res Z := deref (snd (coords p)).

Definition ECPoint_Add (p p1 : ECPoint) : res ECPoint :=
  let! px := ECPoint_X p in let! py := ECPoint_Y p in
  let! qx := ECPoint_X p1 in let! qy := ECPoint_Y p1 in
  let '(x, y) := cAdd (curve p) px py qx qy in
  NewECPoint (curve p) (Some x) (Some y).

Definition panic_err {A} (why : string) (c : res A) : res A :=
  match c with Err _ => Panic why | _ => c end.

Definition ECPoint_ScalarMult (p : ECPoint) (k : Z) : res ECPoint :=
  let! px := ECPoint_X p in let! py := ECPoint_Y p in
  let '(x, y) := cScalarMult (curve p) px py (Bytes k) in
  panic_err "scalar mult to an ecpoint" (NewECPoint (curve p) (Some x) (Some y)).

Definition ScalarBaseMult (c : Curve) (k : Z) : res ECPoint :=
  let '(x, y) := cScalarBaseMult c (Bytes k) in
  panic_err "scalar mult to an ecpoint" (NewECPoint c (Some x) (Some y)).

Definition ECPoint_IsOnCurve (p : ECPoint) : bool :=
  isOnCurve (curve p) (fst (coords p)) (snd (coords p)).

Definition ECPoint_Equals (p p2 : option ECPoint) : res bool :=
  match p, p2 with
  | Some p, Some p2 =>
    let! x := ECPoint_X p in let! x2 := ECPoint_X p2 in
    if negb (Cmp x x2 =? 0) then Ok false
    else
      let! y := ECPoint_Y p in let! y2 := ECPoint_Y p2 in
      Ok (Cmp y y2 =? 0)
  | _, _ => Ok false
  end.

Definition ECPoint_SetCurve (p : ECPoint) (c : Curve) : ECPoint :=
  {| curve := c; coords := coords p |}.

Definition is_some {A} (o : option A) : bool := match o with Some _ => true | None => false end.

Definition ECPoint_ValidateBasic (p : option ECPoint) : bool :=
  match p with
  | None => false
  | Some p => is_some (fst (coords p)) && is_some (snd (coords p)) && ECPoint_IsOnCurve p
  end.

Definition ECPoint_IsIdentity (p : option ECPoint) : bool :=
  match p with
  | Some {| coords := (Some x, Some y) |} =>
    if negb (Z.sgn x =? 0) then false
    else if Z.sgn y =? 0 then true
    else if Cmp y 1 =? 0 then true
    else false
  | _ => false
  end.

(** [eightInv] is computed once from the Edwards curve's order. *)
Definition eightInv `{Curves} : res Z :=
  let! i := ModInverse 8 (cN Edwards) in deref i.
Definition ECPoint_EightInvEight `{Curves} (p : ECPoint) : res ECPoint :=
  let! i := eightInv in
  let! p := ECPoint_ScalarMult p 8 in
  ECPoint_ScalarMult p i.

(** The coordinates of an [ecdsa.PublicKey] / [edwards25519.PublicKey]. *)
Definition ECPoint_ToECDSAPubKey (p : ECPoint) : res (Curve * Z * Z) :=
  let! x := ECPoint_X p in let! y := ECPoint_Y p in Ok (curve p, x, y).
Definition ECPoint_ToEd25519PubKey (p : ECPoint) : res (Curve * Z * Z) :=
  let! x := ECPoint_X p in let! y := ECPoint_Y p in Ok (curve p, x, y).

Definition FlattenECPoints (pts : option (list (option ECPoint))) : res (list Z) :=
  match pts with
  | None => Err "FlattenECPoints encountered a nil in slice"
  | Some l =>
    foldM (fun flat p =>
      match p with
      | Some {| coords := (Some x, Some y) |} => Ok (flat ++ [x; y])
      | _ => Err "FlattenECPoints found nil point/coordinate"
      end) [] l
  end.

Fixpoint unflatten_pairs (c : Curve) (check : bool) (l : list (option Z)) : res (list ECPoint) :=
  match l with
  | x :: y :: l =>
    let! p := if check then NewECPoint c x y else Ok {| curve := c; coords := (x, y) |} in
    let! ps := unflatten_pairs c check l in Ok (p :: ps)
  | _ => Ok []
  end.

(** [noCurveCheck] is the variadic flag. *)
Definition UnFlattenECPoints (c : Curve) (ins : option (list (option Z))) (noCurveCheck : option bool)
  : res (list ECPoint) :=
  match ins with
  | None => Err "UnFlattenECPoints expected an in len divisible by 2"
  | Some l =>
    guard (Nat.even (length l)) "UnFlattenECPoints expected an in len divisible by 2" ;!
    let! unFlat := unflatten_pairs c (match noCurveCheck with Some true => false | _ => true end) l in
    guard (forallb (fun p => is_some (fst (coords p)) && is_some (snd (coords p))) unFlat)
      "UnFlattenECPoints found nil coordinate after unpack" ;!
    Ok unFlat
  end.

(** *** Gob encoding.  [big.Int.GobEncode]: nothing for nil; otherwise a byte
    [version * 2 + sign] and the magnitude. *)
Definition gob_int (x : option Z) : bytes :=
  match x with
  | None => []
  | Some x => (2 + (if x <? 0 then 1 else 0)) :: Bytes x
  end.
Definition ungob_int (bs : bytes) : res Z :=
  match bs with
  | [] => Ok 0
  | b :: m =>
    if negb (b / 2 =? 1) then Err "Int.GobDecode: encoding version not supported"
    else Ok (if b mod 2 =? 1 then - SetBytes m else SetBytes m)
  end.

Definition ECPoint_GobEncode (p : ECPoint) : bytes :=
  let x := gob_int (fst (coords p)) in
  let y := gob_int (snd (coords p)) in
  le_bytes 4 (Z.of_nat (length x)) ++ x ++ le_bytes 4 (Z.of_nat (length y)) ++ y.

(** [binary.Read] of a uint32. *)
Definition read_u32 (buf : bytes) : res (Z * bytes) :=
  if (length buf <? 4)%nat then Err "unexpected EOF"
  else Ok (le_val (firstn 4 buf), skipn 4 buf).
(** [reader.Read(x)] with [len(x) = n], then the test that all of it came; at
    the end of the input [Read] returns [io.EOF] even for an empty buffer. *)
Definition read_n (n : Z) (buf : bytes) : res (bytes * bytes) :=
  if (length buf =? 0)%nat || (Z.of_nat (length buf) <? n) then Err "gob decode failed"
  else Ok (firstn (Z.to_nat n) buf, skipn (Z.to_nat n) buf).

Definition ECPoint_GobDecode (s : CurveState) (buf : bytes) : res ECPoint :=
  let! (n, buf) := read_u32 buf in
  let! (x, buf) := read_n n buf in
  let! (n, buf) := read_u32 buf in
  let! (y, _) := read_n n buf in
  let! X := ungob_int x in
  let! Y := ungob_int y in
  let p := {| curve := ec s; coords := (Some X, Some Y) |} in
  if negb (ECPoint_IsOnCurve p) then
    Err "ECPoint.UnmarshalJSON: the point is not on the elliptic curve"
  else Ok p.

(** *** JSON: the auxiliary struct that [encoding/json] writes and reads. *)
Definition ECPointAux : Type := string * (option Z * option Z).

Definition ECPoint_MarshalJSON (s : CurveState) (p : ECPoint) : res ECPointAux :=
  match GetCurveName (curve p) s with
  | None => Err "cannot find name in curve registry, please call tss.RegisterCurve(name, curve) to register it first"
  | Some n => Ok (n, coords p)
  end.

Definition ECPoint_UnmarshalJSON (s : CurveState) (aux : ECPointAux) : res ECPoint :=
  let '(name, cs) := aux in
  let! c :=
    if (0 <? String.length name)%nat then
      match GetCurveByName name s with
      | Some c => Ok c
      | None => Err "cannot find curve named with in curve registry, please call tss.RegisterCurve(name, curve) to register it first"
      end
    else Ok (ec s) in
  let p := {| curve := c; coords := cs |} in
  if negb (ECPoint_IsOnCurve p) then
    Err "ECPoint.UnmarshalJSON: the point is not on the elliptic curve"
  else Ok p.

(** *** crypto/utils.go; [ProbablyPrime(30)] is a parameter. *)
Definition GenerateNTildei (ProbablyPrime : Z -> bool) (safePrimes : option Z * option Z)
  : rnd (Z * Z * Z) :=
  match safePrimes with
  | (Some p, Some q) =>
    let~ _ := rlift (guard (ProbablyPrime p && ProbablyPrime q) "GenerateNTildei: expected two primes") in
    let NTildei := p * q in
    let~ h1 := GetRandomGeneratorOfTheQuadraticResidue (Some NTildei) in
    let~ h2 := GetRandomGeneratorOfTheQuadraticResidue (Some NTildei) in
    rret (NTildei, h1, h2)
  | _ => rlift (Err "GenerateNTildei: needs two primes, got")
  end.

(** The point [k G]. *)
Definition mkpt (C : Curve) (pt : Z -> Z * Z) (k : Z) : ECPoint :=
  NewECPointNoCurveCheck C (fst (pt k)) (snd (pt k)).

(** Whether [k G] may be wrapped by [NewECPoint]. *)
Definition on_c (C : Curve) (id_on : bool) (k : Z) : bool := id_on || negb (k mod cN C =? 0).

(** ** Toy curves *)
Fixpoint iter_add (n : nat) (add : Z * Z -> Z * Z) (P : Z * Z) : Z * Z :=
  match n with O => P | S n => add (iter_add n add P) end.

Definition finv (p a : Z) : Z := Zpow_mod a (p - 2) p.

(** Short Weierstrass addition with [(0, 0)] for the identity. *)
Definition wadd (p : Z) (P Q : Z * Z) : Z * Z :=
  let '(x1, y1) := P in let '(x2, y2) := Q in
  if (x1 =? 0) && (y1 =? 0) then Q
  else if (x2 =? 0) && (y2 =? 0) then P
  else
    let chord l := let x := (l * l - x1 - x2) mod p in (x, (l * (x1 - x) - y1) mod p) in
    if x1 =? x2 then
      if negb (y1 =? y2) || (y1 =? 0) then (0, 0)
      else chord (3 * x1 * x1 * finv p (2 * y1) mod p)
    else chord ((y2 - y1) * finv p (x2 - x1) mod p).

(** Twisted Edwards addition, a = -1. *)
Definition eadd (p d : Z) (P Q : Z * Z) : Z * Z :=
  let '(x1, y1) := P in let '(x2, y2) := Q in
  let t := d * x1 * x2 * y1 * y2 mod p in
  ((x1 * y2 + x2 * y1) * finv p ((1 + t) mod p) mod p,
   (y1 * y2 + x1 * x2) * finv p ((1 - t) mod p) mod p).

(** A curve from its addition, exponent [m] of the group and identity. *)
Definition group_mult (m : Z) (add : Z * Z -> Z * Z -> Z * Z) (id : Z * Z) (P : Z * Z) (bs : bytes) :=
  iter_add (Z.to_nat (SetBytes bs mod m)) (add P) id.

Definition pair_eqb (P Q : Z * Z) : bool := (fst P =? fst Q) && (snd P =? snd Q).

Definition toyG256 : Z * Z := (2, 12).
Definition toy256 : Curve := {|
  cId := "secp256k1"; cType := "KoblitzCurve"; cN := 31; cP := 43;
  cGx := fst toyG256; cGy := snd toyG256;
  cIsOnCurve x y := (0 <=? x) && (x <? 43) && ((0 <=? y) && (y <? 43)) && (y * y mod 43 =? (x * x * x + 7) mod 43);
  cAdd x1 y1 x2 y2 := wadd 43 (x1, y1) (x2, y2);
  cScalarMult x y bs := group_mult 31 (wadd 43) (0, 0) (x, y) bs;
  cScalarBaseMult bs := group_mult 31 (wadd 43) (0, 0) toyG256 bs
|}.
Definition toy256_table : list (Z * Z) :=
  Eval vm_compute in map (fun i => iter_add i (wadd 43 toyG256) (0, 0)) (seq 0 31).
Definition toy256_pt (k : Z) : Z * Z := nth (Z.to_nat (k mod 31)) toy256_table (0, 0).

Definition toyGEd : Z * Z := (7, 56).
Definition toyEd : Curve := {|
  cId := "ed25519"; cType := "TwistedEdwardsCurve"; cN := 13; cP := 89;
  cGx := fst toyGEd; cGy := snd toyGEd;
  cIsOnCurve x y := ((y * y - x * x) mod 89 =? (1 + 19 * x * x * y * y) mod 89);
  cAdd x1 y1 x2 y2 := eadd 89 19 (x1, y1) (x2, y2);
  cScalarMult x y bs := group_mult 104 (eadd 89 19) (0, 1) (x, y) bs;
  cScalarBaseMult bs := group_mult 104 (eadd 89 19) (0, 1) toyGEd bs
|}.
Definition toyEd_table : list (Z * Z) :=
  Eval vm_compute in map (fun i => iter_add i (eadd 89 19 toyGEd) (0, 1)) (seq 0 13).
Definition toyEd_pt (k : Z) : Z * Z := nth (Z.to_nat (k mod 13)) toyEd_table (0, 1).

Definition toy_curves : Curves := {| S256 := toy256; Edwards := toyEd |}.

(** ** Lemmas: points [k G] *)
Section Points.
Context {C : Curve} {pt : Z -> Z * Z} {id_on : bool} {L : CurveLaws C pt id_on}.
Abbreviation pnt := (mkpt C pt).
Abbreviation on_k := (on_c C id_on).

Lemma cl_N_pos : 1 < cN C.
Proof. destruct (@cl_prime C pt id_on L) as [H _]. exact H. Qed.

Lemma pt_cong a b : cong (cN C) a b -> pt a = pt b.
Proof. apply cl_eq. Qed.

Lemma pt_mod a : pt (a mod cN C) = pt a.
Proof. apply pt_cong, cong_mod. Qed.

Lemma mkpt_cong a b : cong (cN C) a b -> pnt a = pnt b.
Proof. intros H. unfold mkpt. now rewrite (pt_cong _ _ H). Qed.

Lemma mkpt_inj a b : pnt a = pnt b -> cong (cN C) a b.
Proof.
  intros H. injection H as Hx Hy. apply cl_eq.
  now apply injective_projections.
Qed.

Lemma mkpt_on k : ECPoint_IsOnCurve (pnt k) = on_k k.
Proof. apply cl_on. Qed.

Lemma mkpt_valid k : ECPoint_ValidateBasic (Some (pnt k)) = on_k k.
Proof. cbn. apply mkpt_on. Qed.

Lemma NewECPoint_pt k :
  NewECPoint C (Some (fst (pt k))) (Some (snd (pt k))) =
  if on_k k then Ok (pnt k)
  else Err "NewECPoint: the given point is not on the elliptic curve".
Proof. unfold NewECPoint. cbn. rewrite cl_on. fold (on_c C id_on k). now destruct (on_k k). Qed.

Lemma ECPoint_Add_pt a b :
  ECPoint_Add (pnt a) (pnt b) =
  if on_k (a + b) then Ok (pnt (a + b))
  else Err "NewECPoint: the given point is not on the elliptic curve".
Proof.
  unfold ECPoint_Add, ECPoint_X, ECPoint_Y. cbn.
  rewrite cl_add. destruct (pt (a + b)) as [x y] eqn:E.
  rewrite <- NewECPoint_pt, E. reflexivity.
Qed.

Lemma ECPoint_ScalarMult_pt a k : 0 <= k ->
  ECPoint_ScalarMult (pnt a) k =
  if on_k (k * a) then Ok (pnt (k * a)) else Panic "scalar mult to an ecpoint".
Proof.
  intros Hk. unfold ECPoint_ScalarMult, ECPoint_X, ECPoint_Y. cbn [rbind deref fst snd coords mkpt NewECPointNoCurveCheck curve].
  rewrite cl_mult by apply Bytes_byte. rewrite SetBytes_Bytes_pos by assumption.
  destruct (pt (k * a)) as [x y] eqn:E.
  pose proof (NewECPoint_pt (k * a)) as P. rewrite E in P. cbn [fst snd] in P. rewrite P.
  now destruct (on_k (k * a)).
Qed.

Lemma ScalarBaseMult_pt k : 0 <= k ->
  ScalarBaseMult C k = if on_k k then Ok (pnt k) else Panic "scalar mult to an ecpoint".
Proof.
  intros Hk. unfold ScalarBaseMult.
  rewrite cl_bmult by apply Bytes_byte. rewrite SetBytes_Bytes_pos by assumption.
  destruct (pt k) as [x y] eqn:E.
  pose proof (NewECPoint_pt k) as P. rewrite E in P. cbn [fst snd] in P. rewrite P.
  now destruct (on_k k).
Qed.

Lemma mkpt_base : pnt 1 = NewECPointNoCurveCheck C (cGx C) (cGy C).
Proof. unfold mkpt. now rewrite cl_base. Qed.


Lemma ECPoint_Equals_pt a b :
  ECPoint_Equals (Some (pnt a)) (Some (pnt b)) = Ok ((a - b) mod cN C =? 0).
Proof.
  unfold ECPoint_Equals. cbn. rewrite !Cmp_eq.
  assert (E : (a - b) mod cN C = 0 <-> pt a = pt b).
  { rewrite cl_eq. unfold cong. apply Z.mod_divide. pose proof cl_N_pos. lia. }
  destruct (Z.eqb_spec ((a - b) mod cN C) 0) as [K|K].
  - apply E in K. now rewrite K, !Z.eqb_refl.
  - destruct (Z.eqb_spec (fst (pt a)) (fst (pt b))) as [Hx|]; cbn; [|reflexivity].
    destruct (Z.eqb_spec (snd (pt a)) (snd (pt b))) as [Hy|]; [|reflexivity].
    exfalso. apply K, E. now apply injective_projections.
Qed.

Lemma on_c_cong a b : cong (cN C) a b -> on_k a = on_k b.
Proof. intros H. unfold on_c. apply cong_iff in H. now rewrite H. Qed.

Lemma on_c_nonzero k : k mod cN C <> 0 -> on_k k = true.
Proof. intros H. unfold on_c. destruct (Z.eqb_spec (k mod cN C) 0); [contradiction|]. apply orb_true_r. Qed.
End Points.

Lemma ECPoint_SetCurve_pt C pt k : ECPoint_SetCurve (mkpt C pt k) C = mkpt C pt k.
Proof. reflexivity. Qed.

(** ** Lemmas: the toy curves *)
Lemma forall_below (P : Z -> bool) (n : nat) :
  forallb (fun i => P (Z.of_nat i)) (seq 0 n) = true ->
  forall k, 0 <= k < Z.of_nat n -> P k = true.
Proof.
  intros H k Hk. rewrite forallb_forall in H.
  specialize (H (Z.to_nat k)). rewrite Z2Nat.id in H by lia. apply H, in_seq. lia.
Qed.

Lemma pair_eqb_eq P Q : pair_eqb P Q = true -> P = Q.
Proof.
  unfold pair_eqb. rewrite andb_true_iff, !Z.eqb_eq. intros [? ?].
  now apply injective_projections.
Qed.

Section Cyclic.
Variables (n : nat) (add : Z * Z -> Z * Z -> Z * Z) (id : Z * Z) (pt : Z -> Z * Z).
Abbreviation N := (Z.of_nat n).
Hypothesis Hn : (0 < n)%nat.
Hypothesis pt_per : forall k, pt k = pt (k mod N).
Hypothesis pt_0 : pt 0 = id.
Hypothesis add_check : forallb (fun i => forallb (fun j =>
  pair_eqb (add (pt (Z.of_nat i)) (pt (Z.of_nat j))) (pt (Z.of_nat i + Z.of_nat j)))
  (seq 0 n)) (seq 0 n) = true.
Hypothesis inj_check : forallb (fun i => forallb (fun j =>
  negb (pair_eqb (pt (Z.of_nat i)) (pt (Z.of_nat j))) || (i =? j)%nat)
  (seq 0 n)) (seq 0 n) = true.

Lemma cyclic_add a b : add (pt a) (pt b) = pt (a + b).
Proof.
  rewrite (pt_per a), (pt_per b), (pt_per (a + b)), Z.add_mod, <- (pt_per (a mod N + b mod N)) by lia.
  pose proof (forall_below (fun i => forallb (fun j =>
    pair_eqb (add (pt i) (pt (Z.of_nat j))) (pt (i + Z.of_nat j))) (seq 0 n)) n add_check
    (a mod N) (Z.mod_pos_bound a N ltac:(lia))) as H.
  pose proof (forall_below (fun j =>
    pair_eqb (add (pt (a mod N)) (pt j)) (pt (a mod N + j))) n H
    (b mod N) (Z.mod_pos_bound b N ltac:(lia))) as K.
  now apply pair_eqb_eq.
Qed.

Lemma cyclic_eq a b : pt a = pt b <-> cong N a b.
Proof.
  split.
  - intros E. rewrite cong_iff. rewrite (pt_per a), (pt_per b) in E.
    pose proof (Z.mod_pos_bound a N ltac:(lia)). pose proof (Z.mod_pos_bound b N ltac:(lia)).
    rewrite forallb_forall in inj_check.
    specialize (inj_check (Z.to_nat (a mod N)) ltac:(apply in_seq; lia)).
    rewrite forallb_forall in inj_check.
    specialize (inj_check (Z.to_nat (b mod N)) ltac:(apply in_seq; lia)).
    rewrite !Z2Nat.id, E in inj_check by lia.
    unfold pair_eqb in inj_check. rewrite !Z.eqb_refl in inj_check. cbn in inj_check.
    apply Nat.eqb_eq in inj_check. lia.
  - intros H. rewrite (pt_per a), (pt_per b). apply cong_iff in H. now rewrite H.
Qed.

Lemma cyclic_iter m a : iter_add m (add (pt a)) id = pt (Z.of_nat m * a).
Proof.
  induction m as [|m IH]; cbn [iter_add]; [now symmetry|].
  rewrite IH, cyclic_add. f_equal. lia.
Qed.

Lemma cyclic_mult M a bs : 0 < M -> (N | M) ->
  Forall is_byte bs -> group_mult M add id (pt a) bs = pt (SetBytes bs * a).
Proof.
  intros HM HN Hb. unfold group_mult. rewrite cyclic_iter.
  pose proof (SetBytes_bound bs Hb). pose proof (Z.mod_pos_bound (SetBytes bs) M HM).
  rewrite Z2Nat.id by lia. apply cyclic_eq.
  apply cong_mul; [|reflexivity]. unfold cong. eapply Z.divide_trans; [exact HN|].
  apply cong_mod.
Qed.
End Cyclic.

Lemma prime_check n : 1 < n ->
  forallb (fun i => (n <=? i) || negb (n mod i =? 0)) (map Z.of_nat (seq 2 (Z.to_nat (Z.sqrt n)))) = true ->
  Z.prime n.
Proof.
  intros Hn H. split; [assumption|]. intros m Hm D. rewrite forallb_forall in H.
  assert (K : forall d, 1 < d < n -> (d | n) -> d * d <= n -> False).
  { intros d Hd Dd Hs. assert (d <= Z.sqrt n) by (apply Z.sqrt_le_square; lia).
    specialize (H d). rewrite in_map_iff in H.
    assert (T : (n <=? d) || negb (n mod d =? 0) = true).
    { apply H. exists (Z.to_nat d). split; [lia|]. apply in_seq. lia. }
    apply Z.mod_divide in Dd; [|lia]. rewrite Dd in T. cbn in T.
    destruct (Z.leb_spec n d); [lia|discriminate]. }
  destruct D as [k E]. assert (1 < k < n) by nia.
  destruct (Z.le_gt_cases (m * m) n).
  - apply (K m); [assumption|exists k; lia|assumption].
  - apply (K k); [lia|exists m; lia|nia].
Qed.

#[export] Instance toy256_laws : CurveLaws toy256 toy256_pt false.
Proof.
  assert (per : forall k, toy256_pt k = toy256_pt (k mod Z.of_nat 31))
    by (intros k; unfold toy256_pt; now rewrite Z.mod_mod by lia).
  assert (add : forall a b, wadd 43 (toy256_pt a) (toy256_pt b) = toy256_pt (a + b))
    by (apply (cyclic_add 31); [lia|assumption|vm_compute; reflexivity]).
  assert (mult : forall a bs, Forall is_byte bs ->
    group_mult 31 (wadd 43) (0, 0) (toy256_pt a) bs = toy256_pt (SetBytes bs * a)).
  { intros a bs. apply (cyclic_mult 31);
      [lia|assumption|reflexivity|vm_compute; reflexivity|vm_compute; reflexivity|lia|apply Z.divide_refl]. }
  assert (range : forall k, 0 <= fst (toy256_pt k) < 43 /\ 0 <= snd (toy256_pt k) < 43 /\
     cIsOnCurve toy256 (fst (toy256_pt k)) (snd (toy256_pt k)) = negb (k mod 31 =? 0)).
  { intros k. rewrite per. set (P := fun i => (0 <=? fst (toy256_pt i)) && (fst (toy256_pt i) <? 43) &&
      ((0 <=? snd (toy256_pt i)) && (snd (toy256_pt i) <? 43)) &&
      Bool.eqb (cIsOnCurve toy256 (fst (toy256_pt i)) (snd (toy256_pt i))) (negb (i =? 0))).
    assert (HP : P (k mod 31) = true)
      by (apply (forall_below P 31); [vm_compute; reflexivity|apply Z.mod_pos_bound; lia]).
    unfold P in HP. rewrite !andb_true_iff, !Z.leb_le, !Z.ltb_lt, Bool.eqb_true_iff in HP.
    change (Z.of_nat 31) with 31. tauto. }
  constructor.
  - apply prime_check; [cbn; lia|vm_compute; reflexivity].
  - reflexivity.
  - reflexivity.
  - apply (cyclic_eq 31); [lia|assumption|vm_compute; reflexivity].
  - reflexivity.
  - intros a b. cbn [cAdd toy256]. now rewrite <- !surjective_pairing.
  - intros a bs H. cbn [cScalarMult toy256]. rewrite <- surjective_pairing. auto.
  - intros bs H. change toyG256 with (toy256_pt 1). cbn [cScalarBaseMult toy256].
    change toyG256 with (toy256_pt 1). rewrite mult by assumption. now rewrite Z.mul_1_r.
  - intros a. apply range.
  - reflexivity.
  - intros a. apply range.
  - intros a. apply range.
Qed.

#[export] Instance toyEd_laws : CurveLaws toyEd toyEd_pt true.
Proof.
  assert (per : forall k, toyEd_pt k = toyEd_pt (k mod Z.of_nat 13))
    by (intros k; unfold toyEd_pt; now rewrite Z.mod_mod by lia).
  assert (add : forall a b, eadd 89 19 (toyEd_pt a) (toyEd_pt b) = toyEd_pt (a + b))
    by (apply (cyclic_add 13); [lia|assumption|vm_compute; reflexivity]).
  assert (mult : forall a bs, Forall is_byte bs ->
    group_mult 104 (eadd 89 19) (0, 1) (toyEd_pt a) bs = toyEd_pt (SetBytes bs * a)).
  { intros a bs. apply (cyclic_mult 13);
      [lia|assumption|reflexivity|vm_compute; reflexivity|vm_compute; reflexivity|lia|now exists 8]. }
  assert (range : forall k, 0 <= fst (toyEd_pt k) < 89 /\ 0 <= snd (toyEd_pt k) < 89 /\
     cIsOnCurve toyEd (fst (toyEd_pt k)) (snd (toyEd_pt k)) = true).
  { intros k. rewrite per. set (P := fun i => (0 <=? fst (toyEd_pt i)) && (fst (toyEd_pt i) <? 89) &&
      ((0 <=? snd (toyEd_pt i)) && (snd (toyEd_pt i) <? 89)) &&
      cIsOnCurve toyEd (fst (toyEd_pt i)) (snd (toyEd_pt i))).
    assert (HP : P (k mod 13) = true)
      by (apply (forall_below P 13); [vm_compute; reflexivity|apply Z.mod_pos_bound; lia]).
    unfold P in HP. rewrite !andb_true_iff, !Z.leb_le, !Z.ltb_lt in HP.
    change (Z.of_nat 13) with 13. tauto. }
  constructor.
  - apply prime_check; [cbn; lia|vm_compute; reflexivity].
  - reflexivity.
  - reflexivity.
  - apply (cyclic_eq 13); [lia|assumption|vm_compute; reflexivity].
  - reflexivity.
  - intros a b. cbn [cAdd toyEd]. now rewrite <- !surjective_pairing.
  - intros a bs H. cbn [cScalarMult toyEd]. rewrite <- surjective_pairing. auto.
  - intros bs H. cbn [cScalarBaseMult toyEd].
    change toyGEd with (toyEd_pt 1). rewrite mult by assumption. now rewrite Z.mul_1_r.
  - intros a. rewrite orb_true_l. apply range.
  - reflexivity.
  - intros a. apply range.
  - intros a. apply range.
Qed.
