(* ===== verification/Ckd.v ===== *)
(** * Package [ckd]: child key derivation

    [crypto/ckd/child_key_derivation.go]: extended public keys in the manner of
    BIP-32, their text form and the derivation of non-hardened children.  HMAC,
    RIPEMD-160, base58 and the parser of compressed points belong to other
    packages and are the parameters [CkdLib]; [elliptic.Unmarshal] is the one of
    the standard library.  Logging is left out. *)
From Stdlib Require Import ZArith String List Lia Bool Zcong.
From S2P Require Import Prelude GoBig Common Curve.
Import ListNotations.
Open Scope string_scope.
Open Scope Z_scope.
Open Scope list_scope.

Class CkdLib := {
  hmac_sha512 : bytes -> bytes -> bytes;
  ripemd160 : bytes -> bytes;
  base58_Encode : bytes -> bytes;
  base58_Decode : bytes -> res bytes;
  ParsePubKey : bytes -> res (Z * Z);
  BitcoinMainnetPublic : bytes
}.

Record ExtendedKey := {
  xkCurve : Curve; xkX : option Z; xkY : option Z;
  xkDepth : Z; xkChildIndex : Z; xkChainCode : bytes; xkParentFP : bytes; xkVersion : bytes
}.

Definition HardenedKeyStart : Z := 2147483648.
Definition maxDepth : Z := 255.
Definition PubKeyBytesLenCompressed : nat := 33.
Definition pubKeyCompressed : Z := 2.
Definition serializedKeyLen : nat := 78.

Definition isOdd (a : Z) : bool := Bit a 0 =? 1.
Definition paddedBytes (size : nat) (src : bytes) : bytes := repeat 0 (size - length src) ++ src.
Definition paddedAppend (dst : bytes) (srcPaddedSize : nat) (src : bytes) : bytes := dst ++ paddedBytes srcPaddedSize src.
Definition serializeCompressed (publicKeyX publicKeyY : option Z) : res bytes :=
  let! y := deref publicKeyY in
  let format := if isOdd y then Z.lor pubKeyCompressed 1 else pubKeyCompressed in
  let! x := deref publicKeyX in
  Ok (paddedAppend [format] 32 (Bytes x)).

(** [copy(dst, src)] *)
Definition copy_bytes (dst src : bytes) : bytes := firstn (length dst) src ++ skipn (length src) dst.

Section Defs.
Context `{SH : Sha256} `{CL : CkdLib} `{CS : Curves}.

Definition doubleHashB (b : bytes) : bytes := sha256 (sha256 b).
Definition hash160 (buf : bytes) : bytes := ripemd160 (sha256 buf).

(** [ExtendedKey.String] *)
Definition ExtendedKey_String (k : ExtendedKey) : res bytes :=
  let! pubKeyBytes := serializeCompressed (xkX k) (xkY k) in
  let serializedBytes := xkVersion k ++ [xkDepth k] ++ xkParentFP k ++ be_bytes 4 (xkChildIndex k) ++ xkChainCode k ++ pubKeyBytes in
  let checkSum := firstn 4 (doubleHashB serializedBytes) in
  Ok (base58_Encode (serializedBytes ++ checkSum)).

(** [elliptic.Unmarshal] *)
Definition elliptic_Unmarshal (c : Curve) (data : bytes) : option Z * option Z :=
  let byteLen := Z.to_nat ((BitLen (cP c) + 7) / 8) in
  if negb (length data =? 1 + 2 * byteLen)%nat || negb (nth 0 data 0 =? 4) then (None, None)
  else
    let x := SetBytes (firstn byteLen (skipn 1 data)) in
    let y := SetBytes (skipn (1 + byteLen) data) in
    if (cP c <=? x) || (cP c <=? y) || negb (cIsOnCurve c x y) then (None, None) else (Some x, Some y).

Definition NewExtendedKeyFromString (key : bytes) (c : Curve) : res ExtendedKey :=
  let! decoded := base58_Decode key in
  guard (length decoded =? serializedKeyLen + 4)%nat "invalid extended key" ;!
  let payload := firstn (length decoded - 4) decoded in
  let checkSum := skipn (length decoded - 4) decoded in
  guard (if list_eq_dec Z.eq_dec checkSum (firstn 4 (doubleHashB payload)) then true else false) "invalid extended key" ;!
  let version := firstn 4 payload in
  let depth := nth 4 payload 0 in
  let parentFP := firstn 4 (skipn 5 payload) in
  let childNum := SetBytes (firstn 4 (skipn 9 payload)) in
  let chainCode := firstn 32 (skipn 13 payload) in
  let keyData := firstn 33 (skipn 45 payload) in
  let! (X, Y) :=
    if String.eqb (cType c) (cType S256) then let! (x, y) := ParsePubKey keyData in Ok (Some x, Some y)
    else Ok (elliptic_Unmarshal c keyData) in
  Ok {| xkCurve := c; xkX := X; xkY := Y; xkDepth := depth; xkChildIndex := childNum; xkChainCode := chainCode;
        xkParentFP := parentFP; xkVersion := version |}.

(** The 37 bytes that are hashed: the compressed key and the index. *)
Definition child_data (pkPublicKeyBytes : bytes) (index : Z) : bytes :=
  firstn 33 (copy_bytes (repeat 0 37) pkPublicKeyBytes) ++ be_bytes 4 index.

Definition DeriveChildKey (index : Z) (pk : ExtendedKey) (c : Curve) : res (Z * ExtendedKey) :=
  guard (negb (HardenedKeyStart <=? index)) "the index must be non-hardened" ;!
  guard (negb (xkDepth pk =? maxDepth)) "cannot derive key beyond max depth" ;!
  let! cryptoPk := NewECPoint c (xkX pk) (xkY pk) in
  let! pkPublicKeyBytes := serializeCompressed (xkX pk) (xkY pk) in
  let ilr := hmac_sha512 (xkChainCode pk) (child_data pkPublicKeyBytes index) in
  let childChainCode := skipn 32 ilr in
  let ilNum := SetBytes (firstn 32 ilr) in
  guard (negb ((0 <=? Cmp ilNum (cN c)) || (Z.sgn ilNum =? 0))) "invalid derived key" ;!
  let! deltaG := ScalarBaseMult c ilNum in
  let! dx := ECPoint_X deltaG in
  let! dy := ECPoint_Y deltaG in
  guard (negb ((Z.sgn dx =? 0) || (Z.sgn dy =? 0))) "invalid child" ;!
  let! childCryptoPk := ECPoint_Add cryptoPk deltaG in
  let! (cc, x, y) := ECPoint_ToECDSAPubKey childCryptoPk in
  Ok (ilNum, {| xkCurve := cc; xkX := Some x; xkY := Some y; xkDepth := (xkDepth pk + 1) mod 256; xkChildIndex := index;
                xkChainCode := childChainCode; xkParentFP := firstn 4 (hash160 pkPublicKeyBytes); xkVersion := xkVersion pk |}).

Definition DeriveChildKeyFromHierarchy (indicesHierarchy : list Z) (pk : ExtendedKey) (md : Z) (c : Curve) : res (Z * ExtendedKey) :=
  foldM (fun '(ilNumOld, k) index =>
    let! (ilNum, childKey) := DeriveChildKey index k c in
    let! ilNum := modInt_Add md ilNum ilNumOld in
    Ok (ilNum, childKey)) (0, pk) indicesHierarchy.
End Defs.

(** What the other packages document: the sizes of the digests, a text form that
    decodes to its bytes, and a compressed point of the curve that parses. *)
Class CkdLaws `{SH : Sha256} `{CL : CkdLib} `{CS : Curves} (pt : Z -> Z * Z) : Prop := {
  hmac_size : forall key data, length (hmac_sha512 key data) = 64%nat /\ Forall is_byte (hmac_sha512 key data);
  sha256_size : forall data, length (sha256 data) = 32%nat;
  ripemd160_size : forall data, length (ripemd160 data) = 20%nat;
  mainnet_size : length BitcoinMainnetPublic = 4%nat;
  base58_inv : forall data, base58_Decode (base58_Encode data) = Ok data;
  ParsePubKey_point : forall k, k mod cN S256 <> 0 -> ParsePubKey ((2 + Bit (snd (pt k)) 0) :: be_bytes 32 (fst (pt k))) = Ok (pt k)
}.

(** ** Compressed points *)
Lemma paddedBytes_be n x : 0 <= x < 256 ^ Z.of_nat n -> (length (Bytes x) <= n)%nat -> paddedBytes n (Bytes x) = be_bytes n x.
Proof.
  intros Hx Hl. unfold paddedBytes.
  assert (F : Forall is_byte (repeat 0 (n - length (Bytes x)) ++ Bytes x)).
  { apply Forall_app. split; [apply Forall_forall; intros b Hb; apply repeat_spec in Hb; subst; unfold is_byte; lia|apply Bytes_byte]. }
  rewrite <- (be_bytes_Set _ F) at 1. rewrite length_app, repeat_length, Nat.sub_add by assumption. f_equal.
  unfold SetBytes. rewrite fold_left_app.
  replace (fold_left (fun acc b => acc * 256 + b) (repeat 0 (n - length (Bytes x))) 0) with 0; [now apply SetBytes_Bytes_pos|].
  generalize (n - length (Bytes x))%nat. induction n0 as [|m IH]; [reflexivity|]. cbn [repeat fold_left]. exact IH.
Qed.

Lemma Bytes_within n x : 0 <= x < 256 ^ Z.of_nat n -> (length (Bytes x) <= n)%nat.
Proof.
  intros Hx. unfold Bytes. rewrite be_bytes_length. unfold BitLen. destruct (Z.eqb_spec x 0) as [->|H]; [cbn; lia|].
  assert (Z.log2 (Z.abs x) < 8 * Z.of_nat n).
  { rewrite Z.abs_eq by lia. apply Z.log2_lt_pow2; [lia|]. rewrite Z.pow_mul_r by lia. change (2 ^ 8) with 256. lia. }
  pose proof (Z.log2_nonneg (Z.abs x)). apply Nat2Z.inj_le. rewrite Z2Nat.id by (apply Z.div_pos; lia).
  apply Z.lt_succ_r, Z.div_lt_upper_bound; lia.
Qed.

(** The compressed form: 2 or 3 for the parity of [y], then [x] on 32 bytes. *)
Definition compressed (p : Z * Z) : bytes := (2 + Bit (snd p) 0) :: be_bytes 32 (fst p).

Lemma serializeCompressed_ok x y : 0 <= x < 2 ^ 256 -> serializeCompressed (Some x) (Some y) = Ok (compressed (x, y)).
Proof.
  intros Hx. unfold serializeCompressed. cbn [deref rbind]. unfold paddedAppend.
  rewrite (paddedBytes_be 32 x Hx (Bytes_within 32 x Hx)). unfold compressed, isOdd. cbn [fst snd app]. do 2 f_equal.
  unfold Bit. now destruct (Z.testbit y 0).
Qed.

Lemma compressed_length p : length (compressed p) = 33%nat.
Proof. unfold compressed. cbn [length]. now rewrite be_bytes_length. Qed.

Lemma child_data_ok p index : child_data (compressed p) index = compressed p ++ be_bytes 4 index.
Proof. reflexivity. Qed.

(** ** Children *)
Lemma sgn_0 x : (Z.sgn x =? 0) = (x =? 0).
Proof. now destruct x. Qed.

Section Derive.
Context `{SH : Sha256} `{CL : CkdLib}.
Context `{CS : Curves} {pt : Z -> Z * Z} {L : CurveLaws S256 pt false} {KL : CkdLaws pt}.
Abbreviation C := S256.
Abbreviation q := (cN C).
Abbreviation pnt := (mkpt C pt).

(** The two halves of the digest of a child. *)
Definition child_il (chain : bytes) (x index : Z) : Z := SetBytes (firstn 32 (hmac_sha512 chain (compressed (pt x) ++ be_bytes 4 index))).
Definition child_chain (chain : bytes) (x index : Z) : bytes := skipn 32 (hmac_sha512 chain (compressed (pt x) ++ be_bytes 4 index)).

(** An extended key of the point [x G]. *)
Definition key_at (x : Z) (k : ExtendedKey) : Prop := xkX k = Some (fst (pt x)) /\ xkY k = Some (snd (pt x)) /\ x mod q <> 0.

Lemma coord_256 x : 0 <= fst (pt x) < 2 ^ 256.
Proof. pose proof (cl_x (CurveLaws := L) x). pose proof (cl_P (CurveLaws := L)). lia. Qed.

Lemma child_il_range chain x index : 0 <= child_il chain x index < 2 ^ 256.
Proof.
  unfold child_il. set (m := hmac_sha512 _ _). destruct (hmac_size chain (compressed (pt x) ++ be_bytes 4 index)) as [Hl Hb]. fold m in Hl, Hb.
  assert (Hf : Forall is_byte (firstn 32 m)) by now apply Forall_split_at. apply SetBytes_bound in Hf.
  rewrite firstn_length_le in Hf by lia. exact Hf.
Qed.

(** One step, on every branch. *)
Lemma DeriveChildKey_run index k x : key_at x k -> index < HardenedKeyStart -> xkDepth k <> maxDepth ->
  let il := child_il (xkChainCode k) x index in
  DeriveChildKey index k C =
    if negb (il <? q) || (il =? 0) then Err "invalid derived key"
    else if (fst (pt il) =? 0) || (snd (pt il) =? 0) then Err "invalid child"
    else if (x + il) mod q =? 0 then Err "NewECPoint: the given point is not on the elliptic curve"
    else Ok (il, {| xkCurve := C; xkX := Some (fst (pt (x + il))); xkY := Some (snd (pt (x + il))); xkDepth := (xkDepth k + 1) mod 256;
      xkChildIndex := index; xkChainCode := child_chain (xkChainCode k) x index;
      xkParentFP := firstn 4 (hash160 (compressed (pt x))); xkVersion := xkVersion k |}).
Proof.
  intros (EX & EY & Hx) Hi Hd. cbv zeta. unfold DeriveChildKey. rewrite (proj2 (Z.leb_gt _ _)) by lia. cbn [negb guard rbind].
  rewrite (proj2 (Z.eqb_neq _ _)) by assumption. cbn [negb guard rbind]. rewrite EX, EY, NewECPoint_pt.
  unfold on_c. cbn [orb]. rewrite (proj2 (Z.eqb_neq _ _)) by assumption. cbn [negb rbind].
  rewrite serializeCompressed_ok by apply coord_256. rewrite <- surjective_pairing. cbn [rbind]. rewrite child_data_ok.
  fold (child_il (xkChainCode k) x index) (child_chain (xkChainCode k) x index). set (il := child_il (xkChainCode k) x index).
  assert (Hil : 0 <= il) by apply child_il_range. rewrite Cmp_ge.
  rewrite sgn_0.
  destruct (Z.ltb_spec il q) as [Hq|Hq]; cbn [negb orb].
  2: rewrite (proj2 (Z.leb_le _ _)) by lia; reflexivity.
  rewrite (proj2 (Z.leb_gt _ _)) by lia. cbn [orb]. destruct (Z.eqb_spec il 0) as [Z0|Z0]; [reflexivity|]. cbn [negb guard rbind].
  rewrite ScalarBaseMult_pt by assumption. unfold on_c. cbn [orb]. rewrite (Z.mod_small il) by lia.
  rewrite (proj2 (Z.eqb_neq _ _)) by assumption. cbn [negb rbind].
  change (ECPoint_X (pnt il)) with (Ok (fst (pt il))). change (ECPoint_Y (pnt il)) with (Ok (snd (pt il))). cbn [rbind].
  rewrite !sgn_0, ECPoint_Add_pt. unfold on_c. cbn [orb].
  destruct ((fst (pt il) =? 0) || (snd (pt il) =? 0)); [reflexivity|]. cbn [negb guard rbind].
  destruct (Z.eqb_spec ((x + il) mod q) 0); reflexivity.
Qed.

(** A step that succeeds moves the point by [il G] and deepens the key by one. *)
Lemma DeriveChildKey_inv index k x il k' : key_at x k -> 0 <= xkDepth k <= maxDepth -> DeriveChildKey index k C = Ok (il, k') ->
  index < HardenedKeyStart /\ 0 < il < q /\ key_at (x + il) k' /\ xkDepth k' = xkDepth k + 1 /\ xkDepth k' <= maxDepth /\
  xkCurve k' = C /\ xkVersion k' = xkVersion k /\ xkChainCode k' = child_chain (xkChainCode k) x index.
Proof.
  intros HK Hd HR. unfold maxDepth in *.
  assert (Hi : index < HardenedKeyStart).
  { unfold DeriveChildKey in HR. apply rbind_ok in HR as ([] & G & _). apply guard_ok, negb_true_iff, Z.leb_gt in G. exact G. }
  assert (Hm : xkDepth k <> 255).
  { unfold DeriveChildKey in HR. apply rbind_ok in HR as ([] & _ & HR). apply rbind_ok in HR as ([] & G & _).
    apply guard_ok, negb_true_iff, Z.eqb_neq in G. exact G. }
  rewrite (DeriveChildKey_run index k x HK Hi Hm) in HR.
  pose proof (child_il_range (xkChainCode k) x index) as Rl. set (i := child_il (xkChainCode k) x index) in *.
  destruct (Z.ltb_spec i q) as [Hq|]; [|discriminate]. destruct (Z.eqb_spec i 0) as [|H0]; [discriminate|]. cbn [negb orb] in HR.
  destruct (_ || _); [discriminate|]. destruct (Z.eqb_spec ((x + i) mod q) 0) as [|Hx]; [discriminate|]. injection HR as <- <-.
  unfold key_at. cbn [xkX xkY xkDepth xkCurve xkVersion xkChainCode]. rewrite (Z.mod_small (xkDepth k + 1)) by lia. repeat split; try assumption; lia.
Qed.

(** ** Paths *)
(** The loop of [DeriveChildKeyFromHierarchy] from any sum. *)
Definition walk (st : Z * ExtendedKey) (path : list Z) : res (Z * ExtendedKey) :=
  foldM (fun '(ilNumOld, k) index =>
    let! (ilNum, childKey) := DeriveChildKey index k C in
    let! ilNum := modInt_Add q ilNum ilNumOld in Ok (ilNum, childKey)) st path.

Lemma order_pos : 0 < q.
Proof. destruct (cl_prime (CurveLaws := L)) as [H _]. lia. Qed.

Lemma walk_cons index path k il :
  walk (il, k) (index :: path) = let! (i, k') := DeriveChildKey index k C in walk ((i + il) mod q, k') path.
Proof.
  unfold walk. cbn [foldM]. destruct (DeriveChildKey index k C) as [[i k']| |]; cbn [rbind]; try reflexivity.
  rewrite modInt_Add_ok by exact order_pos. reflexivity.
Qed.

Lemma walk_range path : forall il k il' k', 0 <= il < q -> walk (il, k) path = Ok (il', k') -> 0 <= il' < q.
Proof.
  pose proof order_pos as Q. induction path as [|index path IH]; intros il k il' k' Hi HR; [injection HR as <- <-; exact Hi|].
  rewrite walk_cons in HR. apply rbind_ok in HR as ([i k1] & _ & HR). apply IH in HR; [exact HR|]. apply Z.mod_pos_bound. lia.
Qed.

(** A walk from a sum is a walk from 0, the sum added. *)
Lemma walk_shift path : forall il k, 0 <= il < q -> walk (il, k) path = let! (i, k') := walk (0, k) path in Ok ((i + il) mod q, k').
Proof.
  pose proof order_pos as Q. induction path as [|index path IH]; intros il k Hi.
  - cbn. rewrite Z.mod_small by lia. reflexivity.
  - rewrite !walk_cons. destruct (DeriveChildKey index k C) as [[i k']| |]; cbn [rbind]; try reflexivity.
    rewrite (IH ((i + il) mod q)), (IH ((i + 0) mod q)) by (apply Z.mod_pos_bound; lia).
    destruct (walk (0, k') path) as [[j k2]| |]; cbn [rbind]; try reflexivity. do 2 f_equal.
    rewrite Z.add_0_r, !Z.add_mod_idemp_r, Z.add_mod_idemp_l by lia. f_equal. ring.
Qed.

Lemma walk_app p1 p2 k : walk (0, k) (p1 ++ p2) =
  let! (i1, k1) := walk (0, k) p1 in let! (i2, k2) := walk (0, k1) p2 in Ok ((i2 + i1) mod q, k2).
Proof.
  unfold walk at 1. rewrite foldM_app. fold (walk (0, k) p1). destruct (walk (0, k) p1) as [[i1 k1]| |] eqn:E; cbn [rbind]; try reflexivity.
  fold (walk (i1, k1) p2). apply walk_shift. pose proof order_pos. eapply walk_range; [|exact E]. lia.
Qed.

Lemma walk_inv path : forall il x k il' k', key_at (x + il) k -> 0 <= xkDepth k <= maxDepth -> walk (il, k) path = Ok (il', k') ->
  key_at (x + il') k' /\ xkDepth k' = xkDepth k + Z.of_nat (length path) /\ xkDepth k' <= maxDepth /\
  Forall (fun index => index < HardenedKeyStart) path /\ xkVersion k' = xkVersion k.
Proof.
  pose proof order_pos as Q. induction path as [|index path IH]; intros il x k il' k' HK Hd HR.
  - injection HR as <- <-. cbn [length]. repeat split; try apply HK; try lia. constructor.
  - rewrite walk_cons in HR. apply rbind_ok in HR as ([i k1] & E & HR).
    destruct (DeriveChildKey_inv _ _ _ _ _ HK Hd E) as (Hi & _ & HK1 & D1 & D2 & C1 & V1 & _).
    assert (HK2 : key_at (x + (i + il) mod q) k1).
    { destruct HK1 as (EX & EY & Hx). assert (Ec : cong q (x + il + i) (x + (i + il) mod q)) by (rewrite cong_mod; apply cong_eq; ring).
      unfold key_at. rewrite <- (proj2 (cl_eq (CurveLaws := L) _ _) Ec). apply cong_iff in Ec. rewrite <- Ec. auto. }
    destruct (IH _ _ _ _ _ HK2 ltac:(lia) HR) as (K & D & Dm & F & V). cbn [length]. rewrite Nat2Z.inj_succ.
    repeat split; try apply K; try lia; [constructor; assumption|congruence].
Qed.

(** ** The text form *)
(** The sizes of the fields of an extended key of the curve. *)
Record sized (k : ExtendedKey) : Prop := {
  sz_curve : xkCurve k = C;
  sz_version : length (xkVersion k) = 4%nat;
  sz_depth : 0 <= xkDepth k <= maxDepth;
  sz_fp : length (xkParentFP k) = 4%nat;
  sz_index : 0 <= xkChildIndex k < 2 ^ 32;
  sz_chain : length (xkChainCode k) = 32%nat
}.

Lemma DeriveChildKey_sized index k x il k' : key_at x k -> sized k -> 0 <= index -> DeriveChildKey index k C = Ok (il, k') -> sized k'.
Proof.
  intros HK HS Hi HR. destruct (DeriveChildKey_inv _ _ _ _ _ HK (sz_depth _ HS) HR) as (Hh & _ & _ & D1 & D2 & C1 & V1 & Ch).
  pose proof (sz_depth _ HS). pose proof (sz_version _ HS). constructor; try congruence; try lia.
  - assert (Hm : xkDepth k <> maxDepth) by lia. rewrite (DeriveChildKey_run _ _ _ HK Hh Hm) in HR.
    repeat match type of HR with (if ?b then _ else _) = _ => destruct b; [discriminate|] end.
    match type of HR with Ok (_, ?k0) = _ => assert (Ek : k' = k0) by congruence end. rewrite Ek. cbn [xkParentFP].
    rewrite length_firstn. unfold hash160. now rewrite ripemd160_size.
  - assert (Hm : xkDepth k <> maxDepth) by lia. rewrite (DeriveChildKey_run _ _ _ HK Hh Hm) in HR.
    repeat match type of HR with (if ?b then _ else _) = _ => destruct b; [discriminate|] end.
    match type of HR with Ok (_, ?k0) = _ => assert (Ek : k' = k0) by congruence end. rewrite Ek. cbn [xkChildIndex]. unfold HardenedKeyStart in Hh. lia.
  - rewrite Ch. unfold child_chain. rewrite length_skipn. now rewrite (proj1 (hmac_size _ _)).
Qed.

Lemma firstn_exact {A} n (a b : list A) : length a = n -> firstn n (a ++ b) = a.
Proof. intros <-. now rewrite firstn_app, firstn_all, Nat.sub_diag, app_nil_r. Qed.
Lemma skipn_exact {A} n (a b : list A) : length a = n -> skipn n (a ++ b) = b.
Proof. intros <-. now rewrite skipn_app, skipn_all, Nat.sub_diag. Qed.

Lemma String_run k x : key_at x k -> sized k -> exists s, ExtendedKey_String k = Ok s /\ NewExtendedKeyFromString s C = Ok k.
Proof.
  intros (EX & EY & Hx) HS. unfold ExtendedKey_String. rewrite EX, EY, serializeCompressed_ok by apply coord_256.
  rewrite <- surjective_pairing. cbn [rbind]. eexists. split; [reflexivity|]. unfold NewExtendedKeyFromString.
  rewrite (base58_inv (CkdLaws := KL)). cbn [rbind]. destruct HS as [S1 S2 S3 S4 S5 S6].
  set (pub := compressed (pt x)). set (idx := be_bytes 4 (xkChildIndex k)).
  assert (Lp : length pub = 33%nat) by apply compressed_length. assert (Li : length idx = 4%nat) by apply be_bytes_length.
  set (p := xkVersion k ++ [xkDepth k] ++ xkParentFP k ++ idx ++ xkChainCode k ++ pub).
  assert (L78 : length p = 78%nat) by (unfold p; rewrite !length_app; cbn [length]; lia).
  set (chk := firstn 4 (doubleHashB p)).
  assert (Ls : length chk = 4%nat) by (unfold chk; rewrite length_firstn; unfold doubleHashB; rewrite sha256_size; lia).
  rewrite length_app, L78, Ls. change (78 + 4 =? serializedKeyLen + 4)%nat with true. cbn [guard rbind]. change (78 + 4 - 4)%nat with 78%nat.
  rewrite (firstn_exact 78 p chk L78), (skipn_exact 78 p chk L78). fold chk.
  destruct (list_eq_dec Z.eq_dec chk chk) as [_|N]; [|now destruct N]. cbn [guard rbind].
  replace (firstn 4 p) with (xkVersion k) by (symmetry; now apply firstn_exact).
  replace (nth 4 p 0) with (xkDepth k) by (unfold p; rewrite app_nth2 by lia; now rewrite S2).
  replace (skipn 5 p) with (xkParentFP k ++ idx ++ xkChainCode k ++ pub)
    by (unfold p; rewrite (app_assoc (xkVersion k) [_]); symmetry; apply skipn_exact; rewrite length_app; cbn; lia).
  replace (skipn 9 p) with (idx ++ xkChainCode k ++ pub)
    by (unfold p; rewrite (app_assoc (xkVersion k) [_]), (app_assoc _ (xkParentFP k)); symmetry; apply skipn_exact; rewrite !length_app; cbn; lia).
  replace (skipn 13 p) with (xkChainCode k ++ pub)
    by (unfold p; rewrite (app_assoc (xkVersion k) [_]), (app_assoc _ (xkParentFP k)), (app_assoc _ idx); symmetry; apply skipn_exact; rewrite !length_app; cbn [length]; lia).
  replace (skipn 45 p) with pub
    by (unfold p; rewrite (app_assoc (xkVersion k) [_]), (app_assoc _ (xkParentFP k)), (app_assoc _ idx), (app_assoc _ (xkChainCode k)); symmetry; apply skipn_exact; rewrite !length_app; cbn [length]; lia).
  rewrite (firstn_exact 4 (xkParentFP k)), (firstn_exact 4 idx), (firstn_exact 32 (xkChainCode k)) by assumption.
  rewrite firstn_all2 by lia. unfold pub, compressed. rewrite String.eqb_refl, (ParsePubKey_point (CkdLaws := KL)) by assumption.
  destruct (pt x) as [X Y] eqn:Ep. cbn [rbind]. unfold idx. rewrite SetBytes_be by (cbn; lia).
  cbn [fst snd] in *. destruct k. cbn in *. now subst.
Qed.
End Derive.

(** ** Properties *)
Section Properties.
Context `{SH : Sha256} `{CL : CkdLib} `{CS : Curves} {pt : Z -> Z * Z} {L : CurveLaws S256 pt false} {KL : CkdLaws pt}.
Abbreviation q := (cN S256).

(** C22. Derivation is compositional: to walk a path in two pieces, the second from the
    key that the first reached, gives the child of the whole path, and its sum is
    the sum of both; errors included. *)
Theorem DeriveChildKeyFromHierarchy_app p1 p2 k :
  DeriveChildKeyFromHierarchy (p1 ++ p2) k q S256 =
  let! (il1, k1) := DeriveChildKeyFromHierarchy p1 k q S256 in
  let! (il2, k2) := DeriveChildKeyFromHierarchy p2 k1 q S256 in
  Ok ((il2 + il1) mod q, k2).
Proof. exact (walk_app (L := L) p1 p2 k). Qed.

(** C23. An extended key of a point of the curve, and every key derived from it,
    survives its text form. *)
Theorem derived_String_roundtrip k x path il k' (HK : key_at (pt := pt) x k) (HS : sized k) (Hp : Forall (fun index => 0 <= index) path)
  (HR : DeriveChildKeyFromHierarchy path k q S256 = Ok (il, k')) :
  exists s, ExtendedKey_String k' = Ok s /\ NewExtendedKeyFromString s S256 = Ok k'.
Proof.
  assert (K : exists x', key_at (pt := pt) x' k' /\ sized k').
  { change (DeriveChildKeyFromHierarchy path k q S256) with (walk (0, k) path) in HR. revert HR. generalize 0.
    revert k x HK HS. induction Hp as [|index path Hi Hp IH]; intros k x HK HS i0 HR; [injection HR as _ <-; eauto|].
    rewrite (walk_cons (L := L)) in HR. apply rbind_ok in HR as ([i k1] & E & HR).
    destruct (DeriveChildKey_inv (L := L) _ _ _ _ _ HK (sz_depth _ HS) E) as (_ & _ & HK1 & _).
    exact (IH _ _ HK1 (DeriveChildKey_sized (L := L) _ _ _ _ _ HK HS Hi E) _ HR). }
  destruct K as (x' & K1 & K2). exact (String_run (L := L) k' x' K1 K2).
Qed.

(** On a curve other than secp256k1 with a field of more than 128 bits, the parser
    reads a valid text without an error and returns a key without a point:
    [elliptic.Unmarshal] expects the uncompressed form. *)
Theorem NewExtendedKeyFromString_other_curve c s k : cType c <> cType S256 -> 2 ^ 128 <= cP c ->
  NewExtendedKeyFromString s c = Ok k -> xkX k = None /\ xkY k = None.
Proof.
  intros Ht Hp HR. unfold NewExtendedKeyFromString in HR. apply rbind_ok in HR as (d & _ & HR).
  apply rbind_ok in HR as ([] & G & HR). apply guard_ok, Nat.eqb_eq in G. apply rbind_ok in HR as ([] & _ & HR).
  rewrite (proj2 (String.eqb_neq _ _)) in HR by assumption. cbn [rbind] in HR. unfold elliptic_Unmarshal in HR.
  assert (Hl : (17 <= Z.to_nat ((BitLen (cP c) + 7) / 8))%nat).
  { assert (128 <= Z.log2 (Z.abs (cP c))) by (rewrite Z.abs_eq by lia; apply Z.log2_le_pow2; lia).
    unfold BitLen. rewrite (proj2 (Z.eqb_neq _ _)) by lia.
    assert (17 <= (Z.log2 (Z.abs (cP c)) + 1 + 7) / 8) by (apply Z.div_le_lower_bound; lia). lia. }
  match type of HR with context [(length ?l =? 1 + 2 * ?b)%nat] => assert (E : (length l =? 1 + 2 * b)%nat = false) end.
  { apply Nat.eqb_neq. rewrite !length_firstn, length_skipn, length_firstn. unfold serializedKeyLen in G. lia. }
  rewrite E in HR. cbn [negb orb rbind] in HR. injection HR as <-. auto.
Qed.
End Properties.

(** ** Evaluation on a concrete input *)
Definition toy_parse (data : bytes) : res (Z * Z) :=
  match find (fun k => if list_eq_dec Z.eq_dec (compressed (toy256_pt k)) data then true else false) (map Z.of_nat (seq 1 30)) with
  | Some k => Ok (toy256_pt k)
  | None => Err "malformed public key"
  end.
Definition toy_ckd : CkdLib := {|
  hmac_sha512 := fun key data => be_bytes 32 ((SetBytes key + 7 * SetBytes data) mod 30 + 1) ++ be_bytes 32 (SetBytes key + SetBytes data);
  ripemd160 := fun data => be_bytes 20 (SetBytes data);
  base58_Encode := fun data => data;
  base58_Decode := fun data => Ok data;
  ParsePubKey := toy_parse;
  BitcoinMainnetPublic := [4; 136; 178; 30]
|}.

#[export] Instance toy_ckd_laws : @CkdLaws toy_sha toy_ckd toy_curves toy256_pt.
Proof.
  constructor; cbn [hmac_sha512 sha256 ripemd160 base58_Encode base58_Decode ParsePubKey BitcoinMainnetPublic toy_ckd toy_sha].
  - intros key data. split; [now rewrite length_app, !be_bytes_length|]. apply Forall_app. split; apply be_bytes_byte.
  - intros data. now rewrite repeat_length.
  - intros data. apply be_bytes_length.
  - reflexivity.
  - reflexivity.
  - intros k Hk. change (cN S256) with 31 in Hk.
    assert (E : toy256_pt k = toy256_pt (k mod 31)).
    { apply (cl_eq (CurveLaws := toy256_laws)). symmetry. apply cong_mod. }
    rewrite E. clear E. pose proof (Z.mod_pos_bound k 31 eq_refl) as R. generalize dependent (k mod 31). clear k. intros k Hk R.
    change (toy_parse (compressed (toy256_pt k)) = Ok (toy256_pt k)).
    assert (K : forallb (fun k => match toy_parse (compressed (toy256_pt k)) with Ok (x, y) => (x =? fst (toy256_pt k)) && (y =? snd (toy256_pt k)) | _ => false end)
      (map Z.of_nat (seq 1 30)) = true) by (vm_compute; reflexivity).
    rewrite forallb_forall in K. specialize (K k). destruct (toy_parse (compressed (toy256_pt k))) as [[x y]| |].
    1: { assert (I : In k (map Z.of_nat (seq 1 30))) by (apply in_map_iff; exists (Z.to_nat k); split; [lia|apply in_seq; lia]).
         apply K, andb_prop in I as [Ix Iy]. apply Z.eqb_eq in Ix, Iy. rewrite (surjective_pairing (toy256_pt k)). congruence. }
    all: exfalso; assert (I : In k (map Z.of_nat (seq 1 30))) by (apply in_map_iff; exists (Z.to_nat k); split; [lia|apply in_seq; lia]); discriminate (K I).
Qed.

(** The master key of the point [8 G]. *)
Definition w_master : ExtendedKey := {|
  xkCurve := toy256; xkX := Some (fst (toy256_pt 8)); xkY := Some (snd (toy256_pt 8)); xkDepth := 0; xkChildIndex := 0;
  xkChainCode := repeat 5 32; xkParentFP := [0; 0; 0; 0]; xkVersion := [4; 136; 178; 30] |}.
Lemma w_master_at : @key_at toy_curves toy256_pt 8 w_master.
Proof. repeat split. discriminate. Qed.
Lemma w_master_sized : @sized toy_curves w_master.
Proof. repeat split; discriminate. Qed.

(** A path of three steps, cut after the first. *)
Lemma DeriveChildKeyFromHierarchy_app_witness :
  is_ok (@DeriveChildKeyFromHierarchy toy_sha toy_ckd ([1] ++ [2; 3]) w_master 31 toy256) = true /\
  @DeriveChildKeyFromHierarchy toy_sha toy_ckd ([1] ++ [2; 3]) w_master 31 toy256 =
  let! (il1, k1) := @DeriveChildKeyFromHierarchy toy_sha toy_ckd [1] w_master 31 toy256 in
  let! (il2, k2) := @DeriveChildKeyFromHierarchy toy_sha toy_ckd [2; 3] k1 31 toy256 in
  Ok ((il2 + il1) mod 31, k2).
Proof.
  split; [vm_compute; reflexivity|].
  exact (@DeriveChildKeyFromHierarchy_app toy_sha toy_ckd toy_curves toy256_pt toy256_laws [1] [2; 3] w_master).
Defined.

Lemma derived_String_roundtrip_witness : exists il k' s,
  @DeriveChildKeyFromHierarchy toy_sha toy_ckd [1; 2; 3] w_master 31 toy256 = Ok (il, k') /\ xkDepth k' = 3 /\
  @ExtendedKey_String toy_sha toy_ckd k' = Ok s /\ @NewExtendedKeyFromString toy_sha toy_ckd toy_curves s toy256 = Ok k'.
Proof.
  assert (X : match @DeriveChildKeyFromHierarchy toy_sha toy_ckd [1; 2; 3] w_master 31 toy256 with Ok (_, k) => xkDepth k =? 3 | _ => false end = true)
    by (vm_compute; reflexivity).
  destruct (@DeriveChildKeyFromHierarchy toy_sha toy_ckd [1; 2; 3] w_master 31 toy256) as [[il k']| |] eqn:E; [|discriminate X..].
  destruct (@derived_String_roundtrip toy_sha toy_ckd toy_curves toy256_pt toy256_laws toy_ckd_laws w_master 8 [1; 2; 3] il k'
    w_master_at w_master_sized ltac:(repeat constructor; discriminate) E) as (s & Es & Ep).
  exists il, k', s. split; [reflexivity|]. split; [now apply Z.eqb_eq|]. split; [exact Es|exact Ep].
Defined.
