(* ===== verification/CtMul.v ===== *)
(** * Constant-time scalar arithmetic

    [crypto/ct_modmul.go] ([CTScalarMulAddModN]), [crypto/ct_edwards.go]
    ([CTScalarBaseMultEd25519]) and [crypto/ctmul/ctmul.go] (the blinded
    Montgomery ladder on secp256k1 and the dispatchers around it).

    The field and group operations of the two curve packages are third-party
    code: [Secp256k1Lib] and [Ed25519Lib] are their signatures, and the [Laws]
    classes their documented behaviour ([jrep p k]: the Jacobian point [p]
    represents [k G]).  The theorems show that the constant-time routines compute
    the same multiples of points as the plain ones. *)
From Stdlib Require Import ZArith String List Lia Bool Zpow_facts.
From S2P Require Import Prelude GoBig Common Curve.
Import ListNotations.
Open Scope string_scope.
Open Scope Z_scope.
Open Scope list_scope.

Record Jac (F : Type) := mkJac { jX : F; jY : F; jZ : F }.
Arguments mkJac {F} _ _ _.
Arguments jX {F} _.
Arguments jY {F} _.
Arguments jZ {F} _.

Class Secp256k1Lib := {
  FieldVal : Type;
  fv_SetByteSlice : bytes -> FieldVal;
  fv_SetBytes : bytes -> FieldVal;
  fv_PutBytes : FieldVal -> bytes;
  fv_SetInt : Z -> FieldVal;
  fv_IsZero : FieldVal -> bool;
  fv_SquareVal : FieldVal -> FieldVal;
  fv_Mul2 : FieldVal -> FieldVal -> FieldVal;
  fv_Mul : FieldVal -> FieldVal -> FieldVal;
  fv_Normalize : FieldVal -> FieldVal;
  AddNonConst : Jac FieldVal -> Jac FieldVal -> Jac FieldVal;
  DoubleNonConst : Jac FieldVal -> Jac FieldVal;
  ToAffine : Jac FieldVal -> Jac FieldVal;
  ModNScalar : Type;
  sc_SetByteSlice : bytes -> ModNScalar;
  sc_Mul2 : ModNScalar -> ModNScalar -> ModNScalar;
  sc_Add : ModNScalar -> ModNScalar -> ModNScalar;
  sc_PutBytes : ModNScalar -> bytes
}.

Class Ed25519Lib := {
  ScMulAdd : bytes -> bytes -> bytes -> bytes;
  ExtendedGroupElement : Type;
  FieldElement : Type;
  geX : ExtendedGroupElement -> FieldElement;
  geY : ExtendedGroupElement -> FieldElement;
  geZ : ExtendedGroupElement -> FieldElement;
  GeScalarMultBase : bytes -> ExtendedGroupElement;
  FeInvert : FieldElement -> FieldElement;
  FeMul : FieldElement -> FieldElement -> FieldElement;
  FeToBytes : FieldElement -> bytes
}.

Class Secp256k1LibLaws `{Secp256k1Lib} (C : Curve) (pt : Z -> Z * Z) := {
  jrep : Jac FieldVal -> Z -> Prop;
  jr_input : forall k, k mod cN C <> 0 ->
    jrep (mkJac (fv_SetByteSlice (Bytes (fst (pt k)))) (fv_SetByteSlice (Bytes (snd (pt k)))) (fv_SetInt 1)) k;
  jr_id : jrep (mkJac (fv_SetInt 0) (fv_SetInt 1) (fv_SetInt 0)) 0;
  jr_scale : forall p k f, jrep p k -> fv_IsZero f = false ->
    jrep (mkJac (fv_Normalize (fv_Mul (jX p) (fv_SquareVal f)))
                (fv_Normalize (fv_Mul (jY p) (fv_Mul2 (fv_SquareVal f) f)))
                (fv_Normalize (fv_Mul (jZ p) f))) k;
  jr_add : forall p q a b, jrep p a -> jrep q b -> jrep (AddNonConst p q) (a + b);
  jr_double : forall p a, jrep p a -> jrep (DoubleNonConst p) (2 * a);
  jr_bytes : forall p k c, jrep p k -> c = jX p \/ c = jY p \/ c = jZ p ->
    fv_SetBytes (fv_PutBytes c) = c;
  jr_zero : forall p k, jrep p k -> fv_IsZero (jZ p) = (k mod cN C =? 0);
  jr_affine : forall p k, jrep p k -> k mod cN C <> 0 ->
    (SetBytes (fv_PutBytes (jX (ToAffine p))), SetBytes (fv_PutBytes (jY (ToAffine p)))) = pt k;
  fv_PutBytes_length : forall c, length (fv_PutBytes c) = 32%nat;
  fv_PutBytes_byte : forall c, Forall is_byte (fv_PutBytes c);
  sc_muladd : forall a b c, 0 <= a < cN C -> 0 <= b < cN C -> 0 <= c < cN C ->
    SetBytes (sc_PutBytes (sc_Add (sc_Mul2 (sc_SetByteSlice (Bytes a)) (sc_SetByteSlice (Bytes b)))
                                  (sc_SetByteSlice (Bytes c)))) = (a * b + c) mod cN C
}.

Class Ed25519LibLaws `{Ed25519Lib} (C : Curve) (pt : Z -> Z * Z) := {
  ScMulAdd_spec : forall a b c, length a = 32%nat -> length b = 32%nat -> length c = 32%nat ->
    le_val (ScMulAdd a b c) = (le_val a * le_val b + le_val c) mod cN C;
  ge_base_spec : forall s, length s = 32%nat -> Forall is_byte s ->
    let g := GeScalarMultBase s in
    let zi := FeInvert (geZ g) in
    (le_val (FeToBytes (FeMul (geX g) zi)), le_val (FeToBytes (FeMul (geY g) zi))) = pt (le_val s)
}.

Section Defs.
Context `{CS : Curves} `{SL : Secp256k1Lib} `{EL : Ed25519Lib}.

(** ** crypto/ct_modmul.go *)

(** The little-endian 32 bytes of [x mod n]. *)
Definition bigIntToLE32 (x n : Z) : res bytes :=
  let! r := Mod x n in
  let be := Bytes r in
  if (32 <? length be)%nat then Panic "crypto: scalar exceeds 32 bytes after reduction"
  else Ok (rev be ++ repeat 0 (32 - length be)).

Definition le32ToBigInt (b : bytes) : Z := SetBytes (rev b).

Definition setModNFromBigInt (x n : Z) : res ModNScalar :=
  let! r := Mod x n in Ok (sc_SetByteSlice (Bytes r)).

Definition CTScalarMulAddModN (c : Curve) (a b d : Z) : res Z :=
  let n := cN c in
  if curve_eqb c Edwards then
    let! aB := bigIntToLE32 a n in
    let! bB := bigIntToLE32 b n in
    let! cB := bigIntToLE32 d n in
    Ok (le32ToBigInt (ScMulAdd aB bB cB))
  else if curve_eqb c S256 then
    let! aS := setModNFromBigInt a n in
    let! bS := setModNFromBigInt b n in
    let! cS := setModNFromBigInt d n in
    Ok (SetBytes (sc_PutBytes (sc_Add (sc_Mul2 aS bS) cS)))
  else
    let! aR := Mod a n in
    let! bR := Mod b n in
    let! cR := Mod d n in
    Mod (aR * bR + cR) n.

(** ** crypto/ct_edwards.go *)
Definition CTScalarBaseMultEd25519 (c : Curve) (k : Z) : res ECPoint :=
  if negb (curve_eqb c Edwards) then ScalarBaseMult c k
  else
    let! red := Mod k (cN c) in
    let be := Bytes red in
    let be := if (32 <? length be)%nat then skipn (length be - 32) be else be in
    let sBytes := rev (repeat 0 (32 - length be) ++ be) in
    let R := GeScalarMultBase sBytes in
    let zInv := FeInvert (geZ R) in
    let xBytes := FeToBytes (FeMul (geX R) zInv) in
    let yBytes := FeToBytes (FeMul (geY R) zInv) in
    Ok (NewECPointNoCurveCheck c (SetBytes (rev xBytes)) (SetBytes (rev yBytes))).

(** ** crypto/ctmul/ctmul.go *)
Definition ecPointToJacobian (P : ECPoint) : res (option (Jac FieldVal)) :=
  if negb (curve_eqb (curve P) S256) then Ok None
  else
    let! x := ECPoint_X P in
    let! y := ECPoint_Y P in
    Ok (Some (mkJac (fv_SetByteSlice (Bytes x)) (fv_SetByteSlice (Bytes y)) (fv_SetInt 1))).

Definition jacobianToECPoint (p : Jac FieldVal) : ECPoint :=
  NewECPointNoCurveCheck S256 (SetBytes (fv_PutBytes (jX p))) (SetBytes (fv_PutBytes (jY p))).

(** At most 16 draws of a non-zero field element. *)
Fixpoint randomizeZ_tries (tries : nat) (p : Jac FieldVal) : rnd (Jac FieldVal) :=
  match tries with
  | O => rlift (Err "ctmul: failed to sample non-zero blinding factor")
  | S tries =>
    let~ buf := ReadFull 32 in
    let r := fv_SetBytes buf in
    if fv_IsZero r then randomizeZ_tries tries p
    else
      let r2 := fv_SquareVal r in
      let r3 := fv_Mul2 r2 r in
      rret (mkJac (fv_Normalize (fv_Mul (jX p) r2))
                  (fv_Normalize (fv_Mul (jY p) r3))
                  (fv_Normalize (fv_Mul (jZ p) r)))
  end.
Definition randomizeZ (p : Jac FieldVal) : rnd (Jac FieldVal) := randomizeZ_tries 16 p.

(** The byte-wise masked exchange. *)
Definition swap_bytes (mask : Z) (xb yb : bytes) : bytes * bytes :=
  split (map (fun '(x, y) => let d := Z.land (Z.lxor x y) mask in (Z.lxor x d, Z.lxor y d))
             (combine xb yb)).
Definition ctSwapField (x y : FieldVal) (mask : Z) : FieldVal * FieldVal :=
  let '(xb, yb) := swap_bytes mask (fv_PutBytes x) (fv_PutBytes y) in
  (fv_SetBytes xb, fv_SetBytes yb).
Definition ctSwapJac (p1 p2 : Jac FieldVal) (mask : Z) : Jac FieldVal * Jac FieldVal :=
  let '(x1, x2) := ctSwapField (jX p1) (jX p2) mask in
  let '(y1, y2) := ctSwapField (jY p1) (jY p2) mask in
  let '(z1, z2) := ctSwapField (jZ p1) (jZ p2) mask in
  (mkJac x1 y1 z1, mkJac x2 y2 z2).

(** One round of the ladder, for bit [i] of the blinded scalar. *)
Definition ladder_step (kBlinded : Z) (R : Jac FieldVal * Jac FieldVal) (i : nat) :=
  let '(r0, r1) := R in
  let bit := Bit kBlinded (Z.of_nat i) in
  let mask := (- bit) mod 256 in
  let '(r0, r1) := ctSwapJac r0 r1 mask in
  let r1 := AddNonConst r0 r1 in
  let r0 := DoubleNonConst r0 in
  ctSwapJac r0 r1 mask.
Definition ladder (kBlinded : Z) (nbits : nat) (R : Jac FieldVal * Jac FieldVal) :=
  fold_left (ladder_step kBlinded) (rev (seq 0 nbits)) R.

Definition ctScalarMultSecp256k1 (P : ECPoint) (k : Z) : rnd ECPoint :=
  let q := cN S256 in
  let~ pJac := rlift (ecPointToJacobian P) in
  match pJac with
  | None => rlift (Err "ctmul: point conversion failed")
  | Some pJac =>
    let~ pJac := randomizeZ pJac in
    let~ kMod := rlift (Mod k q) in
    let~ blindBytes := ReadFull 8 in
    let r := SetBytes blindBytes in
    let kBlinded := r * q + kMod in
    let nbits := Z.to_nat (BitLen q + 64) in
    let r0 := mkJac (fv_SetInt 0) (fv_SetInt 1) (fv_SetInt 0) in
    let r1 := pJac in
    let '(r0, r1) := ladder kBlinded nbits (r0, r1) in
    if fv_IsZero (jZ r0) then rret (NewECPointNoCurveCheck S256 0 0)
    else rret (jacobianToECPoint (ToAffine r0))
  end.

Definition ScalarMultWithRand (P : option ECPoint) (k : option Z) : rnd (option ECPoint) :=
  match P, k with
  | Some P, Some k =>
    if negb (curve_eqb (curve P) S256) then
      let~ Q := rlift (ECPoint_ScalarMult P k) in rret (Some Q)
    else fun r =>
      match ctScalarMultSecp256k1 P k r with
      | Ok (Q, r') => Ok (Some Q, r')
      | Err _ => Panic "ctmul: RNG failure in constant-time scalar mult: "
      | Panic w => Panic w
      end
  | _, _ => rret None
  end.

(** A nil scalar is dereferenced by the branches that do not check it. *)
Definition ScalarBaseMultWithRand (c : Curve) (k : option Z) : rnd (option ECPoint) :=
  if curve_eqb c Edwards then
    let~ k := rlift (deref k) in
    let~ Q := rlift (CTScalarBaseMultEd25519 c k) in rret (Some Q)
  else if negb (curve_eqb c S256) then
    let~ k := rlift (deref k) in
    let~ Q := rlift (ScalarBaseMult c k) in rret (Some Q)
  else
    let G := NewECPointNoCurveCheck c (cGx c) (cGy c) in
    ScalarMultWithRand (Some G) k.

(** The variants on the system's [rand.Reader], which is their argument here. *)
Definition ScalarMult (P : option ECPoint) (k : option Z) (sys : reader) : res (option ECPoint * reader) :=
  ScalarMultWithRand P k sys.
Definition ctmul_ScalarBaseMult (c : Curve) (k : option Z) (sys : reader) : res (option ECPoint * reader) :=
  ScalarBaseMultWithRand c k sys.
End Defs.

(** A reader that serves one blinded multiplication: 32 bytes that are not zero
    in the field, then 8 bytes. *)
Definition ct_healthy `{Secp256k1Lib} (r : reader) : Prop :=
  (40 <= length r)%nat /\ fv_IsZero (fv_SetBytes (firstn 32 r)) = false.

(** What the protocol code relies on when it multiplies by a secret scalar on
    the curve [C]: the routines compute the plain multiples. *)
Class CtCurve `{CS : Curves} `{SL : Secp256k1Lib} `{EL : Ed25519Lib}
    (C : Curve) (pt : Z -> Z * Z) (id_on : bool) := {
  ct_rest : reader -> reader;
  ct_muladd : forall a b d, CTScalarMulAddModN C a b d = Ok ((a * b + d) mod cN C);
  ct_base : forall k r Q r', 0 <= k -> Forall is_byte r ->
    ScalarBaseMultWithRand C (Some k) r = Ok (Q, r') ->
    Q = Some (mkpt C pt k) /\ Forall is_byte r';
  ct_mult : forall a k r Q r', a mod cN C <> 0 -> 0 <= k -> Forall is_byte r ->
    ScalarMultWithRand (Some (mkpt C pt a)) (Some k) r = Ok (Q, r') ->
    Q = Some (mkpt C pt (k * a)) /\ Forall is_byte r';
  ct_base_total : forall k r, 0 <= k -> Forall is_byte r -> ct_healthy r ->
    ScalarBaseMultWithRand C (Some k) r = Ok (Some (mkpt C pt k), ct_rest r);
  ct_mult_total : forall a k r, a mod cN C <> 0 -> 0 <= k -> on_c C id_on (k * a) = true ->
    Forall is_byte r -> ct_healthy r ->
    ScalarMultWithRand (Some (mkpt C pt a)) (Some k) r = Ok (Some (mkpt C pt (k * a)), ct_rest r);
  ct_rest_byte : forall r, Forall is_byte r -> Forall is_byte (ct_rest r)
}.

(** A reader that serves [n] of them in a row. *)
Fixpoint ct_healthy_n `{CtCurve} (n : nat) (r : reader) : Prop :=
  match n with O => True | S n => ct_healthy r /\ ct_healthy_n n (ct_rest r) end.

(** ** The toy libraries *)
Definition toy_jx (X W : Z) : Z := X * Zpow_mod W 82 43 mod 43.
Definition toy_jy (Y W : Z) : Z := Y * Zpow_mod W 123 43 mod 43.
Definition toy_aff (p : Jac Z) : Z * Z := (toy_jx (jX p) (jZ p), toy_jy (jY p) (jZ p)).
Definition toy_jac (P : Z * Z) : Jac Z :=
  if pair_eqb P (0, 0) then mkJac 0 1 0 else mkJac (fst P) (snd P) 1.

Definition toy_secp : Secp256k1Lib := {|
  FieldVal := Z;
  fv_SetByteSlice bs := SetBytes bs mod 43;
  fv_SetBytes bs := SetBytes bs mod 43;
  fv_PutBytes x := be_bytes 32 x;
  fv_SetInt n := n mod 43;
  fv_IsZero x := x mod 43 =? 0;
  fv_SquareVal x := x * x mod 43;
  fv_Mul2 x y := x * y mod 43;
  fv_Mul x y := x * y mod 43;
  fv_Normalize x := x mod 43;
  AddNonConst p q := toy_jac (wadd 43 (toy_aff p) (toy_aff q));
  DoubleNonConst p := toy_jac (wadd 43 (toy_aff p) (toy_aff p));
  ToAffine p := toy_jac (toy_aff p);
  ModNScalar := Z;
  sc_SetByteSlice bs := SetBytes bs mod 31;
  sc_Mul2 x y := x * y mod 31;
  sc_Add x y := (x + y) mod 31;
  sc_PutBytes x := be_bytes 32 x
|}.

Definition toy_ed : Ed25519Lib := {|
  ScMulAdd a b c := le_bytes 32 ((le_val a * le_val b + le_val c) mod 13);
  ExtendedGroupElement := Z * Z;
  FieldElement := Z;
  geX := fst;
  geY := snd;
  geZ _ := 1;
  GeScalarMultBase s := toyEd_pt (le_val s);
  FeInvert x := finv 89 x;
  FeMul x y := x * y mod 89;
  FeToBytes x := le_bytes 32 x
|}.

Definition toy_jrep (p : Jac Z) (k : Z) : Prop :=
  0 <= jX p < 43 /\ 0 <= jY p < 43 /\ 0 <= jZ p < 43 /\
  toy_aff p = toy256_pt k /\ (k mod 31 = 0 -> jZ p = 0).

(** ** Lemmas: byte encodings of scalars *)
Lemma Bytes_length_le x n : 0 <= x < 256 ^ Z.of_nat n -> (length (Bytes x) <= n)%nat.
Proof.
  intros H. unfold Bytes. rewrite be_bytes_length.
  destruct (Z.eq_dec x 0) as [->|Hx]; [cbn; lia|].
  apply Nat2Z.inj_le. rewrite Z2Nat.id by (apply Z.div_pos; pose proof (BitLen_nonneg x); lia).
  assert (BitLen x <= 8 * Z.of_nat n).
  { pose proof (BitLen_spec x ltac:(lia)) as [B _].
    change 256 with (2 ^ 8) in H. rewrite <- Z.pow_mul_r in H by lia.
    assert (2 ^ (BitLen x - 1) < 2 ^ (8 * Z.of_nat n)) by lia.
    apply Z.pow_lt_mono_r_iff in H0; lia. }
  apply Z.lt_succ_r, Z.div_lt_upper_bound; lia.
Qed.

Lemma le_val_rev_zeros be k : le_val (rev be ++ repeat 0 k) = SetBytes be.
Proof.
  rewrite SetBytes_rev, le_val_app.
  replace (le_val (repeat 0 k)) with 0; [ring|]. induction k; cbn [repeat le_val]; lia.
Qed.

Lemma bigIntToLE32_ok x n : 0 < n <= 2 ^ 256 ->
  exists bs, bigIntToLE32 x n = Ok bs /\ length bs = 32%nat /\ le_val bs = x mod n.
Proof.
  intros Hn. pose proof (Z.mod_pos_bound x n ltac:(lia)) as Hx.
  pose proof (Bytes_length_le (x mod n) 32) as HL. change (256 ^ Z.of_nat 32) with (2 ^ 256) in HL.
  specialize (HL ltac:(lia)).
  unfold bigIntToLE32. autorewrite with tss. cbn [rbind].
  destruct (Nat.ltb_spec 32 (length (Bytes (x mod n)))); [lia|].
  eexists. split; [reflexivity|]. split.
  - autorewrite with tss. lia.
  - rewrite le_val_rev_zeros. apply SetBytes_Bytes_pos. lia.
Qed.

Lemma rev_le_val bs : SetBytes (rev bs) = le_val bs.
Proof. now rewrite SetBytes_rev, rev_involutive. Qed.

(** ** Lemmas: the masked exchange *)
Lemma lxor_cancel_l x y : Z.lxor x (Z.lxor x y) = y.
Proof. now rewrite <- Z.lxor_assoc, Z.lxor_nilpotent, Z.lxor_0_l. Qed.

Lemma land_255 b : is_byte b -> Z.land b 255 = b.
Proof.
  intros H. change 255 with (Z.ones 8). rewrite Z.land_ones by lia. now apply Z.mod_small.
Qed.

Lemma swap_bytes_0 xb yb : length xb = length yb -> swap_bytes 0 xb yb = (xb, yb).
Proof.
  revert yb. induction xb as [|x xb IH]; intros [|y yb] E; try discriminate; [reflexivity|].
  injection E as E. specialize (IH yb E). unfold swap_bytes in *. cbn.
  rewrite Z.land_0_r, !Z.lxor_0_r. now rewrite IH.
Qed.

Lemma swap_bytes_255 xb yb : length xb = length yb -> Forall is_byte xb -> Forall is_byte yb ->
  swap_bytes 255 xb yb = (yb, xb).
Proof.
  revert yb. induction xb as [|x xb IH]; intros [|y yb] E Fx Fy; try discriminate; [reflexivity|].
  injection E as E. inversion_clear Fx. inversion_clear Fy.
  specialize (IH yb E). unfold swap_bytes in *. cbn [combine map split].
  rewrite land_255 by now apply lxor_byte.
  rewrite lxor_cancel_l, (Z.lxor_comm x y), lxor_cancel_l.
  now rewrite IH.
Qed.

(** ** Lemmas: the ladder *)
Section Ladder.
Context `{CS : Curves} `{SL : Secp256k1Lib} {pt : Z -> Z * Z}.
Context {L : CurveLaws S256 pt false} {LL : Secp256k1LibLaws S256 pt}.

Lemma ctSwapField_0 x y :
  fv_SetBytes (fv_PutBytes x) = x -> fv_SetBytes (fv_PutBytes y) = y ->
  ctSwapField x y 0 = (x, y).
Proof.
  intros Hx Hy. unfold ctSwapField.
  rewrite swap_bytes_0 by now rewrite !fv_PutBytes_length. now rewrite Hx, Hy.
Qed.

Lemma ctSwapField_255 x y :
  fv_SetBytes (fv_PutBytes x) = x -> fv_SetBytes (fv_PutBytes y) = y ->
  ctSwapField x y 255 = (y, x).
Proof.
  intros Hx Hy. unfold ctSwapField.
  rewrite swap_bytes_255; [|now rewrite !fv_PutBytes_length|apply fv_PutBytes_byte..].
  now rewrite Hx, Hy.
Qed.

Lemma ctSwapJac_spec p q a b (bit : bool) : jrep p a -> jrep q b ->
  ctSwapJac p q ((- (if bit then 1 else 0)) mod 256) = if bit then (q, p) else (p, q).
Proof.
  intros Hp Hq. unfold ctSwapJac.
  pose proof (fun c => jr_bytes p a c Hp) as Bp. pose proof (fun c => jr_bytes q b c Hq) as Bq.
  destruct bit; [change (- (1) mod 256) with 255|change (- 0 mod 256) with 0].
  - rewrite !ctSwapField_255 by auto. now destruct p, q.
  - rewrite !ctSwapField_0 by auto. now destruct p, q.
Qed.

Definition ladder_inv (kB a : Z) (i : nat) (R : Jac FieldVal * Jac FieldVal) : Prop :=
  let m := Z.shiftr kB (Z.of_nat i) in jrep (fst R) (m * a) /\ jrep (snd R) ((m + 1) * a).

Lemma shiftr_step kB i : Z.shiftr kB (Z.of_nat i) =
  2 * Z.shiftr kB (Z.of_nat (S i)) + (if Z.testbit kB (Z.of_nat i) then 1 else 0).
Proof.
  rewrite Nat2Z.inj_succ, <- Z.add_1_r, <- Z.shiftr_shiftr by lia.
  set (m := Z.shiftr kB (Z.of_nat i)).
  replace (Z.testbit kB (Z.of_nat i)) with (Z.odd m).
  - rewrite (Z.shiftr_div_pow2 m 1) by lia. change (2 ^ 1) with 2.
    pose proof (Zmod_odd m) as E. pose proof (Z.div_mod m 2 ltac:(lia)).
    destruct (Z.odd m); lia.
  - rewrite <- Z.bit0_odd. subst m. rewrite Z.shiftr_spec by lia. reflexivity.
Qed.

Lemma ladder_step_inv kB a i R :
  ladder_inv kB a (S i) R -> ladder_inv kB a i (ladder_step kB R i).
Proof.
  destruct R as [r0 r1]. intros [H0 H1]. cbn [fst snd] in H0, H1.
  unfold ladder_step, Bit. rewrite (ctSwapJac_spec r0 r1 _ _ _ H0 H1).
  unfold ladder_inv. rewrite (shiftr_step kB i).
  set (m := Z.shiftr kB (Z.of_nat (S i))) in *.
  destruct (Z.testbit kB (Z.of_nat i)).
  - pose proof (jr_add _ _ _ _ H1 H0) as A. pose proof (jr_double _ _ H1) as D.
    rewrite (ctSwapJac_spec _ _ _ _ true D A). cbn [fst snd]. split.
    + replace ((2 * m + 1) * a) with ((m + 1) * a + m * a) by ring. exact A.
    + replace ((2 * m + 1 + 1) * a) with (2 * ((m + 1) * a)) by ring. exact D.
  - pose proof (jr_add _ _ _ _ H0 H1) as A. pose proof (jr_double _ _ H0) as D.
    rewrite (ctSwapJac_spec _ _ _ _ false D A). cbn [fst snd]. split.
    + replace ((2 * m + 0) * a) with (2 * (m * a)) by ring. exact D.
    + replace ((2 * m + 0 + 1) * a) with (m * a + (m + 1) * a) by ring. exact A.
Qed.

Lemma ladder_correct kB a n R :
  ladder_inv kB a n R -> ladder_inv kB a 0 (ladder kB n R).
Proof.
  revert R. unfold ladder. induction n as [|n IH]; intros R H; [exact H|].
  rewrite seq_S, rev_app_distr. cbn [rev app fold_left Nat.add].
  apply IH. now apply ladder_step_inv.
Qed.

Lemma randomizeZ_tries_jrep tries p k r p' r' :
  jrep p k -> randomizeZ_tries tries p r = Ok (p', r') -> jrep p' k.
Proof.
  revert r. induction tries as [|t IH]; intros r Hp H; cbn [randomizeZ_tries] in H; inv_res.
  match type of H with context [fv_IsZero ?f] => destruct (fv_IsZero f) eqn:E end; [eauto|].
  inv_res. now apply jr_scale.
Qed.

Lemma ReadFull_byte n r bs r' : Forall is_byte r -> ReadFull n r = Ok (bs, r') ->
  length bs = n /\ Forall is_byte bs /\ Forall is_byte r'.
Proof.
  intros Hr H. apply ReadFull_ok in H as (Hn & -> & ->).
  rewrite length_firstn. destruct (Forall_split_at is_byte n r Hr). split; [lia|auto].
Qed.

Lemma randomizeZ_tries_byte tries p r p' r' :
  Forall is_byte r -> randomizeZ_tries tries p r = Ok (p', r') -> Forall is_byte r'.
Proof.
  revert r. induction tries as [|t IH]; intros r Hr H; cbn [randomizeZ_tries] in H; inv_res.
  match goal with E : ReadFull _ _ = _ |- _ => apply ReadFull_byte in E as (_ & _ & ?); [|assumption] end.
  match type of H with context [fv_IsZero ?f] => destruct (fv_IsZero f) eqn:E end; [eauto|].
  now inv_res.
Qed.

Lemma input_jrep a : a mod cN S256 <> 0 ->
  ecPointToJacobian (mkpt S256 pt a) =
    Ok (Some (mkJac (fv_SetByteSlice (Bytes (fst (pt a)))) (fv_SetByteSlice (Bytes (snd (pt a)))) (fv_SetInt 1))).
Proof.
  intros _. unfold ecPointToJacobian. cbn [curve mkpt NewECPointNoCurveCheck].
  unfold curve_eqb. now rewrite String.eqb_refl.
Qed.

Lemma curve_eqb_refl c : curve_eqb c c = true.
Proof. apply String.eqb_refl. Qed.

Lemma pow_split a b : 0 <= a -> 0 <= b -> 2 ^ (a + b) = 2 ^ a * 2 ^ b.
Proof. apply Z.pow_add_r. Qed.

Lemma blinded_small k r : 0 <= r < 2 ^ 64 ->
  0 <= r * cN S256 + k mod cN S256 < 2 ^ (BitLen (cN S256) + 64).
Proof.
  pose proof (cl_N_pos (L := L)) as Hq. set (q := cN S256) in *. intros Hr.
  pose proof (Z.mod_pos_bound k q ltac:(lia)). pose proof (BitLen_spec q ltac:(lia)) as [_ Hb].
  rewrite Z.pow_add_r by (pose proof (BitLen_nonneg q); lia). nia.
Qed.

Lemma ctScalarMultSecp256k1_pt a k r Q r' :
  a mod cN S256 <> 0 -> Forall is_byte r ->
  ctScalarMultSecp256k1 (mkpt S256 pt a) k r = Ok (Q, r') ->
  Q = mkpt S256 pt (k * a) /\ Forall is_byte r'.
Proof.
  intros Ha Hr H. pose proof (cl_N_pos (L := L)) as Hq.
  unfold ctScalarMultSecp256k1 in H. rewrite input_jrep in H by assumption. inv_res.
  cbv beta iota in H. inv_res.
  match goal with E : Mod _ _ = Ok _ |- _ => rewrite Mod_ok in E by lia; injection E as <- end.
  match goal with E : randomizeZ _ _ = Ok (?p, ?s), F : ReadFull 8 ?s = Ok (?bb, ?t) |- _ =>
    pose proof (randomizeZ_tries_byte _ _ _ _ _ Hr E) as Hs;
    apply (randomizeZ_tries_jrep _ _ a) in E; [|now apply jr_input];
    apply ReadFull_byte in F as (Lb & Fb & Ft); [|assumption];
    set (kB := SetBytes bb * cN S256 + k mod cN S256) in *;
    pose proof (blinded_small k (SetBytes bb)) as HkB
  end.
  pose proof (SetBytes_bound _ Fb) as Bb. rewrite Lb in Bb. change (256 ^ Z.of_nat 8) with (2 ^ 64) in Bb.
  specialize (HkB Bb). fold kB in HkB.
  match type of H with context [ladder kB ?n ?R] =>
    pose proof (ladder_correct kB a n R) as HL end.
  match type of HL with ?P -> _ => assert (Hinit : P) end.
  { unfold ladder_inv. cbn [fst snd].
    replace (Z.shiftr kB _) with 0.
    - split; [apply jr_id|now rewrite Z.mul_1_l].
    - symmetry. rewrite Z.shiftr_div_pow2 by lia. apply Z.div_small.
      rewrite Z2Nat.id by (pose proof (BitLen_nonneg (cN S256)); lia). exact HkB. }
  specialize (HL Hinit). destruct (ladder _ _ _) as [r0 r1]. destruct HL as [HL _].
  cbn [fst] in HL. rewrite Z.shiftr_0_r in HL.
  assert (EkB : cong (cN S256) (kB * a) (k * a)).
  { apply cong_mul; [|reflexivity]. unfold kB. rewrite cong_mod.
    unfold cong. match goal with |- (_ | ?r * _ + k - k) => exists r end. ring. }
  rewrite (jr_zero _ _ HL) in H.
  destruct (Z.eqb_spec ((kB * a) mod cN S256) 0) as [E|E]; inv_res; (split; [|assumption]).
  - rewrite <- (mkpt_cong (L := L) _ _ EkB).
    rewrite (mkpt_cong (L := L) (kB * a) 0) by (apply cong_iff; now rewrite E, Z.mod_0_l by lia).
    unfold mkpt. now rewrite cl_id.
  - unfold jacobianToECPoint. pose proof (jr_affine _ _ HL E) as P.
    rewrite <- (mkpt_cong (L := L) _ _ EkB). unfold mkpt. rewrite <- P. reflexivity.
Qed.

Lemma ctScalarMultSecp256k1_total a k r :
  a mod cN S256 <> 0 -> ct_healthy r ->
  exists Q, ctScalarMultSecp256k1 (mkpt S256 pt a) k r = Ok (Q, skipn 40 r).
Proof.
  intros Ha [Hlen Hz]. pose proof (cl_N_pos (L := L)) as Hq.
  unfold ctScalarMultSecp256k1, rnd_bind, rlift. rewrite input_jrep by assumption.
  cbn [rbind fst snd]. unfold randomizeZ. cbn [randomizeZ_tries].
  unfold rnd_bind, ReadFull. rewrite (proj2 (Nat.ltb_ge _ _)) by lia. cbn [rbind fst snd].
  rewrite Hz. unfold rret. cbn [rbind fst snd].
  rewrite Mod_ok by lia. cbn [rbind fst snd]. rewrite length_skipn.
  rewrite (proj2 (Nat.ltb_ge _ _)) by lia. cbn [rbind fst snd].
  rewrite skipn_skipn. change (8 + 32)%nat with 40%nat.
  destruct (ladder _ _ _) as [r0 r1]. unfold rret.
  destruct (fv_IsZero (jZ r0)); eexists; reflexivity.
Qed.

End Ladder.

(** ** The two implementations of the interface *)
Section Secp256k1Instance.
Context `{CS : Curves} `{SL : Secp256k1Lib} `{EL : Ed25519Lib} {pt : Z -> Z * Z}.
Context {L : CurveLaws S256 pt false} {LL : Secp256k1LibLaws S256 pt}.
Context (Hne : curve_eqb S256 Edwards = false).

Lemma secp_muladd a b d : CTScalarMulAddModN S256 a b d = Ok ((a * b + d) mod cN S256).
Proof.
  pose proof (cl_N_pos (L := L)) as Hq.
  unfold CTScalarMulAddModN. rewrite Hne, curve_eqb_refl. unfold setModNFromBigInt.
  rewrite !Mod_ok by lia. cbn [rbind].
  rewrite sc_muladd by (apply Z.mod_pos_bound; lia). f_equal. mod_ring.
Qed.

Lemma secp_mult_with_rand a k r Q r' : a mod cN S256 <> 0 -> Forall is_byte r ->
  ScalarMultWithRand (Some (mkpt S256 pt a)) (Some k) r = Ok (Q, r') ->
  Q = Some (mkpt S256 pt (k * a)) /\ Forall is_byte r'.
Proof.
  intros Ha Hr. unfold ScalarMultWithRand. cbn [curve mkpt NewECPointNoCurveCheck].
  rewrite curve_eqb_refl. cbn [negb].
  destruct (ctScalarMultSecp256k1 _ _ _) as [[P s]| |] eqn:E; try discriminate.
  apply ctScalarMultSecp256k1_pt in E as [-> ?]; [|assumption..].
  intros K. now inv_res.
Qed.

Lemma one_mod_N : 1 mod cN S256 <> 0.
Proof. pose proof (cl_N_pos (L := L)). rewrite Z.mod_small; lia. Qed.

Lemma secp_mult_total a k r : a mod cN S256 <> 0 -> Forall is_byte r -> ct_healthy r ->
  ScalarMultWithRand (Some (mkpt S256 pt a)) (Some k) r = Ok (Some (mkpt S256 pt (k * a)), skipn 40 r).
Proof.
  intros Ha Hr Hh. destruct (ctScalarMultSecp256k1_total a k r Ha Hh) as [Q E].
  pose proof (ctScalarMultSecp256k1_pt _ _ _ _ _ Ha Hr E) as [-> _].
  unfold ScalarMultWithRand. cbn [curve mkpt NewECPointNoCurveCheck].
  rewrite curve_eqb_refl. cbn [negb].
  now rewrite E.
Qed.

Lemma secp_base_is_mult k r :
  ScalarBaseMultWithRand S256 (Some k) r = ScalarMultWithRand (Some (mkpt S256 pt 1)) (Some k) r.
Proof.
  unfold ScalarBaseMultWithRand. rewrite Hne, curve_eqb_refl. cbn [negb].
  now rewrite mkpt_base.
Qed.

#[export] Instance secp_ct : CtCurve S256 pt false.
Proof.
  refine {| ct_rest := skipn 40 |}.
  - apply secp_muladd.
  - intros k r Q r' Hk Hr. rewrite secp_base_is_mult. intros H.
    apply secp_mult_with_rand in H; [|apply one_mod_N|assumption]. now rewrite Z.mul_1_r in H.
  - intros a k r Q r' Ha Hk Hr. now apply secp_mult_with_rand.
  - intros k r Hk Hr Hh. rewrite secp_base_is_mult.
    rewrite secp_mult_total by (apply one_mod_N || assumption). now rewrite Z.mul_1_r.
  - intros a k r Ha Hk _. now apply secp_mult_total.
  - intros r Hr. now apply Forall_split_at.
Defined.
End Secp256k1Instance.

Section Ed25519Instance.
Context `{CS : Curves} `{SL : Secp256k1Lib} `{EL : Ed25519Lib} {pt : Z -> Z * Z}.
Context {L : CurveLaws Edwards pt true} {LL : Ed25519LibLaws Edwards pt}.
Context (Hne : curve_eqb Edwards S256 = false).

Lemma ed_muladd a b d : CTScalarMulAddModN Edwards a b d = Ok ((a * b + d) mod cN Edwards).
Proof.
  pose proof (cl_N_pos (L := L)) as Hq. pose proof (cl_N (CurveLaws := L)) as HN.
  unfold CTScalarMulAddModN. rewrite curve_eqb_refl.
  destruct (bigIntToLE32_ok a (cN Edwards)) as (ab & -> & La & Va); [lia|].
  destruct (bigIntToLE32_ok b (cN Edwards)) as (bb & -> & Lb & Vb); [lia|].
  destruct (bigIntToLE32_ok d (cN Edwards)) as (cb & -> & Lc & Vc); [lia|].
  cbn [rbind]. unfold le32ToBigInt.
  rewrite rev_le_val, ScMulAdd_spec by assumption. rewrite Va, Vb, Vc. f_equal. mod_ring.
Qed.

Lemma CTScalarBaseMultEd25519_pt k :
  CTScalarBaseMultEd25519 Edwards k = Ok (mkpt Edwards pt k).
Proof.
  pose proof (cl_N_pos (L := L)) as Hq. pose proof (cl_N (CurveLaws := L)) as HN.
  unfold CTScalarBaseMultEd25519. rewrite curve_eqb_refl. cbn [negb].
  rewrite Mod_ok by lia. cbn [rbind].
  assert (Hk : 0 <= k mod cN Edwards < cN Edwards) by (apply Z.mod_pos_bound; lia).
  pose proof (Bytes_length_le (k mod cN Edwards) 32) as HL.
  change (256 ^ Z.of_nat 32) with (2 ^ 256) in HL. specialize (HL ltac:(lia)).
  destruct (Nat.ltb_spec 32 (length (Bytes (k mod cN Edwards)))); [lia|].
  cbv zeta. set (s := rev (repeat 0 _ ++ _)).
  assert (Ls : length s = 32%nat).
  { subst s. rewrite length_rev, length_app, repeat_length. lia. }
  assert (Fs : Forall is_byte s).
  { subst s. apply Forall_rev, Forall_app. split; [|apply Bytes_byte].
    apply Forall_forall. intros x Hx. apply repeat_spec in Hx as ->. unfold is_byte. lia. }
  assert (Vs : le_val s = k mod cN Edwards).
  { subst s. rewrite rev_app_distr, rev_repeat, le_val_rev_zeros. apply SetBytes_Bytes_pos. lia. }
  pose proof (ge_base_spec s Ls Fs) as G. cbv zeta in G. rewrite Vs, pt_mod in G.
  rewrite !rev_le_val. unfold mkpt. now rewrite <- G.
Qed.

Lemma ed_base_with_rand k r :
  ScalarBaseMultWithRand Edwards (Some k) r = Ok (Some (mkpt Edwards pt k), r).
Proof.
  unfold ScalarBaseMultWithRand. rewrite curve_eqb_refl. unfold rnd_bind, rlift, rret.
  cbn [rbind deref fst snd]. now rewrite CTScalarBaseMultEd25519_pt.
Qed.

Lemma ed_mult_with_rand a k r : 0 <= k ->
  ScalarMultWithRand (Some (mkpt Edwards pt a)) (Some k) r = Ok (Some (mkpt Edwards pt (k * a)), r).
Proof.
  intros Hk. unfold ScalarMultWithRand. cbn [curve mkpt NewECPointNoCurveCheck].
  rewrite Hne. cbn [negb]. unfold rnd_bind, rlift, rret.
  fold (mkpt Edwards pt a). now rewrite ECPoint_ScalarMult_pt.
Qed.

#[export] Instance ed_ct : CtCurve Edwards pt true.
Proof.
  refine {| ct_rest := fun r => r |}.
  - apply ed_muladd.
  - intros k r Q r' Hk Hr. rewrite ed_base_with_rand. intros H. now inv_res.
  - intros a k r Q r' Ha Hk Hr. rewrite ed_mult_with_rand by assumption. intros H. now inv_res.
  - intros k r Hk Hr Hh. apply ed_base_with_rand.
  - intros a k r Ha Hk _ Hr _. now apply ed_mult_with_rand.
  - auto.
Defined.
End Ed25519Instance.

(** ** The toy libraries satisfy the laws *)
Lemma toy_pt_0 k : k mod 31 = 0 -> toy256_pt k = (0, 0).
Proof. intros H. unfold toy256_pt. now rewrite H. Qed.

Lemma toy_pt_nz k : k mod 31 <> 0 -> toy256_pt k <> (0, 0).
Proof.
  intros H E. change (0, 0) with (toy256_pt 0) in E.
  apply (cl_eq (CurveLaws := toy256_laws)) in E. now apply cong_iff in E.
Qed.

Lemma toy_jac_rep k : toy_jrep (toy_jac (toy256_pt k)) k.
Proof.
  pose proof (cl_x (CurveLaws := toy256_laws) k) as Hx. pose proof (cl_y (CurveLaws := toy256_laws) k) as Hy.
  cbn [cP toy256] in *. unfold toy_jac.
  destruct (pair_eqb (toy256_pt k) (0, 0)) eqn:E.
  - apply pair_eqb_eq in E. unfold toy_jrep. rewrite E. cbn [jX jY jZ]. repeat split; try lia; reflexivity.
  - unfold toy_jrep, toy_aff, toy_jx, toy_jy. cbn [jX jY jZ].
    change (Zpow_mod 1 82 43) with 1. change (Zpow_mod 1 123 43) with 1.
    rewrite !Z.mul_1_r, !Z.mod_small by assumption.
    repeat split; try lia; [now rewrite <- surjective_pairing|].
    intros H. apply toy_pt_0 in H. rewrite H in E. discriminate.
Qed.

Lemma toy_fermat_check :
  forallb (fun i => (Z.of_nat i =? 0) || (Zpow_mod (Z.of_nat i) 42 43 =? 1)) (seq 0 43) = true.
Proof. vm_compute. reflexivity. Qed.

Lemma toy_fermat f : f mod 43 <> 0 -> cong 43 (f ^ 42) 1.
Proof.
  intros H. rewrite <- (cong_mod 43 f).
  pose proof (forall_below (fun f => (f =? 0) || (Zpow_mod f 42 43 =? 1)) 43 toy_fermat_check
    (f mod 43) (Z.mod_pos_bound f 43 ltac:(lia))) as K. cbv beta in K.
  destruct (Z.eqb_spec (f mod 43) 0); [contradiction|]. apply Z.eqb_eq in K.
  rewrite Zpow_mod_correct in K by lia. now apply cong_iff.
Qed.

Lemma toy_scale_x X W f : f mod 43 <> 0 ->
  toy_jx (X * (f * f mod 43) mod 43 mod 43) (W * f mod 43 mod 43) = toy_jx X W.
Proof.
  intros Hf. unfold toy_jx. rewrite !Zpow_mod_correct by lia.
  apply cong_iff. rewrite !(cong_mod 43), Z.pow_mul_l.
  replace (X * (f * f) * (W ^ 82 * f ^ 82)) with (X * W ^ 82 * ((f ^ 42) * (f ^ 42))) by ring.
  rewrite (toy_fermat f Hf). apply cong_eq. ring.
Qed.

Lemma toy_scale_y Y W f : f mod 43 <> 0 ->
  toy_jy (Y * (f * f mod 43 * f mod 43) mod 43 mod 43) (W * f mod 43 mod 43) = toy_jy Y W.
Proof.
  intros Hf. unfold toy_jy. rewrite !Zpow_mod_correct by lia.
  apply cong_iff. rewrite !(cong_mod 43), Z.pow_mul_l.
  replace (Y * (f * f * f) * (W ^ 123 * f ^ 123)) with (Y * W ^ 123 * ((f ^ 42) * (f ^ 42) * (f ^ 42))) by ring.
  rewrite (toy_fermat f Hf). apply cong_eq. ring.
Qed.

Lemma be32_val x : 0 <= x < 43 -> SetBytes (be_bytes 32 x) = x.
Proof. intros H. apply SetBytes_be. change (256 ^ Z.of_nat 32) with (2 ^ 256). lia. Qed.

#[export] Instance toy_secp_laws : @Secp256k1LibLaws toy_secp toy256 toy256_pt.
Proof.
  pose proof (cl_x (CurveLaws := toy256_laws)) as Hx. pose proof (cl_y (CurveLaws := toy256_laws)) as Hy.
  cbn [cP toy256] in *.
  refine (@Build_Secp256k1LibLaws toy_secp toy256 toy256_pt toy_jrep _ _ _ _ _ _ _ _ _ _ _); cbn [fv_SetByteSlice
    fv_SetInt fv_IsZero fv_SquareVal fv_Mul2 fv_Mul fv_Normalize AddNonConst DoubleNonConst ToAffine fv_SetBytes
    fv_PutBytes sc_SetByteSlice sc_Mul2 sc_Add sc_PutBytes toy_secp FieldVal ModNScalar cN toy256].
  - intros k Hk. rewrite !SetBytes_Bytes_pos by (apply Hx || apply Hy).
    rewrite !Z.mod_small by (apply Hx || apply Hy || lia).
    pose proof (toy_jac_rep k) as R. unfold toy_jac in R.
    destruct (pair_eqb _ _) eqn:E; [|exact R].
    apply pair_eqb_eq in E. now apply toy_pt_nz in E.
  - apply (toy_jac_rep 0).
  - intros [X Y W] k f (RX & RY & RW & RA & RZ) Hf.
    unfold toy_jrep, toy_aff in *. cbn [jX jY jZ] in *.
    apply Z.eqb_neq in Hf. rewrite toy_scale_x, toy_scale_y by assumption.
    repeat (split; [apply Z.mod_pos_bound; lia|]). split; [exact RA|].
    intros E. now rewrite (RZ E).
  - intros p q a b (_ & _ & _ & Ra & _) (_ & _ & _ & Rb & _). rewrite Ra, Rb.
    pose proof (cl_add (CurveLaws := toy256_laws) a b) as A. cbn [cAdd toy256] in A.
    rewrite <- !surjective_pairing in A. rewrite A. apply toy_jac_rep.
  - intros p a (_ & _ & _ & Ra & _). rewrite Ra.
    pose proof (cl_add (CurveLaws := toy256_laws) a a) as A. cbn [cAdd toy256] in A.
    rewrite <- !surjective_pairing in A. rewrite A. replace (2 * a) with (a + a) by ring. apply toy_jac_rep.
  - intros p k c (RX & RY & RW & _) Hc.
    assert (0 <= c < 43) by (destruct Hc as [->|[->| ->]]; assumption).
    rewrite be32_val by assumption. now apply Z.mod_small.
  - intros p k (_ & _ & RW & RA & RZ).
    destruct (Z.eqb_spec (k mod 31) 0) as [E|E]; [now rewrite (RZ E)|].
    rewrite Z.mod_small by assumption. apply Z.eqb_neq. intros W. apply (toy_pt_nz k E). rewrite <- RA.
    unfold toy_aff, toy_jx, toy_jy. rewrite W.
    change (Zpow_mod 0 82 43) with 0. change (Zpow_mod 0 123 43) with 0. now rewrite !Z.mul_0_r.
  - intros p k (_ & _ & _ & RA & _) E. rewrite RA. unfold toy_jac.
    destruct (pair_eqb _ _) eqn:Q; [apply pair_eqb_eq in Q; now apply toy_pt_nz in Q|].
    cbn [jX jY]. rewrite !be32_val by (apply Hx || apply Hy). now rewrite <- surjective_pairing.
  - intros c. apply be_bytes_length.
  - intros c. apply Forall_rev, le_bytes_byte.
  - intros a b c Ha Hb Hc. rewrite !SetBytes_Bytes_pos by lia.
    rewrite SetBytes_be by (change (256 ^ Z.of_nat 32) with (2 ^ 256);
      pose proof (Z.mod_pos_bound (a mod 31 * (b mod 31) mod 31 + c mod 31) 31); lia).
    mod_ring.
Qed.

#[export] Instance toy_ed_laws : @Ed25519LibLaws toy_ed toyEd toyEd_pt.
Proof.
  split; cbn [ScMulAdd GeScalarMultBase FeInvert FeMul FeToBytes geX geY geZ toy_ed cN toyEd].
  - intros a b c _ _ _. rewrite le_val_bytes by (apply Z.mod_pos_bound; lia).
    apply Z.mod_small. change (256 ^ Z.of_nat 32) with (2 ^ 256).
    pose proof (Z.mod_pos_bound (le_val a * le_val b + le_val c) 13). lia.
  - intros s _ _. cbv zeta. change (finv 89 1) with 1. rewrite !Z.mul_1_r.
    pose proof (cl_x (CurveLaws := toyEd_laws) (le_val s)) as Hx.
    pose proof (cl_y (CurveLaws := toyEd_laws) (le_val s)) as Hy. cbn [cP toyEd] in *.
    rewrite !(Z.mod_small _ 89) by assumption.
    rewrite !le_val_bytes, !Z.mod_small by (change (256 ^ Z.of_nat 32) with (2 ^ 256); lia).
    now rewrite <- surjective_pairing.
Qed.

#[export] Existing Instances toy_curves toy_secp toy_ed.
#[export] Instance toy256_ct : CtCurve toy256 toy256_pt false := secp_ct eq_refl.
#[export] Instance toyEd_ct : CtCurve toyEd toyEd_pt true := ed_ct eq_refl.

Lemma ones_byte n : Forall is_byte (repeat 1 n).
Proof. apply Forall_forall. intros x Hx. apply repeat_spec in Hx as ->. unfold is_byte. lia. Qed.

Lemma toy_healthy n : (40 <= n)%nat -> ct_healthy (repeat 1 n).
Proof.
  intros H. split; [now rewrite repeat_length|].
  replace n with (32 + (n - 32))%nat by lia. rewrite repeat_app, firstn_app, repeat_length.
  rewrite firstn_all2 by (rewrite repeat_length; lia). reflexivity.
Qed.

Lemma toy_rest r : @ct_rest _ _ _ _ _ _ toy256_ct r = skipn 40 r.
Proof. reflexivity. Qed.

Lemma toy_healthy_n n : forall m, (40 * n <= m)%nat ->
  @ct_healthy_n _ _ _ toy256 toy256_pt false toy256_ct n (repeat 1 m).
Proof.
  induction n as [|n IH]; intros m H; cbn [ct_healthy_n]; [exact I|].
  split; [apply toy_healthy; lia|]. rewrite toy_rest, skipn_repeat. apply IH. lia.
Qed.

