(* ===== verification/Field.v ===== *)
(** * Polynomials and Lagrange interpolation modulo a prime

    The reference definitions the secret-sharing code is proved against: [peval]
    evaluates a coefficient list, [lam q xs x] is the Lagrange coefficient at 0
    of the node [x] among the nodes [xs], and [lagrange_at_0] is the
    interpolation theorem for nodes that are distinct modulo [q]. *)
From Stdlib Require Import ZArith String List Lia Bool Zdivisibility Zcong.
From S2P Require Import Prelude GoBig.
Import ListNotations.
Open Scope Z_scope.
Open Scope list_scope.

(** [c0 + c1 x + c2 x^2 + ...] *)
Fixpoint peval (cs : list Z) (x : Z) : Z :=
  match cs with [] => 0 | c :: cs => c + x * peval cs x end.

(** The quotient of [f(x) - f(y)] by [x - y]. *)
Fixpoint pquot (cs : list Z) (y : Z) : list Z :=
  match cs with
  | [] => []
  | c :: cs => match cs with [] => [] | _ => peval cs y :: pquot cs y end
  end.

Definition lterm (q x y : Z) : Z :=
  if (y - x) mod q =? 0 then 1 else y * Z.invmod (y - x) q.
Definition lam (q : Z) (xs : list Z) (x : Z) : Z := zprod (map (lterm q x) xs).

(** Nodes that are pairwise distinct modulo [q]. *)
Definition distinct (q : Z) (xs : list Z) : Prop := NoDup (map (fun x => x mod q) xs).

(** ** Units modulo a prime *)
Section Prime.
Variable q : Z.
Hypothesis Hq : Z.prime q.

Lemma prime_gt_1 : 1 < q.
Proof. apply Hq. Qed.

Lemma prime_gcd a : a mod q <> 0 -> Z.gcd a q = 1.
Proof.
  intros H. rewrite Z.gcd_comm. apply Z.coprime_prime_l; [assumption|].
  intros D. apply H. apply Z.mod_divide; [pose proof prime_gt_1; lia|assumption].
Qed.

Lemma inv_l a : a mod q <> 0 -> cong q (Z.invmod a q * a) 1.
Proof. intros H. apply cong_invmod, prime_gcd, H. Qed.

Lemma gcd_1_mod a : Z.gcd a q = 1 -> a mod q <> 0.
Proof.
  pose proof prime_gt_1 as Q1. intros G E. apply Z.mod_divide in E; [|lia].
  pose proof (Z.gcd_greatest a q q E (Z.divide_refl q)) as D. rewrite G in D.
  apply Z.divide_1_r in D. lia.
Qed.

Lemma cong_cancel a b c : a mod q <> 0 -> cong q (a * b) (a * c) -> cong q b c.
Proof.
  intros Ha E. pose proof (inv_l a Ha) as I.
  transitivity (Z.invmod a q * (a * b)).
  - rewrite Z.mul_assoc, I, Z.mul_1_l. reflexivity.
  - rewrite E, Z.mul_assoc, I, Z.mul_1_l. reflexivity.
Qed.

Lemma mod_opp_nz a : a mod q <> 0 -> (- a) mod q <> 0.
Proof.
  pose proof prime_gt_1 as Q1. intros H E. apply H. apply Z.mod_divide in E; [|lia].
  apply Z.mod_divide; [lia|]. now apply Z.divide_opp_r.
Qed.

Lemma mul_mod_nz a b : a mod q <> 0 -> b mod q <> 0 -> (a * b) mod q <> 0.
Proof.
  pose proof prime_gt_1 as Q1. intros Ha Hb E. apply Hb.
  assert (K : cong q (a * b) (a * 0)) by (apply cong_iff; now rewrite E, Z.mul_0_r, Z.mod_0_l by lia).
  apply cong_cancel in K; [|assumption]. apply cong_iff in K. now rewrite K, Z.mod_0_l by lia.
Qed.

(** ** Lagrange coefficients *)
Lemma lterm_self x : lterm q x x = 1.
Proof. unfold lterm. rewrite Z.sub_diag. now rewrite Z.mod_0_l by (pose proof prime_gt_1; lia). Qed.

Lemma lterm_other x y : (y - x) mod q <> 0 -> cong q ((x - y) * lterm q x y) (- y).
Proof.
  intros H. unfold lterm. destruct (Z.eqb_spec ((y - x) mod q) 0); [contradiction|].
  replace ((x - y) * (y * Z.invmod (y - x) q)) with (- y * (Z.invmod (y - x) q * (y - x))) by ring.
  rewrite inv_l by assumption. apply cong_eq. ring.
Qed.

Lemma lam_cons y xs x : lam q (y :: xs) x = lterm q x y * lam q xs x.
Proof. reflexivity. Qed.

Lemma sub_mod_nz x y : x mod q <> y mod q -> (x - y) mod q <> 0.
Proof.
  pose proof prime_gt_1 as Q1. intros H E. apply H. apply cong_iff. unfold cong.
  apply Z.mod_divide; [lia|assumption].
Qed.

Lemma distinct_cons x xs : distinct q (x :: xs) <->
  (forall y, In y xs -> x mod q <> y mod q) /\ distinct q xs.
Proof.
  unfold distinct. cbn. rewrite NoDup_cons_iff. split; intros [H K]; (split; [|assumption]).
  - intros y Hy E. apply H. rewrite E. now apply (in_map (fun x => x mod q)).
  - intros E. apply in_map_iff in E as (y & E & Hy). exact (H y Hy (eq_sym E)).
Qed.

(** The two-node identity behind Neville's recursion. *)
Lemma neville_term a b x L :
  (a - x) mod q <> 0 -> (b - x) mod q <> 0 ->
  cong q ((a - b) * (lterm q x a * (lterm q x b * L)))
         (a * (lterm q x b * L) - b * (lterm q x a * L)).
Proof.
  intros Ha Hb. unfold lterm.
  destruct (Z.eqb_spec ((a - x) mod q) 0); [contradiction|].
  destruct (Z.eqb_spec ((b - x) mod q) 0); [contradiction|].
  set (ia := Z.invmod (a - x) q). set (ib := Z.invmod (b - x) q).
  assert (Ia : cong q (ia * (a - x)) 1) by now apply inv_l.
  assert (Ib : cong q (ib * (b - x)) 1) by now apply inv_l.
  replace ((a - b) * (a * ia * (b * ib * L)))
    with (a * b * L * (ib * (ia * (a - x)) - ia * (ib * (b - x)))) by ring.
  rewrite Ia, Ib. apply cong_eq. ring.
Qed.

Lemma zsum_neville a b S :
  (forall x, In x S -> a mod q <> x mod q) -> (forall x, In x S -> b mod q <> x mod q) ->
  cong q ((a - b) * zsum (map (fun x => lterm q x a * (lterm q x b * lam q S x)) S))
    (a * zsum (map (fun x => lterm q x b * lam q S x) S) - b * zsum (map (fun x => lterm q x a * lam q S x) S)).
Proof.
  intros Ha Hb. generalize (lam q S) as L. intros L.
  transitivity (zsum (map (fun x => a * (lterm q x b * L x) + - b * (lterm q x a * L x)) S)).
  - rewrite <- zsum_map_mul_l. apply cong_zsum_map. intros x Hx.
    rewrite neville_term by auto using sub_mod_nz. apply cong_eq. ring.
  - rewrite zsum_map_add, !zsum_map_mul_l. apply cong_eq. ring.
Qed.

(** The coefficients of any non-empty set of distinct nodes sum to 1. *)
Lemma lam_sum xs : distinct q xs -> xs <> [] -> cong q (zsum (map (lam q xs) xs)) 1.
Proof.
  remember (length xs) as n eqn:En. revert xs En.
  induction n as [n IH] using lt_wf_ind. intros [|a [|b S]] En D Hne; [contradiction| |].
  - cbn [map]. rewrite zsum_cons, lam_cons, lterm_self. reflexivity.
  - apply distinct_cons in D as [Da Db]. pose proof Db as Dbs. apply distinct_cons in Db as [Db DS].
    assert (Hab : (a - b) mod q <> 0) by (apply sub_mod_nz, Da; now left).
    assert (Hba : (b - a) mod q <> 0).
    { apply sub_mod_nz. intros E. apply (Da b); [now left|auto]. }
    assert (Das : distinct q (a :: S)).
    { apply distinct_cons. split; [|assumption]. intros y Hy. apply Da. now right. }
    pose proof (IH (length (b :: S)) ltac:(subst; cbn; lia) (b :: S) eq_refl Dbs ltac:(discriminate)) as Sb.
    pose proof (IH (length (a :: S)) ltac:(subst; cbn; lia) (a :: S) eq_refl Das ltac:(discriminate)) as Sa.
    cbn [map] in *. rewrite !zsum_cons in *. rewrite !lam_cons, !lterm_self in *.
    apply (cong_cancel (a - b)); [assumption|].
    pose proof (zsum_neville a b S) as NV. specialize (NV ltac:(intros; apply Da; now right) Db).
    change (map (fun x => ?f x) S) with (map f S).
    change (map (lam q (a :: b :: S)) S) with
      (map (fun x => lterm q x a * (lterm q x b * lam q S x)) S).
    change (map (lam q (b :: S)) S) with (map (fun x => lterm q x b * lam q S x) S) in Sb.
    change (map (lam q (a :: S)) S) with (map (fun x => lterm q x a * lam q S x) S) in Sa.
    set (SB := zsum (map (fun x => lterm q x b * lam q S x) S)) in *.
    set (SA := zsum (map (fun x => lterm q x a * lam q S x) S)) in *.
    rewrite Z.mul_1_l in Sa, Sb. rewrite !Z.mul_1_l, !Z.mul_add_distr_l, NV, !Z.mul_assoc.
    rewrite (lterm_other a b) by assumption.
    replace (a - b) with (- (b - a)) by ring. rewrite !Z.mul_opp_l.
    rewrite (lterm_other b a) by assumption.
    replace (- (b * lam q S a) + (- (- a * lam q S b) + (a * SB - b * SA)))
      with (a * (lam q S b + SB) - b * (lam q S a + SA)) by ring.
    rewrite Sa, Sb. apply cong_eq. ring.
Qed.

(** ** Interpolation *)
Lemma pquot_spec cs x y : peval cs x = peval cs y + (x - y) * peval (pquot cs y) x.
Proof.
  induction cs as [|c cs IH]; [cbn; ring|].
  destruct cs as [|c' cs]; [cbn; ring|].
  set (t := c' :: cs) in *. change (pquot (c :: t) y) with (peval t y :: pquot t y).
  cbn [peval]. rewrite IH at 1. ring.
Qed.

Lemma pquot_length cs y : length (pquot cs y) = pred (length cs).
Proof.
  induction cs as [|c [|c' cs] IH]; [reflexivity..|].
  change (pquot (c :: c' :: cs) y) with (peval (c' :: cs) y :: pquot (c' :: cs) y).
  cbn [length] in *. rewrite IH. reflexivity.
Qed.

Lemma peval_0 cs : peval cs 0 = hd 0 cs.
Proof. destruct cs; cbn; ring. Qed.

Lemma lagrange_at_0 xs cs :
  distinct q xs -> (length cs <= length xs)%nat -> xs <> [] ->
  cong q (zsum (map (fun x => peval cs x * lam q xs x) xs)) (peval cs 0).
Proof.
  revert cs. induction xs as [|a S IH]; intros cs D Hl Hne; [contradiction|].
  destruct S as [|b S].
  - cbn [map]. rewrite zsum_cons, lam_cons, lterm_self.
    destruct cs as [|c [|]]; cbn in *; try lia; apply cong_eq; ring.
  - set (T := b :: S) in *.
    pose proof (lam_sum (a :: T) D ltac:(discriminate)) as HS.
    apply distinct_cons in D as [Da DT].
    specialize (IH (pquot cs a) DT ltac:(rewrite pquot_length; subst T; cbn in *; lia) ltac:(discriminate)).
    rewrite (pquot_spec cs 0 a).
    transitivity (peval cs a * zsum (map (lam q (a :: T)) (a :: T)) +
      zsum (map (fun x => (x - a) * peval (pquot cs a) x * lam q (a :: T) x) (a :: T))).
    { rewrite <- zsum_map_mul_l, <- zsum_map_add. apply cong_zsum_map. intros x _.
      rewrite (pquot_spec cs x a) at 1. apply cong_eq. ring. }
    rewrite HS. cbn [map]. rewrite zsum_cons, Z.sub_diag, !Z.mul_0_l, Z.add_0_l.
    transitivity (peval cs a * 1 + zsum (map (fun x => - a * (peval (pquot cs a) x * lam q T x)) T)).
    { apply cong_add; [reflexivity|]. apply cong_zsum_map. intros x Hx. rewrite lam_cons.
      replace ((x - a) * peval (pquot cs a) x * (lterm q x a * lam q T x))
        with ((x - a) * lterm q x a * (peval (pquot cs a) x * lam q T x)) by ring.
      rewrite lterm_other by (apply sub_mod_nz, Da, Hx). reflexivity. }
    rewrite zsum_map_mul_l, IH. apply cong_eq. ring.
Qed.
End Prime.

(** Exponents of an element of known order. *)
Lemma pow_mod_order h n m a b : 0 <= a -> 0 <= b -> cong n (h ^ m) 1 -> 0 < m -> a = b mod m ->
  cong n (h ^ a) (h ^ b).
Proof.
  intros Ha Hb Ho Hm ->. rewrite (Z.div_mod b m) at 2 by lia.
  rewrite Z.pow_add_r by (try apply Z.mul_nonneg_nonneg; try apply Z.div_pos; lia).
  rewrite Z.pow_mul_r by (try apply Z.div_pos; lia).
  rewrite (cong_pow _ _ _ (b / m) Ho), Z.pow_1_l by (apply Z.div_pos; lia). apply cong_eq. ring.
Qed.
