(* ===== verification/Vss.v ===== *)
(** * Package [crypto/vss]: Feldman verifiable secret sharing

    [crypto/vss/feldman_vss.go].  [Create] samples a polynomial with the secret
    as constant term, commits to its coefficients in the exponent and evaluates
    it at the parties' indexes; [Verify] checks one share against the
    commitments; [ReConstruct] interpolates at 0. *)
From Stdlib Require Import ZArith String List Lia Bool Zdivisibility Zcong.
From S2P Require Import Prelude GoBig Common Curve CtMul Field.
Import ListNotations.
Open Scope string_scope.
Open Scope Z_scope.
Open Scope list_scope.

Record Share := { Threshold : Z; ID : Z; share : Z }.

Definition ErrNumSharesBelowThreshold : string := "not enough shares to satisfy the threshold".

(** [visited] is the map from the decimal string of the reduced index. *)
Definition CheckIndexes (c : Curve) (indexes : list Z) : res (list Z) :=
  let! _ := foldM (fun visited v =>
    let! vMod := Mod v (cN c) in
    if Cmp vMod 0 =? 0 then Err "party index should not be 0"
    else if existsb (Z.eqb vMod) visited then Err "duplicate indexes "
    else Ok (vMod :: visited)) [] indexes in
  Ok indexes.

Definition samplePolynomial (c : Curve) (threshold : Z) (secret : option Z) : rnd (list (option Z)) :=
  let~ ais := rmapM (fun _ => GetRandomPositiveInt (Some (cN c))) (seq 1 (Z.to_nat threshold)) in
  rret (secret :: ais).

Definition evaluatePolynomial (c : Curve) (threshold : Z) (v : list (option Z)) (id : Z) : res Z :=
  let q := cN c in
  let! v0 := idx v 0 in
  let! v0 := deref v0 in
  let! st := foldM (fun st i =>
    let! ai := idx v i in
    let '(result, X) := st in
    let! X := modInt_Mul q X id in
    let! ai := deref ai in
    let aiXi := ai * X in
    let! result := modInt_Add q result aiXi in
    Ok (result, X)) (v0, 1) (seq 1 (Z.to_nat threshold)) in
  Ok (fst st).

Section Defs.
Context `{CS : Curves} `{SL : Secp256k1Lib} `{EL : Ed25519Lib}.

Definition ctScalarBaseMult (c : Curve) (k : option Z) (sys : reader) : res (option ECPoint * reader) :=
  if curve_eqb c S256 then ctmul_ScalarBaseMult c k sys
  else if curve_eqb c Edwards then
    let! k := deref k in
    let! P := CTScalarBaseMultEd25519 c k in Ok (Some P, sys)
  else
    let! k := deref k in
    let! P := ScalarBaseMult c k in Ok (Some P, sys).

(** [sys] is the system reader that blinds the commitments, and what is left of it
    is returned with the result; the polynomial is drawn from the caller's reader. *)
Definition Create (c : Curve) (threshold : Z) (secret : option Z) (indexes : option (list Z)) (sys : reader)
  : rnd (list (option ECPoint) * list Share * reader) :=
  match secret, indexes with
  | Some _, Some indexes =>
    let~ _ := rlift (guard (negb (threshold <? 1)) "vss threshold < 1") in
    let~ ids := rlift (CheckIndexes c indexes) in
    let num := Z.of_nat (length indexes) in
    let~ _ := rlift (guard (negb (num <? threshold)) ErrNumSharesBelowThreshold) in
    let~ poly := samplePolynomial c threshold secret in
    let~ v := rlift (rmapM (fun ai => ctScalarBaseMult c ai) poly sys) in
    let~ shares := rlift (mapM (fun id =>
      let! s := evaluatePolynomial c threshold poly id in
      Ok {| Threshold := threshold; ID := id; share := s |}) ids) in
    rret (fst v, shares, snd v)
  | _, _ => rlift (Err "vss secret or indexes == nil: ")
  end.
End Defs.

(** [SetCurve] also rewrites the curve of the commitments it is given, to [ec]. *)
Definition Share_Verify (s : Share) (c : Curve) (threshold : Z) (vs : option (list (option ECPoint)))
  : res bool :=
  match vs with
  | None => Ok false
  | Some vs =>
    if negb (Threshold s =? threshold) || negb (Z.of_nat (length vs) =? threshold + 1) then Ok false
    else
      let! v := idx vs 0 in
      or_false (
        let! st := foldM (fun st j =>
          let! vj := idx vs j in
          let '(v, t) := st in
          let! t := modInt_Mul (cN c) t (ID s) in
          let! vj := deref vj in
          let! vjt := ECPoint_ScalarMult (ECPoint_SetCurve vj c) t in
          let! v := deref v in
          let! v := ECPoint_Add (ECPoint_SetCurve v c) vjt in
          Ok (Some v, t)) (v, 1) (seq 1 (Z.to_nat threshold)) in
        let! sigmaGi := ScalarBaseMult c (share s) in
        ECPoint_Equals (Some sigmaGi) (fst st))
  end.

Definition ReConstruct (c : Curve) (shares : list Share) : res Z :=
  match shares with
  | [] => Err "no shares provided"
  | s0 :: _ =>
    if Z.of_nat (length shares) <? Threshold s0 then Err ErrNumSharesBelowThreshold
    else
      let modN := cN c in
      let xs := map ID shares in
      foldM (fun secret '(i, sh) =>
        let! times := foldM (fun times '(j, xj) =>
          if (j =? i)%nat then Ok times
          else
            let! sub := modInt_Sub modN xj (ID sh) in
            let! subInv := modInt_ModInverse modN sub in
            match subInv with
            | None => Err "modular inverse does not exist (duplicate share IDs at index)"
            | Some subInv =>
              let! div := modInt_Mul modN xj subInv in
              modInt_Mul modN times div
            end) 1 (enum xs) in
        let! fTimes := modInt_Mul modN (share sh) times in
        modInt_Add modN secret fTimes) 0 (enum shares)
  end.

(** ** Lemmas *)
Section Proofs.
Context {C : Curve} {pt : Z -> Z * Z} {id_on : bool} {L : CurveLaws C pt id_on}.
Abbreviation N := (cN C).
Abbreviation pnt := (mkpt C pt).

Lemma N_prime : Z.prime N.
Proof. apply (cl_prime (CurveLaws := L)). Qed.
Lemma N_pos : 1 < N.
Proof. apply (cl_N_pos (L := L)). Qed.

(** *** Indexes *)
Lemma check_loop visited l :
  is_ok (foldM (fun visited v =>
    let! vMod := Mod v N in
    if Cmp vMod 0 =? 0 then Err "party index should not be 0"
    else if existsb (Z.eqb vMod) visited then Err "duplicate indexes "
    else Ok (vMod :: visited)) visited l) = true <->
  Forall (fun v => v mod N <> 0) l /\ distinct N l /\ (forall v, In v l -> ~ In (v mod N) visited).
Proof.
  pose proof N_pos as HN. revert visited. induction l as [|v l IH]; intros visited; cbn [foldM].
  - cbn. split; [|reflexivity]. intros _. repeat split; [constructor|constructor|tauto].
  - rewrite Mod_ok by lia. cbn [rbind]. rewrite Cmp_eq, distinct_cons.
    destruct (Z.eqb_spec (v mod N) 0) as [E|E]; cbn [rbind].
    { split; [discriminate|]. intros (H & _). inversion_clear H. contradiction. }
    destruct (existsb (Z.eqb (v mod N)) visited) eqn:X; cbn [rbind].
    { split; [discriminate|]. intros (_ & _ & H). apply existsb_exists in X as (y & Hy & Ey).
      apply Z.eqb_eq in Ey. subst y. exfalso. apply (H v); [now left|assumption]. }
    assert (Hv : ~ In (v mod N) visited).
    { intros Hy. rewrite <- not_true_iff_false in X. apply X, existsb_exists.
      exists (v mod N). rewrite Z.eqb_refl. auto. }
    rewrite IH. split.
    + intros (H1 & H2 & H3). split; [now constructor|]. split; [split; [|assumption]|].
      * intros y Hy Ey. apply (H3 y Hy). rewrite Ey. now left.
      * intros y [<-|Hy]; [assumption|]. intros K. apply (H3 y Hy). now right.
    + intros (H1 & [H2 H3] & H4). inversion_clear H1. split; [assumption|]. split; [assumption|].
      intros y Hy [Ey|Ky]; [now apply (H2 y)|]. apply (H4 y); [now right|assumption].
Qed.

Lemma CheckIndexes_ok l : CheckIndexes C l = Ok l <->
  Forall (fun v => v mod N <> 0) l /\ distinct N l.
Proof.
  unfold CheckIndexes. pose proof (check_loop [] l) as K.
  destruct (foldM _ [] l) as [vis| |]; cbn [rbind is_ok] in *.
  - split; [intros _|reflexivity]. destruct K as [K _]. destruct (K eq_refl) as (? & ? & _). auto.
  - split; [discriminate|]. intros [H1 H2]. assert (false = true) by (apply K; auto). discriminate.
  - split; [discriminate|]. intros [H1 H2]. assert (false = true) by (apply K; auto). discriminate.
Qed.

(** *** Evaluation *)
Definition eval_step (id : Z) (st : Z * Z) (ai : option Z) : res (Z * Z) :=
  let '(result, X) := st in
  let! X := modInt_Mul N X id in
  let! ai := deref ai in
  let aiXi := ai * X in
  let! result := modInt_Add N result aiXi in
  Ok (result, X).

Lemma eval_fold id l : forall r X, exists r' X',
  foldM (eval_step id) (r, X) (map Some l) = Ok (r', X') /\
  cong N r' (r + X * id * peval l id) /\ (l <> [] -> 0 <= r' < N).
Proof.
  pose proof N_pos as HN. induction l as [|a l IH]; intros r X.
  - exists r, X. split; [reflexivity|]. split; [apply cong_eq; cbn; ring|contradiction].
  - cbn [map foldM]. unfold eval_step at 1. rewrite modInt_Mul_ok by lia. cbn [rbind deref].
    rewrite modInt_Add_ok by lia. cbn [rbind].
    destruct (IH ((r + a * ((X * id) mod N)) mod N) ((X * id) mod N)) as (r' & X' & E & Ec & Er).
    exists r', X'. split; [exact E|]. split.
    + rewrite Ec, !cong_mod. apply cong_eq. cbn [peval]. ring.
    + intros _. destruct l as [|b l]; [|apply Er; discriminate].
      cbn in E. injection E as <- _. apply Z.mod_pos_bound. lia.
Qed.

Lemma evaluatePolynomial_ok t a0 l id : Z.to_nat t = length l -> (0 < t) ->
  evaluatePolynomial C t (map Some (a0 :: l)) id = Ok (peval (a0 :: l) id mod N).
Proof.
  intros Ht Hp. pose proof N_pos as HN. unfold evaluatePolynomial. cbn [map idx nth_error rbind deref].
  match goal with |- context [foldM ?f ?s (seq 1 ?n)] =>
    replace (foldM f s (seq 1 n)) with (foldM (eval_step id) s (map Some l))
      by (symmetry; apply (foldM_idx1 (eval_step id)); now rewrite length_map) end.
  destruct (eval_fold id l a0 1) as (r' & X' & -> & Ec & Er). cbn [rbind fst]. f_equal.
  specialize (Er ltac:(intros ->; cbn in Ht; lia)).
  rewrite <- (Z.mod_small r' N) by assumption. apply cong_iff. rewrite Ec. apply cong_eq. cbn [peval]. ring.
Qed.

(** *** Verification *)
Definition verify_step (id : Z) (st : option ECPoint * Z) (vj : option ECPoint) : res (option ECPoint * Z) :=
  let '(v, t) := st in
  let! t := modInt_Mul N t id in
  let! vj := deref vj in
  let! vjt := ECPoint_ScalarMult (ECPoint_SetCurve vj C) t in
  let! v := deref v in
  let! v := ECPoint_Add (ECPoint_SetCurve v C) vjt in
  Ok (Some v, t).

Lemma Share_Verify_unfold s0 t a0 l : Threshold s0 = t -> t = Z.of_nat (length l) ->
  Share_Verify s0 C t (Some (map (fun a => Some (pnt a)) (a0 :: l))) =
  or_false (
    let! st := foldM (verify_step (ID s0)) (Some (pnt a0), 1) (map (fun a => Some (pnt a)) l) in
    let! sigmaGi := ScalarBaseMult C (share s0) in
    ECPoint_Equals (Some sigmaGi) (fst st)).
Proof.
  intros Ht Hl. unfold Share_Verify.
  rewrite length_map, Ht, Z.eqb_refl. cbn [length].
  rewrite (proj2 (Z.eqb_eq _ _)) by lia. cbn [negb orb map idx nth_error rbind].
  match goal with |- context [foldM ?f ?s (seq 1 ?n)] =>
    replace (foldM f s (seq 1 n)) with (foldM (verify_step (ID s0)) s (map (fun a => Some (pnt a)) l)) end.
  - reflexivity.
  - symmetry. apply (foldM_idx1 (verify_step (ID s0))). rewrite length_map. lia.
Qed.

(** Whatever the loop returns is the evaluation in the exponent. *)
Lemma verify_fold_inv id l : forall b t v t', 0 <= t ->
  foldM (verify_step id) (Some (pnt b), t) (map (fun a => Some (pnt a)) l) = Ok (v, t') ->
  v = Some (pnt (b + t * id * peval l id)).
Proof.
  pose proof N_pos as HN. induction l as [|a l IH]; intros b t v t' Ht H.
  - cbn in H. inv_res. do 2 f_equal. cbn. ring.
  - cbn [map foldM] in H. unfold verify_step at 1 in H. rewrite modInt_Mul_ok in H by lia.
    cbn [rbind deref] in H. rewrite ECPoint_SetCurve_pt in H.
    pose proof (Z.mod_pos_bound (t * id) N ltac:(lia)) as Hm.
    rewrite ECPoint_ScalarMult_pt in H by lia.
    destruct (on_c C id_on ((t * id) mod N * a)); [|discriminate]. cbn [rbind] in H.
    rewrite ECPoint_SetCurve_pt, ECPoint_Add_pt in H.
    destruct (on_c C id_on (b + (t * id) mod N * a)); [|discriminate]. cbn [rbind] in H.
    apply IH in H; [|lia]. rewrite H. f_equal. apply mkpt_cong.
    cbn [peval]. rewrite !cong_mod. apply cong_eq. ring.
Qed.

(** The intermediate points that the loop wraps are all on the curve: on an
    Edwards curve always, on a Weierstrass curve when none is the identity. *)
Fixpoint partial_on (id b t : Z) (l : list Z) : bool :=
  match l with
  | [] => true
  | a :: l =>
    let t := (t * id) mod N in
    on_c C id_on (t * a) && on_c C id_on (b + t * a) && partial_on id (b + t * a) t l
  end.

Lemma verify_fold_total id l : forall b t, 0 <= t -> partial_on id b t l = true ->
  exists v t', foldM (verify_step id) (Some (pnt b), t) (map (fun a => Some (pnt a)) l) = Ok (v, t').
Proof.
  pose proof N_pos as HN. induction l as [|a l IH]; intros b t Ht Hon; [cbn; eauto|].
  cbn [partial_on] in Hon. rewrite !andb_true_iff in Hon. destruct Hon as ((H1 & H2) & H3).
  cbn [map foldM]. unfold verify_step at 1.
  rewrite modInt_Mul_ok by lia. cbn [rbind deref]. rewrite ECPoint_SetCurve_pt.
  pose proof (Z.mod_pos_bound (t * id) N ltac:(lia)) as Hm.
  rewrite ECPoint_ScalarMult_pt, H1 by lia. cbn [rbind].
  rewrite ECPoint_SetCurve_pt, ECPoint_Add_pt, H2. cbn [rbind].
  apply IH; [lia|assumption].
Qed.

(** *** Reconstruction *)
Lemma times_fold idi i l : forall t0,
  Forall (fun '(j, xj) => j = i /\ xj = idi \/ j <> i /\ (xj - idi) mod N <> 0) l ->
  exists t, foldM (fun times '(j, xj) =>
      if (j =? i)%nat then Ok times
      else
        let! sub := modInt_Sub N xj idi in
        let! subInv := modInt_ModInverse N sub in
        match subInv with
        | None => Err "modular inverse does not exist (duplicate share IDs at index)"
        | Some subInv =>
          let! div := modInt_Mul N xj subInv in
          modInt_Mul N times div
        end) t0 l = Ok t /\ cong N t (t0 * lam N (map snd l) idi).
Proof.
  pose proof N_pos as HN. induction l as [|[j xj] l IH]; intros t0 F.
  - exists t0. split; [reflexivity|]. apply cong_eq. cbn. ring.
  - inversion_clear F as [|? ? Hj F']. cbn [foldM map snd]. rewrite lam_cons.
    destruct Hj as [[-> ->]|[Hj Hx]].
    + rewrite Nat.eqb_refl. cbn [rbind]. rewrite (lterm_self N N_prime), Z.mul_1_l. auto.
    + rewrite (proj2 (Nat.eqb_neq _ _)) by assumption.
      rewrite modInt_Sub_ok by lia. cbn [rbind].
      rewrite modInt_ModInverse_ok by (try lia; apply (prime_gcd N N_prime); now rewrite Z.mod_mod by lia).
      cbn [rbind]. rewrite !modInt_Mul_ok by lia. cbn [rbind]. rewrite modInt_Mul_ok by lia. cbn [rbind].
      destruct (IH ((t0 * ((xj * Z.invmod ((xj - idi) mod N) N) mod N)) mod N) F')
        as (t & -> & Et). exists t. split; [reflexivity|].
      rewrite Et, !cong_mod, Z.invmod_mod_l. unfold lterm.
      rewrite (proj2 (Z.eqb_neq _ _)) by assumption. apply cong_eq. ring.
Qed.

Definition reconstruct_step (xs : list Z) (secret : Z) (p : nat * Share) : res Z :=
  let '(i, sh) := p in
  let! times := foldM (fun times '(j, xj) =>
    if (j =? i)%nat then Ok times
    else
      let! sub := modInt_Sub N xj (ID sh) in
      let! subInv := modInt_ModInverse N sub in
      match subInv with
      | None => Err "modular inverse does not exist (duplicate share IDs at index)"
      | Some subInv =>
        let! div := modInt_Mul N xj subInv in
        modInt_Mul N times div
      end) 1 (enum xs) in
  let! fTimes := modInt_Mul N (share sh) times in
  modInt_Add N secret fTimes.

Lemma distinct_nth xs i j x y : distinct N xs ->
  nth_error xs i = Some x -> nth_error xs j = Some y -> i <> j -> y mod N <> x mod N.
Proof.
  unfold distinct. intros D Hi Hj Hn E. apply Hn.
  apply (NoDup_nth_error (map (fun x => x mod N) xs)); [assumption| |].
  - rewrite length_map. apply nth_error_Some. congruence.
  - rewrite !nth_error_map, Hi, Hj. cbn. congruence.
Qed.

Lemma reconstruct_fold xs : distinct N xs -> forall l s0, 0 <= s0 < N ->
  (forall i sh, In (i, sh) l -> nth_error xs i = Some (ID sh)) ->
  exists s, foldM (reconstruct_step xs) s0 l = Ok s /\ 0 <= s < N /\
    cong N s (s0 + zsum (map (fun sh => share sh * lam N xs (ID sh)) (map snd l))).
Proof.
  pose proof N_pos as HN. intros D l. induction l as [|[i sh] l IH]; intros s0 Hs F.
  - exists s0. split; [reflexivity|]. split; [assumption|]. apply cong_eq. cbn. ring.
  - cbn [foldM map snd]. unfold reconstruct_step at 1.
    destruct (times_fold (ID sh) i (enum xs) 1) as (t & -> & Et).
    { apply Forall_forall. intros [j xj] Hj. apply enum_In in Hj.
      pose proof (F i sh (or_introl eq_refl)) as Hi.
      destruct (Nat.eq_dec j i) as [->|Hne]; [left; split; congruence|right; split; [assumption|]].
      apply (sub_mod_nz N N_prime). apply (distinct_nth xs i j); auto. }
    cbn [rbind]. rewrite modInt_Mul_ok by lia. cbn [rbind]. rewrite modInt_Add_ok by lia. cbn [rbind].
    destruct (IH ((s0 + (share sh * t) mod N) mod N)) as (s & -> & Hr & Es).
    { apply Z.mod_pos_bound. lia. }
    { intros i' sh' Hin. apply F. now right. }
    exists s. split; [reflexivity|]. split; [assumption|].
    rewrite Es, zsum_cons, !cong_mod, Et, enum_snd. apply cong_eq. ring.
Qed.

(** [ReConstruct] returns the value at 0 of the polynomial that the shares lie
    on, for any set of distinct indexes with more shares than its degree. *)
Lemma ReConstruct_poly shares cs :
  shares <> [] -> distinct N (map ID shares) ->
  (length cs <= length shares)%nat ->
  (forall sh, In sh shares -> Threshold sh <= Z.of_nat (length shares)) ->
  (forall sh, In sh shares -> cong N (share sh) (peval cs (ID sh))) ->
  ReConstruct C shares = Ok (peval cs 0 mod N).
Proof.
  pose proof N_pos as HN. intros Hne D Hl Ht Hs. destruct shares as [|s0 shares]; [contradiction|].
  set (shs := s0 :: shares) in *.
  assert (E : ReConstruct C shs = foldM (reconstruct_step (map ID shs)) 0 (enum shs)).
  { unfold ReConstruct. subst shs. cbv beta iota. pose proof (Ht s0 (or_introl eq_refl)).
    now rewrite (proj2 (Z.ltb_ge _ _)) by assumption. }
  rewrite E. destruct (reconstruct_fold (map ID shs) D (enum shs) 0) as (s & -> & Hr & Es); [lia| |].
  { intros i sh Hi. apply enum_In in Hi. now rewrite nth_error_map, Hi. }
  f_equal. rewrite <- (Z.mod_small s N) by assumption. apply cong_iff.
  rewrite Es, enum_snd, Z.add_0_l.
  rewrite <- (lagrange_at_0 N N_prime (map ID shs) cs); [|assumption|now rewrite length_map|discriminate].
  rewrite map_map. apply cong_zsum_map. intros sh Hsh. now rewrite (Hs sh Hsh).
Qed.
End Proofs.

(** ** Creation *)
Section CreateProofs.
Context `{CS : Curves} `{SL : Secp256k1Lib} `{EL : Ed25519Lib}.
Context {C : Curve} {pt : Z -> Z * Z} {id_on : bool} {L : CurveLaws C pt id_on} {CT : CtCurve C pt id_on}.
Context (Hne : curve_eqb S256 Edwards = false).
Abbreviation N := (cN C).
Abbreviation pnt := (mkpt C pt).

Lemma ctScalarBaseMult_dispatch k sys :
  ctScalarBaseMult C (Some k) sys = ScalarBaseMultWithRand C (Some k) sys.
Proof.
  unfold ctScalarBaseMult, ctmul_ScalarBaseMult, ScalarBaseMultWithRand.
  destruct (curve_eqb C S256) eqn:E1, (curve_eqb C Edwards) eqn:E2; cbn [negb].
  - unfold curve_eqb in *. apply String.eqb_eq in E1, E2. rewrite E1 in E2.
    rewrite E2, String.eqb_refl in Hne. discriminate.
  - reflexivity.
  - unfold rnd_bind, rlift, rret. cbn [rbind deref fst snd].
    destruct (CTScalarBaseMultEd25519 C k); reflexivity.
  - unfold rnd_bind, rlift, rret. cbn [rbind deref fst snd].
    destruct (ScalarBaseMult C k); reflexivity.
Qed.

Lemma sample_coeffs n : forall r ais r' k, Forall is_byte r ->
  rmapM (fun _ : nat => GetRandomPositiveInt (Some N)) (seq k n) r = Ok (ais, r') ->
  exists cs, ais = map Some cs /\ length cs = n /\ Forall (fun a => 1 <= a < N) cs /\ Forall is_byte r'.
Proof.
  pose proof (cl_N_pos (L := L)) as HN.
  induction n as [|n IH]; intros r ais r' k Hr H; cbn [seq rmapM] in H; inv_res.
  - exists []. auto.
  - match goal with E : GetRandomPositiveInt (Some N) r = Ok (?o, ?s) |- _ =>
      destruct o as [a|];
      [apply GetRandomPositiveInt_range in E as [Ra Fs]; [|assumption]
      |unfold GetRandomPositiveInt in E; rewrite Cmp_lt in E;
       rewrite (proj2 (Z.ltb_lt _ _)) in E by lia; cbn [negb] in E;
       unfold Cmp in E; destruct (Z.compare_spec N 1) in E; try lia; cbn in E; inv_res; discriminate] end.
    match goal with E : rmapM _ _ _ = Ok _ |- _ => apply IH in E as (cs & -> & Hl & Hc & Hf); [|assumption] end.
    exists (a :: cs). cbn. auto.
Qed.

Lemma samplePolynomial_inv t s r poly r' : Forall is_byte r ->
  samplePolynomial C t (Some s) r = Ok (poly, r') ->
  exists cs, poly = map Some (s :: cs) /\ length cs = Z.to_nat t /\
    Forall (fun a => 1 <= a < N) cs /\ Forall is_byte r'.
Proof.
  intros Hr H. unfold samplePolynomial in H. inv_res.
  match goal with E : rmapM _ _ _ = Ok _ |- _ => apply sample_coeffs in E as (cs & -> & ? & ? & ?); [|assumption] end.
  exists cs. auto.
Qed.

Lemma commit_all l rest : forall sys, Forall (fun a => 0 <= a) l -> Forall is_byte sys ->
  ct_healthy_n (length l + rest) sys ->
  exists sys', Forall is_byte sys' /\ ct_healthy_n rest sys' /\ rmapM (fun ai => ctScalarBaseMult C ai) (map Some l) sys =
    Ok (map (fun a => Some (pnt a)) l, sys').
Proof.
  induction l as [|a l IH]; intros sys Hp Hb Hh; cbn [map rmapM]; [unfold rret; eauto|].
  destruct Hh as [H1 H2]. inversion_clear Hp. unfold rnd_bind, rret in *.
  rewrite ctScalarBaseMult_dispatch, ct_base_total by assumption. cbn [rbind fst snd].
  destruct (IH (ct_rest sys)) as (sys' & F & Hr & ->); auto using ct_rest_byte. cbn [rbind fst snd]. eauto.
Qed.

(** The shares of a polynomial. *)
Definition shares_of (t : Z) (cs : list Z) (ids : list Z) : list Share :=
  map (fun id => {| Threshold := t; ID := id; share := peval cs id mod N |}) ids.

Lemma Create_run t s ids sys r poly r' rest
  (Ht : 1 <= t) (Hn : t <= Z.of_nat (length ids)) (Hi : CheckIndexes C ids = Ok ids) (Hs : 0 <= s)
  (Hr : Forall is_byte r) (Hp : samplePolynomial C t (Some s) r = Ok (poly, r'))
  (Hsys : Forall is_byte sys) (Hh : ct_healthy_n (length poly + rest) sys) :
  exists cs sys', poly = map Some (s :: cs) /\ Forall is_byte sys' /\ ct_healthy_n rest sys' /\ length cs = Z.to_nat t /\ Forall (fun a => 1 <= a < N) cs /\
    Create C t (Some s) (Some ids) sys r =
    Ok ((map (fun a => Some (pnt a)) (s :: cs), shares_of t (s :: cs) ids, sys'), r').
Proof.
  destruct (samplePolynomial_inv _ _ _ _ _ Hr Hp) as (cs & -> & Hl & Hc & Hf).
  destruct (commit_all (s :: cs) rest sys) as (sys' & Fs & Hr' & Ec); auto.
  { constructor; [assumption|]. eapply Forall_impl; [|exact Hc]. cbn. lia. }
  { now rewrite length_map in Hh. }
  exists cs, sys'. do 5 (split; [assumption || reflexivity|]).
  unfold Create, rnd_bind, rlift, rret.
  rewrite (proj2 (Z.ltb_ge t 1)), (proj2 (Z.ltb_ge (Z.of_nat (length ids)) t)) by lia.
  cbn [negb guard rbind fst snd]. rewrite Hi. cbn [rbind fst snd]. rewrite Hp. cbn [rbind fst snd].
  rewrite Ec. cbn [rbind fst snd].
  rewrite (mapM_ok _ (fun id => {| Threshold := t; ID := id; share := peval (s :: cs) id mod N |})).
  - reflexivity.
  - intros id _. rewrite evaluatePolynomial_ok by lia. reflexivity.
Qed.

Lemma commit_all_inv l : forall sys vs sys', Forall (fun a => 0 <= a) l -> Forall is_byte sys ->
  rmapM (fun ai => ctScalarBaseMult C ai) (map Some l) sys = Ok (vs, sys') ->
  vs = map (fun a => Some (pnt a)) l /\ Forall is_byte sys'.
Proof.
  induction l as [|a l IH]; intros sys vs sys' Hp Hb H; cbn [map rmapM] in H; inv_res; [auto|].
  inversion_clear Hp. match goal with E : ctScalarBaseMult C _ _ = _ |- _ =>
    rewrite ctScalarBaseMult_dispatch in E; apply ct_base in E as [-> F]; [|assumption|assumption] end.
  match goal with E : rmapM _ _ _ = Ok _ |- _ => apply IH in E as [-> F']; [|assumption|assumption] end. auto.
Qed.

(** A dealing that succeeded, taken apart. *)
Lemma Create_inv t s ids sys r vs shares sys' r' : 0 <= s -> Forall is_byte r -> Forall is_byte sys ->
  Create C t (Some s) (Some ids) sys r = Ok ((vs, shares, sys'), r') ->
  1 <= t /\ exists cs, length cs = Z.to_nat t /\ vs = map (fun a => Some (pnt a)) (s :: cs) /\
    shares = shares_of t (s :: cs) ids /\ Forall is_byte sys' /\ Forall is_byte r'.
Proof.
  intros Hs Hr Hsys H. unfold Create in H. apply rnd_bind_ok in H as ([] & r0 & E0 & H). apply rlift_ok in E0 as [E0 <-].
  apply guard_ok, negb_true_iff, Z.ltb_ge in E0.
  apply rnd_bind_ok in H as (ids' & r1 & E1 & H). apply rlift_ok in E1 as [E1 <-].
  assert (ids' = ids) as -> by (unfold CheckIndexes in E1; apply rbind_ok in E1 as (? & _ & E1); now injection E1).
  apply rnd_bind_ok in H as ([] & r2 & E2 & H). apply rlift_ok in E2 as [E2 <-].
  apply rnd_bind_ok in H as (poly & r3 & E3 & H).
  destruct (samplePolynomial_inv _ _ _ _ _ Hr E3) as (cs & -> & Hl & Hc & Fr).
  apply rnd_bind_ok in H as ([v sys1] & r4 & E4 & H). apply rlift_ok in E4 as [E4 <-].
  apply commit_all_inv in E4 as [-> Fs]; [| |assumption].
  2: { constructor; [assumption|]. eapply Forall_impl; [|exact Hc]. cbn. lia. }
  apply rnd_bind_ok in H as (sh & r5 & E5 & H). apply rlift_ok in E5 as [E5 <-]. injection H as <- <- <- <-.
  split; [lia|]. exists cs. split; [assumption|]. split; [reflexivity|]. split; [|split; [exact Fs|exact Fr]].
  rewrite (mapM_ok _ (fun id => {| Threshold := t; ID := id; share := peval (s :: cs) id mod N |})) in E5.
  - now injection E5.
  - intros id _. now rewrite evaluatePolynomial_ok by lia.
Qed.

Lemma partial_on_edwards id l b t : id_on = true -> partial_on (C := C) (id_on := id_on) id b t l = true.
Proof.
  intros ->. revert b t. induction l as [|a l IH]; intros b t; cbn [partial_on]; [reflexivity|].
  unfold on_c at 1 2. cbn [orb andb]. apply IH.
Qed.
End CreateProofs.

(** ** Properties *)
Section Properties.
Context {C : Curve} {pt : Z -> Z * Z} {id_on : bool} {L : CurveLaws C pt id_on}.
Abbreviation N := (cN C).
Abbreviation pnt := (mkpt C pt).


(** With [threshold + 1] or more of a dealer's shares [ReConstruct] returns the
    secret, whichever parties they belong to. *)
Theorem ReConstruct_shares_of t s cs ids
  (Hl : length cs = Z.to_nat t) (Ht : 1 <= t) (Hn : t + 1 <= Z.of_nat (length ids))
  (Hi : CheckIndexes C ids = Ok ids) :
  ReConstruct C (shares_of (C := C) t (s :: cs) ids) = Ok (s mod N).
Proof.
  apply CheckIndexes_ok in Hi as [_ D]. unfold shares_of.
  replace (s mod N) with (peval (s :: cs) 0 mod N) by (now rewrite peval_0).
  apply (ReConstruct_poly (L := L)).
  - destruct ids; [cbn in Hn; lia|discriminate].
  - rewrite map_map. cbn [ID]. now rewrite map_id.
  - rewrite length_map. cbn [length]. lia.
  - intros sh Hsh. apply in_map_iff in Hsh as (id & <- & _). rewrite length_map. cbn [Threshold]. lia.
  - intros sh Hsh. apply in_map_iff in Hsh as (id & <- & _). cbn [share ID]. apply cong_mod.
Qed.

(** [CheckIndexes] accepts exactly the lists of indexes that are non-zero and
    pairwise distinct modulo the group order. *)
Theorem CheckIndexes_iff ids : CheckIndexes C ids = Ok ids <->
  Forall (fun v => v mod N <> 0) ids /\ distinct N ids.
Proof. apply CheckIndexes_ok. Qed.

(** [ReConstruct] does not reject [threshold] shares: with one share of a
    degree-1 sharing it returns that share as the secret. *)
Theorem ReConstruct_accepts_threshold_shares s a id :
  ReConstruct C (shares_of (C := C) 1 [s; a] [id]) = Ok ((s + a * id) mod N).
Proof.
  pose proof (N_pos (L := L)) as HN. unfold ReConstruct, shares_of.
  cbn -[modInt_Mul modInt_Add modInt_Sub Z.mul Z.add Z.modulo].
  rewrite modInt_Mul_ok by lia. cbn [rbind]. rewrite modInt_Add_ok by lia. cbn [rbind].
  f_equal. rewrite Z.add_0_l. mod_ring.
Qed.
End Properties.


(** ** The theorems at concrete inputs: the toy curves, 3 parties, threshold 1. *)
Definition w_ids : list Z := [1; 2; 3].
Definition w_reader : reader := repeat 9 8.


Lemma ReConstruct_shares_of_witness :
  ReConstruct toy256 (shares_of (C := toy256) 1 [5; 7] [1; 3]) = Ok (5 mod 31).
Proof. apply (ReConstruct_shares_of (L := toy256_laws)); reflexivity || lia. Defined.

Lemma CheckIndexes_iff_witness : CheckIndexes toy256 [1; 32] <> Ok [1; 32].
Proof.
  intros H. apply (proj1 (CheckIndexes_iff (L := toy256_laws) _)) in H as [_ D].
  inversion_clear D as [|? ? Hn _]. apply Hn. left. reflexivity.
Defined.

Lemma ReConstruct_accepts_threshold_shares_witness :
  ReConstruct toy256 (shares_of (C := toy256) 1 [5; 7] [2]) = Ok 19 /\ 19 <> 5.
Proof.
  split; [|lia]. exact (ReConstruct_accepts_threshold_shares (L := toy256_laws) 5 7 2).
Defined.

