(* ===== verification/Commit.v ===== *)
(** * Package [crypto/commitments]

    [commitment.go]: hash commitments to lists of integers;
    [commitment_builder.go]: the length-prefixed encoding of several parts into
    one list, and its parser. *)
From Stdlib Require Import ZArith String List Lia Bool.
From S2P Require Import Prelude GoBig Common.
Import ListNotations.
Open Scope string_scope.
Open Scope Z_scope.
Open Scope list_scope.

(** ** commitment.go *)
Definition HashLength : Z := 256.

(** [D] may be a nil slice; its entries may be nil integers. *)
Record HashCommitDecommit := { cmtC : option Z; cmtD : option (list (option Z)) }.

Section Commitment.
Context `{Hash}.

Definition NewHashCommitmentWithRandomness (r : option Z) (secrets : list (option Z)) : HashCommitDecommit :=
  let parts := r :: secrets in
  {| cmtC := SHA512_256i parts; cmtD := Some parts |}.

Definition NewHashCommitment (secrets : list (option Z)) : rnd HashCommitDecommit :=
  let~ r := MustGetRandomInt HashLength in
  rret (NewHashCommitmentWithRandomness (Some r) secrets).

Definition NewHashDeCommitmentFromBytes (marshalled : list bytes) : list (option Z) :=
  map Some (MultiBytesToBigInts marshalled).

(** The hash of an empty (non-nil) [D] is nil and comparing it panics. *)
Definition HashCommitDecommit_Verify (cmt : HashCommitDecommit) : res bool :=
  match cmtC cmt, cmtD cmt with
  | Some C, Some D =>
    let! hash := deref (SHA512_256i D) in
    Ok (Cmp hash C =? 0)
  | _, _ => Ok false
  end.

Definition DeCommit (cmt : HashCommitDecommit) : res (bool * option (list (option Z))) :=
  let! ok := HashCommitDecommit_Verify cmt in
  if ok then
    match cmtD cmt with
    | Some D => let! d := slice D 1 (Z.of_nat (length D)) in Ok (true, Some d)
    | None => Panic "slice bounds out of range"
    end
  else Ok (false, None).
End Commitment.

(** ** commitment_builder.go *)
Definition PartsCap : nat := 3.
Definition MaxPartSize : Z := 1 * 1024 * 1024.

Definition parts_t : Type := list (list (option Z)).
Definition NewBuilder : parts_t := [].
Definition Parts (b : parts_t) : parts_t := b.
Definition AddPart (b : parts_t) (part : list (option Z)) : parts_t := b ++ [part].

Definition Secrets (parts : parts_t) : res (list (option Z)) :=
  guard (negb (PartsCap <? length parts)%nat) "builder.Secrets: too many commitment parts provided" ;!
  foldM (fun secrets p =>
    let partLen := wrap64 (Z.of_nat (length p)) in
    guard (negb (MaxPartSize <? partLen)) "builder.Secrets: commitment part too large" ;!
    Ok (secrets ++ [Some partLen] ++ p)) [] parts.

(** The parser's loop: [el] and [nextPartLen] are [int64]; [isLenEl] alternates
    between a length element and the part it announces. *)
Fixpoint parse_loop (fuel : nat) (secrets : list (option Z)) (el nextPartLen : Z) (isLenEl : bool)
    (parts : parts_t) : res parts_t :=
  match fuel with
  | O => Panic "out of fuel"
  | S fuel =>
    let inLen := Z.of_nat (length secrets) in
    if negb (el <? inLen) then Ok parts
    else if el <? 0 then Err "ParseSecrets: `el` overflow"
    else if isLenEl then
      let! s := idx secrets (Z.to_nat el) in
      let! s := deref s in
      let nextPartLen := Int64 s in
      if MaxPartSize <? nextPartLen then Err "ParseSecrets: commitment part too large"
      else parse_loop fuel secrets (wrap64 (el + 1)) nextPartLen (negb isLenEl) parts
    else
      if (PartsCap <=? length parts)%nat then Err "ParseSecrets: commitment has too many parts"
      else if inLen <? wrap64 (el + nextPartLen) then
        Err "ParseSecrets: not enough data to consume stated data length"
      else
        let! part := slice secrets el (wrap64 (el + nextPartLen)) in
        parse_loop fuel secrets (wrap64 (el + nextPartLen)) nextPartLen (negb isLenEl) (parts ++ [part])
  end.

Definition ParseSecrets (secrets : option (list (option Z))) : res parts_t :=
  match secrets with
  | None => Err "ParseSecrets: secrets == nil or is too small"
  | Some secrets =>
    if (length secrets <? 2)%nat then Err "ParseSecrets: secrets == nil or is too small"
    else parse_loop (2 * length secrets + 2) secrets 0 0 true []
  end.

(** The encoding that [Secrets] computes when no limit is exceeded. *)
Definition encode_part (p : list (option Z)) : list (option Z) := Some (Z.of_nat (length p)) :: p.

(** ** Lemmas *)
Definition small_len (n : nat) : Prop := Z.of_nat n < 2 ^ 62.

Lemma wrap64_small x : - 2 ^ 63 <= x < 2 ^ 63 -> wrap64 x = x.
Proof. exact (Int64_small x). Qed.

Lemma pow62 : 2 ^ 62 = 4611686018427387904. Proof. reflexivity. Qed.
Lemma pow63 : 2 ^ 63 = 9223372036854775808. Proof. reflexivity. Qed.

Lemma Secrets_ok parts :
  (length parts <= PartsCap)%nat -> Forall (fun p => Z.of_nat (length p) <= MaxPartSize) parts ->
  Secrets parts = Ok (flat_map encode_part parts).
Proof.
  intros Hc F. unfold Secrets. rewrite (proj2 (Nat.ltb_ge _ _)) by assumption. cbn [negb guard rbind].
  enough (E : forall acc, foldM (fun secrets p =>
      let partLen := wrap64 (Z.of_nat (length p)) in
      guard (negb (MaxPartSize <? partLen)) "builder.Secrets: commitment part too large" ;!
      Ok (secrets ++ [Some partLen] ++ p)) acc parts = Ok (acc ++ flat_map encode_part parts))
    by apply (E []).
  clear Hc. induction F as [|p parts Hp _ IH]; intros acc; cbn [foldM flat_map]; [now rewrite app_nil_r|].
  unfold MaxPartSize in *.
  rewrite wrap64_small by (rewrite pow63; lia).
  rewrite (proj2 (Z.ltb_ge _ _)) by assumption. cbn [negb guard rbind].
  rewrite IH. f_equal. rewrite <- !app_assoc. reflexivity.
Qed.

Lemma Secrets_limits parts s : Secrets parts = Ok s -> (length parts <= PartsCap)%nat.
Proof.
  unfold Secrets. destruct (Nat.ltb_spec PartsCap (length parts)); [discriminate|]. auto.
Qed.

Lemma slice_app {A} (pre p post : list A) :
  slice (pre ++ p ++ post) (Z.of_nat (length pre)) (Z.of_nat (length pre) + Z.of_nat (length p)) = Ok p.
Proof.
  unfold slice. rewrite !length_app.
  rewrite (proj2 (Z.leb_le 0 _)), (proj2 (Z.leb_le _ (_ + _))), (proj2 (Z.leb_le (_ + _) _)) by lia.
  cbn [andb]. f_equal. replace (Z.to_nat _) with (length p) by lia. rewrite Nat2Z.id.
  rewrite skipn_app, skipn_all, Nat.sub_diag. cbn [app]. rewrite skipn_O, firstn_app, Nat.sub_diag, firstn_all.
  cbn. apply app_nil_r.
Qed.

(** Parsing from the boundary before the remaining parts. *)
Lemma parse_loop_parts parts : forall fuel pre next acc,
  let secrets := pre ++ flat_map encode_part parts in
  small_len (length secrets) ->
  (length acc + length parts <= PartsCap)%nat ->
  Forall (fun p => Z.of_nat (length p) <= MaxPartSize) parts ->
  (parts = [] \/ last parts [] <> []) ->
  (2 * length parts < fuel)%nat ->
  parse_loop fuel secrets (Z.of_nat (length pre)) next true acc = Ok (acc ++ parts).
Proof.
  induction parts as [|p parts IH]; intros fuel pre next acc secrets Hs Hc F Hl Hf.
  - destruct fuel as [|fuel]; [cbn in Hf; lia|]. subst secrets. cbn [flat_map parse_loop].
    rewrite app_nil_r. rewrite (proj2 (Z.ltb_ge _ _)) by lia. cbn [negb]. now rewrite app_nil_r.
  - destruct Hl as [|Hl]; [discriminate|]. inversion_clear F as [|? ? Hp F'].
    destruct fuel as [|[|fuel]]; [cbn in Hf; lia..|].
    unfold small_len in Hs. rewrite pow62 in Hs. unfold MaxPartSize in *.
    assert (Es : secrets = pre ++ [Some (Z.of_nat (length p))] ++ p ++ flat_map encode_part parts)
      by reflexivity.
    assert (El : Z.of_nat (length secrets) =
      Z.of_nat (length pre) + 1 + Z.of_nat (length p) + Z.of_nat (length (flat_map encode_part parts)))
      by (rewrite Es, !length_app; cbn [length]; lia).
    assert (Hne : (0 < length p + length (flat_map encode_part parts))%nat).
    { destruct parts; [cbn in *; destruct p; [contradiction|cbn; lia]|cbn; lia]. }
    cbn [parse_loop]. rewrite (proj2 (Z.ltb_lt (Z.of_nat (length pre)) _)) by lia. cbn [negb].
    rewrite (proj2 (Z.ltb_ge _ _)) by lia. rewrite Nat2Z.id.
    unfold idx. rewrite Es at 1. rewrite nth_error_app2, Nat.sub_diag by lia. cbn [nth_error app rbind deref].
    rewrite Int64_small by (rewrite pow63; lia). unfold MaxPartSize.
    rewrite (proj2 (Z.ltb_ge (1 * 1024 * 1024) _)) by assumption.
    rewrite wrap64_small by (rewrite pow63; lia).
    rewrite (proj2 (Z.ltb_lt (Z.of_nat (length pre) + 1) _)) by lia. cbn [negb].
    rewrite (proj2 (Z.ltb_ge (Z.of_nat (length pre) + 1) 0)) by lia.
    rewrite (proj2 (Nat.leb_gt _ _)) by (unfold PartsCap in *; cbn [length] in Hc; lia).
    rewrite wrap64_small by (rewrite pow63; lia).
    rewrite (proj2 (Z.ltb_ge (Z.of_nat (length secrets)) _)) by lia.
    pose proof (slice_app (pre ++ [Some (Z.of_nat (length p))]) p (flat_map encode_part parts)) as SL.
    rewrite <- app_assoc, <- Es, length_app in SL. cbn [length] in SL.
    replace (Z.of_nat (length pre + 1)) with (Z.of_nat (length pre) + 1) in SL by lia.
    rewrite SL. cbn [rbind].
    specialize (IH fuel (pre ++ [Some (Z.of_nat (length p))] ++ p) (Z.of_nat (length p)) (acc ++ [p])).
    cbv zeta in IH. rewrite <- !app_assoc, <- Es in IH.
    replace (Z.of_nat (length (pre ++ [Some (Z.of_nat (length p))] ++ p)))
      with (Z.of_nat (length pre) + 1 + Z.of_nat (length p)) in IH
      by (rewrite !length_app; cbn [length]; lia).
    rewrite IH; [reflexivity| | | | |].
    + unfold small_len. rewrite pow62. assumption.
    + rewrite length_app. cbn [length] in *. lia.
    + assumption.
    + destruct parts; [now left|right; exact Hl].
    + cbn [length] in Hf. lia.
Qed.

(** The fuel of [ParseSecrets] is enough: every two rounds consume an element. *)
Lemma parse_loop_fuel secrets : small_len (length secrets) -> forall fuel el next (isLen : bool) acc,
  0 <= el <= Z.of_nat (length secrets) -> - 2 ^ 63 <= next <= MaxPartSize ->
  (2 * (length secrets - Z.to_nat el) + (if isLen then 1 else 2) <= fuel)%nat ->
  parse_loop fuel secrets el next isLen acc <> Panic "out of fuel".
Proof.
  unfold small_len, MaxPartSize. rewrite pow62, pow63. intros Hs.
  induction fuel as [|fuel IH]; intros el next isLen acc He Hn Hf; [destruct isLen; lia|].
  cbn [parse_loop]. destruct (Z.ltb_spec el (Z.of_nat (length secrets))) as [Hlt|]; cbn [negb]; [|discriminate].
  rewrite (proj2 (Z.ltb_ge el 0)) by lia. destruct isLen.
  - unfold idx. destruct (nth_error secrets (Z.to_nat el)) as [[s|]|]; cbn [rbind deref]; try discriminate.
    unfold MaxPartSize. destruct (Z.ltb_spec (1 * 1024 * 1024) (Int64 s)); [discriminate|].
    rewrite wrap64_small by (rewrite pow63; lia). apply IH; [lia| |cbn [negb]; lia].
    unfold Int64, wrap64 in *. rewrite pow63 in *.
    pose proof (Z.mod_pos_bound (s + 9223372036854775808) (2 ^ 64)). change (2 ^ 64) with 18446744073709551616 in *. lia.
  - destruct (_ <=? _)%nat; [discriminate|].
    destruct (Z.ltb_spec (Z.of_nat (length secrets)) (wrap64 (el + next))); [discriminate|].
    unfold slice. destruct (Z.leb_spec 0 el); [|discriminate].
    destruct (Z.leb_spec el (wrap64 (el + next))); [|discriminate].
    destruct (Z.leb_spec (wrap64 (el + next)) (Z.of_nat (length secrets))); [|discriminate].
    cbn [andb rbind]. apply IH; [lia|lia|cbn [negb]; lia].
Qed.

(** ** Properties *)

Lemma ParseSecrets_encoded parts : (length parts <= PartsCap)%nat -> last parts [] <> [] ->
  small_len (length (flat_map encode_part parts)) ->
  Forall (fun p => Z.of_nat (length p) <= MaxPartSize) parts ->
  ParseSecrets (Some (flat_map encode_part parts)) = Ok parts.
Proof.
  intros Hc Hl Hn F.
  assert (Hne : (length parts <= length (flat_map encode_part parts))%nat).
  { clear. induction parts as [|p parts IH]; cbn [flat_map length]; [lia|].
    rewrite length_app. unfold encode_part at 1. cbn [length]. lia. }
  assert (H2 : (2 <= length (flat_map encode_part parts))%nat).
  { destruct parts as [|p [|p' parts]]; [contradiction| |].
    - cbn in *. destruct p; [contradiction|]. cbn. rewrite app_nil_r. lia.
    - cbn. rewrite !length_app. unfold encode_part. cbn [length]. rewrite !length_app. cbn [length]. lia. }
  unfold ParseSecrets. rewrite (proj2 (Nat.ltb_ge _ _)) by assumption.
  apply (parse_loop_parts parts _ []); [assumption|assumption|assumption|now right|].
  unfold PartsCap in Hc. lia.
Qed.


(** C38. The parser always stops: on any list of fewer than 2^62 elements it returns,
    fails or panics, and never exhausts the fuel of the model. *)
Theorem ParseSecrets_terminates s (Hn : small_len (length s)) :
  ParseSecrets (Some s) <> Panic "out of fuel".
Proof.
  unfold ParseSecrets. destruct (_ <? _)%nat; [discriminate|].
  apply parse_loop_fuel; [assumption|lia| |cbn; lia]. unfold MaxPartSize. lia.
Qed.

(** A length element whose low 64 bits are negative passes the [MaxPartSize]
    check, and the slice expression that follows panics: the parser is not total
    on the data it is given. *)
Theorem ParseSecrets_negative_length_panics v rest
  (Hv : Int64 v < 0) (Hr : rest <> []) (Hn : small_len (length rest)) :
  ParseSecrets (Some (Some v :: rest)) = Panic "slice bounds out of range".
Proof.
  unfold small_len in Hn. rewrite pow62 in Hn.
  assert (L : (1 <= length rest)%nat) by (destruct rest; [contradiction|cbn; lia]).
  unfold ParseSecrets. cbn [length]. rewrite (proj2 (Nat.ltb_ge _ _)) by lia.
  replace (2 * S (length rest) + 2)%nat with (S (S (2 * length rest + 2))) by lia.
  cbn [parse_loop length]. rewrite (proj2 (Z.ltb_lt 0 _)) by lia. cbn [negb Z.ltb Z.compare Z.to_nat].
  unfold idx. cbn [nth_error rbind deref].
  assert (B : - 2 ^ 63 <= Int64 v).
  { unfold Int64, wrap64. pose proof (Z.mod_pos_bound (v + 2 ^ 63) (2 ^ 64)). lia. }
  rewrite pow63 in B. unfold MaxPartSize. rewrite (proj2 (Z.ltb_ge (1 * 1024 * 1024) _)) by lia.
  rewrite wrap64_small by (rewrite pow63; lia). change (0 + 1) with 1.
  rewrite (proj2 (Z.ltb_lt 1 _)) by lia. cbn [negb Z.ltb Z.compare PartsCap Nat.leb length].
  change (1 ?= 0) with Gt. cbv beta iota.
  rewrite wrap64_small by (rewrite pow63; lia).
  rewrite (proj2 (Z.ltb_ge (Z.of_nat (S (length rest))) _)) by lia.
  unfold slice. rewrite (proj2 (Z.leb_gt 1 _)) by lia. now rewrite andb_false_r.
Qed.

Section CommitmentProps.
Context `{HL : HashLaws}.

(** Opening an honest commitment succeeds and returns the secrets. *)
Theorem NewHashCommitment_opens secrets r cmt r'
  (E : NewHashCommitment secrets r = Ok (cmt, r')) :
  DeCommit cmt = Ok (true, Some secrets).
Proof.
  unfold NewHashCommitment in E. inv_res. unfold NewHashCommitmentWithRandomness, DeCommit, HashCommitDecommit_Verify.
  cbn [cmtC cmtD SHA512_256i rbind deref]. unfold Cmp. rewrite Z.compare_refl. cbn [Z.eqb rbind].
  pose proof (slice_app [Some x] secrets []) as S. rewrite app_nil_r in S.
  cbn [length app] in *. change (Z.of_nat 1) with 1 in S.
  replace (Z.of_nat (Datatypes.S (length secrets))) with (1 + Z.of_nat (length secrets)) by lia.
  now rewrite S.
Qed.

(** A commitment opens to one list of values only: two openings of the same [C]
    agree on every value, or the two hashed encodings are a collision of the digest. *)
Theorem HashCommitment_binding C D1 D2
  (L1 : fits64 (length D1)) (L2 : fits64 (length D2))
  (F1 : Forall (fun x => fits64 (length (hash_mag x))) D1)
  (F2 : Forall (fun x => fits64 (length (hash_mag x))) D2)
  (V1 : HashCommitDecommit_Verify {| cmtC := Some C; cmtD := Some D1 |} = Ok true)
  (V2 : HashCommitDecommit_Verify {| cmtC := Some C; cmtD := Some D2 |} = Ok true) :
  map hash_norm D1 = map hash_norm D2 \/ collides (frame_ints D1) (frame_ints D2).
Proof.
  assert (K : forall D, HashCommitDecommit_Verify {| cmtC := Some C; cmtD := Some D |} = Ok true ->
    C = SetBytes (sha512_256 (frame_ints D))).
  { intros D V. unfold HashCommitDecommit_Verify in V. cbn [cmtC cmtD] in V. destruct D; [discriminate|].
    cbn [SHA512_256i deref rbind] in V. injection V as V. unfold Cmp in V.
    destruct (Z.compare_spec (SetBytes (sha512_256 (frame_ints (o :: D)))) C); [congruence|discriminate..]. }
  apply K in V1, V2. rewrite V1 in V2. apply sha_int_inj in V2 as [E|]; [left|now right].
  now apply frame_ints_inj.
Qed.
End CommitmentProps.


Lemma ParseSecrets_terminates_witness :
  ParseSecrets (Some [Some 1; Some 2; Some 0]) <> Panic "out of fuel".
Proof. apply ParseSecrets_terminates. unfold small_len. rewrite pow62. cbn. lia. Defined.

Lemma ParseSecrets_negative_length_panics_witness :
  ParseSecrets (Some [Some (2 ^ 64 - 1); Some 5]) = Panic "slice bounds out of range".
Proof.
  apply ParseSecrets_negative_length_panics; [reflexivity|discriminate|].
  unfold small_len. rewrite pow62. cbn. lia.
Defined.

Lemma NewHashCommitment_opens_witness :
  @DeCommit toy_hash (@NewHashCommitmentWithRandomness toy_hash (Some (SetBytes (repeat 1 32))) [Some 4; Some (-9)]) =
  Ok (true, Some [Some 4; Some (-9)]).
Proof.
  apply (@NewHashCommitment_opens toy_hash [Some 4; Some (-9)] (repeat 1 32) _ []). vm_compute. reflexivity.
Defined.

Lemma HashCommitment_binding_witness :
  map hash_norm [Some 4; None] = map hash_norm [Some 4; Some 0] \/
  @collides toy_hash (frame_ints [Some 4; None]) (frame_ints [Some 4; Some 0]).
Proof.
  apply (@HashCommitment_binding toy_hash toy_hash_laws
    (SetBytes (@sha512_256 toy_hash (frame_ints [Some 4; None])))); 
    first [apply fits_small; cbn; lia|apply fits_mags; reflexivity|vm_compute; reflexivity].
Defined.
