(* ===== verification/Schnorr.v ===== *)
(** * Package [crypto/schnorr]

    [schnorr_proof.go]: the Schnorr proof of knowledge of a discrete logarithm
    ([ZKProof]) and of a representation [V = s R + l G] ([ZKVProof]), with their
    provers and verifiers. *)
From Stdlib Require Import ZArith String List Lia Bool.
From S2P Require Import Prelude GoBig Common Curve CtMul Field.
Import ListNotations.
Open Scope string_scope.
Open Scope Z_scope.
Open Scope list_scope.

Record ZKProof := { Alpha : option ECPoint; T : option Z }.
Record ZKVProof := { AlphaV : option ECPoint; TV : option Z; UV : option Z }.

Definition ZKProof_ValidateBasic (pf : ZKProof) : bool :=
  is_some (T pf) && is_some (Alpha pf) && ECPoint_ValidateBasic (Alpha pf).
Definition ZKVProof_ValidateBasic (pf : ZKVProof) : bool :=
  is_some (AlphaV pf) && is_some (TV pf) && is_some (UV pf) && ECPoint_ValidateBasic (AlphaV pf).

Section Defs.
Context `{HS : Hash} `{CS : Curves} `{SL : Secp256k1Lib} `{EL : Ed25519Lib}.

(** The coordinates of a list of points, hashed under the session tag and
    reduced: [c = RejectionSample(q, SHA512_256i_TAGGED(Session, ...))]. *)
Definition challenge (Session : bytes) (q : Z) (pts : list ECPoint) : res Z :=
  let! cs := mapM (fun p => let! x := ECPoint_X p in let! y := ECPoint_Y p in Ok [Some x; Some y]) pts in
  let! cHash := deref (SHA512_256i_TAGGED Session (concat cs)) in
  RejectionSample q cHash.

Definition NewZKProof (Session : bytes) (x : option Z) (X : option ECPoint) : rnd ZKProof :=
  match x, X with
  | Some x, Some X =>
    let~ _ := rlift (guard (ECPoint_ValidateBasic (Some X)) "ZKProof constructor received nil or invalid value(s)") in
    let ec := curve X in
    let q := cN ec in
    let g := NewECPointNoCurveCheck ec (cGx ec) (cGy ec) in
    let~ a := GetRandomPositiveInt (Some q) in
    let~ alpha := ScalarBaseMultWithRand ec a in
    let~ alpha := rlift (deref alpha) in
    let~ c := rlift (challenge Session q [X; g; alpha]) in
    let~ a := rlift (deref a) in
    let~ t := rlift (CTScalarMulAddModN ec c x a) in
    rret {| Alpha := Some alpha; T := Some t |}
  | _, _ => rlift (Err "ZKProof constructor received nil or invalid value(s)")
  end.

Definition ZKProof_Verify (pf : option ZKProof) (Session : bytes) (X : option ECPoint) : res bool :=
  match pf, X with
  | Some pf, Some X =>
    if negb (ZKProof_ValidateBasic pf) || negb (ECPoint_ValidateBasic (Some X)) then Ok false
    else
      let ec := curve X in
      let q := cN ec in
      let g := NewECPointNoCurveCheck ec (cGx ec) (cGy ec) in
      let! alpha := deref (Alpha pf) in
      let! t := deref (T pf) in
      let! c := challenge Session q [X; g; alpha] in
      let! tG := ScalarBaseMult ec t in
      let! Xc := ECPoint_ScalarMult X c in
      match ECPoint_Add alpha Xc with
      | Err _ => Ok false
      | Panic w => Panic w
      | Ok aXc =>
        let! ax := ECPoint_X aXc in let! tx := ECPoint_X tG in
        let! ay := ECPoint_Y aXc in let! ty := ECPoint_Y tG in
        Ok ((Cmp ax tx =? 0) && (Cmp ay ty =? 0))
      end
  | _, _ => Ok false
  end.

(** [alpha, _ := aR.Add(bG)] ignores the error; a nil [alpha] then panics. *)
Definition add_ignore_err (p q : ECPoint) : res ECPoint :=
  panic_err "nil pointer dereference" (ECPoint_Add p q).

Definition NewZKVProof (Session : bytes) (V R : option ECPoint) (s l : option Z) : rnd ZKVProof :=
  match V, R, s, l with
  | Some V, Some R, Some s, Some l =>
    let~ _ := rlift (guard (ECPoint_ValidateBasic (Some V) && ECPoint_ValidateBasic (Some R))
      "ZKVProof constructor received nil value(s)") in
    let ec := curve V in
    let q := cN ec in
    let g := NewECPointNoCurveCheck ec (cGx ec) (cGy ec) in
    let~ a := GetRandomPositiveInt (Some q) in
    let~ b := GetRandomPositiveInt (Some q) in
    let~ aR := ScalarMultWithRand (Some R) a in
    let~ bG := ScalarBaseMultWithRand ec b in
    let~ aR := rlift (deref aR) in
    let~ bG := rlift (deref bG) in
    let~ alpha := rlift (add_ignore_err aR bG) in
    let~ c := rlift (challenge Session q [V; R; g; alpha]) in
    let~ a := rlift (deref a) in
    let~ t := rlift (CTScalarMulAddModN ec c s a) in
    let~ b := rlift (deref b) in
    let~ u := rlift (CTScalarMulAddModN ec c l b) in
    rret {| AlphaV := Some alpha; TV := Some t; UV := Some u |}
  | _, _, _, _ => rlift (Err "ZKVProof constructor received nil value(s)")
  end.

Definition ZKVProof_Verify (pf : option ZKVProof) (Session : bytes) (V R : option ECPoint) : res bool :=
  match pf, V, R with
  | Some pf, Some V, Some R =>
    if negb (ZKVProof_ValidateBasic pf) || negb (ECPoint_ValidateBasic (Some V))
       || negb (ECPoint_ValidateBasic (Some R)) then Ok false
    else
      let ec := curve V in
      let q := cN ec in
      let g := NewECPointNoCurveCheck ec (cGx ec) (cGy ec) in
      let! alpha := deref (AlphaV pf) in
      let! t := deref (TV pf) in
      let! u := deref (UV pf) in
      let! c := challenge Session q [V; R; g; alpha] in
      let! tR := ECPoint_ScalarMult R t in
      let! uG := ScalarBaseMult ec u in
      let tRuG := ECPoint_Add tR uG in
      let! Vc := ECPoint_ScalarMult V c in
      match ECPoint_Add alpha Vc with
      | Err _ => Ok false
      | Panic w => Panic w
      | Ok aVc =>
        let! tRuG := panic_err "nil pointer dereference" tRuG in
        let! tx := ECPoint_X tRuG in let! ax := ECPoint_X aVc in
        let! ty := ECPoint_Y tRuG in let! ay := ECPoint_Y aVc in
        Ok ((Cmp tx ax =? 0) && (Cmp ty ay =? 0))
      end
  | _, _, _ => Ok false
  end.
End Defs.

(** ** Lemmas *)
Section Proofs.
Context `{HS : Hash} `{CS : Curves} `{SL : Secp256k1Lib} `{EL : Ed25519Lib}.
Context {C : Curve} {pt : Z -> Z * Z} {id_on : bool} {L : CurveLaws C pt id_on} {CT : CtCurve C pt id_on}.
Abbreviation q := (cN C).
Abbreviation pnt := (mkpt C pt).
Abbreviation on_k := (on_c C id_on).

(** The challenge of points with known coordinates. *)
Definition chal (Session : bytes) (ks : list Z) : Z :=
  match SHA512_256i_TAGGED Session (concat (map (fun k => [Some (fst (pt k)); Some (snd (pt k))]) ks)) with
  | Some h => h mod q
  | None => 0
  end.

Lemma challenge_pt Session ks : ks <> [] ->
  challenge Session q (map pnt ks) = Ok (chal Session ks).
Proof.
  intros Hne. unfold challenge, chal.
  replace (mapM _ (map pnt ks)) with
    (Ok (map (fun k => [Some (fst (pt k)); Some (snd (pt k))]) ks)).
  - cbn [rbind]. unfold SHA512_256i_TAGGED. destruct ks as [|k ks]; [contradiction|].
    cbn [map concat app deref rbind]. apply RejectionSample_ok. pose proof (cl_N_pos (L := L)). lia.
  - symmetry. clear. induction ks as [|k ks IH]; [reflexivity|]. cbn [map mapM].
    rewrite IH. reflexivity.
Qed.

Lemma chal_range Session ks : 0 <= chal Session ks < q.
Proof.
  pose proof (cl_N_pos (L := L)). unfold chal.
  destruct (SHA512_256i_TAGGED _ _); [apply Z.mod_pos_bound; lia|lia].
Qed.

Lemma coords_eqb a b :
  (Cmp (fst (pt a)) (fst (pt b)) =? 0) && (Cmp (snd (pt a)) (snd (pt b)) =? 0) = ((a - b) mod q =? 0).
Proof.
  pose proof (ECPoint_Equals_pt (C := C) (pt := pt) (L := L) a b) as E.
  unfold ECPoint_Equals in E. cbn in E.
  destruct (Cmp (fst (pt a)) (fst (pt b)) =? 0); cbn in *; congruence.
Qed.

(** What the verifier computes on a proof whose commitment is [a G]. *)
Lemma ZKProof_Verify_run Session a t x : 0 <= t -> on_k a = true -> on_k x = true ->
  let c := chal Session [x; 1; a] in
  ZKProof_Verify (Some {| Alpha := Some (pnt a); T := Some t |}) Session (Some (pnt x)) =
  if on_k t then
    if on_k (c * x) then
      if on_k (a + c * x) then Ok ((a + c * x - t) mod q =? 0) else Ok false
    else Panic "scalar mult to an ecpoint"
  else Panic "scalar mult to an ecpoint".
Proof.
  intros Ht Ha Hx c. unfold ZKProof_Verify, ZKProof_ValidateBasic. cbn [T Alpha is_some andb].
  rewrite !mkpt_valid, Ha, Hx. cbn [negb orb deref rbind curve mkpt NewECPointNoCurveCheck].
  change {| curve := C; coords := (Some (fst (pt x)), Some (snd (pt x))) |} with (pnt x).
  change {| curve := C; coords := (Some (fst (pt a)), Some (snd (pt a))) |} with (pnt a).
  change {| curve := C; coords := (Some (cGx C), Some (cGy C)) |} with (NewECPointNoCurveCheck C (cGx C) (cGy C)).
  rewrite <- (mkpt_base (L := L)).
  change [pnt x; pnt 1; pnt a] with (map pnt [x; 1; a]).
  rewrite challenge_pt by discriminate. fold c. cbn [rbind].
  rewrite ScalarBaseMult_pt by assumption. destruct (on_k t); [|reflexivity]. cbn [rbind].
  pose proof (chal_range Session [x; 1; a]) as Hc. fold c in Hc.
  rewrite ECPoint_ScalarMult_pt by lia. destruct (on_k (c * x)); [|reflexivity]. cbn [rbind].
  rewrite ECPoint_Add_pt. destruct (on_k (a + c * x)); [|reflexivity].
  cbn [ECPoint_X ECPoint_Y mkpt NewECPointNoCurveCheck coords fst snd deref rbind].
  now rewrite coords_eqb.
Qed.

Lemma NewZKProof_run Session x k r pf r' : Forall is_byte r -> on_k x = true ->
  NewZKProof Session (Some k) (Some (pnt x)) r = Ok (pf, r') ->
  exists a, 1 <= a < q /\ Forall is_byte r' /\
    pf = {| Alpha := Some (pnt a); T := Some ((chal Session [x; 1; a] * k + a) mod q) |}.
Proof.
  intros Hr Hx H. unfold NewZKProof in H. rewrite mkpt_valid, Hx in H. inv_res.
  cbn [curve mkpt NewECPointNoCurveCheck] in *. inv_res.
  match goal with E : GetRandomPositiveInt _ _ = Ok (Some _, _) |- _ =>
    apply GetRandomPositiveInt_range in E as [Ra Fs]; [|assumption] end.
  match goal with E : ScalarBaseMultWithRand _ _ _ = _ |- _ =>
    apply ct_base in E as [E Ft]; [|lia|assumption]; injection E as -> end.
  match goal with E : challenge _ _ _ = Ok ?c |- _ =>
    change {| curve := C; coords := (Some (cGx C), Some (cGy C)) |} with (NewECPointNoCurveCheck C (cGx C) (cGy C)) in E;
    rewrite <- (mkpt_base (L := L)) in E;
    fold (pnt x) in E end.
  match goal with E : challenge _ _ [?p; _; pnt ?a] = Ok ?c |- _ =>
    change [p; pnt 1; pnt a] with (map pnt [x; 1; a]) in E;
    rewrite challenge_pt in E by discriminate; injection E as <- end.
  match goal with E : CTScalarMulAddModN _ _ _ _ = Ok _ |- _ => rewrite ct_muladd in E; injection E as <- end.
  eauto.
Qed.

Lemma NewZKProof_total Session x k r a r1 : Forall is_byte r -> on_k x = true ->
  GetRandomPositiveInt (Some q) r = Ok (Some a, r1) -> ct_healthy r1 ->
  NewZKProof Session (Some k) (Some (pnt x)) r =
  Ok ({| Alpha := Some (pnt a); T := Some ((chal Session [x; 1; a] * k + a) mod q) |}, ct_rest r1).
Proof.
  intros Hr Hx E Hh. pose proof (GetRandomPositiveInt_range _ _ _ _ Hr E) as [Ra F1].
  unfold NewZKProof, rnd_bind, rlift, rret. rewrite mkpt_valid, Hx.
  cbn [guard rbind fst snd curve mkpt NewECPointNoCurveCheck]. rewrite E. cbn [rbind fst snd].
  rewrite ct_base_total by (assumption || lia). cbn [rbind fst snd deref].
  change {| curve := C; coords := (Some (cGx C), Some (cGy C)) |} with (NewECPointNoCurveCheck C (cGx C) (cGy C)).
  rewrite <- (mkpt_base (L := L)). fold (pnt x). fold (NewECPointNoCurveCheck C (fst (pt x)) (snd (pt x))). fold (pnt x).
  change [pnt x; pnt 1; pnt a] with (map pnt [x; 1; a]).
  rewrite challenge_pt by discriminate. cbn [rbind fst snd]. now rewrite ct_muladd.
Qed.

Lemma ZKVProof_Verify_run Session a t u v r : 0 <= t -> 0 <= u -> on_k a = true -> on_k v = true -> on_k r = true ->
  let c := chal Session [v; r; 1; a] in
  ZKVProof_Verify (Some {| AlphaV := Some (pnt a); TV := Some t; UV := Some u |}) Session (Some (pnt v)) (Some (pnt r)) =
  if on_k (t * r) && on_k u && on_k (c * v) then
    if on_k (a + c * v) then
      if on_k (t * r + u) then Ok ((t * r + u - (a + c * v)) mod q =? 0)
      else Panic "nil pointer dereference"
    else Ok false
  else Panic "scalar mult to an ecpoint".
Proof.
  intros Ht Hu Ha Hv Hr c. unfold ZKVProof_Verify, ZKVProof_ValidateBasic. cbn [TV UV AlphaV is_some andb].
  rewrite !mkpt_valid, Ha, Hv, Hr. cbn [negb orb deref rbind].
  change (curve (pnt v)) with C.
  rewrite <- (mkpt_base (L := L)).
  change [pnt v; pnt r; pnt 1; pnt a] with (map pnt [v; r; 1; a]).
  rewrite challenge_pt by discriminate. fold c. cbn [rbind].
  pose proof (chal_range Session [v; r; 1; a]) as Hc. fold c in Hc.
  rewrite ECPoint_ScalarMult_pt by assumption. destruct (on_k (t * r)); [|reflexivity]. cbn [rbind andb].
  rewrite ScalarBaseMult_pt by assumption. destruct (on_k u); [|reflexivity]. cbn [rbind andb].
  rewrite ECPoint_ScalarMult_pt by lia. destruct (on_k (c * v)); [|reflexivity]. cbn [rbind].
  rewrite !ECPoint_Add_pt. destruct (on_k (a + c * v)); [|reflexivity].
  destruct (on_k (t * r + u)); [|reflexivity]. cbn [panic_err].
  cbn [ECPoint_X ECPoint_Y mkpt NewECPointNoCurveCheck coords fst snd deref rbind].
  now rewrite coords_eqb.
Qed.

Lemma NewZKVProof_total Session v rr s l r a r1 b r2 : Forall is_byte r -> on_k v = true -> rr mod q <> 0 ->
  GetRandomPositiveInt (Some q) r = Ok (Some a, r1) ->
  GetRandomPositiveInt (Some q) r1 = Ok (Some b, r2) ->
  ct_healthy_n 2 r2 -> on_k (a * rr + b) = true ->
  let c := chal Session [v; rr; 1; a * rr + b] in
  NewZKVProof Session (Some (pnt v)) (Some (pnt rr)) (Some s) (Some l) r =
  Ok ({| AlphaV := Some (pnt (a * rr + b)); TV := Some ((c * s + a) mod q); UV := Some ((c * l + b) mod q) |},
      ct_rest (ct_rest r2)).
Proof.
  intros Hr Hv Hrr E1 E2 (Hh1 & Hh2 & _) Hab c.
  pose proof (GetRandomPositiveInt_range _ _ _ _ Hr E1) as [Ra F1].
  pose proof (GetRandomPositiveInt_range _ _ _ _ F1 E2) as [Rb F2].
  assert (Harr : on_k (a * rr) = true).
  { apply on_c_nonzero, mul_mod_nz; [apply cl_prime|rewrite Z.mod_small; lia|assumption]. }
  unfold NewZKVProof, rnd_bind, rlift, rret. rewrite !mkpt_valid, Hv, (on_c_nonzero rr Hrr).
  cbn [guard andb rbind fst snd]. change (curve (pnt v)) with C. rewrite E1. cbn [rbind fst snd].
  rewrite E2. cbn [rbind fst snd].
  rewrite ct_mult_total by (assumption || lia). cbn [rbind fst snd].
  rewrite ct_base_total by (auto using ct_rest_byte; lia). cbn [rbind fst snd deref].
  unfold add_ignore_err. rewrite ECPoint_Add_pt, Hab. cbn [panic_err rbind fst snd].
  rewrite <- (mkpt_base (L := L)).
  change [pnt v; pnt rr; pnt 1; pnt (a * rr + b)] with (map pnt [v; rr; 1; a * rr + b]).
  rewrite challenge_pt by discriminate. cbn [rbind fst snd]. fold c.
  rewrite !ct_muladd. reflexivity.
Qed.
End Proofs.

(** ** Properties *)
Section Properties.
Context `{HS : Hash} `{CS : Curves} `{SL : Secp256k1Lib} `{EL : Ed25519Lib}.
Context {C : Curve} {pt : Z -> Z * Z} {id_on : bool} {L : CurveLaws C pt id_on} {CT : CtCurve C pt id_on}.
Abbreviation q := (cN C).
Abbreviation pnt := (mkpt C pt).
Abbreviation on_k := (on_c C id_on).

(** Completeness of [ZKProof]: for an honest prover with a reader that serves its
    draws, a proof is produced, and the verifier accepts it, or (on a Weierstrass
    curve only) panics because the response or the challenge is zero. *)
Theorem ZKProof_complete Session x r a r1
  (Hr : Forall is_byte r) (Hx : on_k x = true)
  (E : GetRandomPositiveInt (Some q) r = Ok (Some a, r1)) (Hh : ct_healthy r1) :
  let c := chal (C := C) (pt := pt) Session [x; 1; a] in
  exists pf, NewZKProof Session (Some x) (Some (pnt x)) r = Ok (pf, ct_rest r1) /\
    ZKProof_Verify (Some pf) Session (Some (pnt x)) =
    if on_k (c * x + a) && on_k (c * x) then Ok true else Panic "scalar mult to an ecpoint".
Proof.
  intros c. pose proof (cl_N_pos (L := L)) as HN. eexists. split; [now apply (NewZKProof_total Session x x r a r1)|].
  pose proof (GetRandomPositiveInt_range _ _ _ _ Hr E) as [Ra _].
  fold c. rewrite ZKProof_Verify_run; [|apply Z.mod_pos_bound; lia| |assumption].
  2: { apply on_c_nonzero. rewrite Z.mod_small; lia. }
  fold c. assert (Ec : cong q ((c * x + a) mod q) (c * x + a)) by apply cong_mod.
  rewrite (on_c_cong _ _ Ec). destruct (on_k (c * x + a)) eqn:H1; [|reflexivity].
  destruct (on_k (c * x)); [|reflexivity]. rewrite Z.add_comm, H1. cbn [andb]. f_equal.
  apply Z.eqb_eq, Z.mod_divide; [lia|]. change (cong q (c * x + a) ((c * x + a) mod q)).
  now symmetry.
Qed.

(** C34. Special soundness of [ZKProof]: two accepted proofs for the same point with
    the same commitment and different challenges determine the discrete
    logarithm. *)
Theorem ZKProof_special_soundness S1 S2 x a t1 t2
  (Hx : on_k x = true) (Ha : on_k a = true) (H1 : 0 <= t1) (H2 : 0 <= t2)
  (V1 : ZKProof_Verify (Some {| Alpha := Some (pnt a); T := Some t1 |}) S1 (Some (pnt x)) = Ok true)
  (V2 : ZKProof_Verify (Some {| Alpha := Some (pnt a); T := Some t2 |}) S2 (Some (pnt x)) = Ok true) :
  let c1 := chal (C := C) (pt := pt) S1 [x; 1; a] in
  let c2 := chal (C := C) (pt := pt) S2 [x; 1; a] in
  c1 <> c2 -> x mod q = ((t1 - t2) * Z.invmod (c1 - c2) q) mod q.
Proof.
  intros c1 c2 Hc. pose proof (cl_N_pos (L := L)) as HN.
  rewrite ZKProof_Verify_run in V1, V2 by assumption. fold c1 in V1. fold c2 in V2.
  repeat match type of V1 with (if ?b then _ else _) = _ => destruct b; [|discriminate] end.
  repeat match type of V2 with (if ?b then _ else _) = _ => destruct b; [|discriminate] end.
  injection V1 as V1. injection V2 as V2.
  assert (K : forall c t, (a + c * x - t) mod q =? 0 = true -> cong q (a + c * x) t).
  { intros c t E. apply Z.eqb_eq in E. apply Z.mod_divide in E; [assumption|lia]. }
  apply K in V1, V2. apply cong_iff. rewrite <- V1, <- V2.
  replace (a + c1 * x - (a + c2 * x)) with (x * (c1 - c2)) by ring.
  rewrite <- Z.mul_assoc, (Z.mul_comm (c1 - c2)), (inv_l q cl_prime).
  - now rewrite Z.mul_1_r.
  - apply sub_mod_nz; [apply cl_prime|].
    pose proof (chal_range (C := C) (pt := pt) (L := L) S1 [x; 1; a]).
    pose proof (chal_range (C := C) (pt := pt) (L := L) S2 [x; 1; a]).
    rewrite !Z.mod_small; assumption.
Qed.

(** On a curve whose identity is not a representable point (secp256k1) the
    verifier panics on a proof whose response is a multiple of the order. *)
Theorem ZKProof_Verify_zero_response_panics Session x a t
  (Hx : on_k x = true) (Ha : on_k a = true) (Ht : 0 <= t) (Hid : id_on = false) (H0 : t mod q = 0) :
  ZKProof_Verify (Some {| Alpha := Some (pnt a); T := Some t |}) Session (Some (pnt x)) =
  Panic "scalar mult to an ecpoint".
Proof.
  rewrite ZKProof_Verify_run by assumption. unfold on_c at 1. now rewrite Hid, H0.
Qed.

(** Completeness of [ZKVProof] for [V = s R + l G]: with a reader that serves its
    draws the prover returns a proof, and the verifier accepts it whenever the
    points it computes are representable (on an Edwards curve, always). *)
Theorem ZKVProof_complete Session rr s l r a r1 b r2
  (Hr : Forall is_byte r) (Hv : on_k (s * rr + l) = true) (Hrr : rr mod q <> 0)
  (E1 : GetRandomPositiveInt (Some q) r = Ok (Some a, r1))
  (E2 : GetRandomPositiveInt (Some q) r1 = Ok (Some b, r2))
  (Hh : ct_healthy_n 2 r2) (Hab : on_k (a * rr + b) = true) :
  let v := s * rr + l in
  let c := chal (C := C) (pt := pt) Session [v; rr; 1; a * rr + b] in
  exists pf, NewZKVProof Session (Some (pnt v)) (Some (pnt rr)) (Some s) (Some l) r = Ok (pf, ct_rest (ct_rest r2)) /\
    (on_k ((c * s + a) * rr) && on_k (c * l + b) && on_k (c * v) && on_k ((c * s + a) * rr + (c * l + b)) = true ->
     ZKVProof_Verify (Some pf) Session (Some (pnt v)) (Some (pnt rr)) = Ok true).
Proof.
  intros v c. pose proof (cl_N_pos (L := L)) as HN. eexists.
  split; [now apply (NewZKVProof_total Session v rr s l r a r1 b r2)|].
  fold c. rewrite !andb_true_iff. intros [[[H1 H2] H3] H4].
  assert (Et : cong q ((c * s + a) mod q) (c * s + a)) by apply cong_mod.
  assert (Eu : cong q ((c * l + b) mod q) (c * l + b)) by apply cong_mod.
  rewrite ZKVProof_Verify_run; try assumption; try (apply Z.mod_pos_bound; lia); [|now apply on_c_nonzero].
  fold c. rewrite (on_c_cong _ _ Eu), H2, H3.
  assert (Etr : cong q ((c * s + a) mod q * rr) ((c * s + a) * rr)) by (now rewrite Et).
  rewrite (on_c_cong _ _ Etr), H1. cbn [andb].
  assert (Eq : cong q (a * rr + b + c * v) ((c * s + a) * rr + (c * l + b))) by (unfold v; apply cong_eq; ring).
  assert (Eq' : cong q ((c * s + a) mod q * rr + (c * l + b) mod q) ((c * s + a) * rr + (c * l + b)))
    by (now rewrite Et, Eu).
  rewrite (on_c_cong _ _ Eq), H4, (on_c_cong _ _ Eq'), H4. f_equal. apply Z.eqb_eq, Z.mod_divide; [lia|].
  change (cong q ((c * s + a) mod q * rr + (c * l + b) mod q) (a * rr + b + c * v)). now rewrite Eq', Eq.
Qed.
End Properties.

(** ** Witnesses *)
#[export] Existing Instance toy_hash.
Definition w_session : bytes := [1; 2; 3].
(** One byte that decides the first draw, then a stream for the blinding. *)
Definition w_rand : reader := 9 :: repeat 1 200.

Lemma w_rand_byte : Forall is_byte w_rand.
Proof. constructor; [unfold is_byte; lia|apply ones_byte]. Qed.

Lemma ZKProof_complete_witness :
  exists pf, NewZKProof w_session (Some 5) (Some (mkpt toy256 toy256_pt 5)) w_rand = Ok (pf, skipn 40 (repeat 1 200)) /\
    ZKProof_Verify (Some pf) w_session (Some (mkpt toy256 toy256_pt 5)) = Ok true.
Proof.
  destruct (ZKProof_complete (L := toy256_laws) (CT := toy256_ct) w_session 5 w_rand 9 (repeat 1 200))
    as (pf & E & V); [apply w_rand_byte|reflexivity|vm_compute; reflexivity|apply toy_healthy; lia|].
  exists pf. split; [exact E|]. rewrite V. vm_compute. reflexivity.
Defined.

Lemma ZKProof_special_soundness_witness :
  5 mod 31 = ((26 - 14) * Z.invmod (chal (C := toy256) (pt := toy256_pt) [1] [5; 1; 9] -
    chal (C := toy256) (pt := toy256_pt) [2] [5; 1; 9]) 31) mod 31.
Proof.
  apply (ZKProof_special_soundness (L := toy256_laws) [1] [2] 5 9 26 14);
    [reflexivity|reflexivity|lia|lia|vm_compute; reflexivity..|vm_compute; discriminate].
Defined.

Lemma ZKProof_Verify_zero_response_panics_witness :
  ZKProof_Verify (Some {| Alpha := Some (mkpt toy256 toy256_pt 9); T := Some 31 |}) w_session
    (Some (mkpt toy256 toy256_pt 5)) = Panic "scalar mult to an ecpoint".
Proof.
  apply (ZKProof_Verify_zero_response_panics (L := toy256_laws) w_session 5 9 31); reflexivity || lia.
Defined.

Lemma ZKVProof_complete_witness :
  exists pf, NewZKVProof w_session (Some (mkpt toy256 toy256_pt (4 * 3 + 17))) (Some (mkpt toy256 toy256_pt 3))
    (Some 4) (Some 17) (9 :: 7 :: repeat 1 200) = Ok (pf, skipn 40 (skipn 40 (repeat 1 200))) /\
    ZKVProof_Verify (Some pf) w_session
      (Some (mkpt toy256 toy256_pt (4 * 3 + 17))) (Some (mkpt toy256 toy256_pt 3)) = Ok true.
Proof.
  destruct (ZKVProof_complete (L := toy256_laws) (CT := toy256_ct) w_session 3 4 17 (9 :: 7 :: repeat 1 200)
    9 (7 :: repeat 1 200) 7 (repeat 1 200)) as (pf & E & V).
  - do 2 (constructor; [unfold is_byte; lia|]). apply ones_byte.
  - reflexivity.
  - discriminate.
  - vm_compute. reflexivity.
  - vm_compute. reflexivity.
  - apply toy_healthy_n. lia.
  - reflexivity.
  - exists pf. split; [exact E|]. apply V. vm_compute. reflexivity.
Defined.
