(* ===== verification/Paillier.v ===== *)
(** * Package [crypto/paillier]

    [paillier.go]: key generation from safe primes, encryption, decryption, the
    homomorphic operations, and the proof that the modulus is coprime with its
    totient.  The safe-prime search ([common/safe_prime.go], probabilistic and
    concurrent) is a parameter: the stream of pairs it returns.  The two
    goroutines of [Proof.Verify] appear as the order in which their results
    arrive. *)
From Stdlib Require Import ZArith String List Lia Bool Zdivisibility Zcong ZmodInv Zpow_facts.
From S2P Require Import Prelude GoBig Common Curve Field.
Import ListNotations.
Open Scope string_scope.
Open Scope Z_scope.
Open Scope list_scope.

Definition ProofIters : nat := 13.
Definition pQBitLenDifference : Z := 3.

Record PublicKey := { pkN : Z }.
Record PrivateKey := { pub : PublicKey; LambdaN : Z; PhiN : Z; skP : Z; skQ : Z }.

Definition ErrMessageTooLong : string := "the message is too large or < 0".
Definition ErrMessageMalFormed : string := "the message is mal-formed".

Definition primesBelow1000 : list Z :=
  [2; 3; 5; 7; 11; 13; 17; 19; 23; 29; 31; 37; 41; 43; 47; 53; 59; 61; 67; 71; 73; 79; 83; 89; 97;
   101; 103; 107; 109; 113; 127; 131; 137; 139; 149; 151; 157; 163; 167; 173; 179; 181; 191; 193; 197; 199;
   211; 223; 227; 229; 233; 239; 241; 251; 257; 263; 269; 271; 277; 281; 283; 293;
   307; 311; 313; 317; 331; 337; 347; 349; 353; 359; 367; 373; 379; 383; 389; 397;
   401; 409; 419; 421; 431; 433; 439; 443; 449; 457; 461; 463; 467; 479; 487; 491; 499;
   503; 509; 521; 523; 541; 547; 557; 563; 569; 571; 577; 587; 593; 599;
   601; 607; 613; 617; 619; 631; 641; 643; 647; 653; 659; 661; 673; 677; 683; 691;
   701; 709; 719; 727; 733; 739; 743; 751; 757; 761; 769; 773; 787; 797;
   809; 811; 821; 823; 827; 829; 839; 853; 857; 859; 863; 877; 881; 883; 887;
   907; 911; 919; 929; 937; 941; 947; 953; 967; 971; 977; 983; 991; 997].

(** ** Key generation

    [sgps] are the pairs of safe primes that successive calls of
    [GetRandomSafePrimesConcurrentFn] return; when they are exhausted the call
    returns an error (the context is cancelled). *)
Fixpoint pick_primes (modulusBitLen : Z) (sgps : list (Z * Z)) : res (Z * Z) :=
  match sgps with
  | [] => Err "generator timed out or cancelled"
  | (P, Q) :: sgps =>
    if Z.quot modulusBitLen 2 - pQBitLenDifference <=? BitLen (P - Q) then Ok (P, Q)
    else pick_primes modulusBitLen sgps
  end.

Definition GenerateKeyPairFn (sgps : list (Z * Z)) (modulusBitLen : Z) (optionalConcurrency : list Z)
  : res (PrivateKey * PublicKey) :=
  if (1 <? length optionalConcurrency)%nat then
    Panic "GeneratePreParams: expected 0 or 1 item in `optionalConcurrency`"
  else
    let! (P, Q) := pick_primes modulusBitLen sgps in
    let N := P * Q in
    let PMinus1 := P - 1 in
    let QMinus1 := Q - 1 in
    let phiN := PMinus1 * QMinus1 in
    let gcd := GCD PMinus1 QMinus1 in
    let! lambdaN := Div phiN gcd in
    let publicKey := {| pkN := N |} in
    Ok ({| pub := publicKey; LambdaN := lambdaN; PhiN := phiN; skP := P; skQ := Q |}, publicKey).

Definition GenerateKeyPair (sgps : list (Z * Z)) (modulusBitLen : Z) (optionalConcurrency : list Z) :=
  GenerateKeyPairFn sgps modulusBitLen optionalConcurrency.

(** ** Encryption *)
Definition NSquare (pk : PublicKey) : Z := pkN pk * pkN pk.
Definition Gamma (pk : PublicKey) : Z := pkN pk + 1.
Definition AsInts (pk : PublicKey) : list Z := [pkN pk; Gamma pk].

Definition EncryptAndReturnRandomness (pk : PublicKey) (m : Z) : rnd (Z * Z) :=
  let~ _ := rlift (guard (negb ((Cmp m 0 =? -1) || negb (Cmp m (pkN pk) =? -1))) ErrMessageTooLong) in
  let~ x := GetRandomPositiveRelativelyPrimeInt (Some (pkN pk)) in
  let N2 := NSquare pk in
  let~ Gm := rlift (deref (Exp (Gamma pk) m N2)) in
  let~ x := rlift (deref x) in
  let~ xN := rlift (deref (Exp x (pkN pk) N2)) in
  let~ c := rlift (modInt_Mul N2 Gm xN) in
  rret (c, x).

Definition Encrypt (pk : PublicKey) (m : Z) : rnd Z :=
  let~ p := EncryptAndReturnRandomness pk m in rret (fst p).

Definition HomoMult (pk : PublicKey) (m c1 : Z) : res (option Z) :=
  guard (negb ((Cmp m 0 =? -1) || negb (Cmp m (pkN pk) =? -1))) ErrMessageTooLong ;!
  let N2 := NSquare pk in
  guard (negb ((Cmp c1 0 =? -1) || negb (Cmp c1 N2 =? -1))) ErrMessageTooLong ;!
  Ok (modInt_Exp N2 c1 m).

Definition HomoAdd (pk : PublicKey) (c1 c2 : Z) : res Z :=
  let N2 := NSquare pk in
  guard (negb ((Cmp c1 0 =? -1) || negb (Cmp c1 N2 =? -1))) ErrMessageTooLong ;!
  guard (negb ((Cmp c2 0 =? -1) || negb (Cmp c2 N2 =? -1))) ErrMessageTooLong ;!
  modInt_Mul N2 c1 c2.

(** ** Decryption *)
Definition L (u N : Z) : res Z := Div (u - 1) N.

Definition Decrypt (sk : PrivateKey) (c : Z) : res Z :=
  let pk := pub sk in
  let N2 := NSquare pk in
  guard (negb ((Cmp c 0 =? -1) || negb (Cmp c N2 =? -1))) ErrMessageTooLong ;!
  guard (negb (Cmp (GCD c N2) 1 =? 1)) ErrMessageMalFormed ;!
  let! cl := deref (Exp c (LambdaN sk) N2) in
  let! Lc := L cl (pkN pk) in
  let! gl := deref (Exp (Gamma pk) (LambdaN sk) N2) in
  let! Lg := L gl (pkN pk) in
  let! inv := ModInverse Lg (pkN pk) in
  match inv with
  | None => Err "modular inverse of Lg does not exist"
  | Some inv => modInt_Mul (pkN pk) Lc inv
  end.

(** ** The key-correctness proof *)

(** [strconv.Itoa] of a non-negative number. *)
Fixpoint itoa_fuel (fuel : nat) (n : Z) (acc : bytes) : bytes :=
  match fuel with
  | O => acc
  | S fuel => if n <? 10 then (48 + n) :: acc else itoa_fuel fuel (n / 10) ((48 + n mod 10) :: acc)
  end.
Definition Itoa (n : nat) : bytes := itoa_fuel (S n) (Z.of_nat n) [].

Section Proof.
Context `{HS : Hash}.

(** One candidate: the hashes of its blocks, concatenated in order. *)
Definition xs_candidate (kb sXb sYb Nb : bytes) (blocks i n : nat) : res Z :=
  let! parts := mapM (fun j =>
    match SHA512_256 [Itoa i; Itoa j; Itoa n; kb; sXb; sYb; Nb] with
    | None => Panic "GenerateXs hash write error!"
    | Some rx => Ok rx
    end) (seq 0 blocks) in
  Ok (SetBytes (concat parts)).

(** The unbounded loop, with [fuel] candidates; running out of fuel stands for a
    loop that has not returned yet. *)
Fixpoint xs_loop (fuel m : nat) (N : Z) (kb sXb sYb Nb : bytes) (blocks i n : nat) (ret : list Z)
  : res (list Z) :=
  if (i <? m)%nat then
    match fuel with
    | O => Panic "out of fuel"
    | S fuel =>
      let! x := xs_candidate kb sXb sYb Nb blocks i n in
      if IsNumberInMultiplicativeGroup (Some N) (Some x)
      then xs_loop fuel m N kb sXb sYb Nb blocks (S i) n (ret ++ [x])
      else xs_loop fuel m N kb sXb sYb Nb blocks i (S n) ret
    end
  else Ok ret.

Definition GenerateXs (fuel m : nat) (k N : Z) (ecdsaPub : ECPoint) : res (list Z) :=
  let! sX := ECPoint_X ecdsaPub in
  let! sY := ECPoint_Y ecdsaPub in
  let kb := Bytes k in
  let blocks := Z.to_nat ((BitLen N + 255) / 256) in
  xs_loop fuel m N kb (Bytes sX) (Bytes sY) (Bytes N) blocks 0 0 [].

Definition PrivateKey_Proof (fuel : nat) (sk : PrivateKey) (k : Z) (ecdsaPub : ECPoint) : res (list (option Z)) :=
  let N := pkN (pub sk) in
  let! xs := GenerateXs fuel ProofIters k N ecdsaPub in
  let! M := ModInverse N (PhiN sk) in
  match M with
  | None => Err "modular inverse of N mod PhiN does not exist"
  | Some M => mapM (fun i => let! xi := idx xs i in Ok (Exp xi M N)) (seq 0 ProofIters)
  end.

Fixpoint no_small_factor (pkN : Z) (primes : list Z) : res bool :=
  match primes with
  | [] => Ok true
  | prm :: primes =>
    let! r := Mod pkN prm in
    if Cmp r 0 =? 0 then Ok false else no_small_factor pkN primes
  end.

Definition check_roots (pf : list (option Z)) (pkN : Z) (xs : list Z) : res bool :=
  if negb (length xs =? ProofIters)%nat then
    Err "paillier proof verify: expected %d xs but got"
  else
    allM (fun '(i, xi) =>
      let! xiModN := Mod xi pkN in
      let! pfi := idx pf i in
      let! pfi := deref pfi in
      let! yiExpN := deref (Exp pfi pkN pkN) in
      Ok (Cmp xiModN yiExpN =? 0)) (enum xs).

(** [primes_first]: the trial division's result arrives before the challenges. *)
Definition Proof_Verify (primes_first : bool) (fuel : nat) (pf : list (option Z)) (pkN k : Z) (ecdsaPub : ECPoint)
  : res bool :=
  let pch := no_small_factor pkN primesBelow1000 in
  let xch := let! xs := GenerateXs fuel ProofIters k pkN ecdsaPub in check_roots pf pkN xs in
  if primes_first then
    let! ok := pch in if negb ok then Ok false else xch
  else
    let! ok := xch in if negb ok then Ok false else pch.
End Proof.

(** A key pair whose modulus is a product of distinct primes and is coprime with
    [LambdaN], the least common multiple of the [p - 1]. *)
Record valid_key (sk : PrivateKey) : Prop := {
  vk_P : Z.prime (skP sk);
  vk_Q : Z.prime (skQ sk);
  vk_ne : skP sk <> skQ sk;
  vk_N : pkN (pub sk) = skP sk * skQ sk;
  vk_phi : PhiN sk = (skP sk - 1) * (skQ sk - 1);
  vk_lambda : LambdaN sk = PhiN sk / Z.gcd (skP sk - 1) (skQ sk - 1);
  vk_coprime : Z.gcd (PhiN sk) (pkN (pub sk)) = 1
}.

(** [c] is a ciphertext of [m]: [c = (1 + N)^m x^N mod N^2] for a unit [x]. *)
Definition ciphertext_of (N c m : Z) : Prop :=
  0 <= c < N * N /\ exists x, Z.gcd x N = 1 /\ cong (N * N) c ((1 + N) ^ m * x ^ N).

(** ** Lemmas: powers modulo N and N^2 *)
Lemma pow_one_plus N a e : 0 <= e -> cong (N * N) ((1 + N * a) ^ e) (1 + e * a * N).
Proof.
  intros He. revert e He. apply natlike_ind; [apply cong_eq; ring|].
  intros e He IH. rewrite Z.pow_succ_r by assumption. rewrite IH.
  unfold cong. exists (e * a * a). unfold Z.succ. ring.
Qed.

Lemma cong_lift n m a b : (m | n) -> cong n a b -> cong m a b.
Proof. unfold cong. intros. eapply Z.divide_trans; eauto. Qed.

Lemma cong_prod p q a b : Z.gcd p q = 1 -> cong p a b -> cong q a b -> cong (p * q) a b.
Proof.
  unfold cong. intros G [k Hk] H2. rewrite Hk in H2. rewrite Z.mul_comm in H2.
  apply Z.gauss in H2; [|now rewrite Z.gcd_comm]. destruct H2 as [j ->].
  exists j. rewrite Hk. ring.
Qed.

Lemma pow_mul_order x p j : Z.prime p -> x mod p <> 0 -> 0 <= j -> cong p (x ^ ((p - 1) * j)) 1.
Proof.
  intros Hp Hx Hj. pose proof (Z.prime_ge_2 p Hp).
  rewrite Z.pow_mul_r by lia.
  assert (F : cong p (x ^ (p - 1)) 1).
  { apply cong_iff. rewrite (ZmodInv.Z.fermat_nz p x Hp Hx). now rewrite Z.mod_small by lia. }
  rewrite (cong_pow p _ _ j F). apply cong_eq. now apply Z.pow_1_l.
Qed.

Lemma pow_lift N y : 0 < N -> cong N y 1 -> cong (N * N) (y ^ N) 1.
Proof.
  intros HN [k Hk]. assert (E : y = 1 + N * k) by lia. rewrite E.
  rewrite pow_one_plus by lia. unfold cong. exists k. ring.
Qed.

Section Key.
Context {sk : PrivateKey} (V : valid_key sk).
Abbreviation N := (pkN (pub sk)).
Abbreviation P := (skP sk).
Abbreviation Q := (skQ sk).

Lemma key_P2 : 2 <= P.
Proof. apply Z.prime_ge_2, vk_P, V. Qed.
Lemma key_Q2 : 2 <= Q.
Proof. apply Z.prime_ge_2, vk_Q, V. Qed.

Lemma key_N_pos : 4 <= N.
Proof. rewrite (vk_N _ V). pose proof key_P2. pose proof key_Q2. nia. Qed.

Lemma key_PQ : Z.gcd P Q = 1.
Proof.
  apply Z.coprime_prime_l; [apply vk_P, V|]. intros D.
  apply Z.divide_prime_prime in D; [|apply vk_P, V|apply vk_Q, V]. now apply (vk_ne _ V).
Qed.

(** [LambdaN] is a multiple of both [P - 1] and [Q - 1]. *)
Lemma key_lambda : 0 < LambdaN sk /\ (exists j, 0 <= j /\ LambdaN sk = (P - 1) * j) /\
  (exists j, 0 <= j /\ LambdaN sk = (Q - 1) * j) /\ (LambdaN sk | PhiN sk).
Proof.
  pose proof key_P2. pose proof key_Q2. rewrite (vk_lambda _ V), (vk_phi _ V).
  set (g := Z.gcd (P - 1) (Q - 1)).
  assert (Hg : 0 < g).
  { pose proof (Z.gcd_nonneg (P - 1) (Q - 1)). destruct (Z.eq_dec g 0) as [E|]; [|subst g; lia].
    apply Z.gcd_eq_0_l in E. lia. }
  destruct (Z.gcd_divide_l (P - 1) (Q - 1)) as [a Ha]. destruct (Z.gcd_divide_r (P - 1) (Q - 1)) as [b Hb].
  fold g in Ha, Hb. clearbody g.
  assert (E : (P - 1) * (Q - 1) / g = a * b * g).
  { rewrite Ha, Hb. replace (a * g * (b * g)) with (a * b * g * g) by ring. apply Z.div_mul. lia. }
  assert (0 < a) by nia. assert (0 < b) by nia. rewrite E.
  split; [nia|]. split; [exists b; split; [lia|rewrite Ha; ring]|].
  split; [exists a; split; [lia|rewrite Hb; ring]|]. exists g. rewrite Ha, Hb. ring.
Qed.

Lemma unit_mod_P x : Z.gcd x N = 1 -> x mod P <> 0 /\ x mod Q <> 0.
Proof.
  pose proof key_P2. pose proof key_Q2. intros G. rewrite (vk_N _ V) in G.
  split; intros E; apply Z.mod_divide in E; try lia.
  - pose proof (Z.gcd_greatest x (P * Q) P E (Z.divide_factor_l P Q)) as D.
    rewrite G in D. apply Z.divide_1_r in D. lia.
  - pose proof (Z.gcd_greatest x (P * Q) Q E (Z.divide_factor_r Q P)) as D.
    rewrite G in D. apply Z.divide_1_r in D. lia.
Qed.

Lemma pow_lambda x : Z.gcd x N = 1 -> cong N (x ^ LambdaN sk) 1.
Proof.
  intros G. apply unit_mod_P in G as [HP HQ].
  destruct key_lambda as (_ & (j & Hj & Ej) & (i & Hi & Ei) & _).
  rewrite (vk_N _ V). apply cong_prod; [apply key_PQ| |].
  - rewrite Ej. apply pow_mul_order; [apply vk_P, V|assumption|assumption].
  - rewrite Ei. apply pow_mul_order; [apply vk_Q, V|assumption|assumption].
Qed.

Lemma key_lambda_unit : Z.gcd (LambdaN sk) N = 1.
Proof.
  destruct key_lambda as (_ & _ & _ & D).
  assert (G : (Z.gcd (LambdaN sk) N | Z.gcd (PhiN sk) N)).
  { apply Z.gcd_greatest; [eapply Z.divide_trans; [apply Z.gcd_divide_l|exact D]|apply Z.gcd_divide_r]. }
  rewrite (vk_coprime _ V) in G. apply Z.divide_1_r in G. pose proof (Z.gcd_nonneg (LambdaN sk) N). lia.
Qed.

(** The [L] of a power that is 1 modulo [N]. *)
Lemma L_of e : L ((1 + e * N) mod (N * N)) N = Ok (e mod N).
Proof.
  pose proof key_N_pos as HN. unfold L, Div. destruct (Z.eqb_spec N 0); [lia|].
  rewrite Z.sgn_pos, Z.mul_1_l, Z.abs_eq by lia. f_equal.
  replace ((1 + e * N) mod (N * N)) with (1 + e mod N * N).
  - replace (1 + e mod N * N - 1) with (e mod N * N) by ring. apply Z.div_mul. lia.
  - pose proof (Z.mod_pos_bound e N). apply (cong_small (N * N)); [nia|apply Z.mod_pos_bound; nia|].
    etransitivity; [|symmetry; apply cong_mod]. unfold cong. exists (- (e / N)).
    pose proof (Z.div_mod e N ltac:(lia)) as D. rewrite D at 2. ring.
Qed.

Lemma ciphertext_pow_lambda c m : 0 <= m -> ciphertext_of N c m ->
  cong (N * N) (c ^ LambdaN sk) (1 + m * LambdaN sk * N).
Proof.
  intros Hm (Hc & x & Gx & Ec). pose proof key_N_pos. destruct key_lambda as (HL & _).
  rewrite (cong_pow _ _ _ _ Ec), Z.pow_mul_l, <- !Z.pow_mul_r by lia.
  rewrite (Z.mul_comm N (LambdaN sk)), (Z.pow_mul_r x) by lia.
  rewrite (pow_lift N (x ^ LambdaN sk)) by (try lia; apply pow_lambda, Gx).
  replace (1 + N) with (1 + N * 1) by ring. rewrite pow_one_plus by nia.
  apply cong_eq. ring.
Qed.

Lemma ciphertext_coprime c m : 0 <= m -> ciphertext_of N c m -> Z.gcd c (N * N) = 1.
Proof.
  intros Hm (Hc & x & Gx & Ec). pose proof key_N_pos as HN.
  assert (G1 : Z.coprime (1 + N) N).
  { unfold Z.coprime. rewrite Z.gcd_comm, Z.add_comm.
    replace (N + 1) with (1 + 1 * N) by ring. rewrite Z.gcd_add_mult_diag_r. apply Z.gcd_1_r. }
  assert (G : Z.coprime ((1 + N) ^ m * x ^ N) (N * N)).
  { apply Z.coprime_mul_r; apply Z.coprime_mul_l; apply Z.coprime_pow_l; (lia || assumption). }
  apply (proj2 (Z.coprime_mod_l_iff _ _)) in G. apply cong_iff in Ec. rewrite <- Ec in G.
  exact (proj1 (Z.coprime_mod_l_iff _ _) G).
Qed.

Lemma in_range_cmp c n : 0 <= c < n -> (Cmp c 0 =? -1) || negb (Cmp c n =? -1) = false.
Proof. intros H. rewrite !Cmp_lt. now rewrite (proj2 (Z.ltb_ge c 0)), (proj2 (Z.ltb_lt c n)) by lia. Qed.

Lemma Decrypt_ciphertext c m : 0 <= m -> ciphertext_of N c m -> Decrypt sk c = Ok (m mod N).
Proof.
  intros Hm HC. pose proof key_N_pos as HN. destruct key_lambda as (HL & _).
  pose proof (ciphertext_coprime c m Hm HC) as G. pose proof (ciphertext_pow_lambda c m Hm HC) as E.
  destruct HC as [Hc _]. unfold Decrypt, NSquare, GCD. rewrite in_range_cmp by assumption.
  rewrite G. cbn [negb guard rbind Cmp Z.compare Pos.compare Pos.compare_cont Z.eqb].
  rewrite !Exp_nonneg by nia. cbn [deref rbind].
  apply cong_iff in E. rewrite E, L_of. cbn [rbind].
  assert (Eg : cong (N * N) (Gamma (pub sk) ^ LambdaN sk) (1 + LambdaN sk * N)).
  { unfold Gamma. replace (N + 1) with (1 + N * 1) by ring. rewrite pow_one_plus by lia. apply cong_eq. ring. }
  apply cong_iff in Eg. rewrite Eg, L_of. cbn [rbind].
  rewrite ModInverse_coprime; [|lia|]. 2: { rewrite Z.gcd_mod by lia. rewrite Z.gcd_comm. apply key_lambda_unit. }
  cbn [rbind]. rewrite modInt_Mul_ok by lia. f_equal. apply cong_iff.
  rewrite Z.invmod_mod_l, cong_mod.
  replace (m * LambdaN sk * Z.invmod (LambdaN sk) N) with (m * (Z.invmod (LambdaN sk) N * LambdaN sk)) by ring.
  rewrite cong_invmod by apply key_lambda_unit. apply cong_eq. ring.
Qed.
End Key.

(** ** Lemmas: the key-correctness proof *)
Section ProofLemmas.
Context `{HS : Hash} {sk : PrivateKey} (V : valid_key sk).
Abbreviation N := (pkN (pub sk)).

Lemma xs_loop_inv fuel m kb sXb sYb Nb blocks : forall i n ret xs,
  xs_loop fuel m N kb sXb sYb Nb blocks i n ret = Ok xs ->
  length ret = i -> (i <= m)%nat -> Forall (fun x => 1 <= x < N /\ Z.gcd x N = 1) ret ->
  length xs = m /\ Forall (fun x => 1 <= x < N /\ Z.gcd x N = 1) xs.
Proof.
  induction fuel as [|fuel IH]; intros i n ret xs H Hl Hi F; cbn [xs_loop] in H;
    destruct (Nat.ltb_spec i m); inv_res; try (split; [lia|assumption]).
  destruct (IsNumberInMultiplicativeGroup (Some N) (Some x)) eqn:E; [|eauto].
  apply IsNumberInMultiplicativeGroup_iff in E.
  apply IH in H; [assumption|rewrite length_app; cbn; lia|lia|].
  apply Forall_app. split; [assumption|]. repeat constructor; tauto.
Qed.

Lemma GenerateXs_inv fuel m k p xs : GenerateXs fuel m k N p = Ok xs ->
  length xs = m /\ Forall (fun x => 1 <= x < N /\ Z.gcd x N = 1) xs.
Proof.
  unfold GenerateXs. intros H. inv_res.
  eapply xs_loop_inv in H; [exact H|reflexivity|lia|constructor].
Qed.

Lemma key_phi : 2 <= PhiN sk /\ Z.gcd N (PhiN sk) = 1.
Proof.
  pose proof (key_P2 V). pose proof (key_Q2 V). pose proof (vk_ne _ V).
  rewrite (vk_phi _ V) at 1. split; [|rewrite Z.gcd_comm; apply vk_coprime, V].
  assert (3 <= skP sk \/ 3 <= skQ sk) by lia. nia.
Qed.

(** Raising to [N^-1 mod phi] and then to [N] is the identity on units. *)
Lemma root_power x : Z.gcd x N = 1 ->
  cong N ((x ^ Z.invmod N (PhiN sk)) ^ N) x.
Proof.
  intros G. pose proof (key_N_pos V) as HN. destruct key_phi as [Hphi Gphi].
  pose proof (invmod_range N (PhiN sk) ltac:(lia)) as HM. set (M := Z.invmod N (PhiN sk)) in *.
  assert (E : cong (PhiN sk) (M * N) 1) by now apply cong_invmod.
  destruct E as [j Hj]. assert (Hj0 : 0 <= j) by nia.
  rewrite <- Z.pow_mul_r by lia. replace (M * N) with (1 + PhiN sk * j) by lia.
  destruct (key_lambda V) as (HL & _ & _ & [d Hd]). assert (Hd0 : 0 <= d) by nia.
  rewrite Hd. replace (d * LambdaN sk * j) with (LambdaN sk * (d * j)) by ring.
  rewrite Z.pow_add_r, Z.pow_1_r, Z.pow_mul_r by nia.
  rewrite (cong_pow N _ 1) by now apply (pow_lambda V). rewrite Z.pow_1_l by nia.
  apply cong_eq. ring.
Qed.

Lemma check_roots_ok xs : length xs = ProofIters ->
  Forall (fun x => 1 <= x < N /\ Z.gcd x N = 1) xs ->
  check_roots (map (fun xi => Exp xi (Z.invmod N (PhiN sk)) N) xs) N xs = Ok true.
Proof.
  intros Hl F. pose proof (key_N_pos V) as HN. destruct key_phi as [Hphi _].
  unfold check_roots. rewrite Hl, Nat.eqb_refl. cbn [negb].
  apply allM_true. intros [i xi] Hi. apply enum_In in Hi.
  rewrite Forall_forall in F. destruct (F xi (nth_error_In _ _ Hi)) as [Hx Gx].
  unfold idx. rewrite nth_error_map, Hi. cbn [option_map rbind].
  rewrite Mod_ok by lia. cbn [rbind]. pose proof (invmod_range N (PhiN sk) ltac:(lia)).
  rewrite Exp_nonneg by lia. cbn [deref rbind]. rewrite Exp_nonneg by lia. cbn [deref rbind].
  f_equal. rewrite Cmp_eq. apply Z.eqb_eq. apply cong_iff. symmetry.
  etransitivity; [|apply root_power, Gx]. apply cong_pow, cong_mod.
Qed.

Lemma no_small_factor_ok n primes : Forall (fun p => 0 < p /\ n mod p <> 0) primes ->
  no_small_factor n primes = Ok true.
Proof.
  induction 1 as [|p primes [Hp Hn] _ IH]; cbn [no_small_factor]; [reflexivity|].
  rewrite Mod_ok by assumption. cbn [rbind]. rewrite Cmp_eq.
  now rewrite (proj2 (Z.eqb_neq _ _)).
Qed.
End ProofLemmas.

Definition safe_prime (p : Z) : Prop := Z.prime p /\ exists p', Z.prime p' /\ p = 2 * p' + 1.

Lemma pick_primes_In b sgps P Q : pick_primes b sgps = Ok (P, Q) ->
  In (P, Q) sgps /\ Z.quot b 2 - pQBitLenDifference <= BitLen (P - Q).
Proof.
  induction sgps as [|[p q] sgps IH]; cbn [pick_primes]; [discriminate|].
  destruct (Z.leb_spec (Z.quot b 2 - pQBitLenDifference) (BitLen (p - q))).
  - intros E. injection E as <- <-. split; [now left|assumption].
  - intros E. apply IH in E as [? ?]. split; [now right|assumption].
Qed.

(** A prime factor of [(P - 1)(Q - 1)] among [P] and [Q] is excluded by size. *)
Lemma safe_prime_no_factor p q : safe_prime p -> safe_prime q -> q < 2 * p -> ~ (p | (p - 1) * (q - 1)).
Proof.
  intros (Hp & p' & Hp' & Ep) (Hq & q' & Hq' & Eq) Hlt D.
  pose proof (Z.prime_ge_2 _ Hp'). pose proof (Z.prime_ge_2 _ Hq').
  apply Z.divide_prime_mul in D; [|assumption]. destruct D as [D|D].
  - apply Z.divide_pos_le in D; lia.
  - replace (q - 1) with (2 * q') in D by lia. apply Z.divide_prime_mul in D; [|assumption].
    destruct D as [D|D].
    + apply Z.divide_pos_le in D; lia.
    + apply Z.divide_prime_prime in D; [|assumption..]. lia.
Qed.

Lemma phi_coprime p q : Z.prime p -> Z.prime q ->
  ~ (p | (p - 1) * (q - 1)) -> ~ (q | (p - 1) * (q - 1)) -> Z.gcd ((p - 1) * (q - 1)) (p * q) = 1.
Proof.
  intros Hp Hq Np Nq. change (Z.coprime ((p - 1) * (q - 1)) (p * q)).
  apply Z.coprime_mul_r; unfold Z.coprime; rewrite Z.gcd_comm; now apply Z.coprime_prime_l.
Qed.

Lemma GenerateKeyPairFn_run sgps b oc sk pk : GenerateKeyPairFn sgps b oc = Ok (sk, pk) ->
  exists P Q, In (P, Q) sgps /\ Z.quot b 2 - pQBitLenDifference <= BitLen (P - Q) /\
    pk = {| pkN := P * Q |} /\ pub sk = pk /\ skP sk = P /\ skQ sk = Q /\
    PhiN sk = (P - 1) * (Q - 1) /\ Div ((P - 1) * (Q - 1)) (GCD (P - 1) (Q - 1)) = Ok (LambdaN sk).
Proof.
  unfold GenerateKeyPairFn. destruct (_ <? _)%nat; [discriminate|]. intros H.
  apply rbind_ok in H as ([P Q] & E & H). inv_res. apply pick_primes_In in E as [? ?].
  exists P, Q. cbn. auto 10.
Qed.

(** ** Properties *)
Section Properties.
Context {sk : PrivateKey} (V : valid_key sk).
Abbreviation N := (pkN (pub sk)).

Lemma Encrypt_run m r x r' : Forall is_byte r -> 0 <= m < N ->
  GetRandomPositiveRelativelyPrimeInt (Some N) r = Ok (Some x, r') ->
  exists c, EncryptAndReturnRandomness (pub sk) m r = Ok ((c, x), r') /\ ciphertext_of N c m.
Proof.
  intros Hr Hm E. pose proof (key_N_pos V) as HN.
  pose proof (GetRandomPositiveRelativelyPrimeInt_range _ _ _ _ Hr E) as [[Hx Gx] _].
  unfold EncryptAndReturnRandomness, rnd_bind, rlift, rret, NSquare, Gamma.
  rewrite in_range_cmp by assumption. cbn [negb guard rbind fst snd]. rewrite E. cbn [rbind fst snd].
  rewrite Exp_nonneg by nia. cbn [deref rbind fst snd]. rewrite Exp_nonneg by nia. cbn [deref rbind fst snd].
  rewrite modInt_Mul_ok by nia. cbn [rbind fst snd].
  eexists. split; [reflexivity|]. split; [apply Z.mod_pos_bound; nia|].
  exists x. split; [assumption|]. rewrite !cong_mod, (Z.add_comm N). reflexivity.
Qed.

(** C32. Decryption inverts encryption: for a valid key and a plaintext below the
    modulus, encryption with any reader that serves its draw succeeds and its
    ciphertext decrypts to the plaintext. *)
Theorem Decrypt_Encrypt m r x r' (Hr : Forall is_byte r) (Hm : 0 <= m < N)
  (E : GetRandomPositiveRelativelyPrimeInt (Some N) r = Ok (Some x, r')) :
  exists c, EncryptAndReturnRandomness (pub sk) m r = Ok ((c, x), r') /\ Decrypt sk c = Ok m.
Proof.
  destruct (Encrypt_run m r x r' Hr Hm E) as (c & Ec & HC). exists c. split; [exact Ec|].
  rewrite (Decrypt_ciphertext V c m) by (assumption || lia). f_equal. now apply Z.mod_small.
Qed.

Lemma HomoAdd_run c1 c2 m1 m2 : 0 <= m1 -> 0 <= m2 ->
  ciphertext_of N c1 m1 -> ciphertext_of N c2 m2 ->
  exists c, HomoAdd (pub sk) c1 c2 = Ok c /\ ciphertext_of N c (m1 + m2).
Proof.
  intros H1 H2 C1 C2. pose proof (key_N_pos V) as HN. pose proof C1 as [R1 (x1 & G1 & E1)]. pose proof C2 as [R2 (x2 & G2 & E2)].
  unfold HomoAdd, NSquare. rewrite !in_range_cmp by assumption. cbn [negb guard rbind].
  rewrite modInt_Mul_ok by nia. eexists. split; [reflexivity|].
  split; [apply Z.mod_pos_bound; nia|]. exists (x1 * x2). split; [now apply Z.coprime_mul_l|].
  rewrite cong_mod, E1, E2, Z.pow_add_r, Z.pow_mul_l by assumption. apply cong_eq. ring.
Qed.

(** [HomoAdd] of ciphertexts is a ciphertext of the sum, and decrypts to it. *)
Theorem HomoAdd_correct c1 c2 m1 m2 (H1 : 0 <= m1) (H2 : 0 <= m2)
  (C1 : ciphertext_of N c1 m1) (C2 : ciphertext_of N c2 m2) :
  exists c, HomoAdd (pub sk) c1 c2 = Ok c /\ ciphertext_of N c (m1 + m2) /\
    Decrypt sk c = Ok ((m1 + m2) mod N).
Proof.
  destruct (HomoAdd_run c1 c2 m1 m2 H1 H2 C1 C2) as (c & E & HC).
  exists c. repeat split; try assumption; try apply HC. apply (Decrypt_ciphertext V); [lia|exact HC].
Qed.

Lemma HomoMult_run k c1 m1 : 0 <= k < N -> 0 <= m1 -> ciphertext_of N c1 m1 ->
  exists c, HomoMult (pub sk) k c1 = Ok (Some c) /\ ciphertext_of N c (k * m1).
Proof.
  intros Hk H1 C1. pose proof (key_N_pos V) as HN. pose proof C1 as [R1 (x1 & G1 & E1)].
  unfold HomoMult, NSquare. rewrite !in_range_cmp by assumption. cbn [negb guard rbind].
  rewrite modInt_Exp_ok by nia. eexists. split; [reflexivity|].
  split; [apply Z.mod_pos_bound; nia|]. exists (x1 ^ k). split; [apply Z.coprime_pow_l; [lia|assumption]|].
  rewrite cong_mod, (cong_pow _ _ _ _ E1), Z.pow_mul_l, <- !Z.pow_mul_r by lia.
  rewrite (Z.mul_comm m1), (Z.mul_comm N k). reflexivity.
Qed.

(** [HomoMult] by a scalar is a ciphertext of the product, and decrypts to it. *)
Theorem HomoMult_correct k c1 m1 (Hk : 0 <= k < N) (H1 : 0 <= m1) (C1 : ciphertext_of N c1 m1) :
  exists c, HomoMult (pub sk) k c1 = Ok (Some c) /\ ciphertext_of N c (k * m1) /\
    Decrypt sk c = Ok ((k * m1) mod N).
Proof.
  destruct (HomoMult_run k c1 m1 Hk H1 C1) as (c & E & HC).
  exists c. repeat split; try assumption; try apply HC. apply (Decrypt_ciphertext V); [nia|exact HC].
Qed.

(** Completeness of the key proof: when the challenge generation returns, the
    holder of a valid key whose modulus has no small factor produces a proof and
    the verifier accepts it, whichever of its two goroutines finishes first. *)
Theorem PrivateKey_Proof_complete `{HS : Hash} fuel k p xs (first : bool)
  (Hxs : GenerateXs fuel ProofIters k N p = Ok xs)
  (Hsmall : Forall (fun q => 0 < q /\ N mod q <> 0) primesBelow1000) :
  exists pf, PrivateKey_Proof fuel sk k p = Ok pf /\ Proof_Verify first fuel pf N k p = Ok true.
Proof.
  pose proof (key_N_pos V) as HN. destruct (key_phi V) as [Hphi Gphi].
  destruct (GenerateXs_inv _ _ _ _ _ Hxs) as [Hl F].
  unfold PrivateKey_Proof. rewrite Hxs. cbn [rbind]. rewrite ModInverse_coprime by (assumption || lia).
  cbn [rbind]. rewrite (mapM_idx (fun xi => Exp xi (Z.invmod N (PhiN sk)) N) xs) by now symmetry.
  eexists. split; [reflexivity|].
  unfold Proof_Verify. rewrite Hxs, (no_small_factor_ok _ _ Hsmall). cbn [rbind].
  rewrite (check_roots_ok V) by assumption. now destruct first.
Qed.
End Properties.

(** C33. Key generation returns valid keys: from safe primes of the same bit length
    [b / 2 > 3], the modulus is a product of distinct primes coprime with its
    totient, so every theorem about valid keys applies. *)
Theorem GenerateKeyPairFn_valid sgps b oc sk pk
  (Hb : 3 < Z.quot b 2) (E : GenerateKeyPairFn sgps b oc = Ok (sk, pk))
  (Hs : forall P Q, In (P, Q) sgps -> safe_prime P /\ safe_prime Q /\
    2 ^ (Z.quot b 2 - 1) <= P < 2 ^ Z.quot b 2 /\ 2 ^ (Z.quot b 2 - 1) <= Q < 2 ^ Z.quot b 2) :
  valid_key sk /\ pub sk = pk.
Proof.
  apply GenerateKeyPairFn_run in E as (P & Q & Hin & Hbits & Epk & Epub & EP & EQ & Ephi & Elam).
  destruct (Hs P Q Hin) as (SP & SQ & RP & RQ).
  assert (E2 : 2 ^ Z.quot b 2 = 2 * 2 ^ (Z.quot b 2 - 1)).
  { rewrite <- (Z.pow_succ_r 2) by lia. f_equal. lia. }
  assert (Hne : P <> Q).
  { intros ->. rewrite Z.sub_diag in Hbits. unfold pQBitLenDifference, BitLen in Hbits. cbn in Hbits. lia. }
  assert (HP2 : 2 <= P) by apply Z.prime_ge_2, SP. assert (HQ2 : 2 <= Q) by apply Z.prime_ge_2, SQ.
  split; [|exact Epub]. constructor; rewrite ?Epub, ?EP, ?EQ, ?Epk, ?Ephi; cbn [pkN].
  - apply SP.
  - apply SQ.
  - exact Hne.
  - reflexivity.
  - reflexivity.
  - unfold Div, GCD in Elam. pose proof (Z.gcd_nonneg (P - 1) (Q - 1)).
    destruct (Z.eqb_spec (Z.gcd (P - 1) (Q - 1)) 0) as [G|G]; [discriminate|].
    injection Elam as <-. rewrite Z.sgn_pos, Z.mul_1_l, Z.abs_eq by lia. reflexivity.
  - apply phi_coprime; [apply SP|apply SQ|apply safe_prime_no_factor; [assumption..|lia]|].
    rewrite Z.mul_comm. apply safe_prime_no_factor; [assumption..|lia].
Qed.

(** The challenge loop of the verifier has no bound: on the modulus 1 no
    candidate is ever accepted, and the verifier of the key proof never returns. *)
Theorem Proof_Verify_modulus_1_diverges `{HS : Hash} fuel first pf k p
  (Hx : is_some (fst (coords p)) = true) (Hy : is_some (snd (coords p)) = true) :
  Proof_Verify first fuel pf 1 k p = Panic "out of fuel".
Proof.
  assert (HX : GenerateXs fuel ProofIters k 1 p = Panic "out of fuel").
  { unfold GenerateXs, ECPoint_X, ECPoint_Y.
    destruct (fst (coords p)); [|discriminate]. destruct (snd (coords p)); [|discriminate].
    cbn [deref rbind]. generalize (@nil Z) as ret. generalize 0%nat at 2 as n.
    induction fuel as [|fuel IH]; intros n ret; cbn [xs_loop]; [reflexivity|].
    change (0 <? ProofIters)%nat with true. cbv iota.
    destruct (xs_candidate _ _ _ _ _ _ _) as [x|e|w] eqn:Ex.
    - cbn [rbind]. destruct (IsNumberInMultiplicativeGroup (Some 1) (Some x)) eqn:E; [|apply IH].
      apply IsNumberInMultiplicativeGroup_iff in E. lia.
    - exfalso. unfold xs_candidate in Ex. cbn [SHA512_256] in Ex.
      match type of Ex with context [mapM ?f ?l] => destruct (mapM_ok f (fun j => sha512_256 (frame [Itoa 0; Itoa j; Itoa n; Bytes k; Bytes z; Bytes z0; Bytes 1])) l (fun a _ => eq_refl)) end.
      discriminate.
    - exfalso. unfold xs_candidate in Ex. cbn [SHA512_256] in Ex.
      match type of Ex with context [mapM ?f ?l] => destruct (mapM_ok f (fun j => sha512_256 (frame [Itoa 0; Itoa j; Itoa n; Bytes k; Bytes z; Bytes z0; Bytes 1])) l (fun a _ => eq_refl)) end.
      discriminate. }
  unfold Proof_Verify. rewrite HX. cbn [rbind]. destruct first; [|reflexivity].
  reflexivity.
Qed.

(** ** Witnesses: the key of the safe primes 1187 and 1907. *)
Definition w_key : PrivateKey :=
  {| pub := {| pkN := 1187 * 1907 |}; LambdaN := 1186 * 1906 / 2; PhiN := 1186 * 1906; skP := 1187; skQ := 1907 |}.

(** A digest with small values, so that the challenges fall below the modulus. *)
Definition small_hash : Hash :=
  {| sha512_256 m := be_bytes 32 (fold_left (fun h b => (h * 257 + b + 1) mod 1000003) m 0) |}.

Lemma prime_1187 : Z.prime 1187.
Proof. apply prime_check; [lia|vm_compute; reflexivity]. Qed.
Lemma prime_1907 : Z.prime 1907.
Proof. apply prime_check; [lia|vm_compute; reflexivity]. Qed.
Lemma safe_1187 : safe_prime 1187.
Proof.
  split; [apply prime_1187|]. exists 593. split; [|reflexivity].
  apply prime_check; [lia|vm_compute; reflexivity].
Qed.
Lemma safe_1907 : safe_prime 1907.
Proof.
  split; [apply prime_1907|]. exists 953. split; [|reflexivity].
  apply prime_check; [lia|vm_compute; reflexivity].
Qed.

Lemma w_key_valid : valid_key w_key.
Proof.
  constructor; cbn [pub skP skQ pkN LambdaN PhiN w_key]; try reflexivity; try lia;
    [apply prime_1187|apply prime_1907].
Qed.

Lemma GenerateKeyPairFn_valid_witness :
  exists sk pk, GenerateKeyPairFn [(1187, 1187); (1187, 1907)] 22 [] = Ok (sk, pk) /\ valid_key sk /\ pub sk = pk.
Proof.
  do 2 eexists. split; [reflexivity|].
  apply (GenerateKeyPairFn_valid [(1187, 1187); (1187, 1907)] 22 []); [reflexivity|reflexivity|].
  intros P Q [E|[E|[]]]; injection E as <- <-;
    (split; [apply safe_1187|split; [apply safe_1187 || apply safe_1907|
      repeat split; vm_compute; reflexivity || discriminate]]).
Defined.

Lemma Decrypt_Encrypt_witness :
  exists c, EncryptAndReturnRandomness (pub w_key) 1234567 (repeat 1 6) = Ok ((c, 65793), repeat 1 3) /\
    Decrypt w_key c = Ok 1234567.
Proof.
  apply (Decrypt_Encrypt w_key_valid 1234567 (repeat 1 6) 65793 (repeat 1 3));
    [repeat constructor; unfold is_byte; lia|cbn; lia|vm_compute; reflexivity].
Defined.

(** The ciphertext of [m] with randomness [x]. *)
Definition w_c (m x : Z) : Z :=
  let N := pkN (pub w_key) in (Zpow_mod (1 + N) m (N * N) * Zpow_mod x N (N * N)) mod (N * N).

Lemma w_ciphertext m x : Z.gcd x (pkN (pub w_key)) = 1 -> ciphertext_of (pkN (pub w_key)) (w_c m x) m.
Proof.
  intros G. unfold w_c. assert (HN : 4 <= pkN (pub w_key)) by (cbn; lia).
  split; [apply Z.mod_pos_bound; nia|]. exists x. split; [exact G|].
  rewrite !Zpow_mod_correct by nia. now rewrite !cong_mod.
Qed.

Lemma HomoAdd_correct_witness :
  exists c, HomoAdd (pub w_key) (w_c 5 2) (w_c 6 3) = Ok c /\ Decrypt w_key c = Ok 11.
Proof.
  destruct (HomoAdd_correct w_key_valid (w_c 5 2) (w_c 6 3) 5 6 ltac:(lia) ltac:(lia)
    (w_ciphertext 5 2 eq_refl) (w_ciphertext 6 3 eq_refl)) as (c & E & _ & D).
  exists c. split; [exact E|exact D].
Defined.

Lemma HomoMult_correct_witness :
  exists c, HomoMult (pub w_key) 7 (w_c 6 3) = Ok (Some c) /\ Decrypt w_key c = Ok 42.
Proof.
  destruct (HomoMult_correct w_key_valid 7 (w_c 6 3) 6 ltac:(cbn; lia) ltac:(lia) (w_ciphertext 6 3 eq_refl))
    as (c & E & _ & D).
  exists c. split; [exact E|exact D].
Defined.

Definition w_point : ECPoint := mkpt toy256 toy256_pt 5.

Lemma PrivateKey_Proof_complete_witness :
  exists pf, @PrivateKey_Proof small_hash 20 w_key 7 w_point = Ok pf /\
    @Proof_Verify small_hash true 20 pf (pkN (pub w_key)) 7 w_point = Ok true.
Proof.
  destruct (@GenerateXs small_hash 20 ProofIters 7 (pkN (pub w_key)) w_point) as [xs|e|w] eqn:E.
  - apply (PrivateKey_Proof_complete w_key_valid 20 7 w_point xs true E).
    apply Forall_forall. intros q Hq.
    assert (K : forallb (fun q => (0 <? q) && negb (pkN (pub w_key) mod q =? 0)) primesBelow1000 = true)
      by (vm_compute; reflexivity).
    rewrite forallb_forall in K. apply K, andb_true_iff in Hq as [H1 H2].
    apply Z.ltb_lt in H1. apply negb_true_iff, Z.eqb_neq in H2. auto.
  - exfalso. assert (K : is_ok (@GenerateXs small_hash 20 ProofIters 7 (pkN (pub w_key)) w_point) = true)
      by (vm_compute; reflexivity). rewrite E in K. discriminate.
  - exfalso. assert (K : is_ok (@GenerateXs small_hash 20 ProofIters 7 (pkN (pub w_key)) w_point) = true)
      by (vm_compute; reflexivity). rewrite E in K. discriminate.
Defined.

Lemma Proof_Verify_modulus_1_diverges_witness :
  @Proof_Verify toy_hash true 1000000 [] 1 7 w_point = Panic "out of fuel".
Proof. apply Proof_Verify_modulus_1_diverges; reflexivity. Defined.
