(* ===== verification/Mta.v ===== *)
(** * Package [crypto/mta]: definitions

    The multiplicative-to-additive share conversion over Paillier:
    [range_proof.go] (Alice's range proof), [proofs.go] (Bob's proofs with and
    without the consistency check) and [share_protocol.go] (the three moves).
    The theorems are in [MtaCorrect]. *)
From Stdlib Require Import ZArith String List Lia Bool.
From S2P Require Import Prelude GoBig Common Curve Paillier.
Import ListNotations.
Open Scope string_scope.
Open Scope Z_scope.
Open Scope list_scope.

(** ** range_proof.go *)
Definition RangeProofAliceBytesParts : nat := 6.

Record RangeProofAlice :=
  { raZ : option Z; raU : option Z; raW : option Z; raS : option Z; raS1 : option Z; raS2 : option Z }.

(** The ASCII bytes of "MTA-RangeProofAlice". *)
Definition tag_alice : bytes :=
  [77; 84; 65; 45; 82; 97; 110; 103; 101; 80; 114; 111; 111; 102; 65; 108; 105; 99; 101].

Section Defs.
Context `{HS : Hash}.

(** [RejectionSample(q, SHA512_256i_TAGGED(tag, ins...))] *)
Definition hash_challenge (tag : bytes) (q : Z) (ins : list Z) : res Z :=
  let! eHash := deref (SHA512_256i_TAGGED tag (map Some ins)) in
  RejectionSample q eHash.

Definition ProveRangeAlice (ec : Curve) (pk : option PublicKey) (c NTilde h1 h2 m r : option Z)
  : rnd RangeProofAlice :=
  match pk, NTilde, h1, h2, c, m, r with
  | Some pk, Some NTilde, Some h1, Some h2, Some c, Some m, Some r =>
    let q := cN ec in
    let q3 := q * (q * q) in
    let qNTilde := q * NTilde in
    let q3NTilde := q3 * NTilde in
    let~ alpha := GetRandomPositiveInt (Some q3) in
    let~ beta := GetRandomPositiveRelativelyPrimeInt (Some (pkN pk)) in
    let~ gamma := GetRandomPositiveInt (Some q3NTilde) in
    let~ rho := GetRandomPositiveInt (Some qNTilde) in
    rlift (
      let! h1m := deref (modInt_Exp NTilde h1 m) in
      let! rho := deref rho in
      let! h2rho := deref (modInt_Exp NTilde h2 rho) in
      let! z := modInt_Mul NTilde h1m h2rho in
      let N2 := NSquare pk in
      let! alpha := deref alpha in
      let! u := deref (modInt_Exp N2 (Gamma pk) alpha) in
      let! beta := deref beta in
      let! betaN := deref (modInt_Exp N2 beta (pkN pk)) in
      let! u := modInt_Mul N2 u betaN in
      let! w := deref (modInt_Exp NTilde h1 alpha) in
      let! gamma := deref gamma in
      let! h2gamma := deref (modInt_Exp NTilde h2 gamma) in
      let! w := modInt_Mul NTilde w h2gamma in
      let! e := hash_challenge tag_alice q (AsInts pk ++ [c; z; u; w]) in
      let! s := deref (modInt_Exp (pkN pk) r e) in
      let! s := modInt_Mul (pkN pk) s beta in
      let s1 := e * m + alpha in
      let s2 := e * rho + gamma in
      Ok {| raZ := Some z; raU := Some u; raW := Some w; raS := Some s; raS1 := Some s1; raS2 := Some s2 |})
  | _, _, _, _, _, _, _ => rlift (Err "ProveRangeAlice constructor received nil value(s)")
  end.

Definition RangeProofAliceFromBytes (bzs : list bytes) : res RangeProofAlice :=
  guard (NonEmptyMultiBytes bzs (Some RangeProofAliceBytesParts))
    "expected %d byte parts to construct RangeProofAlice" ;!
  let! b0 := idx bzs 0 in let! b1 := idx bzs 1 in let! b2 := idx bzs 2 in
  let! b3 := idx bzs 3 in let! b4 := idx bzs 4 in let! b5 := idx bzs 5 in
  Ok {| raZ := Some (SetBytes b0); raU := Some (SetBytes b1); raW := Some (SetBytes b2);
        raS := Some (SetBytes b3); raS1 := Some (SetBytes b4); raS2 := Some (SetBytes b5) |}.

Definition RangeProofAlice_ValidateBasic (pf : RangeProofAlice) : bool :=
  is_some (raZ pf) && is_some (raU pf) && is_some (raW pf) && is_some (raS pf) &&
  is_some (raS1 pf) && is_some (raS2 pf).

(** The checks on ranges and units that precede the two equations. *)
Definition alice_ranges (q : Z) (pk : PublicKey) (NTilde z u w s s1 s2 : Z) : bool :=
  IsInInterval z NTilde && IsInInterval u (NSquare pk) && IsInInterval w NTilde && IsInInterval s (pkN pk) &&
  (Cmp (GCD z NTilde) 1 =? 0) && (Cmp (GCD u (NSquare pk)) 1 =? 0) && (Cmp (GCD w NTilde) 1 =? 0) &&
  negb (Cmp s1 q =? -1) && negb (Cmp s2 q =? -1) && negb (Cmp s 1 =? 0) && negb (Cmp z 1 =? 0) &&
  negb (Cmp s1 s2 =? 0) && negb (Cmp s1 (q * (q * q)) =? 1).

Definition RangeProofAlice_Verify (pf : option RangeProofAlice) (ec : Curve) (pk : option PublicKey)
    (NTilde h1 h2 c : option Z) : res bool :=
  match pf with
  | None => Ok false
  | Some pf =>
    require! RangeProofAlice_ValidateBasic pf in
    match pk, NTilde, h1, h2, c with
    | Some pk, Some NTilde, Some h1, Some h2, Some c =>
      let q := cN ec in
      let! z := deref (raZ pf) in let! u := deref (raU pf) in let! w := deref (raW pf) in
      let! s := deref (raS pf) in let! s1 := deref (raS1 pf) in let! s2 := deref (raS2 pf) in
      require! alice_ranges q pk NTilde z u w s s1 s2 in
      let! e := hash_challenge tag_alice q (AsInts pk ++ [c; z; u; w]) in
      let minusE := 0 - e in
      let N2 := NSquare pk in
      let cExpMinusE := modInt_Exp N2 c minusE in
      let! sExpN := deref (modInt_Exp N2 s (pkN pk)) in
      let! gammaExpS1 := deref (modInt_Exp N2 (Gamma pk) s1) in
      let! products := modInt_Mul N2 gammaExpS1 sExpN in
      let! cExpMinusE := deref cExpMinusE in
      let! products := modInt_Mul N2 products cExpMinusE in
      require! Cmp u products =? 0 in
      let! h1ExpS1 := deref (modInt_Exp NTilde h1 s1) in
      let! h2ExpS2 := deref (modInt_Exp NTilde h2 s2) in
      let zExpMinusE := modInt_Exp NTilde z minusE in
      let! products := modInt_Mul NTilde h1ExpS1 h2ExpS2 in
      let! zExpMinusE := deref zExpMinusE in
      let! products := modInt_Mul NTilde products zExpMinusE in
      require! Cmp w products =? 0 in
      Ok true
    | _, _, _, _, _ => Ok false
    end
  end.

Definition RangeProofAlice_Bytes (pf : RangeProofAlice) : res (list bytes) :=
  mapM (fun o => let! x := deref o in Ok (Bytes x)) [raZ pf; raU pf; raW pf; raS pf; raS1 pf; raS2 pf].

(** ** proofs.go *)
Definition ProofBobBytesParts : nat := 10.
Definition ProofBobWCBytesParts : nat := 12.

Record ProofBob :=
  { bZ : option Z; bZPrm : option Z; bT : option Z; bV : option Z; bW : option Z;
    bS : option Z; bS1 : option Z; bS2 : option Z; bT1 : option Z; bT2 : option Z }.
Record ProofBobWC := { wcBob : option ProofBob; wcU : option ECPoint }.

(** The coordinates of a point, as hash inputs. *)
Definition xy (p : ECPoint) : res (list Z) :=
  let! x := ECPoint_X p in let! y := ECPoint_Y p in Ok [x; y].

Definition ProveBobWC (Session : bytes) (ec : Curve) (pk : option PublicKey)
    (NTilde h1 h2 c1 c2 x y r : option Z) (X : option ECPoint) : rnd ProofBobWC :=
  match pk, NTilde, h1, h2, c1, c2, x, y, r with
  | Some pk, Some NTilde, Some h1, Some h2, Some c1, Some c2, Some x, Some y, Some r =>
    let N2 := NSquare pk in
    let q := cN ec in
    let q3 := q * (q * q) in
    let q7 := q3 * q3 * q in
    let qNTilde := q * NTilde in
    let q3NTilde := q3 * NTilde in
    let~ alpha := GetRandomPositiveInt (Some q3) in
    let~ rho := GetRandomPositiveInt (Some qNTilde) in
    let~ sigma := GetRandomPositiveInt (Some qNTilde) in
    let~ tau := GetRandomPositiveInt (Some q3NTilde) in
    let~ rhoPrm := GetRandomPositiveInt (Some q3NTilde) in
    let~ beta := GetRandomPositiveRelativelyPrimeInt (Some (pkN pk)) in
    let~ gamma := GetRandomPositiveInt (Some q7) in
    rlift (
      let! u := match X with
                | None => Ok (NewECPointNoCurveCheck ec 0 0)
                | Some _ => let! alpha := deref alpha in ScalarBaseMult ec alpha
                end in
      let! z := deref (modInt_Exp NTilde h1 x) in
      let! rho := deref rho in
      let! h2rho := deref (modInt_Exp NTilde h2 rho) in
      let! z := modInt_Mul NTilde z h2rho in
      let! alpha := deref alpha in
      let! zPrm := deref (modInt_Exp NTilde h1 alpha) in
      let! rhoPrm := deref rhoPrm in
      let! h2rhoPrm := deref (modInt_Exp NTilde h2 rhoPrm) in
      let! zPrm := modInt_Mul NTilde zPrm h2rhoPrm in
      let! t := deref (modInt_Exp NTilde h1 y) in
      let! sigma := deref sigma in
      let! h2sigma := deref (modInt_Exp NTilde h2 sigma) in
      let! t := modInt_Mul NTilde t h2sigma in
      let! v := deref (modInt_Exp N2 c1 alpha) in
      let! gamma := deref gamma in
      let! Gg := deref (modInt_Exp N2 (Gamma pk) gamma) in
      let! v := modInt_Mul N2 v Gg in
      let! beta := deref beta in
      let! betaN := deref (modInt_Exp N2 beta (pkN pk)) in
      let! v := modInt_Mul N2 v betaN in
      let! w := deref (modInt_Exp NTilde h1 gamma) in
      let! tau := deref tau in
      let! h2tau := deref (modInt_Exp NTilde h2 tau) in
      let! w := modInt_Mul NTilde w h2tau in
      let! e :=
        match X with
        | None => hash_challenge Session q (AsInts pk ++ [c1; c2; z; zPrm; t; v; w])
        | Some X =>
          let! Xxy := xy X in
          let! uxy := xy u in
          hash_challenge Session q (AsInts pk ++ Xxy ++ [c1; c2] ++ uxy ++ [z; zPrm; t; v; w])
        end in
      let! s := deref (modInt_Exp (pkN pk) r e) in
      let! s := modInt_Mul (pkN pk) s beta in
      let s1 := e * x + alpha in
      let s2 := e * rho + rhoPrm in
      let t1 := e * y + gamma in
      let t2 := e * sigma + tau in
      let pf := {| bZ := Some z; bZPrm := Some zPrm; bT := Some t; bV := Some v; bW := Some w;
                   bS := Some s; bS1 := Some s1; bS2 := Some s2; bT1 := Some t1; bT2 := Some t2 |} in
      Ok {| wcBob := Some pf; wcU := Some u |})
  | _, _, _, _, _, _, _, _, _ => rlift (Err "ProveBob() received a nil argument")
  end.

Definition ProveBob (Session : bytes) (ec : Curve) (pk : option PublicKey)
    (NTilde h1 h2 c1 c2 x y r : option Z) : rnd ProofBob :=
  let~ pf := ProveBobWC Session ec pk NTilde h1 h2 c1 c2 x y r None in
  rlift (deref (wcBob pf)).

Definition ProofBobFromBytes (bzs : list bytes) : res ProofBob :=
  guard (negb (negb (NonEmptyMultiBytes bzs (Some ProofBobBytesParts)) &&
               negb (NonEmptyMultiBytes bzs (Some ProofBobWCBytesParts))))
    "expected %d byte parts to construct ProofBob, or %d for ProofBobWC" ;!
  let! l := mapM (fun i => let! b := idx bzs i in Ok (Some (SetBytes b))) (seq 0 10) in
  match l with
  | [z; zPrm; t; v; w; s; s1; s2; t1; t2] =>
    Ok {| bZ := z; bZPrm := zPrm; bT := t; bV := v; bW := w; bS := s; bS1 := s1; bS2 := s2; bT1 := t1; bT2 := t2 |}
  | _ => Panic "index out of range"
  end.

Definition ProofBobWCFromBytes (ec : Curve) (bzs : list bytes) : res ProofBobWC :=
  let! proofBob := ProofBobFromBytes bzs in
  let! b10 := idx bzs 10 in
  let! b11 := idx bzs 11 in
  let! point := NewECPoint ec (Some (SetBytes b10)) (Some (SetBytes b11)) in
  Ok {| wcBob := Some proofBob; wcU := Some point |}.

Definition bob_ranges (q : Z) (pk : PublicKey) (NTilde z zPrm t v w s s1 s2 t1 t2 : Z) : bool :=
  let q3 := q * (q * q) in
  let q7 := q3 * q3 * q in
  IsInInterval z NTilde && IsInInterval zPrm NTilde && IsInInterval t NTilde &&
  IsInInterval v (NSquare pk) && IsInInterval w NTilde && IsInInterval s (pkN pk) &&
  (Cmp (GCD z NTilde) 1 =? 0) && (Cmp (GCD zPrm NTilde) 1 =? 0) && (Cmp (GCD t NTilde) 1 =? 0) &&
  (Cmp (GCD v (NSquare pk)) 1 =? 0) && (Cmp (GCD w NTilde) 1 =? 0) &&
  negb (Cmp s 0 =? 0) && (Cmp (GCD s (pkN pk)) 1 =? 0) &&
  negb (Cmp v 0 =? 0) && (Cmp (GCD v (pkN pk)) 1 =? 0) &&
  negb (Cmp s1 q =? -1) && negb (Cmp s2 q =? -1) && negb (Cmp t1 q =? -1) && negb (Cmp t2 q =? -1) &&
  negb (0 <? Cmp s1 q3) && negb (0 <? Cmp t1 q7).

(** [reg] is the curve registry that [tss.SameCurve] consults.  Every field of
    the proof is dereferenced by the first checks. *)
Definition ProofBobWC_Verify (reg : CurveState) (pf : option ProofBobWC) (Session : bytes) (ec : Curve)
    (pk : option PublicKey) (NTilde h1 h2 c1 c2 : option Z) (X : option ECPoint) : res bool :=
  match pk, NTilde, h1, h2, c1, c2 with
  | Some pk, Some NTilde, Some h1, Some h2, Some c1, Some c2 =>
    let q := cN ec in
    let! pf := deref pf in
    let! b := deref (wcBob pf) in
    let! z := deref (bZ b) in
    require! IsInInterval z NTilde in
    let! zPrm := deref (bZPrm b) in
    require! IsInInterval zPrm NTilde in
    let! t := deref (bT b) in
    require! IsInInterval t NTilde in
    let! v := deref (bV b) in
    require! IsInInterval v (NSquare pk) in
    let! w := deref (bW b) in
    require! IsInInterval w NTilde in
    let! s := deref (bS b) in
    require! IsInInterval s (pkN pk) in
    require! (Cmp (GCD z NTilde) 1 =? 0) && (Cmp (GCD zPrm NTilde) 1 =? 0) && (Cmp (GCD t NTilde) 1 =? 0) &&
             (Cmp (GCD v (NSquare pk)) 1 =? 0) && (Cmp (GCD w NTilde) 1 =? 0) &&
             negb (Cmp s 0 =? 0) && (Cmp (GCD s (pkN pk)) 1 =? 0) &&
             negb (Cmp v 0 =? 0) && (Cmp (GCD v (pkN pk)) 1 =? 0) in
    let! s1 := deref (bS1 b) in
    require! negb (Cmp s1 q =? -1) in
    let! s2 := deref (bS2 b) in
    require! negb (Cmp s2 q =? -1) in
    let! t1 := deref (bT1 b) in
    require! negb (Cmp t1 q =? -1) in
    let! t2 := deref (bT2 b) in
    require! negb (Cmp t2 q =? -1) in
    require! negb (0 <? Cmp s1 (q * (q * q))) in
    require! negb (0 <? Cmp t1 (q * (q * q) * (q * (q * q)) * q)) in
    require! match X with None => true | Some X => SameCurve ec (curve X) reg end in
    let! e :=
      match X with
      | None => hash_challenge Session q (AsInts pk ++ [c1; c2; z; zPrm; t; v; w])
      | Some X =>
        let! Xxy := xy X in
        let! U := deref (wcU pf) in
        let! uxy := xy U in
        hash_challenge Session q (AsInts pk ++ Xxy ++ [c1; c2] ++ uxy ++ [z; zPrm; t; v; w])
      end in
    let! point_ok :=
      match X with
      | None => Ok true
      | Some X =>
        let! s1ModQ := Mod s1 q in
        let! gS1 := ScalarBaseMult ec s1ModQ in
        let! Xe := ECPoint_ScalarMult X e in
        let! U := deref (wcU pf) in
        match ECPoint_Add Xe U with
        | Err _ => Ok false
        | Panic w => Panic w
        | Ok xEU => ECPoint_Equals (Some gS1) (Some xEU)
        end
      end in
    require! point_ok in
    let! h1ExpS1 := deref (modInt_Exp NTilde h1 s1) in
    let! h2ExpS2 := deref (modInt_Exp NTilde h2 s2) in
    let! lhs := modInt_Mul NTilde h1ExpS1 h2ExpS2 in
    let! zExpE := deref (modInt_Exp NTilde z e) in
    let! rhs := modInt_Mul NTilde zExpE zPrm in
    require! Cmp lhs rhs =? 0 in
    let! h1ExpT1 := deref (modInt_Exp NTilde h1 t1) in
    let! h2ExpT2 := deref (modInt_Exp NTilde h2 t2) in
    let! lhs := modInt_Mul NTilde h1ExpT1 h2ExpT2 in
    let! tExpE := deref (modInt_Exp NTilde t e) in
    let! rhs := modInt_Mul NTilde tExpE w in
    require! Cmp lhs rhs =? 0 in
    let N2 := NSquare pk in
    let! c1ExpS1 := deref (modInt_Exp N2 c1 s1) in
    let! sExpN := deref (modInt_Exp N2 s (pkN pk)) in
    let! gammaExpT1 := deref (modInt_Exp N2 (Gamma pk) t1) in
    let! lhs := modInt_Mul N2 c1ExpS1 sExpN in
    let! lhs := modInt_Mul N2 lhs gammaExpT1 in
    let! c2ExpE := deref (modInt_Exp N2 c2 e) in
    let! rhs := modInt_Mul N2 c2ExpE v in
    require! Cmp lhs rhs =? 0 in
    Ok true
  | _, _, _, _, _, _ => Ok false
  end.

Definition ProofBob_Verify (reg : CurveState) (pf : option ProofBob) (Session : bytes) (ec : Curve)
    (pk : option PublicKey) (NTilde h1 h2 c1 c2 : option Z) : res bool :=
  match pf with
  | None => Ok false
  | Some pf =>
    ProofBobWC_Verify reg (Some {| wcBob := Some pf; wcU := None |}) Session ec pk NTilde h1 h2 c1 c2 None
  end.

Definition ProofBob_fields (pf : ProofBob) : list (option Z) :=
  [bZ pf; bZPrm pf; bT pf; bV pf; bW pf; bS pf; bS1 pf; bS2 pf; bT1 pf; bT2 pf].
Definition ProofBob_ValidateBasic (pf : ProofBob) : bool := forallb is_some (ProofBob_fields pf).
Definition ProofBobWC_ValidateBasic (pf : ProofBobWC) : res bool :=
  let! b := deref (wcBob pf) in
  Ok (ProofBob_ValidateBasic b && is_some (wcU pf)).

Definition ProofBob_Bytes (pf : ProofBob) : res (list bytes) :=
  mapM (fun o => let! x := deref o in Ok (Bytes x)) (ProofBob_fields pf).
Definition ProofBobWC_Bytes (pf : ProofBobWC) : res (list bytes) :=
  let! b := deref (wcBob pf) in
  let! bobBzs := ProofBob_Bytes b in
  let! U := deref (wcU pf) in
  let! x := ECPoint_X U in
  let! y := ECPoint_Y U in
  Ok (bobBzs ++ [Bytes x; Bytes y]).

(** ** share_protocol.go *)
Definition AliceInit (ec : Curve) (pkA : PublicKey) (a : Z) (NTildeB h1B h2B : option Z)
  : rnd (Z * RangeProofAlice) :=
  let~ (cA, rA) := EncryptAndReturnRandomness pkA a in
  let~ pf := ProveRangeAlice ec (Some pkA) (Some cA) NTildeB h1B h2B (Some a) (Some rA) in
  rret (cA, pf).

(** The steps that [BobMid] and [BobMidWC] share; [prove] makes the proof from
    [cB], [betaPrm] and the encryption randomness. *)
Definition bob_mid {Pf} (reg : CurveState) (ec : Curve) (pkA : PublicKey) (pf : option RangeProofAlice)
    (b cA : Z) (NTildeB h1B h2B : option Z) (prove : Z -> Z -> Z -> rnd Pf) : rnd (Z * Z * Z * Pf) :=
  let~ ok := rlift (RangeProofAlice_Verify pf ec (Some pkA) NTildeB h1B h2B (Some cA)) in
  let~ _ := rlift (guard ok "RangeProofAlice.Verify() returned false") in
  let q := cN ec in
  let q5 := q * q * (q * q) * q in
  let~ betaPrm := GetRandomPositiveInt (Some q5) in
  let~ betaPrm := rlift (deref betaPrm) in
  let~ (cBetaPrm, cRand) := EncryptAndReturnRandomness pkA betaPrm in
  let~ cB := rlift (HomoMult pkA b cA) in
  let~ cB := rlift (deref cB) in
  let~ cB := rlift (HomoAdd pkA cB cBetaPrm) in
  let~ beta := rlift (modInt_Sub q 0 betaPrm) in
  let~ piB := prove cB betaPrm cRand in
  rret (beta, cB, betaPrm, piB).

Definition BobMid (reg : CurveState) (Session : bytes) (ec : Curve) (pkA : PublicKey) (pf : option RangeProofAlice)
    (b cA : Z) (NTildeA h1A h2A NTildeB h1B h2B : option Z) : rnd (Z * Z * Z * ProofBob) :=
  bob_mid reg ec pkA pf b cA NTildeB h1B h2B (fun cB betaPrm cRand =>
    ProveBob Session ec (Some pkA) NTildeA h1A h2A (Some cA) (Some cB) (Some b) (Some betaPrm) (Some cRand)).

Definition BobMidWC (reg : CurveState) (Session : bytes) (ec : Curve) (pkA : PublicKey) (pf : option RangeProofAlice)
    (b cA : Z) (NTildeA h1A h2A NTildeB h1B h2B : option Z) (B : option ECPoint) : rnd (Z * Z * Z * ProofBobWC) :=
  bob_mid reg ec pkA pf b cA NTildeB h1B h2B (fun cB betaPrm cRand =>
    ProveBobWC Session ec (Some pkA) NTildeA h1A h2A (Some cA) (Some cB) (Some b) (Some betaPrm) (Some cRand) B).

Definition AliceEnd (reg : CurveState) (Session : bytes) (ec : Curve) (pkA : PublicKey) (pf : option ProofBob)
    (h1A h2A : option Z) (cA cB : Z) (NTildeA : option Z) (sk : PrivateKey) : res Z :=
  let! ok := ProofBob_Verify reg pf Session ec (Some pkA) NTildeA h1A h2A (Some cA) (Some cB) in
  guard ok "ProofBob.Verify() returned false" ;!
  let! alphaPrm := Decrypt sk cB in
  Mod alphaPrm (cN ec).

Definition AliceEndWC (reg : CurveState) (Session : bytes) (ec : Curve) (pkA : PublicKey) (pf : option ProofBobWC)
    (B : option ECPoint) (cA cB : Z) (NTildeA h1A h2A : option Z) (sk : PrivateKey) : res Z :=
  let! ok := ProofBobWC_Verify reg pf Session ec (Some pkA) NTildeA h1A h2A (Some cA) (Some cB) B in
  guard ok "ProofBobWC.Verify() returned false" ;!
  let! alphaPrm := Decrypt sk cB in
  Mod alphaPrm (cN ec).
End Defs.
