(* ===== verification/MtaCorrect.v ===== *)
(** * Package [crypto/mta]: correctness

    Completeness of the range proof and of Bob's proofs, and the correctness of
    the conversion: the two additive shares sum to the product of the inputs. *)
From Stdlib Require Import ZArith String List Lia Bool Zdivisibility Zpow_facts.
From S2P Require Import Prelude GoBig Common Curve CtMul Field Paillier Mta.
Import ListNotations.
Open Scope string_scope.
Open Scope Z_scope.
Open Scope list_scope.

(** The range checks applied to the fields of a proof. *)
Definition alice_checks (q : Z) (pk : PublicKey) (NTilde : Z) (pf : RangeProofAlice) : bool :=
  match raZ pf, raU pf, raW pf, raS pf, raS1 pf, raS2 pf with
  | Some z, Some u, Some w, Some s, Some s1, Some s2 => alice_ranges q pk NTilde z u w s s1 s2
  | _, _, _, _, _, _ => false
  end.
Definition bob_checks (q : Z) (pk : PublicKey) (NTilde : Z) (pf : ProofBob) : bool :=
  match bZ pf, bZPrm pf, bT pf, bV pf, bW pf, bS pf, bS1 pf, bS2 pf, bT1 pf, bT2 pf with
  | Some z, Some zPrm, Some t, Some v, Some w, Some s, Some s1, Some s2, Some t1, Some t2 =>
    bob_ranges q pk NTilde z zPrm t v w s s1 s2 t1 t2
  | _, _, _, _, _, _, _, _, _, _ => false
  end.

(** ** Powers *)
Lemma modInt_Exp_minus x e m : 0 < m -> 0 <= e -> Z.gcd x m = 1 ->
  exists v, modInt_Exp m x (0 - e) = Some v /\ cong m (v * x ^ e) 1.
Proof.
  intros Hm He G. unfold modInt_Exp. destruct (Z.eq_dec e 0) as [->|Hn].
  - exists (x ^ 0 mod m). split; [now apply Exp_nonneg|]. rewrite cong_mod. reflexivity.
  - exists (Z.invmod x m ^ e mod m). split.
    + replace e with (- (0 - e)) at 2 by ring. apply Exp_neg; lia || assumption.
    + rewrite cong_mod, <- Z.pow_mul_l, (cong_pow m _ 1 e) by now apply cong_invmod.
      apply cong_eq. apply Z.pow_1_l. lia.
Qed.

Lemma pow_N_step N b k n : 0 <= n ->
  cong (N * N) ((b + N * k) ^ (n + 1)) (b ^ (n + 1) + (n + 1) * b ^ n * N * k).
Proof.
  revert n. apply natlike_ind.
  - apply cong_eq. rewrite Z.add_0_l, !Z.pow_1_r, Z.pow_0_r. ring.
  - intros n Hn IH. rewrite <- Z.add_1_r, (Z.pow_add_r _ (n + 1) 1), Z.pow_1_r, IH by lia.
    unfold cong. exists ((n + 1) * b ^ n * k * k).
    rewrite (Z.pow_add_r b (n + 1) 1), !(Z.pow_add_r b n 1), !Z.pow_1_r by lia. ring.
Qed.

(** The N-th power modulo N^2 depends on the base modulo N only. *)
Lemma pow_N_lift N a b : 0 < N -> cong N a b -> cong (N * N) (a ^ N) (b ^ N).
Proof.
  intros HN [k Hk]. replace a with (b + N * k) by lia.
  pose proof (pow_N_step N b k (N - 1) ltac:(lia)) as E.
  replace (N - 1 + 1) with N in E by ring. rewrite E.
  unfold cong. exists (b ^ (N - 1) * k). ring.
Qed.

Lemma cong_gcd n a b : cong n a b -> Z.gcd a n = Z.gcd b n.
Proof.
  intros [k Hk]. replace a with (b + k * n) by lia.
  now rewrite (Z.gcd_comm _ n), Z.gcd_add_mult_diag_r, Z.gcd_comm.
Qed.

Lemma hash_challenge_range `{HS : Hash} tag q ins e : 0 < q ->
  hash_challenge tag q ins = Ok e -> 0 <= e < q.
Proof.
  unfold hash_challenge. intros Hq H. inv_res. rewrite RejectionSample_ok in H by assumption.
  injection H as <-. now apply Z.mod_pos_bound.
Qed.

Lemma Cmp_refl x : (Cmp x x =? 0) = true.
Proof. rewrite Cmp_eq. apply Z.eqb_refl. Qed.

(** Turns the successful computations in the context into equations. *)
Ltac run_exp :=
  repeat match goal with
  | E : modInt_Exp _ _ _ = Some _ |- _ => rewrite modInt_Exp_ok in E by nia; injection E as <-
  | E : modInt_Mul _ _ _ = Ok _ |- _ => rewrite modInt_Mul_ok in E by nia; injection E as <-
  end.

Lemma pow_product m h1 h2 a b : 0 < m -> cong m (((h1 ^ a mod m) * (h2 ^ b mod m)) mod m) (h1 ^ a * h2 ^ b).
Proof. intros. now rewrite !cong_mod. Qed.

(** [h1^(e x + a) h2^(e r + b) = (h1^x h2^r)^e (h1^a h2^b)], the identity behind
    every Pedersen equation of the proofs. *)
Lemma pedersen_combine h1 h2 e x a r b : 0 <= e -> 0 <= x -> 0 <= a -> 0 <= r -> 0 <= b ->
  h1 ^ (e * x + a) * h2 ^ (e * r + b) = (h1 ^ x * h2 ^ r) ^ e * (h1 ^ a * h2 ^ b).
Proof.
  intros. rewrite !Z.pow_add_r by nia. rewrite Z.pow_mul_l, <- !Z.pow_mul_r by assumption.
  rewrite (Z.mul_comm e x), (Z.mul_comm e r). ring.
Qed.

(** The two equations of Alice's proof. *)
Lemma range_u_equation N G m r al be e c ci : 0 < N -> 0 <= m -> 0 <= al -> 0 <= e ->
  cong (N * N) c (G ^ m * r ^ N) -> cong (N * N) (ci * c ^ e) 1 ->
  cong (N * N) (G ^ (e * m + al) * ((r ^ e mod N * be) mod N) ^ N * ci) (G ^ al * be ^ N).
Proof.
  intros HN Hm Ha He Hc Ec.
  rewrite (pow_N_lift N ((r ^ e mod N * be) mod N) (r ^ e * be)) by (try lia; now rewrite !cong_mod).
  transitivity (G ^ al * be ^ N * (ci * (G ^ m * r ^ N) ^ e)).
  - apply cong_eq. rewrite Z.pow_add_r by nia. rewrite !Z.pow_mul_l, <- !Z.pow_mul_r by lia.
    rewrite (Z.mul_comm e m), (Z.mul_comm N e). ring.
  - rewrite <- (cong_pow _ _ _ e Hc), Ec. apply cong_eq. ring.
Qed.

Lemma range_w_equation n h1 h2 e m al rho ga z zi : 0 <= e -> 0 <= m -> 0 <= al -> 0 <= rho -> 0 <= ga ->
  cong n z (h1 ^ m * h2 ^ rho) -> cong n (zi * z ^ e) 1 ->
  cong n (h1 ^ (e * m + al) * h2 ^ (e * rho + ga) * zi) (h1 ^ al * h2 ^ ga).
Proof.
  intros. rewrite pedersen_combine by assumption.
  transitivity (h1 ^ al * h2 ^ ga * (zi * (h1 ^ m * h2 ^ rho) ^ e)); [apply cong_eq; ring|].
  rewrite <- (cong_pow _ _ _ e H4), H5. apply cong_eq. ring.
Qed.

(** The test [x.Cmp(y) == 0] on reduced values. *)
Lemma Cmp_cong n a b : cong n a b -> (Cmp (a mod n) (b mod n) =? 0) = true.
Proof. intros H. rewrite Cmp_eq. apply Z.eqb_eq. now apply cong_iff. Qed.

Section Alice.
Context `{HS : Hash}.
Variables (ec : Curve) (pk : PublicKey) (NTilde h1 h2 : Z).
Hypothesis Hq : 0 < cN ec.
Hypothesis HN : 1 < pkN pk.
Hypothesis HNt : 0 < NTilde.
Abbreviation q := (cN ec).
Abbreviation N := (pkN pk).

(** Samples are positive. *)
Lemma sample_pos n r x r' : Forall is_byte r -> GetRandomPositiveInt (Some n) r = Ok (x, r') ->
  Forall is_byte r' \/ x = None.
Proof.
  intros Hr E. destruct x as [x|]; [left|now right].
  now apply (GetRandomPositiveInt_range n r x r').
Qed.

Lemma alice_run c m r rd pf rd' : Forall is_byte rd -> 0 <= m ->
  ProveRangeAlice ec (Some pk) (Some c) (Some NTilde) (Some h1) (Some h2) (Some m) (Some r) rd = Ok (pf, rd') ->
  exists alpha beta gamma rho e, 1 <= alpha /\ 1 <= gamma /\ 1 <= rho /\ Z.gcd beta N = 1 /\ 0 <= e < q /\
    let z := (h1 ^ m mod NTilde * (h2 ^ rho mod NTilde)) mod NTilde in
    let u := (Gamma pk ^ alpha mod (N * N) * (beta ^ N mod (N * N))) mod (N * N) in
    let w := (h1 ^ alpha mod NTilde * (h2 ^ gamma mod NTilde)) mod NTilde in
    hash_challenge tag_alice q (AsInts pk ++ [c; z; u; w]) = Ok e /\
    pf = {| raZ := Some z; raU := Some u; raW := Some w; raS := Some ((r ^ e mod N * beta) mod N);
            raS1 := Some (e * m + alpha); raS2 := Some (e * rho + gamma) |}.
Proof.
  intros Hr Hm H. unfold ProveRangeAlice, NSquare in H. inv_res.
  match goal with E : GetRandomPositiveInt (Some (q * (q * q))) _ = Ok (Some ?a, _) |- _ =>
    rename a into alpha; apply GetRandomPositiveInt_range in E as [Ra F1]; [|assumption] end.
  match goal with E : GetRandomPositiveRelativelyPrimeInt _ _ = Ok (Some ?a, _) |- _ =>
    rename a into beta; apply GetRandomPositiveRelativelyPrimeInt_range in E as [[Rb Gb] F2]; [|assumption] end.
  match goal with E : GetRandomPositiveInt (Some (q * (q * q) * NTilde)) _ = Ok (Some ?a, _) |- _ =>
    rename a into gamma; apply GetRandomPositiveInt_range in E as [Rg F3]; [|assumption] end.
  match goal with E : GetRandomPositiveInt (Some (q * NTilde)) _ = Ok (Some ?a, _) |- _ =>
    rename a into rho; apply GetRandomPositiveInt_range in E as [Rr F4]; [|assumption] end.
  match goal with E : hash_challenge _ _ _ = Ok ?a |- _ =>
    rename a into e; pose proof (hash_challenge_range _ _ _ _ Hq E) as He end.
  run_exp.
  exists alpha, beta, gamma, rho, e. do 5 (split; [lia || assumption|]).
  split; [assumption|reflexivity].
Qed.

(** Completeness of Alice's range proof: on a ciphertext [c = Gamma^m r^N], a
    proof that passes the range checks satisfies both equations. *)
Theorem ProveRangeAlice_complete c m r rd pf rd'
  (Hr : Forall is_byte rd) (Hm : 0 <= m) (Gr : Z.gcd r N = 1)
  (Hc : cong (N * N) c (Gamma pk ^ m * r ^ N))
  (E : ProveRangeAlice ec (Some pk) (Some c) (Some NTilde) (Some h1) (Some h2) (Some m) (Some r) rd = Ok (pf, rd'))
  (R : alice_checks q pk NTilde pf = true) :
  RangeProofAlice_Verify (Some pf) ec (Some pk) (Some NTilde) (Some h1) (Some h2) (Some c) = Ok true.
Proof.
  apply alice_run in E as (alpha & beta & gamma & rho & e & Ra & Rg & Rr & Gb & He & Hh & ->); [|assumption..].
  assert (P : 0 < N * N /\ 0 <= N /\ 0 <= e /\ 0 <= e * m + alpha /\ 0 <= e * rho + gamma)
    by (clear - HN Hm Ra Rg Rr He; nia).
  destruct P as (HN2 & HN0 & He0 & Hs1 & Hs2).
  cbv zeta in Hh. unfold alice_checks in R. cbn [raZ raU raW raS raS1 raS2] in R.
  unfold RangeProofAlice_Verify. cbn [RangeProofAlice_ValidateBasic raZ raU raW raS raS1 raS2 is_some andb deref rbind].
  rewrite R, Hh. cbn [rbind]. unfold NSquare in *.
  set (z := (h1 ^ m mod NTilde * (h2 ^ rho mod NTilde)) mod NTilde) in *.
  set (u := (Gamma pk ^ alpha mod (N * N) * (beta ^ N mod (N * N))) mod (N * N)) in *.
  set (w := (h1 ^ alpha mod NTilde * (h2 ^ gamma mod NTilde)) mod NTilde) in *.
  set (s := (r ^ e mod N * beta) mod N) in *.
  assert (Gc : Z.gcd c (N * N) = 1).
  { rewrite (cong_gcd _ _ _ Hc).
    apply Z.coprime_mul_r; apply Z.coprime_mul_l; apply Z.coprime_pow_l; try lia; try assumption;
      unfold Z.coprime, Gamma; rewrite Z.gcd_comm, Z.add_comm; replace (1 + N) with (1 + 1 * N) by ring;
      rewrite Z.gcd_add_mult_diag_r; apply Z.gcd_1_r. }
  assert (Gz : Z.gcd z NTilde = 1).
  { unfold alice_ranges in R. rewrite !andb_true_iff in R.
    destruct R as [[[[[[[[[[[[_ _] _] _] Gz] _] _] _] _] _] _] _] _].
    rewrite Cmp_eq in Gz. now apply Z.eqb_eq in Gz. }
  destruct (modInt_Exp_minus c e (N * N) HN2 He0 Gc) as (ci & -> & Ec).
  destruct (modInt_Exp_minus z e NTilde HNt He0 Gz) as (zi & -> & Ez).
  rewrite !modInt_Exp_ok by assumption. cbn [deref rbind]. rewrite !modInt_Mul_ok by assumption. cbn [rbind].
  rewrite !modInt_Mul_ok by assumption. cbn [rbind].
  unfold u, w. rewrite !Cmp_cong; [reflexivity| |]; rewrite !cong_mod; symmetry.
  - apply (range_w_equation _ _ _ _ _ _ _ _ z); try assumption; [lia..|]. unfold z. now apply pow_product.
  - now apply (range_u_equation N (Gamma pk) m r alpha beta e c ci); try assumption; clear - HN Ra; lia.
Qed.
End Alice.

(** The ciphertext equation of Bob's proof. *)
Lemma bob_v_equation N G c1 c2 x al y ga r be e : 0 < N -> 0 <= x -> 0 <= al -> 0 <= y -> 0 <= ga -> 0 <= e ->
  cong (N * N) c2 (c1 ^ x * G ^ y * r ^ N) ->
  cong (N * N) (c1 ^ (e * x + al) * ((r ^ e mod N * be) mod N) ^ N * G ^ (e * y + ga))
    (c2 ^ e * (c1 ^ al * G ^ ga * be ^ N)).
Proof.
  intros HN Hx Ha Hy Hg He Hc.
  rewrite (pow_N_lift N ((r ^ e mod N * be) mod N) (r ^ e * be)) by (try lia; now rewrite !cong_mod).
  rewrite (cong_pow _ _ _ e Hc). apply cong_eq.
  rewrite !Z.pow_add_r by nia. rewrite !Z.pow_mul_l, <- !Z.pow_mul_r by lia.
  rewrite (Z.mul_comm e x), (Z.mul_comm e y), (Z.mul_comm N e). ring.
Qed.

Lemma pedersen_check n h1 h2 e x a r b z zp : 0 <= e -> 0 <= x -> 0 <= a -> 0 <= r -> 0 <= b ->
  cong n z (h1 ^ x * h2 ^ r) -> cong n zp (h1 ^ a * h2 ^ b) ->
  cong n (h1 ^ (e * x + a) * h2 ^ (e * r + b)) (z ^ e * zp).
Proof.
  intros. rewrite pedersen_combine by assumption. now rewrite (cong_pow _ _ _ e H4), H5.
Qed.

Section Bob.
Context `{HS : Hash}.
Variables (ec : Curve) (pt : Z -> Z * Z) (id_on : bool) (L : CurveLaws ec pt id_on).
Variables (reg : CurveState) (pk : PublicKey) (NTilde h1 h2 : Z).
Hypothesis HN : 1 < pkN pk.
Hypothesis HNt : 0 < NTilde.
Hypothesis Hreg : SameCurve ec ec reg = true.
Abbreviation q := (cN ec).
Abbreviation N := (pkN pk).
Abbreviation pnt := (mkpt ec pt).

Lemma bob_q_pos : 0 < q.
Proof. pose proof (cl_N_pos (L := L)). lia. Qed.

(** The hash of the transcript, with or without the points. *)
Definition bob_challenge (Session : bytes) (X : option ECPoint) (U : option ECPoint) (c1 c2 z zPrm t v w : Z) : res Z :=
  match X with
  | None => hash_challenge Session q (AsInts pk ++ [c1; c2; z; zPrm; t; v; w])
  | Some X =>
    let! Xxy := xy X in
    let! U := deref U in
    let! uxy := xy U in
    hash_challenge Session q (AsInts pk ++ Xxy ++ [c1; c2] ++ uxy ++ [z; zPrm; t; v; w])
  end.

Lemma bob_challenge_range S X U c1 c2 z zPrm t v w e :
  bob_challenge S X U c1 c2 z zPrm t v w = Ok e -> 0 <= e < q.
Proof.
  unfold bob_challenge. destruct X; intros H; inv_res; eauto using hash_challenge_range, bob_q_pos.
Qed.

Lemma bob_run Session c1 c2 x y r X rd pf rd' : Forall is_byte rd -> 0 <= x -> 0 <= y ->
  ProveBobWC Session ec (Some pk) (Some NTilde) (Some h1) (Some h2) (Some c1) (Some c2) (Some x) (Some y) (Some r)
    X rd = Ok (pf, rd') ->
  exists alpha rho sigma tau rhoPrm beta gamma e U,
    let z := (h1 ^ x mod NTilde * (h2 ^ rho mod NTilde)) mod NTilde in
    let zPrm := (h1 ^ alpha mod NTilde * (h2 ^ rhoPrm mod NTilde)) mod NTilde in
    let t := (h1 ^ y mod NTilde * (h2 ^ sigma mod NTilde)) mod NTilde in
    let v := ((c1 ^ alpha mod (N * N) * (Gamma pk ^ gamma mod (N * N))) mod (N * N) * (beta ^ N mod (N * N))) mod (N * N) in
    let w := (h1 ^ gamma mod NTilde * (h2 ^ tau mod NTilde)) mod NTilde in
    pf = {| wcBob := Some {| bZ := Some z; bZPrm := Some zPrm; bT := Some t; bV := Some v; bW := Some w;
              bS := Some ((r ^ e mod N * beta) mod N); bS1 := Some (e * x + alpha); bS2 := Some (e * rho + rhoPrm);
              bT1 := Some (e * y + gamma); bT2 := Some (e * sigma + tau) |}; wcU := Some U |} /\
    bob_challenge Session X (Some U) c1 c2 z zPrm t v w = Ok e /\
    (X <> None -> on_c ec id_on alpha = true /\ U = pnt alpha) /\
    1 <= alpha /\ 1 <= rho /\ 1 <= sigma /\ 1 <= tau /\ 1 <= rhoPrm /\ 1 <= gamma.
Proof.
  intros Hr Hx Hy H. pose proof bob_q_pos as Hq. unfold ProveBobWC, NSquare in H. inv_res.
  repeat match goal with
  | E : GetRandomPositiveInt (Some _) ?r = Ok (Some _, _), F : Forall is_byte ?r |- _ =>
    apply GetRandomPositiveInt_range in E as [? ?]; [|exact F]
  | E : GetRandomPositiveRelativelyPrimeInt (Some _) ?r = Ok (Some _, _), F : Forall is_byte ?r |- _ =>
    apply GetRandomPositiveRelativelyPrimeInt_range in E as [[? ?] ?]; [|exact F]
  end.
  assert (HN2 : 0 < N * N) by (clear - HN; nia).
  match goal with E : match X with Some _ => _ | None => hash_challenge _ _ _ end = Ok ?a |- _ =>
    rename a into e; rename E into He end.
  match goal with E : match X with Some _ => _ | None => Ok _ end = Ok ?u |- _ => rename u into U; rename E into HU end.
  assert (He' : bob_challenge Session X (Some U) c1 c2 _ _ _ _ _ = Ok e) by exact He.
  pose proof (bob_challenge_range _ _ _ _ _ _ _ _ _ _ _ He') as Re. clear He.
  repeat match goal with
  | E : modInt_Exp _ _ _ = Some _ |- _ => rewrite modInt_Exp_ok in E by (assumption || lia); injection E as <-
  | E : modInt_Mul _ _ _ = Ok _ |- _ => rewrite modInt_Mul_ok in E by (assumption || lia); injection E as <-
  end.
  do 9 eexists. cbv zeta. split; [reflexivity|]. split; [exact He'|]. split; [|repeat split; lia].
  intros HX. destruct X as [X|]; [|contradiction]. cbn [deref rbind] in HU.
  rewrite ScalarBaseMult_pt in HU by lia.
  match type of HU with context [on_c ec id_on ?a] => destruct (on_c ec id_on a) eqn:Ho; [|discriminate] end.
  injection HU as <-. auto.
Qed.

(** The point equation of the proof with check. *)
Definition bob_point_ok (X : option ECPoint) (U : option ECPoint) (s1 e : Z) : res bool :=
  match X with
  | None => Ok true
  | Some X =>
    let! s1ModQ := Mod s1 q in
    let! gS1 := ScalarBaseMult ec s1ModQ in
    let! Xe := ECPoint_ScalarMult X e in
    let! U := deref U in
    match ECPoint_Add Xe U with
    | Err _ => Ok false
    | Panic w => Panic w
    | Ok xEU => ECPoint_Equals (Some gS1) (Some xEU)
    end
  end.

Lemma bob_point_complete x e alpha : 0 <= e ->
  bob_point_ok (Some (pnt x)) (Some (pnt alpha)) (e * x + alpha) e = Ok true \/
  (id_on = false /\ bob_point_ok (Some (pnt x)) (Some (pnt alpha)) (e * x + alpha) e = Panic "scalar mult to an ecpoint").
Proof.
  intros He. pose proof bob_q_pos as Hq. unfold bob_point_ok. rewrite Mod_ok by assumption. cbn [rbind].
  assert (Ec : cong q ((e * x + alpha) mod q) (e * x + alpha)) by apply cong_mod.
  rewrite ScalarBaseMult_pt by (apply Z.mod_pos_bound; assumption). rewrite (on_c_cong _ _ Ec).
  assert (Hoff : forall k, on_c ec id_on k = false -> id_on = false)
    by (intros k; unfold on_c; destruct id_on; [discriminate|reflexivity]).
  destruct (on_c ec id_on (e * x + alpha)) eqn:H1; cbn [rbind]; [|right; eauto].
  rewrite ECPoint_ScalarMult_pt by assumption.
  destruct (on_c ec id_on (e * x)) eqn:H2; cbn [rbind deref]; [|right; eauto].
  rewrite ECPoint_Add_pt, H1. left. rewrite ECPoint_Equals_pt. f_equal.
  apply Z.eqb_eq, Z.mod_divide; [lia|]. exact Ec.
Qed.

#[local] Opaque IsInInterval.
Ltac split_andb R :=
  lazymatch type of R with
  | (andb _ _) = true => let R' := fresh "R" in apply andb_true_iff in R as [R R']; split_andb R
  | _ => idtac
  end.

(** A verifier run that passes the range checks is the point equation followed
    by the three modular equations. *)
Lemma bob_verify_run Session c1 c2 X b U e z zPrm t v w s s1 s2 t1 t2 :
  b = {| bZ := Some z; bZPrm := Some zPrm; bT := Some t; bV := Some v; bW := Some w; bS := Some s;
         bS1 := Some s1; bS2 := Some s2; bT1 := Some t1; bT2 := Some t2 |} ->
  bob_checks q pk NTilde b = true -> bob_challenge Session X U c1 c2 z zPrm t v w = Ok e ->
  (X = None \/ exists k, X = Some (pnt k)) ->
  0 <= e -> 0 <= s1 -> 0 <= s2 -> 0 <= t1 -> 0 <= t2 ->
  ProofBobWC_Verify reg (Some {| wcBob := Some b; wcU := U |}) Session ec (Some pk) (Some NTilde) (Some h1) (Some h2)
    (Some c1) (Some c2) X =
  let! ok := bob_point_ok X U s1 e in
  require! ok in
  require! Cmp ((h1 ^ s1 mod NTilde * (h2 ^ s2 mod NTilde)) mod NTilde) ((z ^ e mod NTilde * zPrm) mod NTilde) =? 0 in
  require! Cmp ((h1 ^ t1 mod NTilde * (h2 ^ t2 mod NTilde)) mod NTilde) ((t ^ e mod NTilde * w) mod NTilde) =? 0 in
  require! Cmp (((c1 ^ s1 mod (N * N) * (s ^ N mod (N * N))) mod (N * N) * (Gamma pk ^ t1 mod (N * N))) mod (N * N))
    ((c2 ^ e mod (N * N) * v) mod (N * N)) =? 0 in
  Ok true.
Proof.
  intros -> R Hc HX He H1 H2 H3 H4.
  assert (HN2 : 0 < N * N) by (clear - HN; nia). assert (HN0 : 0 <= N) by (clear - HN; lia).
  unfold bob_checks in R. cbn [bZ bZPrm bT bV bW bS bS1 bS2 bT1 bT2] in R.
  unfold bob_ranges in R. cbv zeta in R. split_andb R.
  unfold ProofBobWC_Verify. cbn [deref rbind wcBob wcU bZ bZPrm bT bV bW bS bS1 bS2 bT1 bT2].
  repeat match goal with K : ?c = true |- _ => rewrite K; clear K end. cbn [andb negb].
  replace (match X with None => true | Some X => SameCurve ec (curve X) reg end) with true
    by (destruct HX as [->|[k ->]]; [reflexivity|now symmetry]).
  match goal with |- context [rbind ?ch _] => change ch with (bob_challenge Session X U c1 c2 z zPrm t v w) end.
  rewrite Hc. cbn [rbind].
  match goal with |- context [rbind ?ch _] => change ch with (bob_point_ok X U s1 e) end.
  destruct (bob_point_ok X U s1 e) as [[|]| |]; cbn [rbind]; try reflexivity.
  unfold NSquare. rewrite !modInt_Exp_ok by assumption. cbn [deref rbind].
  rewrite !modInt_Mul_ok by assumption. cbn [rbind]. rewrite !modInt_Mul_ok by assumption. cbn [rbind].
  reflexivity.
Qed.

(** The honest run of Bob's proof with or without the consistency check. *)
Lemma bob_complete Session c1 c2 x y r X rd pf rd' b :
  Forall is_byte rd -> 0 <= x -> 0 <= y ->
  cong (N * N) c2 (c1 ^ x * Gamma pk ^ y * r ^ N) ->
  X = None \/ X = Some (pnt x) ->
  ProveBobWC Session ec (Some pk) (Some NTilde) (Some h1) (Some h2) (Some c1) (Some c2) (Some x) (Some y) (Some r)
    X rd = Ok (pf, rd') ->
  wcBob pf = Some b -> bob_checks q pk NTilde b = true ->
  let V := ProofBobWC_Verify reg (Some pf) Session ec (Some pk) (Some NTilde) (Some h1) (Some h2)
             (Some c1) (Some c2) X in
  V = Ok true \/ (X <> None /\ id_on = false /\ V = Panic "scalar mult to an ecpoint").
Proof.
  intros Hr Hx Hy Hc HX E Hb R. apply bob_run in E as (alpha & rho & sigma & tau & rhoPrm & beta & gamma & e & U & Epf & He & HU & R1 & R2 & R3 & R4 & R5 & R6);
    [|assumption..].
  cbv zeta in Epf, He. subst pf. injection Hb as <-.
  pose proof (bob_challenge_range _ _ _ _ _ _ _ _ _ _ _ He) as [Re _].
  assert (P : 0 <= e * x + alpha /\ 0 <= e * rho + rhoPrm /\ 0 <= e * y + gamma /\ 0 <= e * sigma + tau)
    by (clear - Re Hx Hy R1 R2 R3 R4 R5 R6; nia).
  destruct P as (P1 & P2 & P3 & P4).
  assert (HX' : X = None \/ exists k, X = Some (pnt k)) by (destruct HX as [->|HX]; eauto).
  cbv zeta. rewrite (bob_verify_run Session c1 c2 X _ (Some U) e _ _ _ _ _ _ _ _ _ _ eq_refl R He HX' Re P1 P2 P3 P4).
  clear R He HX' P1 P2 P3 P4. rewrite !Cmp_cong.
  - destruct HX as [->| ->]; [now left|].
    destruct (HU ltac:(discriminate)) as [_ ->].
    destruct (bob_point_complete x e alpha Re) as [->|[Hid ->]]; [now left|right].
    split; [discriminate|auto].
  - etransitivity; [|etransitivity;
      [apply (bob_v_equation N (Gamma pk) c1 c2 x alpha y gamma r beta e);
         try assumption; try (clear - HN R1 R6; lia)|]].
    + apply cong_mul; [|apply cong_mod]. etransitivity; [apply cong_mod|].
      apply cong_mul; apply cong_mod.
    + symmetry. apply cong_mul; [apply cong_mod|]. etransitivity; [apply cong_mod|].
      apply cong_mul; [|apply cong_mod]. etransitivity; [apply cong_mod|].
      apply cong_mul; apply cong_mod.
  - rewrite !cong_mod. apply pedersen_check; try assumption; try (clear - R3 R4 R6; lia);
      reflexivity.
  - rewrite !cong_mod. apply pedersen_check; try assumption; try (clear - R1 R2 R5; lia);
      reflexivity.
Qed.

(** Without the check, [U] plays no role. *)
Lemma Verify_no_X Session b U pk' NT h1' h2' c1 c2 :
  ProofBobWC_Verify reg (Some {| wcBob := Some b; wcU := U |}) Session ec pk' NT h1' h2' c1 c2 None =
  ProofBobWC_Verify reg (Some {| wcBob := Some b; wcU := None |}) Session ec pk' NT h1' h2' c1 c2 None.
Proof. reflexivity. Qed.

Lemma bob_complete_no_X Session c1 c2 x y r rd pf rd' :
  Forall is_byte rd -> 0 <= x -> 0 <= y ->
  cong (N * N) c2 (c1 ^ x * Gamma pk ^ y * r ^ N) ->
  ProveBob Session ec (Some pk) (Some NTilde) (Some h1) (Some h2) (Some c1) (Some c2) (Some x) (Some y) (Some r)
    rd = Ok (pf, rd') ->
  bob_checks q pk NTilde pf = true ->
  ProofBob_Verify reg (Some pf) Session ec (Some pk) (Some NTilde) (Some h1) (Some h2) (Some c1) (Some c2) = Ok true.
Proof.
  intros Hr Hx Hy Hc E R. unfold ProveBob in E. inv_res.
  match goal with W : wcBob ?w = Some _, F : ProveBobWC _ _ _ _ _ _ _ _ _ _ _ _ _ = _ |- _ =>
    destruct (bob_complete Session c1 c2 x y r None rd w _ _ Hr Hx Hy Hc (or_introl eq_refl) F W R)
      as [K|[[] _]]; [|reflexivity];
    destruct w as [wb wu]; cbn [wcBob] in W; subst wb
  end.
  unfold ProofBob_Verify. rewrite <- (Verify_no_X _ _ wu). exact K.
Qed.

(** Completeness of Bob's proofs, with and without the consistency check: when
    [c2] is the ciphertext that Bob's move computes from [c1], a proof of the
    honest prover that passes the range checks is accepted (on a Weierstrass curve
    the check with [X] may instead panic at the identity). *)
Theorem ProveBobWC_complete Session c1 c2 x y r X rd pf rd' b
  (Hr : Forall is_byte rd) (Hx : 0 <= x) (Hy : 0 <= y)
  (Hc : cong (N * N) c2 (c1 ^ x * Gamma pk ^ y * r ^ N))
  (HX : X = None \/ X = Some (pnt x))
  (E : ProveBobWC Session ec (Some pk) (Some NTilde) (Some h1) (Some h2) (Some c1) (Some c2) (Some x) (Some y) (Some r)
         X rd = Ok (pf, rd'))
  (Hb : wcBob pf = Some b) (R : bob_checks q pk NTilde b = true) :
  let V := ProofBobWC_Verify reg (Some pf) Session ec (Some pk) (Some NTilde) (Some h1) (Some h2)
             (Some c1) (Some c2) X in
  V = Ok true \/ (X <> None /\ id_on = false /\ V = Panic "scalar mult to an ecpoint").
Proof. exact (bob_complete Session c1 c2 x y r X rd pf rd' b Hr Hx Hy Hc HX E Hb R). Qed.
End Bob.

(** ** The conversion *)
Section Conversion.
Context `{HS : Hash}.
Context {ec : Curve} {pt : Z -> Z * Z} {id_on : bool} {L : CurveLaws ec pt id_on}.
Context {sk : PrivateKey} (V : valid_key sk).
Variables (reg : CurveState).
Variables (NTA h1A h2A : Z) (NTB h1B h2B : option Z).
Hypothesis HNt : 0 < NTA.
Hypothesis Hreg : SameCurve ec ec reg = true.
Abbreviation q := (cN ec).
Abbreviation pkA := (pub sk).
Abbreviation N := (pkN (pub sk)).

Lemma in_range_of m n : negb ((Cmp m 0 =? -1) || negb (Cmp m n =? -1)) = true -> 0 <= m < n.
Proof. unfold Cmp. destruct (Z.compare_spec m 0), (Z.compare_spec m n); cbn; intros; try discriminate; lia. Qed.

Lemma Encrypt_ciphertext m r c x r' : Forall is_byte r ->
  EncryptAndReturnRandomness pkA m r = Ok ((c, x), r') ->
  0 <= m < N /\ Z.gcd x N = 1 /\ Forall is_byte r' /\ cong (N * N) c (Gamma pkA ^ m * x ^ N) /\ ciphertext_of N c m.
Proof.
  intros Hr H. pose proof H as H'. pose proof (key_N_pos V) as HN.
  unfold EncryptAndReturnRandomness, NSquare in H'. inv_res.
  match goal with G : negb _ = true |- _ => apply in_range_of in G; rename G into Rm end.
  match goal with E : GetRandomPositiveRelativelyPrimeInt _ _ = Ok (Some ?y, _) |- _ =>
    destruct (Encrypt_run V m r y _ Hr Rm E) as (c' & Ec & HC);
    apply GetRandomPositiveRelativelyPrimeInt_range in E as [[_ G] F]; [|assumption] end.
  rewrite H in Ec. injection Ec as <-.
  do 3 (split; [assumption|]). split; [|exact HC].
  repeat match goal with
  | E : Exp _ _ _ = Some _ |- _ => rewrite Exp_nonneg in E by nia; injection E as <-
  | E : modInt_Mul _ _ _ = Ok _ |- _ => rewrite modInt_Mul_ok in E by nia; injection E as <-
  end. now rewrite !cong_mod.
Qed.

Lemma AliceInit_run a rd cA pf rd' : Forall is_byte rd ->
  AliceInit ec pkA a NTB h1B h2B rd = Ok ((cA, pf), rd') -> 0 <= a < N /\ ciphertext_of N cA a.
Proof.
  intros Hr H. unfold AliceInit, rnd_bind in H.
  destruct (EncryptAndReturnRandomness pkA a rd) as [[[c x] r1]| |] eqn:EE; try discriminate H.
  pose proof (Encrypt_ciphertext _ _ _ _ _ Hr EE) as (Ra & _ & _ & _ & HC).
  cbn [rbind fst snd] in H. clear EE. inv_res. auto.
Qed.

(** Bob's move: the ciphertext he returns encrypts [b * a + betaPrm], and his
    share is the opposite of [betaPrm]. *)
Lemma bob_mid_run {Pf} a b cA pf (prove : Z -> Z -> Z -> rnd Pf) rd beta cB betaPrm pi rd' :
  Forall is_byte rd -> 0 <= a -> ciphertext_of N cA a ->
  bob_mid reg ec pkA pf b cA NTB h1B h2B prove rd = Ok ((beta, cB, betaPrm, pi), rd') ->
  0 <= b < N /\ 1 <= betaPrm < q * q * (q * q) * q /\ beta = (0 - betaPrm) mod q /\
  ciphertext_of N cB (b * a + betaPrm) /\
  exists r rd1 rd2, Forall is_byte rd1 /\ prove cB betaPrm r rd1 = Ok (pi, rd2) /\
    cong (N * N) cB (cA ^ b * Gamma pkA ^ betaPrm * r ^ N).
Proof.
  intros Hr Ha HA H. pose proof (cl_N_pos (L := L)) as Hq. pose proof (key_N_pos V) as HN.
  unfold bob_mid, rnd_bind, rlift in H.
  destruct (RangeProofAlice_Verify pf ec (Some pkA) NTB h1B h2B (Some cA)) as [ok| |]; try discriminate H.
  cbn [rbind] in H. destruct ok; try discriminate H. cbn [guard rbind fst snd] in H.
  destruct (GetRandomPositiveInt (Some (q * q * (q * q) * q)) rd) as [[[bp|] r1]| |] eqn:EB; try discriminate H.
  apply GetRandomPositiveInt_range in EB as [Rb F1]; [|assumption]. cbn [deref rbind fst snd] in H.
  destruct (EncryptAndReturnRandomness pkA bp r1) as [[[cb x] r2]| |] eqn:EE; try discriminate H.
  pose proof (Encrypt_ciphertext _ _ _ _ _ F1 EE) as (Rbp & Gx & F2 & Ecb & HC). cbn [rbind fst snd] in H.
  assert (Rbb : 0 <= b < N).
  { unfold HomoMult in H. destruct guard as [u| |] eqn:G in H; try discriminate H.
    apply guard_ok in G. now apply in_range_of. }
  assert (E1 : HomoMult pkA b cA = Ok (Some (cA ^ b mod (N * N)))).
  { unfold HomoMult, NSquare. destruct HA as [RA _]. rewrite !in_range_cmp by assumption. cbn [negb guard rbind].
    now rewrite modInt_Exp_ok by nia. }
  destruct (HomoMult_run V b cA a Rbb Ha HA) as (c1 & E1' & HC1). rewrite E1 in E1'. injection E1' as <-.
  rewrite E1 in H. cbn [deref rbind fst snd] in H.
  destruct (HomoAdd_run V _ cb (b * a) bp ltac:(nia) ltac:(lia) HC1 HC) as (c2 & E2 & HC2).
  rewrite E2 in H. cbn [rbind fst snd] in H. rewrite modInt_Sub_ok in H by lia. cbn [rbind fst snd] in H.
  destruct (prove c2 bp x r2) as [[p r3]| |] eqn:EP; try discriminate H.
  cbn [rbind rret fst snd] in H. injection H as <- <- <- <- <-.
  do 4 (split; [lia || assumption || reflexivity|]). exists x, r2, r3. repeat split; try assumption.
  unfold HomoAdd, NSquare in E2. destruct HC1 as [R1 _], HC as [RC _].
  rewrite !in_range_cmp in E2 by assumption. cbn [negb guard rbind] in E2. rewrite modInt_Mul_ok in E2 by nia.
  injection E2 as <-. rewrite !cong_mod, Ecb. apply cong_eq. ring.
Qed.

Lemma conversion_sum a b betaPrm : 0 <= a < q -> 0 <= b < q -> 1 <= betaPrm < q ^ 5 -> q ^ 2 + q ^ 5 <= N ->
  (((b * a + betaPrm) mod N) mod q + (0 - betaPrm) mod q) mod q = (a * b) mod q.
Proof.
  intros Ha Hb Hp HN. rewrite (Z.mod_small _ N) by (split; nia).
  rewrite <- Z.add_mod by lia. f_equal. ring.
Qed.

End Conversion.

(** ** Inputs on which the verifiers do not return *)
Section Panics.
Context `{HS : Hash}.
Variables (ec : Curve) (pk : PublicKey) (NTilde h1 h2 c : Z).
Hypothesis HN : 1 < pkN pk.

(** A range proof that passes every range check is not rejected when the
    ciphertext it is about is not a unit modulo [N^2]: the verifier raises the
    ciphertext to a negative power, [big.Int.Exp] returns nil, and the next
    multiplication dereferences it. The ciphertext comes from the peer. *)
Theorem RangeProofAlice_Verify_nonunit_panics pf z u w s s1 s2 e
  (Hpf : pf = {| raZ := Some z; raU := Some u; raW := Some w; raS := Some s; raS1 := Some s1; raS2 := Some s2 |})
  (R : alice_ranges (cN ec) pk NTilde z u w s s1 s2 = true) (H1 : 0 <= s1)
  (He : hash_challenge tag_alice (cN ec) (AsInts pk ++ [c; z; u; w]) = Ok e) (He0 : 0 < e)
  (Gc : Z.gcd c (pkN pk * pkN pk) <> 1) :
  RangeProofAlice_Verify (Some pf) ec (Some pk) (Some NTilde) (Some h1) (Some h2) (Some c) = Panic "nil pointer dereference".
Proof.
  subst pf. assert (HN2 : 1 < pkN pk * pkN pk) by nia.
  unfold RangeProofAlice_Verify. cbn [RangeProofAlice_ValidateBasic raZ raU raW raS raS1 raS2 is_some andb deref rbind].
  rewrite R, He. cbn [rbind]. unfold NSquare.
  rewrite (modInt_Exp_ok (pkN pk * pkN pk) s), (modInt_Exp_ok (pkN pk * pkN pk) (Gamma pk)) by lia.
  cbn [deref rbind]. rewrite modInt_Mul_ok by lia. cbn [rbind].
  unfold modInt_Exp. rewrite Exp_neg_nil; [reflexivity|lia..|assumption].
Qed.

(** A message with ten parts passes the length check that
    [ProofBobWCFromBytes] inherits from [ProofBobFromBytes], and the point is then
    read beyond the end of the slice. *)
Theorem ProofBobWCFromBytes_ten_parts_panics bzs (H : NonEmptyMultiBytes bzs (Some ProofBobBytesParts) = true) :
  ProofBobWCFromBytes ec bzs = Panic "index out of range".
Proof.
  assert (L : length bzs = 10%nat).
  { unfold NonEmptyMultiBytes in H. destruct (length bzs =? 0)%nat; [discriminate|].
    destruct (Nat.eqb_spec ProofBobBytesParts (length bzs)) as [<-|]; [reflexivity|discriminate]. }
  do 11 (destruct bzs as [|? bzs]; try discriminate L). unfold ProofBobWCFromBytes, ProofBobFromBytes.
  rewrite H. reflexivity.
Qed.
End Panics.

(** ** Witnesses *)
Definition mta_key : PrivateKey :=
  {| pub := {| pkN := 7907 * 7919 |}; LambdaN := 7906 * 7918 / Z.gcd 7906 7918; PhiN := 7906 * 7918;
     skP := 7907; skQ := 7919 |}.
Lemma mta_key_valid : valid_key mta_key.
Proof.
  constructor; cbn [pub skP skQ pkN LambdaN PhiN mta_key]; try reflexivity; try lia;
    apply prime_check; try lia; vm_compute; reflexivity.
Qed.
Definition mta_NTilde : Z := 1187 * 1907.
Definition mta_reg : CurveState := @curve_init toy_curves.
Lemma ones_bytes n : Forall is_byte (repeat 1 n).
Proof. apply Forall_forall. intros x Hx%repeat_spec. subst. unfold is_byte. lia. Qed.

Definition mta_alice (a : Z) :=
  @AliceInit small_hash toy256 (pub mta_key) a (Some mta_NTilde) (Some 4) (Some 9) (repeat 1 200).
Definition mta_bob (b cA : Z) (pf : RangeProofAlice) :=
  @BobMid small_hash mta_reg [1] toy256 (pub mta_key) (Some pf) b cA (Some mta_NTilde) (Some 4) (Some 9)
    (Some mta_NTilde) (Some 4) (Some 9) (repeat 1 300).


Lemma ProveRangeAlice_complete_witness :
  match mta_alice 5 with
  | Ok ((cA, pfA), _) =>
    @RangeProofAlice_Verify small_hash (Some pfA) toy256 (Some (pub mta_key)) (Some mta_NTilde) (Some 4) (Some 9)
      (Some cA) = Ok true
  | _ => False
  end.
Proof.
  assert (K : match mta_alice 5 with
    | Ok ((_, pfA), _) => alice_checks 31 (pub mta_key) mta_NTilde pfA | _ => false end = true)
    by (vm_compute; reflexivity).
  destruct (mta_alice 5) as [[[cA pfA] r1]| |] eqn:EA; try discriminate K.
  unfold mta_alice, AliceInit, rnd_bind in EA.
  destruct (EncryptAndReturnRandomness (pub mta_key) 5 (repeat 1 200)) as [[[c x] r2]| |] eqn:EE; try discriminate EA.
  destruct (Encrypt_ciphertext mta_key_valid _ _ _ _ _ (ones_bytes 200) EE) as (_ & G & F & C & _).
  cbn [rbind fst snd] in EA.
  destruct (ProveRangeAlice toy256 _ _ _ _ _ _ _ r2) as [[p r3]| |] eqn:EP; try discriminate EA.
  injection EA as <- <- <-.
  refine (@ProveRangeAlice_complete small_hash toy256 (pub mta_key) mta_NTilde 4 9 _ _ _ c 5 x r2 p r3 F _ G C EP K);
    first [reflexivity | cbn; lia].
Defined.

Lemma RangeProofAlice_Verify_nonunit_panics_witness :
  let pf := {| raZ := Some 2; raU := Some 2; raW := Some 2; raS := Some 2; raS1 := Some 40; raS2 := Some 41 |} in
  @RangeProofAlice_Verify small_hash (Some pf) toy256 (Some (pub mta_key)) (Some mta_NTilde) (Some 4) (Some 9) (Some 0) =
  Panic "nil pointer dereference".
Proof.
  assert (K : match @hash_challenge small_hash tag_alice 31 (AsInts (pub mta_key) ++ [0; 2; 2; 2]) with
    | Ok e => 0 <? e | _ => false end = true) by (vm_compute; reflexivity).
  destruct (@hash_challenge small_hash tag_alice 31 (AsInts (pub mta_key) ++ [0; 2; 2; 2])) as [e| |] eqn:E;
    try discriminate K. apply Z.ltb_lt in K.
  refine (@RangeProofAlice_Verify_nonunit_panics small_hash toy256 (pub mta_key) mta_NTilde 4 9 0 _
    _ 2 2 2 2 40 41 e eq_refl _ _ E K _); first [cbn; lia | vm_compute; congruence].
Defined.

Lemma ProofBobWCFromBytes_ten_parts_panics_witness :
  ProofBobWCFromBytes toy256 (repeat [1] 10) = Panic "index out of range".
Proof. exact (ProofBobWCFromBytes_ten_parts_panics toy256 (repeat [1] 10) eq_refl). Defined.

(** A proof with the check [X = 7 G], and the verdict. *)
Definition mta_c1 : Z := 3174055354309660.
Definition mta_c2 : Z :=
  let N := pkN (pub mta_key) in
  (Zpow_mod mta_c1 7 (N * N) * Zpow_mod (N + 1) 1000 (N * N) * Zpow_mod 2 N (N * N)) mod (N * N).
Lemma mta_c2_eq : let N := pkN (pub mta_key) in
  cong (N * N) mta_c2 (mta_c1 ^ 7 * Gamma (pub mta_key) ^ 1000 * 2 ^ N).
Proof.
  cbv zeta. unfold mta_c2, Gamma. assert (HN : 1 < pkN (pub mta_key)) by (cbn; lia).
  generalize dependent (pkN (pub mta_key)). intros N HN.
  rewrite !Zpow_mod_correct by nia. now rewrite !cong_mod.
Qed.
Definition mta_proof :=
  @ProveBobWC small_hash [1] toy256 (Some (pub mta_key)) (Some mta_NTilde) (Some 4) (Some 9) (Some mta_c1)
    (Some mta_c2) (Some 7) (Some 1000) (Some 2) (Some (mkpt toy256 toy256_pt 7)) (repeat 1 300).

Lemma ProveBobWC_complete_witness :
  match mta_proof with
  | Ok (pf, _) =>
    let V := @ProofBobWC_Verify small_hash mta_reg (Some pf) [1] toy256 (Some (pub mta_key)) (Some mta_NTilde)
      (Some 4) (Some 9) (Some mta_c1) (Some mta_c2) (Some (mkpt toy256 toy256_pt 7)) in
    V = Ok true \/ (Some (mkpt toy256 toy256_pt 7) <> None /\ false = false /\ V = Panic "scalar mult to an ecpoint")
  | _ => False
  end.
Proof.
  assert (K : match mta_proof with
    | Ok (pf, _) => match wcBob pf with Some b => bob_checks 31 (pub mta_key) mta_NTilde b | None => false end
    | _ => false end = true) by (vm_compute; reflexivity).
  destruct mta_proof as [[pf r]| |] eqn:E; try discriminate K.
  destruct (wcBob pf) as [b|] eqn:Eb; [|discriminate K].
  refine (@ProveBobWC_complete small_hash toy256 toy256_pt false toy256_laws mta_reg (pub mta_key) mta_NTilde 4 9 _ _ _
    [1] mta_c1 mta_c2 7 1000 2 (Some (mkpt toy256 toy256_pt 7)) _ pf r b (ones_bytes 300) _ _ mta_c2_eq
    (or_intror eq_refl) E Eb K); [cbn; lia|cbn; lia|reflexivity|lia..].
Defined.
