(* ===== verification/DlnProof.v ===== *)
(** * Package [crypto/dlnproof]: [proof.go]

    The proof of knowledge of a discrete logarithm modulo a product of two safe
    primes, with 128 one-bit challenges, and its wire form.  The arrays of the
    source are lists of nil-able integers of length [Iterations]. *)
From Stdlib Require Import ZArith String List Lia Bool Arith.
From S2P Require Import Prelude GoBig Common Field Commit.
Import ListNotations.
Open Scope string_scope.
Open Scope Z_scope.
Open Scope list_scope.

Definition Iterations : nat := 128.

Record DLNProof := { dAlpha : list (option Z); dT : list (option Z) }.

(** The ASCII bytes of "DLNProof". *)
Definition tag_dln : bytes := [68; 76; 78; 80; 114; 111; 111; 102].

Section Defs.
Context `{HS : Hash}.

Definition dln_hash (h1 h2 N : Z) (alpha : list (option Z)) : res Z :=
  deref (SHA512_256i_TAGGED tag_dln ([Some h1; Some h2; Some N] ++ alpha)).

Definition NewDLNProof (h1 h2 x p q N : Z) : rnd DLNProof :=
  let pMulQ := p * q in
  let~ aalpha := rmapM (fun _ =>
    let~ ai := GetRandomPositiveInt (Some pMulQ) in
    let~ ai := rlift (deref ai) in
    rret (ai, modInt_Exp N h1 ai)) (seq 0 Iterations) in
  let alpha := map snd aalpha in
  let~ c := rlift (dln_hash h1 h2 N alpha) in
  let~ t := rlift (mapM (fun i =>
    let cIBI := Bit c (Z.of_nat i) in
    let! ai := idx (map fst aalpha) i in
    let! cx := modInt_Mul pMulQ cIBI x in
    let! ti := modInt_Add pMulQ ai cx in
    Ok (Some ti)) (seq 0 Iterations)) in
  rret {| dAlpha := alpha; dT := t |}.

(** The test [1 < x mod N < N] of the verifier on a nil-able operand. *)
Definition dln_nontrivial (N : Z) (x : option Z) : res bool :=
  let! x := deref x in
  let! a := Mod x N in
  Ok (negb (negb (Cmp a 1 =? 1) || negb (Cmp a N =? -1))).

Definition dln_equation (pf : DLNProof) (h1 h2 N c : Z) (i : nat) : res bool :=
  let! alphai := idx (dAlpha pf) i in
  let! ti := idx (dT pf) i in
  match alphai, ti with
  | Some alphai, Some ti =>
    let cIBI := Bit c (Z.of_nat i) in
    let h1ExpTi := modInt_Exp N h1 ti in
    let! h2ExpCi := deref (modInt_Exp N h2 cIBI) in
    let! alphaIMulH2ExpCi := modInt_Mul N alphai h2ExpCi in
    let! h1ExpTi := deref h1ExpTi in
    Ok (Cmp h1ExpTi alphaIMulH2ExpCi =? 0)
  | _, _ => Ok false
  end.

Definition DLNProof_Verify (pf : option DLNProof) (h1 h2 N : Z) : res bool :=
  match pf with
  | None => Ok false
  | Some pf =>
    require! Z.sgn N =? 1 in
    let! ok1 := dln_nontrivial N (Some h1) in
    require! ok1 in
    let! ok2 := dln_nontrivial N (Some h2) in
    require! ok2 in
    let! h1_ := Mod h1 N in
    let! h2_ := Mod h2 N in
    require! negb (Cmp h1_ h2_ =? 0) in
    let! okT := allM (dln_nontrivial N) (dT pf) in
    require! okT in
    let! okA := allM (dln_nontrivial N) (dAlpha pf) in
    require! okA in
    let! c := dln_hash h1 h2 N (dAlpha pf) in
    allM (dln_equation pf h1 h2 N c) (seq 0 Iterations)
  end.
End Defs.

Definition DLNProof_Serialize (pf : DLNProof) : res (list bytes) :=
  let cb := NewBuilder in
  let cb := AddPart cb (dAlpha pf) in
  let cb := AddPart cb (dT pf) in
  let! ints := Secrets cb in
  Ok (map (fun part => match part with None => [] | Some part => Bytes part end) ints).

(** [copy(dst[:], src)] into a fresh array of [n] nil entries. *)
Definition copy_array (n : nat) (src : list (option Z)) : list (option Z) * nat :=
  let k := Nat.min n (length src) in (firstn k src ++ repeat None (n - k), k).

Definition UnmarshalDLNProof (bzs : list bytes) : res DLNProof :=
  let bis := map (fun b => Some (SetBytes b)) bzs in
  let! parsed := ParseSecrets (Some bis) in
  guard (length parsed =? 2)%nat "UnmarshalDLNProof expected %d parts but got %d" ;!
  let! p0 := idx parsed 0 in
  let (alpha, len1) := copy_array Iterations p0 in
  guard (len1 =? Iterations)%nat "UnmarshalDLNProof expected %d but copied %d" ;!
  let! p1 := idx parsed 1 in
  let (t, len2) := copy_array Iterations p1 in
  guard (len2 =? Iterations)%nat "UnmarshalDLNProof expected %d but copied %d" ;!
  Ok {| dAlpha := alpha; dT := t |}.

(** ** Lemmas *)
Lemma rmapM_inv {A B} (P : B -> Prop) (Q : reader -> Prop) (f : A -> rnd B) l :
  (forall a r b r', Q r -> f a r = Ok (b, r') -> P b /\ Q r') ->
  forall r bs r', Q r -> rmapM f l r = Ok (bs, r') -> Forall P bs /\ length bs = length l.
Proof.
  intros Hf. induction l as [|a l IH]; cbn [rmapM]; intros r bs r' Hr H; inv_res; [now split|].
  match goal with E : f a r = Ok _ |- _ => destruct (Hf _ _ _ _ Hr E) as [Hb Hr'] end.
  match goal with E : rmapM f l _ = Ok _ |- _ => destruct (IH _ _ _ Hr' E) as [F L] end.
  cbn [length]. auto.
Qed.

Lemma Bit_range c i : 0 <= Bit c i <= 1.
Proof. unfold Bit. destruct Z.testbit; lia. Qed.

Lemma map_Some_SetBytes l : Forall (fun o => exists x, o = Some x /\ 0 <= x) l ->
  map (fun b => Some (SetBytes b)) (map (fun part => match part with None => [] | Some part => Bytes part end) l) = l.
Proof.
  induction 1 as [|o l (x & -> & Hx) F IH]; cbn [map]; [reflexivity|].
  now rewrite IH, SetBytes_Bytes_pos.
Qed.

Lemma copy_array_full n l : length l = n -> copy_array n l = (l, n).
Proof.
  intros H. unfold copy_array. rewrite H, Nat.min_id, Nat.sub_diag, <- H, firstn_all. cbn.
  now rewrite app_nil_r.
Qed.

Section Properties.
Context `{HS : Hash}.
Variables (h1 h2 x p q N : Z).
Hypothesis HN : 0 < N.
Hypothesis Hpq : 0 < p * q.
Hypothesis Hx : 0 <= x.
(** The order of [h1] divides [p q], and [h2 = h1^x]. *)
Hypothesis Hord : cong N (h1 ^ (p * q)) 1.
Hypothesis Hh2 : cong N h2 (h1 ^ x).

(** The conditions the verifier puts on its operands before the equations. *)
Definition dln_checks (pf : DLNProof) : bool :=
  let nt x := match x with Some x => (1 <? x mod N) | None => false end in
  nt (Some h1) && nt (Some h2) && negb (h1 mod N =? h2 mod N) && forallb nt (dT pf) && forallb nt (dAlpha pf).

Lemma dln_nontrivial_ok o : match o with Some x => (1 <? x mod N) | None => false end = true ->
  dln_nontrivial N o = Ok true.
Proof.
  clear - HN. destruct o as [y|]; [|discriminate]. intros H%Z.ltb_lt. unfold dln_nontrivial. cbn [deref rbind].
  rewrite Mod_ok by assumption. cbn [rbind]. pose proof (Z.mod_pos_bound y N HN). unfold Cmp.
  destruct (Z.compare_spec (y mod N) 1), (Z.compare_spec (y mod N) N); try lia; reflexivity.
Qed.

Lemma dln_challenge_eq c i a : 0 <= a ->
  cong N (h1 ^ ((a + (Bit c i * x) mod (p * q)) mod (p * q))) (h1 ^ a mod N * (h2 ^ Bit c i mod N)).
Proof.
  intros Ha. pose proof (Bit_range c i) as Hb.
  rewrite (pow_mod_order h1 N (p * q) _ (a + Bit c i * x)); try assumption;
    [|apply Z.mod_pos_bound; assumption|nia|apply Zplus_mod_idemp_r].
  rewrite !cong_mod, (cong_pow _ _ _ (Bit c i) Hh2).
  rewrite <- Z.pow_mul_r, <- Z.pow_add_r, (Z.mul_comm x) by nia. reflexivity.
Qed.

(** Completeness: with [h2 = h1^x] and [h1] of order dividing [p q], a proof of
    the honest prover whose elements are non-trivial is accepted. *)
Theorem NewDLNProof_complete rd pf rd' (Hr : Forall is_byte rd)
  (E : NewDLNProof h1 h2 x p q N rd = Ok (pf, rd')) (C : dln_checks pf = true) :
  DLNProof_Verify (Some pf) h1 h2 N = Ok true.
Proof.
  unfold NewDLNProof in E. inv_res.
  match goal with M : rmapM _ _ _ = Ok (?l, _) |- _ => rename l into al; rename M into EM end.
  match goal with D : dln_hash _ _ _ _ = Ok ?k |- _ => rename k into c; rename D into ED end.
  match goal with D : mapM _ _ = Ok ?k |- _ => rename k into t; rename D into ET end.
  assert (K : Forall (fun b => 1 <= fst b /\ snd b = Some (h1 ^ fst b mod N)) al /\ length al = length (seq 0 Iterations)).
  { refine (rmapM_inv (fun b => 1 <= fst b /\ snd b = Some (h1 ^ fst b mod N)) (Forall is_byte) _ _ _ _ _ _ Hr EM).
    intros a r b r' Fr E. inv_res. match goal with G : GetRandomPositiveInt _ _ = Ok (Some _, _) |- _ =>
      apply GetRandomPositiveInt_range in G as [? ?]; [|assumption] end.
    cbn [fst snd]. rewrite modInt_Exp_ok by lia. repeat split; try assumption; lia. }
  destruct K as [F L].
  clear EM. apply mapM_inv in ET. unfold dln_checks in C. rewrite !andb_true_iff in C.
  destruct C as [[[[C1 C2] C3] C4] C5].
  unfold DLNProof_Verify. rewrite Z.sgn_pos by assumption. cbn [dAlpha dT] in *.
  rewrite !dln_nontrivial_ok by assumption. cbn [rbind Z.eqb Pos.eqb]. rewrite !Mod_ok by assumption. cbn [rbind].
  rewrite Cmp_eq, C3. rewrite forallb_forall in C4, C5.
  rewrite !allM_true by (intros o Ho; apply dln_nontrivial_ok; auto).
  cbn [rbind negb]. rewrite ED. cbn [rbind]. apply allM_true. intros i Hi.
  apply in_seq in Hi. unfold dln_equation. cbn [dAlpha dT].
  destruct (nth_error al i) as [[a alpha]|] eqn:Ea; [|apply nth_error_None in Ea; rewrite L, length_seq in Ea; lia].
  pose proof (proj1 (Forall_forall _ _) F _ (nth_error_In _ _ Ea)) as [Ra Eal]. cbn [fst snd] in Ra, Eal. subst alpha.
  destruct (Forall2_nth_error_l _ _ _ _ _ ET (nth_error_seq_0 _ _ (proj2 Hi))) as (ti & Eti & Hti).
  unfold idx in *. rewrite nth_error_map, Ea, Eti in *. cbn [option_map rbind snd fst] in *.
  rewrite modInt_Mul_ok in Hti by assumption. cbn [rbind] in Hti. rewrite modInt_Add_ok in Hti by assumption.
  cbn [rbind] in Hti. injection Hti as <-.
  pose proof (Bit_range c (Z.of_nat i)) as Hb.
  rewrite !modInt_Exp_ok by (try apply Z.mod_pos_bound; lia). cbn [deref rbind]. rewrite modInt_Mul_ok by assumption.
  cbn [rbind]. f_equal. rewrite Cmp_eq. apply Z.eqb_eq, cong_iff. apply dln_challenge_eq. lia.
Qed.

(** The verifier's own test for missing elements comes too late: with a nil
    response, the range check before it dereferences the pointer. *)
Theorem DLNProof_Verify_nil_panics pf t
  (C : (1 <? h1 mod N) && (1 <? h2 mod N) && negb (h1 mod N =? h2 mod N) = true) (Ht : dT pf = None :: t) :
  DLNProof_Verify (Some pf) h1 h2 N = Panic "nil pointer dereference".
Proof.
  clear - HN C Ht. rewrite !andb_true_iff in C. destruct C as [[C1 C2] C3].
  unfold DLNProof_Verify. rewrite Z.sgn_pos by assumption. cbn [Z.eqb Pos.eqb].
  rewrite !(dln_nontrivial_ok (Some _)) by assumption. cbn [rbind]. rewrite !Mod_ok by assumption. cbn [rbind].
  rewrite Cmp_eq, C3, Ht. reflexivity.
Qed.
End Properties.

(** Round trip of the wire form for proofs of the honest prover's shape: full
    arrays of non-negative integers. *)
Theorem DLNProof_roundtrip pf
  (LA : length (dAlpha pf) = Iterations) (LT : length (dT pf) = Iterations)
  (FA : Forall (fun o => exists x, o = Some x /\ 0 <= x) (dAlpha pf ++ dT pf)) :
  exists bzs, DLNProof_Serialize pf = Ok bzs /\ UnmarshalDLNProof bzs = Ok pf.
Proof.
  apply Forall_app in FA as [FA FT]. unfold DLNProof_Serialize, NewBuilder, AddPart. cbn [app].
  set (parts := [dAlpha pf; dT pf]).
  assert (FM : Forall (fun p => Z.of_nat (length p) <= MaxPartSize) parts)
    by (repeat constructor; rewrite ?LA, ?LT; unfold Iterations, MaxPartSize; lia).
  rewrite Secrets_ok by (assumption || (cbn; unfold PartsCap; lia)).
  cbn [rbind]. eexists. split; [reflexivity|]. unfold UnmarshalDLNProof.
  rewrite map_Some_SetBytes.
  - rewrite ParseSecrets_encoded; [|cbn; unfold PartsCap; lia| | |exact FM].
    + unfold parts. cbn [rbind length Nat.eqb guard]. unfold idx. cbn [nth_error rbind].
      rewrite !copy_array_full by assumption. rewrite Nat.eqb_refl. cbn [guard rbind]. now destruct pf.
    + cbn [parts last]. intros E. rewrite E in LT. discriminate LT.
    + unfold parts, small_len, encode_part. cbn [flat_map]. rewrite !length_app. cbn [length].
      rewrite LA, LT. unfold Iterations. cbn. lia.
  - unfold parts, encode_part. cbn [flat_map]. rewrite app_nil_r.
    apply Forall_app. split; constructor; try assumption; eexists; (split; [reflexivity|lia]).
Qed.

(** ** Witnesses *)
(** Order 11 * 23 modulo 23 * 47: squares, with [h2 = h1^5]. *)
#[local] Abbreviation dln_run :=
  (@NewDLNProof toy_hash 4 (4 ^ 5 mod 1081) 5 11 23 1081 (concat (repeat [7; 29; 113; 200; 91; 3] 200))).

Lemma NewDLNProof_complete_witness :
  match dln_run with
  | Ok (pf, _) => @DLNProof_Verify toy_hash (Some pf) 4 (4 ^ 5 mod 1081) 1081 = Ok true
  | _ => False
  end.
Proof.
  assert (K : match dln_run with
    | Ok (pf, _) => dln_checks 4 (4 ^ 5 mod 1081) 1081 pf | _ => false end = true) by (vm_compute; reflexivity).
  destruct dln_run as [[pf r]| |] eqn:E; try discriminate K.
  refine (@NewDLNProof_complete toy_hash 4 (4 ^ 5 mod 1081) 5 11 23 1081 _ _ _ _ _ _ pf r _ E K); try lia.
  - apply cong_iff. vm_compute. reflexivity.
  - apply cong_mod.
  - apply Forall_forall. intros y Hy. apply in_concat in Hy as (l & Hl & Hy). apply repeat_spec in Hl. subst l.
    cbn in Hy. unfold is_byte. lia.
Defined.

Lemma DLNProof_Verify_nil_panics_witness :
  @DLNProof_Verify toy_hash (Some {| dAlpha := repeat None 128; dT := repeat None 128 |}) 4 16 1081 =
  Panic "nil pointer dereference".
Proof.
  refine (@DLNProof_Verify_nil_panics toy_hash 4 16 1081 _ {| dAlpha := repeat None 128; dT := repeat None 128 |}
    (repeat None 127) _ eq_refl); [lia|vm_compute; reflexivity].
Defined.

Lemma DLNProof_roundtrip_witness :
  let pf := {| dAlpha := repeat (Some 300) 128; dT := repeat (Some 7) 128 |} in
  exists bzs, DLNProof_Serialize pf = Ok bzs /\ UnmarshalDLNProof bzs = Ok pf.
Proof.
  cbv zeta. apply DLNProof_roundtrip; [reflexivity|reflexivity|].
  cbn [dAlpha dT]. apply Forall_app. split; apply Forall_forall; intros o Ho; apply repeat_spec in Ho; subst o;
    eexists; (split; [reflexivity|lia]).
Defined.
