(* ===== verification/FacProof.v ===== *)
(** * Package [crypto/facproof]: [proof.go]

    The proof that the modulus [N0] has no small factor: prover, verifier and byte
    form. A negative component [V] loses its sign in the byte form. *)
From Stdlib Require Import ZArith String List Lia Bool Zdivisibility ZmodInv.
From S2P Require Import Prelude GoBig Common Curve Paillier Mta MtaCorrect.
Import ListNotations.
Open Scope string_scope.
Open Scope Z_scope.
Open Scope list_scope.

Definition ProofFacBytesParts : nat := 11.

Record ProofFac :=
  { fP : option Z; fQ : option Z; fA : option Z; fB : option Z; fT : option Z; fSigma : option Z;
    fZ1 : option Z; fZ2 : option Z; fW1 : option Z; fW2 : option Z; fV : option Z }.

Section Defs.
Context `{HS : Hash}.

(** [modNCap.Mul(modNCap.Exp(a, x), modNCap.Exp(b, y))] *)
Definition exp_mul (n a x b y : Z) : res Z :=
  let! u := deref (modInt_Exp n a x) in
  let! v := deref (modInt_Exp n b y) in
  modInt_Mul n u v.

Definition ProofFac_NewProof (Session : bytes) (ec : option Curve) (N_0 NCap s t N0p N0q : option Z) : rnd ProofFac :=
  match ec, N_0, NCap, s, t, N0p, N0q with
  | Some ec, Some N_0, Some NCap, Some s, Some t, Some N0p, Some N0q =>
    let q := cN ec in
    let q3 := q * (q * q) in
    let qNCap := q * NCap in
    let qN0NCap := qNCap * N_0 in
    let q3NCap := q3 * NCap in
    let q3N0NCap := q3NCap * N_0 in
    let~ sqrtN0 := rlift (Sqrt N_0) in
    let q3SqrtN0 := q3 * sqrtN0 in
    let~ alpha := GetRandomPositiveInt (Some q3SqrtN0) in
    let~ beta := GetRandomPositiveInt (Some q3SqrtN0) in
    let~ mu := GetRandomPositiveInt (Some qNCap) in
    let~ nu := GetRandomPositiveInt (Some qNCap) in
    let~ sigma := GetRandomPositiveInt (Some qN0NCap) in
    let~ r := GetRandomPositiveRelativelyPrimeInt (Some q3N0NCap) in
    let~ x := GetRandomPositiveInt (Some q3NCap) in
    let~ y := GetRandomPositiveInt (Some q3NCap) in
    rlift (
      let! mu := deref mu in
      let! P := exp_mul NCap s N0p t mu in
      let! nu := deref nu in
      let! Q := exp_mul NCap s N0q t nu in
      let! alpha := deref alpha in
      let! x := deref x in
      let! A := exp_mul NCap s alpha t x in
      let! beta := deref beta in
      let! y := deref y in
      let! B := exp_mul NCap s beta t y in
      let! r := deref r in
      let! T := exp_mul NCap Q alpha t r in
      let! eHash := deref (SHA512_256i_TAGGED Session
        [Some N_0; Some NCap; Some s; Some t; Some P; Some Q; Some A; Some B; Some T; sigma]) in
      let! e := RejectionSample q eHash in
      let! sigma := deref sigma in
      let z1 := e * N0p + alpha in
      let z2 := e * N0q + beta in
      let w1 := e * mu + x in
      let w2 := e * nu + y in
      let v := e * (sigma - nu * N0p) + r in
      Ok {| fP := Some P; fQ := Some Q; fA := Some A; fB := Some B; fT := Some T; fSigma := Some sigma;
            fZ1 := Some z1; fZ2 := Some z2; fW1 := Some w1; fW2 := Some w2; fV := Some v |})
  | _, _, _, _, _, _, _ => rlift (Err "ProveFac constructor received nil value(s)")
  end.

Definition ProofFac_fields (pf : ProofFac) : list (option Z) :=
  [fP pf; fQ pf; fA pf; fB pf; fT pf; fSigma pf; fZ1 pf; fZ2 pf; fW1 pf; fW2 pf; fV pf].
Definition ProofFac_ValidateBasic (pf : ProofFac) : bool := forallb is_some (ProofFac_fields pf).

Definition ProofFac_NewProofFromBytes (bzs : list bytes) : res ProofFac :=
  guard (NonEmptyMultiBytes bzs (Some ProofFacBytesParts)) "expected %d byte parts to construct ProofFac" ;!
  let! l := mapM (fun i => let! b := idx bzs i in Ok (Some (SetBytes b))) (seq 0 11) in
  match l with
  | [P; Q; A; B; T; Sigma; Z1; Z2; W1; W2; V] =>
    Ok {| fP := P; fQ := Q; fA := A; fB := B; fT := T; fSigma := Sigma;
          fZ1 := Z1; fZ2 := Z2; fW1 := W1; fW2 := W2; fV := V |}
  | _ => Panic "index out of range"
  end.

Definition ProofFac_Verify (pf : option ProofFac) (Session : bytes) (ec : option Curve) (N_0 NCap s t : option Z)
  : res bool :=
  match pf with
  | None => Ok false
  | Some pf =>
    require! ProofFac_ValidateBasic pf in
    match ec, N_0, NCap, s, t with
    | Some ec, Some N_0, Some NCap, Some s, Some t =>
      require! Z.sgn N_0 =? 1 in
      let q := cN ec in
      let q3 := q * (q * q) in
      let! sqrtN0 := Sqrt N_0 in
      let q3SqrtN0 := q3 * sqrtN0 in
      let! Z1 := deref (fZ1 pf) in
      require! IsInInterval Z1 q3SqrtN0 in
      let! Z2 := deref (fZ2 pf) in
      require! IsInInterval Z2 q3SqrtN0 in
      let! eHash := deref (SHA512_256i_TAGGED Session
        [Some N_0; Some NCap; Some s; Some t; fP pf; fQ pf; fA pf; fB pf; fT pf; fSigma pf]) in
      let! e := RejectionSample q eHash in
      let! P := deref (fP pf) in let! Q := deref (fQ pf) in let! A := deref (fA pf) in
      let! B := deref (fB pf) in let! T := deref (fT pf) in let! Sigma := deref (fSigma pf) in
      let! W1 := deref (fW1 pf) in let! W2 := deref (fW2 pf) in let! V := deref (fV pf) in
      let! LHS := exp_mul NCap s Z1 t W1 in
      let! Pe := deref (modInt_Exp NCap P e) in
      let! RHS := modInt_Mul NCap A Pe in
      require! Cmp LHS RHS =? 0 in
      let! LHS := exp_mul NCap s Z2 t W2 in
      let! Qe := deref (modInt_Exp NCap Q e) in
      let! RHS := modInt_Mul NCap B Qe in
      require! Cmp LHS RHS =? 0 in
      let! R := exp_mul NCap s N_0 t Sigma in
      let! LHS := exp_mul NCap Q Z1 t V in
      let! Re := deref (modInt_Exp NCap R e) in
      let! RHS := modInt_Mul NCap T Re in
      require! Cmp LHS RHS =? 0 in
      Ok true
    | _, _, _, _, _ => Ok false
    end
  end.

Definition ProofFac_Bytes (pf : ProofFac) : res (list bytes) :=
  mapM (fun o => let! x := deref o in Ok (Bytes x)) (ProofFac_fields pf).
End Defs.

(** ** Lemmas *)
Lemma exp_mul_ok n a x b y : 0 < n -> 0 <= x -> 0 <= y ->
  exp_mul n a x b y = Ok ((a ^ x mod n * (b ^ y mod n)) mod n).
Proof.
  intros. unfold exp_mul. rewrite !modInt_Exp_ok by assumption. cbn [deref rbind]. now apply modInt_Mul_ok.
Qed.

(** A power of a unit, of either sign: its product with the opposite power is 1. *)
Lemma modInt_Exp_unit m x v : 0 < m -> Z.gcd x m = 1 ->
  exists w, modInt_Exp m x v = Some w /\
    forall a b, 0 <= a -> 0 <= b -> v = a - b -> cong m (w * x ^ b) (x ^ a).
Proof.
  intros Hm G. destruct (Z.leb_spec 0 v) as [Hv|Hv].
  - exists (x ^ v mod m). split; [now apply modInt_Exp_ok|]. intros a b Ha Hb ->.
    rewrite cong_mod, <- Z.pow_add_r by lia. apply cong_eq. f_equal. lia.
  - destruct (modInt_Exp_minus x (- v) m Hm ltac:(lia) G) as (w & E & C).
    exists w. split; [replace v with (0 - - v) by lia; exact E|]. intros a b Ha Hb ->.
    assert (Eb : x ^ b = x ^ (- (a - b)) * x ^ a) by (rewrite <- Z.pow_add_r by lia; f_equal; lia).
    rewrite Eb, Z.mul_assoc, C. apply cong_eq. ring.
Qed.

Lemma unit_cancel m x k a b : 0 < m -> 0 <= k -> Z.gcd x m = 1 -> cong m (a * x ^ k) (b * x ^ k) -> cong m a b.
Proof.
  intros Hm Hk G H. destruct (modInt_Exp_minus x k m Hm Hk G) as (w & _ & C).
  transitivity (a * (w * x ^ k)); [rewrite C; apply cong_eq; ring|].
  transitivity (b * (w * x ^ k)); [|rewrite C; apply cong_eq; ring].
  replace (a * (w * x ^ k)) with (a * x ^ k * w) by ring. rewrite H. apply cong_eq. ring.
Qed.

(** ** Properties *)
Section Properties.
Context `{HS : Hash}.
Variables (ec : Curve) (n s t p0 q0 : Z).
Abbreviation N_0 := (p0 * q0).
Hypothesis Hq : 0 < cN ec.
Hypothesis Hn : 0 < n.
Hypothesis Ht : Z.gcd t n = 1.
Hypothesis Hp0 : 0 < p0.
Hypothesis Hq0 : 0 < q0.

(** The first two equations, and the third with its possibly negative exponent. *)
Lemma fac_linear a x b y e : 0 <= e -> 0 <= a -> 0 <= x -> 0 <= b -> 0 <= y ->
  cong n (s ^ (e * x + a) mod n * (t ^ (e * y + b) mod n))
    ((s ^ a mod n * (t ^ b mod n)) mod n * ((s ^ x mod n * (t ^ y mod n)) mod n) ^ e).
Proof.
  intros. rewrite !cong_mod.
  rewrite pedersen_combine by assumption. apply cong_eq. ring.
Qed.

Lemma fac_product e alpha nu sigma r w Q R T :
  0 <= e -> 0 <= alpha -> 0 <= nu -> 0 <= sigma -> 0 <= r ->
  modInt_Exp n t (e * (sigma - nu * p0) + r) = Some w ->
  cong n Q (s ^ q0 * t ^ nu) -> cong n T (Q ^ alpha * t ^ r) -> cong n R (s ^ N_0 * t ^ sigma) ->
  cong n (Q ^ (e * p0 + alpha) * w) (T * R ^ e).
Proof.
  intros He Ha Hnu Hs Hr Hw HQ HT HR.
  destruct (modInt_Exp_unit n t (e * (sigma - nu * p0) + r) Hn Ht) as (w' & E & C).
  rewrite Hw in E. injection E as <-.
  apply (unit_cancel n t (e * nu * p0) _ _ Hn ltac:(nia) Ht).
  rewrite <- Z.mul_assoc, (C (e * sigma + r) (e * nu * p0)) by nia.
  rewrite HT, (cong_pow _ _ _ e HR).
  rewrite (Z.pow_add_r Q) by nia. rewrite (Z.pow_mul_r Q e p0), (Z.pow_add_r t (e * sigma)) by nia.
  rewrite <- (Z.pow_mul_r Q e p0), (cong_pow _ _ _ (e * p0) HQ) by nia.
  apply cong_eq. rewrite !Z.pow_mul_l, <- !Z.pow_mul_r by nia.
  replace (q0 * (e * p0)) with (N_0 * e) by ring. replace (nu * (e * p0)) with (e * nu * p0) by ring.
  replace (sigma * e) with (e * sigma) by ring. ring.
Qed.

Definition fac_ranges (pf : ProofFac) : bool :=
  match fZ1 pf, fZ2 pf with
  | Some Z1, Some Z2 =>
    let b := cN ec * (cN ec * cN ec) * Z.sqrt N_0 in IsInInterval Z1 b && IsInInterval Z2 b
  | _, _ => false
  end.

(** The proof that the prover's samples determine. *)
Definition fac_proof (alpha beta mu nu sigma r x y e : Z) : ProofFac :=
  let Q := (s ^ q0 mod n * (t ^ nu mod n)) mod n in
  {| fP := Some ((s ^ p0 mod n * (t ^ mu mod n)) mod n); fQ := Some Q;
     fA := Some ((s ^ alpha mod n * (t ^ x mod n)) mod n); fB := Some ((s ^ beta mod n * (t ^ y mod n)) mod n);
     fT := Some ((Q ^ alpha mod n * (t ^ r mod n)) mod n); fSigma := Some sigma;
     fZ1 := Some (e * p0 + alpha); fZ2 := Some (e * q0 + beta); fW1 := Some (e * mu + x); fW2 := Some (e * nu + y);
     fV := Some (e * (sigma - nu * p0) + r) |}.

Definition fac_challenge (Session : bytes) (pf : ProofFac) : res Z :=
  let! eHash := deref (SHA512_256i_TAGGED Session
    [Some N_0; Some n; Some s; Some t; fP pf; fQ pf; fA pf; fB pf; fT pf; fSigma pf]) in
  RejectionSample (cN ec) eHash.

Lemma fac_run Session rd pf rd' : Forall is_byte rd ->
  ProofFac_NewProof Session (Some ec) (Some N_0) (Some n) (Some s) (Some t) (Some p0) (Some q0) rd = Ok (pf, rd') ->
  exists alpha beta mu nu sigma r x y e,
    (1 <= alpha /\ 1 <= beta /\ 1 <= mu /\ 1 <= nu /\ 1 <= sigma /\ 1 <= r /\ 1 <= x /\ 1 <= y) /\
    pf = fac_proof alpha beta mu nu sigma r x y e /\ fac_challenge Session pf = Ok e.
Proof.
  intros Hr E. unfold ProofFac_NewProof in E. inv_res.
  repeat match goal with
  | E : GetRandomPositiveInt (Some _) ?r = Ok (Some _, _), F : Forall is_byte ?r |- _ =>
    apply GetRandomPositiveInt_range in E as [? ?]; [|exact F]
  | E : GetRandomPositiveRelativelyPrimeInt (Some _) ?r = Ok (Some _, _), F : Forall is_byte ?r |- _ =>
    apply GetRandomPositiveRelativelyPrimeInt_range in E as [[? ?] ?]; [|exact F]
  | E : exp_mul _ _ _ _ _ = Ok _ |- _ => rewrite exp_mul_ok in E by lia; injection E as <-
  end.
  do 9 eexists. split; [|split; [reflexivity|]].
  - repeat split; lia.
  - unfold fac_challenge. cbn [fP fQ fA fB fT fSigma fac_proof].
    match goal with K : SHA512_256i_TAGGED _ _ = Some _ |- _ => rewrite K end. assumption.
Qed.

(** C36. Completeness: for [N0 = p0 q0] and a unit [t] modulo the verifier's modulus,
    a proof of the honest prover whose responses [Z1] and [Z2] are in range is
    accepted, whatever the sign of its last component. *)
Theorem ProofFac_complete Session rd pf rd' (Hr : Forall is_byte rd)
  (E : ProofFac_NewProof Session (Some ec) (Some N_0) (Some n) (Some s) (Some t) (Some p0) (Some q0) rd = Ok (pf, rd'))
  (R : fac_ranges pf = true) :
  ProofFac_Verify (Some pf) Session (Some ec) (Some N_0) (Some n) (Some s) (Some t) = Ok true.
Proof.
  apply fac_run in E as (alpha & beta & mu & nu & sigma & r & x & y & e & P & -> & He); [|assumption].
  assert (HN0 : 0 < N_0) by (clear - Hp0 Hq0; nia).
  assert (Re : 0 <= e).
  { unfold fac_challenge in He. inv_res.
    match goal with K : RejectionSample _ _ = _ |- _ => rewrite RejectionSample_ok in K by assumption;
      injection K as <- end. now apply Z.mod_pos_bound. }
  assert (B : 0 <= e * p0 + alpha /\ 0 <= e * q0 + beta /\ 0 <= e * mu + x /\ 0 <= e * nu + y)
    by (clear - Re P Hp0 Hq0; nia).
  destruct B as (B1 & B2 & B3 & B4).
  unfold fac_ranges in R. cbn [fZ1 fZ2 fac_proof] in R. apply andb_true_iff in R as [R1 R2].
  unfold ProofFac_Verify.
  cbn [ProofFac_ValidateBasic ProofFac_fields forallb is_some andb fac_proof fP fQ fA fB fT fSigma fZ1 fZ2 fW1 fW2 fV
    deref rbind].
  rewrite Z.sgn_pos by assumption. cbn [Z.eqb Pos.eqb]. unfold Sqrt. rewrite (proj2 (Z.ltb_ge _ _)) by lia.
  cbn [rbind]. rewrite R1, R2. unfold fac_challenge in He.
  destruct (SHA512_256i_TAGGED Session _) as [eHash|] eqn:Eh in He; [|discriminate He].
  unfold fac_proof in Eh. cbn [fP fQ fA fB fT fSigma fW1 fW2 fV] in Eh |- *. rewrite Eh. cbn [deref rbind] in He |- *.
  rewrite He. cbn [rbind].
  destruct (modInt_Exp_unit n t (e * (sigma - nu * p0) + r) Hn Ht) as (w & Ew & _).
  rewrite !(exp_mul_ok n s) by (lia || assumption). cbn [rbind].
  unfold exp_mul. rewrite Ew, !modInt_Exp_ok by (assumption || lia). cbn [deref rbind].
  rewrite !modInt_Mul_ok by assumption. cbn [rbind].
  rewrite !Cmp_cong; [reflexivity|..].
  - etransitivity; [|apply cong_mul; [reflexivity|symmetry; apply cong_mod]].
    rewrite (cong_mod n (((_ mod n) ^ (e * p0 + alpha)))).
    refine (fac_product e alpha nu sigma r w _ _ _ Re _ _ _ _ Ew _ _ _); try (clear - P; lia); now rewrite !cong_mod.
  - etransitivity; [apply fac_linear; lia|]. apply cong_mul; [reflexivity|symmetry; apply cong_mod].
  - etransitivity; [apply fac_linear; lia|]. apply cong_mul; [reflexivity|symmetry; apply cong_mod].
Qed.
End Properties.

(** Round trip of the byte form of a complete proof with positive components. *)
Theorem ProofFac_roundtrip pf
  (F : Forall (fun o => exists x, o = Some x /\ 0 < x) (ProofFac_fields pf)) :
  exists bzs, ProofFac_Bytes pf = Ok bzs /\ ProofFac_NewProofFromBytes bzs = Ok pf.
Proof.
  destruct pf as [P Q A B T Si Z1 Z2 W1 W2 V]. unfold ProofFac_Bytes, ProofFac_fields in *.
  cbn [fP fQ fA fB fT fSigma fZ1 fZ2 fW1 fW2 fV] in *.
  repeat match goal with F : Forall _ (_ :: _) |- _ => apply Forall_cons_iff in F as [(? & -> & ?) F] end.
  cbn [mapM deref rbind]. eexists. split; [reflexivity|].
  unfold ProofFac_NewProofFromBytes, NonEmptyMultiBytes. cbn [length Nat.eqb ProofFacBytesParts negb forallb].
  rewrite !NonEmptyBytes_pos by assumption. cbn [andb guard rbind seq mapM idx nth_error].
  now rewrite !SetBytes_Bytes_pos by lia.
Qed.

(** ** Witnesses *)
#[local] Abbreviation fac_rand := (concat (repeat [7; 29; 113; 200; 91; 3; 17] 60)).
#[local] Abbreviation fac_w :=
  (@ProofFac_NewProof small_hash [1; 2] (Some toy256) (Some (1187 * 1907)) (Some 1081) (Some 4) (Some 9) (Some 1187)
    (Some 1907) fac_rand).

Lemma ProofFac_complete_witness :
  match fac_w with
  | Ok (pf, _) =>
    @ProofFac_Verify small_hash (Some pf) [1; 2] (Some toy256) (Some (1187 * 1907)) (Some 1081) (Some 4) (Some 9) = Ok true
  | _ => False
  end.
Proof.
  assert (K : match fac_w with
    | Ok (pf, _) => fac_ranges toy256 1187 1907 pf | _ => false end = true) by (vm_compute; reflexivity).
  destruct fac_w as [[pf r]| |] eqn:E; try discriminate K.
  refine (@ProofFac_complete small_hash toy256 1081 4 9 1187 1907 _ _ _ _ _ [1; 2] _ pf r _ E K);
    try reflexivity.
  apply Forall_forall. intros y Hy. apply in_concat in Hy as (l & Hl & Hy). apply repeat_spec in Hl. subst l.
  cbn in Hy. unfold is_byte. lia.
Defined.

Lemma ProofFac_roundtrip_witness :
  let o := Some 1000 in
  let pf := {| fP := o; fQ := o; fA := o; fB := o; fT := o; fSigma := o; fZ1 := o; fZ2 := o; fW1 := o; fW2 := o;
               fV := Some 7 |} in
  exists bzs, ProofFac_Bytes pf = Ok bzs /\ ProofFac_NewProofFromBytes bzs = Ok pf.
Proof.
  cbv zeta. apply ProofFac_roundtrip. repeat constructor; eexists; (split; [reflexivity|lia]).
Defined.
