(* ===== verification/ModProof.v ===== *)
(** * Package [crypto/modproof]: [proof.go]

    The proof that a modulus is a Paillier-Blum modulus. The arrays of the source
    are lists of nil-able integers of length [Iterations]. The verifier starts two
    goroutines per index and reads all their verdicts; none of them can fail or
    panic, so their order does not matter and the model reads them in turn.
    [big.Int.ProbablyPrime], a probabilistic test, is a parameter of the verifier. *)
From Stdlib Require Import ZArith String List Lia Bool Arith Zdivisibility ZmodInv Zpow_facts.
From S2P Require Import Prelude GoBig Common Curve Field Commit Paillier MtaCorrect.
Import ListNotations.
Open Scope string_scope.
Open Scope Z_scope.
Open Scope list_scope.

Definition Iterations : nat := 80.
Definition ProofModBytesParts : nat := Iterations * 2 + 3.

Record ProofMod :=
  { mW : option Z; mX : list (option Z); mA : option Z; mB : option Z; mZ : list (option Z) }.

Definition isQuadraticResidue (X N : Z) : res bool := let! j := Jacobi X N in Ok (j =? 1).

(** [x.SetBit(x, i, b)] *)
Definition SetBit (x i b : Z) : Z := if b =? 0 then Z.clearbit x i else Z.setbit x i.

Section Defs.
Context `{HS : Hash}.

(** The challenges: each hashes [W], [N] and the previous ones. *)
Definition mod_Ys (Session : bytes) (W : option Z) (N : Z) : res (list Z) :=
  foldM (fun Y _ =>
    let! ei := deref (SHA512_256i_TAGGED Session ([W; Some N] ++ map Some Y)) in
    let! y := RejectionSample N ei in
    Ok (Y ++ [y])) [] (seq 0 Iterations).

(** [y] multiplied by -1 and by [W] as the bits [a] and [b] say. *)
Definition mod_signed (W : option Z) (N y a b : Z) : res Z :=
  let! y := if 0 <? a then modInt_Mul N (-1) y else Ok y in
  if 0 <? b then let! W := deref W in modInt_Mul N W y else Ok y.

(** The search for the signs that make [y] a square: the roots and the signs, or
    nothing when no combination works. *)
Fixpoint mod_roots (W : option Z) (N P Q expo invN y : Z) (js : list Z)
  : res (option (option Z * option Z * Z * Z)) :=
  match js with
  | [] => Ok None
  | j :: js =>
    let a := Z.land j 1 in
    let b := Z.shiftr (Z.land j 2) 1 in
    let! Yi := mod_signed W N (SetBytes (Bytes y)) a b in
    let! rp := isQuadraticResidue Yi P in
    let! rpq := if rp then isQuadraticResidue Yi Q else Ok false in
    if rpq then Ok (Some (modInt_Exp N Yi expo, modInt_Exp N y invN, a, b))
    else mod_roots W N P Q expo invN y js
  end.

(** The loop over the challenges from index [i]: the roots [X] and [Z], nil where
    the search failed, and the accumulated bits [A] and [B]. *)
Fixpoint mod_loop (W : option Z) (N P Q expo invN i : Z) (Y : list Z) (A B : Z)
  : res (list (option Z) * list (option Z) * Z * Z) :=
  match Y with
  | [] => Ok ([], [], A, B)
  | y :: Y =>
    let! r := mod_roots W N P Q expo invN y [0; 1; 2; 3] in
    match r with
    | None =>
      let! (X, Z, A, B) := mod_loop W N P Q expo invN (i + 1) Y A B in
      Ok (None :: X, None :: Z, A, B)
    | Some (Xi, Zi, a, b) =>
      let! (X, Z, A, B) := mod_loop W N P Q expo invN (i + 1) Y (SetBit A i a) (SetBit B i b) in
      Ok (Xi :: X, Zi :: Z, A, B)
    end
  end.

Definition ProofMod_NewProof (Session : bytes) (N P Q : Z) : rnd ProofMod :=
  let Phi := (P - 1) * (Q - 1) in
  let~ W := GetRandomQuadraticNonResidue N in
  rlift (
    let! Y := mod_Ys Session W N in
    let! invN := ModInverse N Phi in
    match invN with
    | None => Err "modular inverse of N mod Phi does not exist"
    | Some invN =>
      let A := Z.shiftl 1 (Z.of_nat Iterations) in
      let B := Z.shiftl 1 (Z.of_nat Iterations) in
      let expo := Z.shiftr (Phi + 4) 3 in
      let! expo := modInt_Mul Phi expo expo in
      let! (X, Z, A, B) := mod_loop W N P Q expo invN 0 Y A B in
      guard (forallb is_some X && forallb is_some Z) "modproof: NewProof: modulus is not a Blum integer" ;!
      Ok {| mW := W; mX := X; mA := Some A; mB := Some B; mZ := Z |}
    end).

Definition ProofMod_NewProofFromBytes (bzs : list bytes) : res ProofMod :=
  guard (NonEmptyMultiBytes bzs (Some ProofModBytesParts)) "expected %d byte parts to construct ProofMod" ;!
  let bis := map (fun b => Some (SetBytes b)) bzs in
  let! X := slice bis 1 (Z.of_nat Iterations + 1) in
  let! Z := slice bis (Z.of_nat Iterations + 3) (Z.of_nat (length bis)) in
  let! W := idx bis 0 in
  let! A := idx bis (Iterations + 1) in
  let! B := idx bis (Iterations + 2) in
  Ok {| mW := W; mX := X; mA := A; mB := B; mZ := Z |}.

Definition ProofMod_ValidateBasic (pf : ProofMod) : bool :=
  is_some (mW pf) && forallb is_some (mX pf) && is_some (mA pf) && is_some (mB pf) && forallb is_some (mZ pf).

(** [0 < x < N] *)
Definition mod_in_range (N : Z) (x : option Z) : res bool :=
  let! x := deref x in Ok (negb (negb (Z.sgn x =? 1) || negb (Cmp x N =? -1))).

(** The two goroutines of index [i]. *)
Definition mod_check_Z (pf : ProofMod) (N : Z) (Y : list Z) (i : nat) : res bool :=
  let! zi := idx (mZ pf) i in
  let! zi := deref zi in
  let! lhs := deref (modInt_Exp N zi N) in
  let! yi := idx Y i in
  Ok (Cmp lhs yi =? 0).
Definition mod_check_X (pf : ProofMod) (N : Z) (Y : list Z) (i : nat) : res bool :=
  let! A := deref (mA pf) in
  let! B := deref (mB pf) in
  let a := Bit A (Z.of_nat i) in
  let b := Bit B (Z.of_nat i) in
  require! negb (negb (a =? 0) && negb (a =? 1)) in
  require! negb (negb (b =? 0) && negb (b =? 1)) in
  let! xi := idx (mX pf) i in
  let! xi := deref xi in
  let! lhs := deref (modInt_Exp N xi 4) in
  let! yi := idx Y i in
  let! rhs := mod_signed (mW pf) N yi a b in
  Ok (Cmp lhs rhs =? 0).

Definition ProofMod_Verify (ProbablyPrime : Z -> Z -> bool) (pf : option ProofMod) (Session : bytes) (N : Z) : res bool :=
  match pf with
  | None => Ok false
  | Some pf =>
    require! ProofMod_ValidateBasic pf in
    let! W := deref (mW pf) in
    let! qr := isQuadraticResidue W N in
    require! negb qr in
    let! okW := mod_in_range N (mW pf) in
    require! okW in
    require! Cmp (GCD W N) 1 =? 0 in
    let! okZ := allM (mod_in_range N) (mZ pf) in
    require! okZ in
    let! okX := allM (mod_in_range N) (mX pf) in
    require! okX in
    let! A := deref (mA pf) in
    require! BitLen A =? Z.of_nat Iterations + 1 in
    let! B := deref (mB pf) in
    require! BitLen B =? Z.of_nat Iterations + 1 in
    let! Y := mod_Ys Session (mW pf) N in
    require! negb ((Bit N 0 =? 0) || ProbablyPrime N 30) in
    allM (fun i =>
      let! z := mod_check_Z pf N Y i in
      let! x := mod_check_X pf N Y i in
      Ok (z && x)) (seq 0 Iterations)
  end.

Definition ProofMod_Bytes (pf : ProofMod) : res (list bytes) :=
  let opt x := match x with Some x => Bytes x | None => [] end in
  let! W := deref (mW pf) in
  let! A := deref (mA pf) in
  let! B := deref (mB pf) in
  Ok ([Bytes W] ++ map opt (mX pf) ++ [Bytes A; Bytes B] ++ map opt (mZ pf)).
End Defs.

(** ** Lemmas: the Jacobi symbol *)
(** [land a (-a)] is the largest power of two dividing [a]. *)
Lemma low_bit a : 0 < a -> exists s m, 0 <= s /\ Z.odd m = true /\ a = m * 2 ^ s /\ Z.land a (- a) = 2 ^ s.
Proof.
  assert (W : forall a, 1 <= a -> exists s m, 0 <= s /\ Z.odd m = true /\ a = m * 2 ^ s /\ Z.land a (- a) = 2 ^ s);
    [|intros; apply W; lia].
  clear a. apply (Zlt_lower_bound_ind _ 1). intros a IH Ha.
  destruct (Z.odd a) eqn:Ho.
  - exists 0, a. repeat split; try lia; [assumption|]. apply Z.odd_spec in Ho as [m ->].
    apply Z.bits_inj'. intros i Hi. rewrite Z.land_spec. change (2 ^ 0) with 1.
    replace (- (2 * m + 1)) with (Z.lnot (2 * m)) by (unfold Z.lnot; lia). rewrite Z.lnot_spec by assumption.
    destruct (Z.eq_dec i 0) as [->|Hn]; [now rewrite Z.testbit_odd_0, Z.testbit_even_0|].
    replace i with (Z.succ (Z.pred i)) by lia. rewrite Z.testbit_odd_succ, Z.testbit_even_succ by lia.
    change 1 with (2 * 0 + 1). rewrite Z.testbit_odd_succ, Z.bits_0 by lia. apply andb_negb_r.
  - rewrite <- Z.negb_even in Ho. apply negb_false_iff, Z.even_spec in Ho as [m ->].
    destruct (IH m ltac:(lia)) as (s & k & Hs & Hk & -> & E).
    exists (s + 1), k. repeat split; try lia; [assumption|rewrite Z.pow_add_r by lia; ring|].
    replace (- (2 * (k * 2 ^ s))) with (2 * - (k * 2 ^ s)) by ring.
    rewrite !(Z.mul_comm 2), <- !(Z.shiftl_mul_pow2 _ 1) by lia.
    rewrite <- Z.shiftl_land, E, Z.shiftl_mul_pow2, Z.pow_add_r by lia. reflexivity.
Qed.

Lemma jacobi_loop_unit fuel : forall a b j, 0 < b -> Z.odd b = true ->
  jacobi_loop fuel a b j <> 0 -> Z.gcd a b = 1.
Proof.
  induction fuel as [|fuel IH]; intros a b j Hb Ho H; cbn [jacobi_loop] in H; [contradiction|].
  destruct (Z.eqb_spec b 1) as [->|Hb1]; [apply Z.gcd_1_r|].
  destruct (a =? 0); [contradiction|].
  destruct (Z.eqb_spec (a mod b) 0) as [E|E]; [contradiction|].
  pose proof (Z.mod_pos_bound a b Hb). rewrite Z.gcd_comm, <- Z.gcd_mod by lia.
  destruct (low_bit (a mod b) ltac:(lia)) as (s & m & Hs & Hm & Em & El).
  rewrite El, Z.log2_pow2, Z.shiftr_div_pow2 in H by assumption. rewrite Em in H |- * .
  rewrite Z.div_mul in H by (apply Z.pow_nonzero; lia).
  assert (Hm0 : 0 < m) by (apply (Z.mul_pos_cancel_r m (2 ^ s)); [now apply Z.pow_pos_nonneg|lia]).
  match type of H with jacobi_loop _ _ _ ?j <> 0 => pose proof (IH b m j Hm0 Hm H) as G end.
  apply Z.coprime_mul_l; [unfold Z.coprime; now rewrite Z.gcd_comm|].
  apply Z.coprime_pow_l; [assumption|]. unfold Z.coprime. apply Z.odd_spec in Ho as [k ->].
  rewrite Z.gcd_comm, Z.add_comm, Z.mul_comm, Z.gcd_comm, Z.gcd_add_mult_diag_r. reflexivity.
Qed.

Lemma Jacobi_unit x n j : 0 < n -> Jacobi x n = Ok j -> j <> 0 -> Z.gcd x n = 1.
Proof.
  unfold Jacobi. intros Hn H Hj. destruct (Z.even n) eqn:E; [discriminate|]. injection H as <-.
  rewrite Z.abs_eq in Hj by lia. eapply jacobi_loop_unit; [assumption| |exact Hj]. now rewrite <- Z.negb_even, E.
Qed.

Lemma nonresidue_spec iters n : forall r w r', Forall is_byte r -> nonresidue_loop iters n r = Ok (Some w, r') ->
  1 <= w < n /\ Jacobi w n = Ok (-1).
Proof.
  induction iters as [|iters IH]; cbn [nonresidue_loop]; intros r w r' Hr H; inv_res; [discriminate|].
  match goal with G : GetRandomPositiveInt _ _ = Ok (?o, _) |- _ => destruct o as [v|]; [|inv_res; discriminate];
    apply GetRandomPositiveInt_range in G as [Rv F]; [|assumption] end.
  inv_res. match goal with K : Jacobi v n = Ok ?j |- _ => destruct (Z.eqb_spec j (-1)) as [->|] end; inv_res; eauto.
Qed.

Lemma Jacobi_mod x n : 0 < n -> Jacobi x n = Jacobi (x mod n) n.
Proof.
  intros Hn. unfold Jacobi. rewrite (proj2 (Z.ltb_ge n 0)) by lia. rewrite Z.abs_eq by lia. cbn [andb].
  destruct (Z.even n); [reflexivity|]. f_equal. replace (2 * Z.to_nat (BitLen n) + 2)%nat with
    (S (2 * Z.to_nat (BitLen n) + 1)) by lia. cbn [jacobi_loop]. rewrite Z.mod_mod by lia.
  destruct (n =? 1); [reflexivity|]. destruct (Z.eqb_spec x 0) as [->|Hx]; [now rewrite Z.mod_0_l by lia|].
  now destruct (x mod n =? 0).
Qed.

(** ** Lemmas: the challenges and the accumulated bits *)
Lemma mod_Ys_run `{HS : Hash} Session W N Y : 0 < N -> mod_Ys Session W N = Ok Y ->
  length Y = Iterations /\ Forall (fun y => 0 <= y < N) Y.
Proof.
  intros HN. unfold mod_Ys.
  assert (G : forall (l : list nat) acc Y, foldM (fun Y _ =>
      let! ei := deref (SHA512_256i_TAGGED Session ([W; Some N] ++ map Some Y)) in
      let! y := RejectionSample N ei in Ok (Y ++ [y])) acc l = Ok Y ->
    Forall (fun y => 0 <= y < N) acc -> length Y = (length acc + length l)%nat /\ Forall (fun y => 0 <= y < N) Y).
  { intros l. induction l as [|i l IH]; cbn [foldM]; intros acc Y' H F; inv_res; [split; [cbn; lia|assumption]|].
    match goal with K : RejectionSample _ _ = _ |- _ => rewrite RejectionSample_ok in K by assumption; injection K as <- end.
    apply IH in H as [L F']; [|apply Forall_app; split; [assumption|repeat constructor; now apply Z.mod_pos_bound]].
    split; [|assumption]. rewrite L, length_app. cbn. lia. }
  intros H. apply G in H as [L F]; [|constructor]. split; [|assumption]. rewrite L, length_seq. reflexivity.
Qed.

Lemma mod_signed_ok w N y a b : 0 < N -> 0 <= y < N ->
  exists v k, mod_signed (Some w) N y a b = Ok v /\ 0 <= v < N /\ cong N v (k * y).
Proof.
  intros HN Hy. unfold mod_signed. cbn [deref rbind].
  assert (E : exists v k, (if 0 <? a then modInt_Mul N (-1) y else Ok y) = Ok v /\ 0 <= v < N /\ cong N v (k * y)).
  { destruct (0 <? a).
    - rewrite modInt_Mul_ok by assumption. eexists _, (-1). split; [reflexivity|].
      split; [now apply Z.mod_pos_bound|apply cong_mod].
    - exists y, 1. repeat split; try lia. apply cong_eq. ring. }
  destruct E as (v & k & -> & Hv & C). cbn [rbind]. destruct (0 <? b); [|eauto].
  rewrite modInt_Mul_ok by assumption. eexists _, (w * k). split; [reflexivity|].
  split; [now apply Z.mod_pos_bound|]. rewrite cong_mod, C. apply cong_eq. ring.
Qed.

Lemma cong_mul_unit N v k y : cong N v (k * y) -> Z.gcd v N = 1 -> Z.gcd y N = 1.
Proof.
  intros C G. rewrite (cong_gcd _ _ _ C) in G.
  apply Z.gcd_unique; [lia|apply Z.divide_1_l..|]. intros d Hd1 Hd2. rewrite <- G.
  apply Z.gcd_greatest; [|assumption]. now apply Z.divide_mul_r.
Qed.

(** What the search for one index returns. *)
Lemma mod_roots_inv w N P Q expo invN y js r : 0 < N -> 0 <= y < N -> Forall (fun j => 0 <= j <= 3) js ->
  mod_roots (Some w) N P Q expo invN y js = Ok (Some r) ->
  exists a b Yi, (a = 0 \/ a = 1) /\ (b = 0 \/ b = 1) /\
    r = (modInt_Exp N Yi expo, modInt_Exp N y invN, a, b) /\ mod_signed (Some w) N y a b = Ok Yi /\
    Jacobi Yi P = Ok 1 /\ Jacobi Yi Q = Ok 1.
Proof.
  intros HN Hy F. induction F as [|j js Hj F IH]; cbn [mod_roots]; [discriminate|].
  rewrite SetBytes_Bytes_pos by lia. intros H. apply rbind_ok in H as (Yi & EY & H). unfold isQuadraticResidue in H.
  destruct (Jacobi Yi P) as [jp| |] eqn:EP; try discriminate H. cbn [rbind] in H.
  destruct (Z.eqb_spec jp 1) as [->|]; [|now apply IH].
  destruct (Jacobi Yi Q) as [jq| |] eqn:EQ; try discriminate H. cbn [rbind] in H.
  destruct (Z.eqb_spec jq 1) as [->|]; [|now apply IH].
  injection H as <-. exists (Z.land j 1), (Z.shiftr (Z.land j 2) 1), Yi.
  assert (J : j = 0 \/ j = 1 \/ j = 2 \/ j = 3) by lia.
  repeat split; try assumption; destruct J as [->|[->|[->| ->]]]; cbn; auto.
Qed.

Lemma SetBit_spec x i b j : 0 <= i -> b = 0 \/ b = 1 ->
  Z.testbit (SetBit x i b) j = if i =? j then b =? 1 else Z.testbit x j.
Proof.
  intros Hi Hb. unfold SetBit. destruct Hb as [->| ->]; cbn [Z.eqb].
  - rewrite Z.clearbit_eqb. destruct (i =? j); cbn; [apply andb_false_r|apply andb_true_r].
  - rewrite Z.setbit_eqb by assumption. now destruct (i =? j).
Qed.

Lemma BitLen_bits x n : 0 <= n -> Z.testbit x n = true -> (forall m, n < m -> Z.testbit x m = false) ->
  BitLen x = n + 1.
Proof.
  intros Hn Ht Hf. unfold BitLen.
  assert (Hx : 0 <= x).
  { destruct (Z.neg_nonneg_cases x) as [Hneg|]; [|assumption]. exfalso. pose proof (proj1 (Z.bits_iff_neg_ex x) ltac:(lia)) as [k Hk].
    specialize (Hk (Z.max k n + 1) ltac:(lia)). rewrite Hf in Hk by lia. discriminate. }
  destruct (Z.eqb_spec x 0) as [->|Hx0]; [now rewrite Z.bits_0 in Ht|].
  rewrite Z.abs_eq by assumption. f_equal. apply Z.log2_bits_unique; [assumption|]. intros m Hm. now apply Hf.
Qed.

(** One index of a finished loop: the signs recorded in [A] and [B] turn the
    challenge [y] into a square [Yi] whose roots are recorded in [X] and [Z]. *)
Definition mod_entry (w N P Q expo invN A B m y : Z) (x z : option Z) : Prop :=
  exists a b Yi, (a = 0 \/ a = 1) /\ (b = 0 \/ b = 1) /\ x = modInt_Exp N Yi expo /\ z = modInt_Exp N y invN /\
    mod_signed (Some w) N y a b = Ok Yi /\ Jacobi Yi P = Ok 1 /\ Jacobi Yi Q = Ok 1 /\
    Z.testbit A m = (a =? 1) /\ Z.testbit B m = (b =? 1).

Lemma mod_loop_inv w N P Q expo invN Y : 0 < N -> Forall (fun y => 0 <= y < N) Y -> forall i A B X Zs A' B', 0 <= i ->
  mod_loop (Some w) N P Q expo invN i Y A B = Ok (X, Zs, A', B') -> forallb is_some X = true ->
  (length X = length Y /\ length Zs = length Y) /\
  (forall m, m < i \/ i + Z.of_nat (length Y) <= m -> Z.testbit A' m = Z.testbit A m /\ Z.testbit B' m = Z.testbit B m) /\
  forall k y, nth_error Y k = Some y -> exists x z, nth_error X k = Some x /\ nth_error Zs k = Some z /\
    mod_entry w N P Q expo invN A' B' (i + Z.of_nat k) y x z.
Proof.
  intros HN F. induction F as [|y Y Hy F IH]; intros i A B X Zs A' B' Hi H HX; cbn [mod_loop] in H.
  - inv_res. cbn. repeat split; auto; intros [|k] y E; discriminate.
  - apply rbind_ok in H as ([[[[x z] a] b]|] & ER & H).
    2: { apply rbind_ok in H as ([[[X0 Z0] A0] B0] & _ & H). injection H as <- <- <- <-. discriminate. }
    apply rbind_ok in H as ([[[X0 Z0] A0] B0] & EL & H). injection H as <- <- <- <-.
    cbn [forallb] in HX. apply andb_true_iff in HX as [_ HX].
    apply mod_roots_inv in ER as (a' & b' & Yi & Ha & Hb & E & ES & JP & JQ); [|assumption|assumption|repeat constructor; lia].
    injection E as -> -> <- <-.
    destruct (IH (i + 1) _ _ _ _ _ _ ltac:(lia) EL HX) as ((L1 & L2) & Hbits & Hent).
    cbn [length]. split; [|split].
    + auto.
    + intros m Hm. destruct (Hbits m ltac:(lia)) as [-> ->]. rewrite !SetBit_spec by assumption.
      destruct (Z.eqb_spec i m); [lia|]. auto.
    + intros [|k] y' Ek; cbn [nth_error] in *.
      * injection Ek as <-. do 2 eexists. split; [reflexivity|]. split; [reflexivity|].
        exists a, b, Yi. cbn [Z.of_nat]. rewrite Z.add_0_r. destruct (Hbits i ltac:(lia)) as [-> ->].
        rewrite !SetBit_spec, Z.eqb_refl by assumption. auto 10.
      * replace (i + Z.of_nat (S k)) with (i + 1 + Z.of_nat k) by lia. now apply Hent.
Qed.

(** ** Lemmas: the roots *)
Section Roots.
Variables (P Q : Z).
Hypothesis HP : Z.prime P.
Hypothesis HQ : Z.prime Q.
Hypothesis Hne : P <> Q.
Hypothesis HP4 : P mod 4 = 3.
Hypothesis HQ4 : Q mod 4 = 3.
Abbreviation N := (P * Q).
Abbreviation Phi := ((P - 1) * (Q - 1)).

Lemma blum_facts : 3 <= P /\ 3 <= Q /\ Z.gcd P Q = 1.
Proof.
  pose proof (Z.prime_ge_2 _ HP). pose proof (Z.prime_ge_2 _ HQ).
  assert (P <> 2) by (intros E; rewrite E in HP4; discriminate).
  assert (Q <> 2) by (intros E; rewrite E in HQ4; discriminate).
  repeat split; [lia|lia|].
  apply Z.coprime_prime_l; [assumption|]. intros D. now apply Z.divide_prime_prime in D.
Qed.

(** The exponent is the square of the inverse of 2 for the odd part of the order. *)
Lemma blum_expo : exists h h', P = 2 * h + 1 /\ Q = 2 * h' + 1 /\ 1 <= h /\ 1 <= h' /\
  Phi = 4 * (h * h') /\ 2 * Z.shiftr (Phi + 4) 3 = h * h' + 1.
Proof.
  pose proof (Z.div_mod P 4 ltac:(lia)) as E1. pose proof (Z.div_mod Q 4 ltac:(lia)) as E2.
  rewrite HP4 in E1. rewrite HQ4 in E2. destruct blum_facts as (H1 & H2 & _).
  exists (2 * (P / 4) + 1), (2 * (Q / 4) + 1).
  assert (E : Phi = 4 * ((2 * (P / 4) + 1) * (2 * (Q / 4) + 1))) by (rewrite E1 at 1; rewrite E2 at 1; ring).
  repeat split; try lia. rewrite E, Z.shiftr_div_pow2 by lia. change (2 ^ 3) with 8.
  set (u := P / 4). set (v := Q / 4).
  replace (4 * ((2 * u + 1) * (2 * v + 1)) + 4) with ((2 * (u * v) + u + v + 1) * 8) by ring.
  rewrite Z.div_mul by lia. ring.
Qed.

Lemma root_mod_p p h h' k y e : 0 < p -> 1 <= h -> 1 <= h' -> 2 * k = h * h' + 1 ->
  cong p (y ^ h) 1 -> 0 <= e -> e = (k * k) mod (4 * (h * h')) -> cong p ((y ^ e) ^ 4) y.
Proof.
  intros Hp Hh Hh' Hk Hy He Ee. assert (Hm : 0 < 4 * (h * h')) by nia. assert (Hk0 : 0 <= k * k) by nia.
  assert (Ho : cong p (y ^ (4 * (h * h'))) 1).
  { replace (4 * (h * h')) with (h * (4 * h')) by ring. rewrite Z.pow_mul_r by lia.
    rewrite (cong_pow _ _ _ (4 * h') Hy), Z.pow_1_l by lia. reflexivity. }
  rewrite (cong_pow _ _ _ 4 (pow_mod_order y p _ e (k * k) He Hk0 Ho Hm Ee)).
  rewrite <- Z.pow_mul_r by lia. replace (k * k * 4) with (1 + h * (h' * (h * h' + 2))) by nia.
  assert (H0 : 0 <= h' * (h * h' + 2)) by nia.
  rewrite Z.pow_add_r, Z.pow_1_r, Z.pow_mul_r by nia. rewrite (cong_pow _ _ _ _ Hy), Z.pow_1_l by assumption.
  apply cong_eq. ring.
Qed.

(** Euler's criterion for the symbol that [big.Jacobi] computes. *)
Definition jacobi_euler (p : Z) : Prop := forall x, Jacobi x p = Ok 1 -> cong p (x ^ ((p - 1) / 2)) 1.
Hypothesis JP : jacobi_euler P.
Hypothesis JQ : jacobi_euler Q.

Lemma half_order p h : p = 2 * h + 1 -> (p - 1) / 2 = h.
Proof. intros ->. replace (2 * h + 1 - 1) with (h * 2) by ring. now apply Z.div_mul. Qed.

(** The fourth root: the square of the recorded exponent. *)
Lemma fourth_root Yi : Jacobi Yi P = Ok 1 -> Jacobi Yi Q = Ok 1 ->
  let k := Z.shiftr (Phi + 4) 3 in cong N ((Yi ^ ((k * k) mod Phi)) ^ 4) Yi.
Proof.
  intros EP EQ. destruct blum_expo as (h & h' & E1 & E2 & Hh & Hh' & Ephi & Ek). destruct blum_facts as (_ & _ & G).
  apply JP in EP. apply JQ in EQ. rewrite (half_order P h E1) in EP. rewrite (half_order Q h' E2) in EQ.
  cbv zeta. set (k := Z.shiftr (Phi + 4) 3) in *.
  assert (H0 : 0 < Phi) by (rewrite Ephi; nia). pose proof (Z.mod_pos_bound (k * k) Phi H0) as [He _].
  apply cong_prod; [assumption| |].
  - apply (root_mod_p P h h' k Yi _ ltac:(lia) Hh Hh' Ek EP He). now rewrite Ephi.
  - apply (root_mod_p Q h' h k Yi _ ltac:(lia) Hh' Hh ltac:(lia) EQ He). rewrite Ephi. f_equal. ring.
Qed.

(** The N-th root: the inverse of [N] modulo the totient. *)
Lemma nth_root y : Z.gcd y N = 1 -> Z.gcd N Phi = 1 -> cong N ((y ^ Z.invmod N Phi) ^ N) y.
Proof.
  intros Gy G. destruct blum_facts as (H1 & H2 & GPQ). assert (HPhi : 0 < Phi) by nia.
  pose proof (invmod_range N Phi HPhi) as [Hi _]. pose proof (cong_invmod N Phi G) as [j Hj].
  assert (HN : 0 < N) by nia. rewrite <- Z.pow_mul_r by lia.
  assert (Hj0 : 0 <= j).
  { assert (Hprod : 0 <= Z.invmod N Phi * N) by (apply Z.mul_nonneg_nonneg; lia).
    assert (H4 : 4 <= Phi) by (clear - H1 H2; nia). clear - Hj Hprod H4. nia. }
  replace (Z.invmod N Phi * N) with (1 + j * Phi) by lia.
  rewrite Z.pow_add_r, Z.pow_1_r by nia.
  assert (U : forall p, Z.prime p -> (p | N) -> y mod p <> 0).
  { intros p Hp Dp E. apply Z.mod_divide in E; [|pose proof (Z.prime_ge_2 _ Hp); lia].
    pose proof (Z.gcd_greatest _ _ _ E Dp) as D. rewrite Gy in D. pose proof (Z.prime_ge_2 _ Hp).
    apply Z.divide_1_r_nonneg in D; lia. }
  rewrite (cong_prod P Q (y ^ (j * Phi)) 1 GPQ); [apply cong_eq; ring| |].
  - replace (j * Phi) with ((P - 1) * (j * (Q - 1))) by ring.
    apply pow_mul_order; [assumption|apply U; [assumption|now exists Q; ring]|nia].
  - replace (j * Phi) with ((Q - 1) * (j * (P - 1))) by ring.
    apply pow_mul_order; [assumption|apply U; [assumption|now exists P; ring]|nia].
Qed.

Lemma Jacobi_unit_N Yi : Jacobi Yi P = Ok 1 -> Jacobi Yi Q = Ok 1 -> Z.gcd Yi N = 1.
Proof.
  intros EP EQ. destruct blum_facts as (H1 & H2 & _).
  apply Z.coprime_mul_r; unfold Z.coprime; [apply (Jacobi_unit _ _ 1)|apply (Jacobi_unit _ _ 1)]; lia || assumption.
Qed.

Lemma unit_pow_in_range y e : 0 <= e -> Z.gcd y N = 1 -> mod_in_range N (Some (y ^ e mod N)) = Ok true.
Proof.
  intros He G. destruct blum_facts as (H1 & H2 & _). assert (HN : 1 < N) by nia.
  pose proof (Z.mod_pos_bound (y ^ e) N ltac:(lia)) as B. unfold mod_in_range. cbn [deref rbind].
  assert (y ^ e mod N <> 0).
  { intros E. assert (K : Z.gcd (y ^ e) N = 1) by (apply Z.coprime_pow_l; assumption).
    rewrite Z.gcd_comm, <- Z.gcd_mod, E, Z.gcd_comm, Z.gcd_0_r, Z.abs_eq in K by lia. lia. }
  rewrite Z.sgn_pos by lia. cbn [Z.eqb Pos.eqb negb orb]. now rewrite Cmp_lt, (proj2 (Z.ltb_lt _ _)) by lia.
Qed.

Lemma mod_checks_entry w expo invN A B Y pf i y x z :
  Z.gcd N Phi = 1 -> expo = (Z.shiftr (Phi + 4) 3 * Z.shiftr (Phi + 4) 3) mod Phi -> invN = Z.invmod N Phi ->
  mW pf = Some w -> mA pf = Some A -> mB pf = Some B -> 0 <= y < N ->
  nth_error Y i = Some y -> nth_error (mX pf) i = Some x -> nth_error (mZ pf) i = Some z ->
  mod_entry w N P Q expo invN A B (Z.of_nat i) y x z ->
  (mod_check_Z pf N Y i = Ok true /\ mod_check_X pf N Y i = Ok true) /\
  mod_in_range N x = Ok true /\ mod_in_range N z = Ok true.
Proof.
  intros G -> -> EW EA EB Hy EY EX EZ (a & b & Yi & Ha & Hb & Ex & Ez & ES & EP & EQ & BA & BB).
  destruct blum_facts as (H1 & H2 & _). assert (HN : 0 < N) by nia. assert (HPhi : 0 < Phi) by nia.
  set (k := Z.shiftr (Phi + 4) 3) in *. pose proof (Z.mod_pos_bound (k * k) Phi HPhi) as [He _].
  pose proof (invmod_range N Phi HPhi) as [Hi _].
  destruct (mod_signed_ok w N y a b HN Hy) as (v & c & ES' & Hv & C). rewrite ES in ES'. injection ES' as <-.
  pose proof (Jacobi_unit_N Yi EP EQ) as GYi. pose proof (cong_mul_unit N Yi c y C GYi) as Gy.
  rewrite modInt_Exp_ok in Ex, Ez by assumption. subst x z. split; [split|split].
  - unfold mod_check_Z, idx. rewrite EZ, EY. cbn [deref rbind]. rewrite modInt_Exp_ok by lia. cbn [deref rbind].
    f_equal. rewrite Cmp_eq. apply Z.eqb_eq. rewrite <- (Z.mod_small y N Hy) at 2. apply cong_iff.
    rewrite (cong_pow _ _ _ N (cong_mod N _)). now apply nth_root.
  - unfold mod_check_X, idx, Bit. rewrite EA, EB, EX, EY, EW. cbn [deref rbind]. rewrite BA, BB.
    replace (if a =? 1 then 1 else 0) with a by (destruct Ha as [->| ->]; reflexivity).
    replace (if b =? 1 then 1 else 0) with b by (destruct Hb as [->| ->]; reflexivity).
    replace (negb (a =? 0) && negb (a =? 1)) with false by (destruct Ha as [->| ->]; reflexivity).
    replace (negb (b =? 0) && negb (b =? 1)) with false by (destruct Hb as [->| ->]; reflexivity).
    cbn [negb]. rewrite ES, modInt_Exp_ok by lia. cbn [deref rbind].
    f_equal. rewrite Cmp_eq. apply Z.eqb_eq. rewrite <- (Z.mod_small Yi N Hv) at 2. apply cong_iff.
    rewrite (cong_pow _ _ _ 4 (cong_mod N _)). now apply fourth_root.
  - now apply unit_pow_in_range.
  - now apply unit_pow_in_range.
Qed.
End Roots.

(** ** Properties *)
Section Properties.
Context `{HS : Hash}.
Variables (P Q : Z).
Hypothesis HP : Z.prime P.
Hypothesis HQ : Z.prime Q.
Hypothesis Hne : P <> Q.
Hypothesis HP4 : P mod 4 = 3.
Hypothesis HQ4 : Q mod 4 = 3.
Hypothesis JP : jacobi_euler P.
Hypothesis JQ : jacobi_euler Q.
Variable ProbablyPrime : Z -> Z -> bool.
(** The primality test rejects the product. *)
Hypothesis HNP : ProbablyPrime (P * Q) 30 = false.
Abbreviation N := (P * Q).
Abbreviation Phi := ((P - 1) * (Q - 1)).

Lemma mod_run Session rd pf rd' : Forall is_byte rd -> ProofMod_NewProof Session N P Q rd = Ok (pf, rd') ->
  exists W Y A B, mW pf = W /\ mA pf = Some A /\ mB pf = Some B /\ mod_Ys Session W N = Ok Y /\
    forallb is_some (mX pf) = true /\ forallb is_some (mZ pf) = true /\ Z.gcd N Phi = 1 /\
    (forall w, W = Some w -> 1 <= w < N /\ Jacobi w N = Ok (-1)) /\
    mod_loop W N P Q ((Z.shiftr (Phi + 4) 3 * Z.shiftr (Phi + 4) 3) mod Phi) (Z.invmod N Phi) 0 Y
      (Z.shiftl 1 80) (Z.shiftl 1 80) = Ok (mX pf, mZ pf, A, B).
Proof.
  intros Hr E. destruct (blum_facts P Q HP HQ Hne HP4 HQ4) as (H1 & H2 & _).
  unfold ProofMod_NewProof in E. assert (HPhi : 0 < Phi) by nia. inv_res.
  match goal with K : ModInverse _ _ = Ok ?o |- _ => unfold ModInverse in K;
    destruct (Z.eqb_spec Phi 0); [lia|]; destruct (Z.eqb_spec (Z.gcd N Phi) 1); injection K as <- end; inv_res.
  destruct x3 as [[[X Zs] A] B]. inv_res. rewrite modInt_Mul_ok in H0 by assumption. injection H0 as <-.
  rewrite Z.abs_eq in H4 by lia.
  match goal with K : _ && _ = true |- _ => apply andb_true_iff in K as [KX KZ] end.
  exists x, x1, A, B. cbn [mW mX mA mB mZ]. repeat (split; [reflexivity || assumption|]). split; [|assumption].
  intros w ->. now apply nonresidue_spec in H.
Qed.

Lemma signs_BitLen X : (forall m, m < 0 \/ 80 <= m -> Z.testbit X m = Z.testbit (Z.shiftl 1 80) m) ->
  BitLen X = Z.of_nat Iterations + 1.
Proof.
  intros H. apply BitLen_bits; [cbn; lia|rewrite H by (cbn; lia); reflexivity|].
  intros m Hm. change (Z.of_nat Iterations) with 80 in Hm. rewrite H by lia.
  rewrite Z.shiftl_spec by lia. change 1 with (2 ^ 0). apply Z.pow2_bits_false. lia.
Qed.

(** C35. Completeness: for distinct primes congruent to 3 modulo 4 and a sampler that
    found its non-residue, every proof that the prover returns is accepted,
    whatever the session and the random bytes. *)
Theorem ProofMod_complete Session rd pf rd' (Hr : Forall is_byte rd)
  (E : ProofMod_NewProof Session N P Q rd = Ok (pf, rd')) (HW : is_some (mW pf) = true) :
  ProofMod_Verify ProbablyPrime (Some pf) Session N = Ok true.
Proof.
  apply mod_run in E as (W & Y & A & B & EW & EA & EB & EY & FX & FZ & G & Hw & EL); [|assumption].
  destruct (blum_facts P Q HP HQ Hne HP4 HQ4) as (H1 & H2 & _). assert (HN : 0 < N) by nia.
  rewrite EW in HW. destruct W as [w|]; [|discriminate HW]. destruct (Hw w eq_refl) as [Rw Jw].
  destruct (mod_Ys_run Session (Some w) N Y HN EY) as [LY FY].
  destruct (mod_loop_inv _ _ _ _ _ _ _ HN FY _ _ _ _ _ _ _ (Z.le_refl 0) EL FX) as ((L1 & L2) & Hbits & Hent).
  assert (C : forall i, (i < Iterations)%nat -> exists x z, nth_error (mX pf) i = Some x /\ nth_error (mZ pf) i = Some z /\
    (mod_check_Z pf N Y i = Ok true /\ mod_check_X pf N Y i = Ok true) /\
    mod_in_range N x = Ok true /\ mod_in_range N z = Ok true).
  { intros i Hi. destruct (nth_error Y i) as [y|] eqn:Ey; [|apply nth_error_None in Ey; lia].
    destruct (Hent i y Ey) as (x & z & Ex & Ez & He). exists x, z. do 2 (split; [assumption|]).
    exact (mod_checks_entry P Q HP HQ Hne HP4 HQ4 JP JQ w _ _ A B Y pf i y x z G eq_refl eq_refl EW EA EB
      (proj1 (Forall_forall _ _) FY y (nth_error_In _ _ Ey)) Ey Ex Ez He). }
  rewrite LY in L1, L2, Hbits. change (0 + Z.of_nat Iterations) with 80 in Hbits.
  unfold ProofMod_Verify, ProofMod_ValidateBasic. rewrite EW, EA, EB, FX, FZ. cbn [is_some andb deref rbind].
  unfold isQuadraticResidue. rewrite Jw. cbn [rbind Z.eqb negb].
  unfold mod_in_range at 1. cbn [deref rbind]. rewrite Z.sgn_pos by lia. cbn [Z.eqb Pos.eqb negb orb].
  rewrite Cmp_lt, (proj2 (Z.ltb_lt _ _)) by lia. cbn [negb].
  unfold GCD at 1. rewrite (Jacobi_unit w N (-1)) by (lia || assumption). rewrite Cmp_eq. cbn [Z.eqb Pos.eqb].
  assert (R : forall l, (l = mX pf \/ l = mZ pf) -> allM (mod_in_range N) l = Ok true).
  { intros l Hl. apply allM_true. intros o Ho. apply In_nth_error in Ho as [i Ei].
    assert (Hi : (i < Iterations)%nat).
    { apply Nat.lt_le_trans with (length l); [apply nth_error_Some; rewrite Ei; discriminate|].
      destruct Hl as [->| ->]; [rewrite L1|rewrite L2]; reflexivity. }
    destruct (C i Hi) as (x & z & Ex & Ez & _ & Rx & Rz).
    destruct Hl as [->| ->]; [rewrite Ei in Ex; injection Ex as ->|rewrite Ei in Ez; injection Ez as ->]; assumption. }
  rewrite !R by auto. cbn [rbind].
  rewrite !signs_BitLen by (intros m Hm; now apply Hbits). rewrite !Z.eqb_refl. rewrite EY. cbn [rbind].
  replace (Bit N 0) with 1.
  2: { unfold Bit. rewrite Z.bit0_odd, Z.odd_mul.
       destruct (blum_expo P Q HP HQ Hne HP4 HQ4) as (h & h' & -> & -> & _). rewrite !Z.odd_add, !Z.odd_mul. reflexivity. }
  cbn [Z.eqb orb]. rewrite HNP. cbn [negb]. apply allM_true. intros i Hi. apply in_seq in Hi.
  destruct (C i ltac:(lia)) as (x & z & _ & _ & [-> ->] & _). reflexivity.
Qed.

(** The even-modulus test of the verifier is never reached: [big.Jacobi] panics on
    an even modulus, which the peer chooses. *)
Theorem ProofMod_Verify_even_panics pf Session n (V : ProofMod_ValidateBasic pf = true) (Hn : Z.even n = true) :
  ProofMod_Verify ProbablyPrime (Some pf) Session n =
  Panic "big: invalid 2nd argument to Int.Jacobi: need odd integer".
Proof.
  unfold ProofMod_Verify. rewrite V. unfold ProofMod_ValidateBasic in V.
  destruct (mW pf) as [w|]; [|discriminate V]. cbn [deref rbind]. unfold isQuadraticResidue, Jacobi. now rewrite Hn.
Qed.
End Properties.

(** Round trip of the byte form of a complete proof with positive components. *)
Theorem ProofMod_roundtrip pf
  (LX : length (mX pf) = Iterations) (LZ : length (mZ pf) = Iterations)
  (F : Forall (fun o => exists x, o = Some x /\ 0 < x) ([mW pf; mA pf; mB pf] ++ mX pf ++ mZ pf)) :
  exists bzs, ProofMod_Bytes pf = Ok bzs /\ ProofMod_NewProofFromBytes bzs = Ok pf.
Proof.
  destruct pf as [W X A B Zs]. cbn [mW mX mA mB mZ] in *. apply Forall_app in F as [F1 F2].
  repeat match goal with F : Forall _ (_ :: _) |- _ => apply Forall_cons_iff in F as [(? & -> & ?) F] end.
  apply Forall_app in F2 as [FX FZ]. unfold ProofMod_Bytes. cbn [mW mA mB mX mZ deref rbind].
  set (opt := fun x : option Z => match x with Some x => Bytes x | None => [] end).
  eexists. split; [reflexivity|].
  assert (NE : forall l, Forall (fun o => exists x, o = Some x /\ 0 < x) l ->
    forallb NonEmptyBytes (map opt l) = true /\ map (fun b => Some (SetBytes b)) (map opt l) = l).
  { intros l Fl. induction Fl as [|o l (v & -> & Hv) _ [IH1 IH2]]; cbn [map forallb opt]; [auto|].
    rewrite NonEmptyBytes_pos by assumption. now rewrite IH1, IH2, SetBytes_Bytes_pos by lia. }
  destruct (NE X FX) as [NX EX]. destruct (NE Zs FZ) as [NZ EZ].
  unfold ProofMod_NewProofFromBytes, NonEmptyMultiBytes. rewrite !length_app, !length_map, LX, LZ.
  cbn [length Nat.eqb Nat.add]. change (ProofModBytesParts =? _)%nat with true. cbn [negb].
  cbn [app forallb]. rewrite forallb_app. cbn [forallb]. rewrite NX, NZ, !NonEmptyBytes_pos by assumption.
  cbn [andb guard rbind map]. rewrite map_app. cbn [map]. rewrite EX, EZ, !SetBytes_Bytes_pos by lia.
  assert (S1 : slice (Some x :: X ++ Some x0 :: Some x1 :: Zs) 1 (Z.of_nat Iterations + 1) = Ok X).
  { pose proof (slice_app [Some x] X (Some x0 :: Some x1 :: Zs)) as S. rewrite LX in S. exact S. }
  assert (S2 : slice (Some x :: X ++ Some x0 :: Some x1 :: Zs) (Z.of_nat Iterations + 3) 163 = Ok Zs).
  { pose proof (slice_app (Some x :: X ++ [Some x0; Some x1]) Zs []) as S. rewrite app_nil_r in S.
    cbn [app length] in S. rewrite <- app_assoc, length_app, LX, LZ in S. exact S. }
  assert (N1 : forall k, nth_error (Some x :: X ++ Some x0 :: Some x1 :: Zs) (S (Iterations + k)) =
    nth_error (Some x0 :: Some x1 :: Zs) k).
  { intros k. cbn [nth_error]. rewrite nth_error_app2 by lia. f_equal. lia. }
  rewrite S1. cbn [rbind length]. rewrite length_app. cbn [length]. rewrite !length_map, LX, LZ.
  change (Z.of_nat (S (Iterations + S (S Iterations)))) with 163. rewrite S2. cbn [rbind].
  unfold idx. change (Iterations + 1)%nat with (S (Iterations + 0)). change (Iterations + 2)%nat with (S (Iterations + 1)).
  rewrite !N1. reflexivity.
Qed.

(** ** Witnesses *)
Lemma jacobi_euler_check p : 1 < p -> forallb (fun x => match Jacobi x p with
    | Ok 1 => Zpow_mod x ((p - 1) / 2) p =? 1 | _ => true end) (map Z.of_nat (seq 0 (Z.to_nat p))) = true ->
  jacobi_euler p.
Proof.
  intros Hp H x Hx. rewrite Jacobi_mod in Hx by lia. pose proof (Z.mod_pos_bound x p ltac:(lia)) as B.
  rewrite forallb_forall in H. specialize (H (x mod p)). rewrite Hx, Zpow_mod_correct in H by lia.
  rewrite <- (cong_pow _ _ _ ((p - 1) / 2) (cong_mod p x)).
  apply cong_iff. rewrite (Z.mod_small 1 p) by lia. apply Z.eqb_eq, H.
  apply in_map_iff. exists (Z.to_nat (x mod p)). split; [lia|]. apply in_seq. lia.
Qed.

Lemma prime_83 : Z.prime 83.
Proof. apply prime_check; [lia|vm_compute; reflexivity]. Qed.
Lemma prime_107 : Z.prime 107.
Proof. apply prime_check; [lia|vm_compute; reflexivity]. Qed.
Lemma euler_83 : jacobi_euler 83.
Proof. apply jacobi_euler_check; [lia|vm_compute; reflexivity]. Qed.
Lemma euler_107 : jacobi_euler 107.
Proof. apply jacobi_euler_check; [lia|vm_compute; reflexivity]. Qed.

(** A digest whose values are small, so that none is a multiple of the primes. *)
Definition mod_hash : Hash :=
  {| sha512_256 m := be_bytes 32 (1 + Z.land (fold_left (fun h b => Z.land (h * 5 + b) 1023) m 0) 63) |}.
#[local] Abbreviation mod_w := (@ProofMod_NewProof mod_hash [4] (83 * 107) 83 107 [9; 8; 7; 6; 5; 4; 3; 2; 1]).

Lemma ProofMod_complete_witness :
  match mod_w with
  | Ok (pf, _) => @ProofMod_Verify mod_hash (fun _ _ => false) (Some pf) [4] (83 * 107) = Ok true
  | _ => False
  end.
Proof.
  assert (K : match mod_w with Ok (pf, _) => is_some (mW pf) | _ => false end = true) by (vm_compute; reflexivity).
  destruct mod_w as [[pf r]| |] eqn:E; try discriminate K.
  refine (@ProofMod_complete mod_hash 83 107 prime_83 prime_107 _ eq_refl eq_refl euler_83 euler_107
    (fun _ _ => false) eq_refl [4] _ pf r _ E K); [lia|repeat constructor; unfold is_byte; lia].
Defined.

Lemma ProofMod_Verify_even_panics_witness :
  let pf := {| mW := Some 2; mX := repeat (Some 2) 80; mA := Some 1; mB := Some 1; mZ := repeat (Some 2) 80 |} in
  @ProofMod_Verify toy_hash (fun _ _ => false) (Some pf) [4] 10 =
  Panic "big: invalid 2nd argument to Int.Jacobi: need odd integer".
Proof. cbv zeta. apply (@ProofMod_Verify_even_panics toy_hash); reflexivity. Defined.

Lemma ProofMod_roundtrip_witness :
  let pf := {| mW := Some 2; mX := repeat (Some 300) 80; mA := Some 1; mB := Some 1; mZ := repeat (Some 2) 80 |} in
  exists bzs, ProofMod_Bytes pf = Ok bzs /\ ProofMod_NewProofFromBytes bzs = Ok pf.
Proof.
  cbv zeta. apply ProofMod_roundtrip; [reflexivity|reflexivity|]. cbn [mW mA mB mX mZ].
  apply Forall_app. split; [repeat constructor; eexists; (split; [reflexivity|lia])|].
  apply Forall_app. split; apply Forall_forall; intros o Ho; apply repeat_spec in Ho; subst o;
    eexists; (split; [reflexivity|lia]).
Defined.
