(* ===== verification/Bits.v ===== *)
(** * Packed bits

    Byte strings as packed bit vectors, least significant bit first within a byte
    (the layout of the oblivious-transfer packages), in-place updates of slices,
    and the facts on them that the components share. *)
From Stdlib Require Import ZArith String Ascii List Lia Bool Arith.
From S2P Require Import Prelude GoBig Common Curve.
Import ListNotations.
Open Scope Z_scope.
Open Scope list_scope.

(** The bytes of an ASCII literal, [[]byte("...")]. *)
Definition str (s : string) : bytes := map (fun a => Z.of_nat (nat_of_ascii a)) (list_ascii_of_string s).

(** [l[i] = f(l[i])]: out of range panics. *)
Fixpoint set_at {A} (l : list A) (i : nat) (f : A -> res A) : res (list A) :=
  match l, i with
  | [], _ => Panic "index out of range"
  | a :: l, O => let! a' := f a in Ok (a' :: l)
  | a :: l, S i => let! l' := set_at l i f in Ok (a :: l')
  end.

(** [byte(-int8(bit))]: 0xFF if the bit is set and 0 otherwise. *)
Definition mask_of (bit : Z) : Z := (- bit) mod 256.

(** [(b >> k) & 1] *)
Definition bit_of (b : Z) (k : nat) : Z := Z.land (Z.shiftr b (Z.of_nat k)) 1.

(** Bit [i] of a packed vector, for the statements. *)
Definition bit_at (row : bytes) (i : nat) : bool := Z.testbit (nth (i / 8) row 0) (Z.of_nat (i mod 8)).

(** A masked choice between two buffers, byte by byte: [n] bytes of
    [a[i] ^ (mask & (a[i] ^ b[i]))]. *)
Definition ct_pick_bytes (n : nat) (mask : Z) (a b : bytes) : res bytes :=
  mapM (fun i =>
    let! x := idx a i in
    let! y := idx b i in
    Ok (Z.lxor x (Z.land mask (Z.lxor x y)))) (seq 0 n).

(** ** Lemmas *)
Lemma bit_of_spec b k : bit_of b k = Z.b2z (Z.testbit b (Z.of_nat k)).
Proof.
  unfold bit_of. change 1 with (Z.ones 1). rewrite Z.land_ones by lia.
  rewrite Z.shiftr_div_pow2 by lia. symmetry. apply Z.testbit_spec'. lia.
Qed.

Lemma bit_of_range b k : bit_of b k = 0 \/ bit_of b k = 1.
Proof. rewrite bit_of_spec. destruct Z.testbit; auto. Qed.

Lemma mask_testbit (x : bool) k : 0 <= k < 8 -> Z.testbit (mask_of (Z.b2z x)) k = x.
Proof.
  intros Hk. destruct x; [|apply Z.bits_0]. change (mask_of (Z.b2z true)) with (Z.ones 8).
  now apply Z.ones_spec_low.
Qed.

Lemma land_mask (x : bool) b : is_byte b -> Z.land b (mask_of (Z.b2z x)) = if x then b else 0.
Proof.
  intros Hb. destruct x; [|apply Z.land_0_r]. change (mask_of (Z.b2z true)) with (Z.ones 8).
  rewrite Z.land_ones by lia. apply Z.mod_small. exact Hb.
Qed.

(** A selection under a mask, [a ^ (mask & (a ^ b))]. *)
Lemma ct_pick (x : bool) a b : is_byte a -> is_byte b ->
  Z.lxor a (Z.land (mask_of (Z.b2z x)) (Z.lxor a b)) = if x then b else a.
Proof.
  intros Ha Hb. pose proof (lxor_byte a b Ha Hb) as Hx. rewrite Z.land_comm.
  rewrite land_mask by assumption. destruct x; [|apply Z.lxor_0_r].
  now rewrite <- Z.lxor_assoc, Z.lxor_nilpotent, Z.lxor_0_l.
Qed.

Lemma set_at_ok {A} (l : list A) i f a d : nth_error l i = Some a -> forall b, f a = Ok b ->
  exists l', set_at l i f = Ok l' /\ length l' = length l /\
    forall k, nth k l' d = if (k =? i)%nat then b else nth k l d.
Proof.
  revert i. induction l as [|x l IH]; intros [|i] E b Hf; try discriminate E; cbn [set_at nth_error] in *.
  - injection E as ->. rewrite Hf. cbn [rbind]. eexists. split; [reflexivity|]. split; [reflexivity|].
    intros [|k]; reflexivity.
  - destruct (IH i E b Hf) as (l' & -> & L & Hk). cbn [rbind]. eexists. split; [reflexivity|].
    split; [cbn; lia|]. intros [|k]; [reflexivity|]. apply Hk.
Qed.

Lemma foldM_flat_map {A B S} (f : S -> B -> res S) (g : A -> list B) l : forall s,
  foldM f s (flat_map g l) = foldM (fun s a => foldM f s (g a)) s l.
Proof.
  induction l as [|a l IH]; intros s; cbn [flat_map foldM]; [reflexivity|].
  rewrite foldM_app. destruct (foldM f s (g a)); cbn [rbind]; auto.
Qed.

Lemma foldM_map {A B S} (f : S -> B -> res S) (g : A -> B) l : forall s,
  foldM f s (map g l) = foldM (fun s a => f s (g a)) s l.
Proof. induction l as [|a l IH]; intros s; cbn [map foldM]; [reflexivity|]. destruct (f s (g a)); cbn; auto. Qed.

(** A loop whose every step succeeds keeps an invariant. *)
Lemma foldM_inv {A S} (P : S -> Prop) (f : S -> A -> res S) l :
  (forall s a, In a l -> P s -> exists s', f s a = Ok s' /\ P s') ->
  forall s, P s -> exists s', foldM f s l = Ok s' /\ P s'.
Proof.
  induction l as [|a l IH]; intros Hf s Hs; cbn [foldM]; [eauto|].
  destruct (Hf s a (or_introl eq_refl) Hs) as (s1 & -> & H1). cbn [rbind]. apply IH; [|assumption].
  intros. apply Hf; [now right|assumption].
Qed.

(** The same for the loop [for i := k; i < k + n; i++], the invariant indexed by [i]. *)
Lemma foldM_seq_inv {S} (P : nat -> S -> Prop) (f : S -> nat -> res S) n : forall k,
  (forall i s, (k <= i < k + n)%nat -> P i s -> exists s', f s i = Ok s' /\ P (Datatypes.S i) s') ->
  forall s, P k s -> exists s', foldM f s (seq k n) = Ok s' /\ P (k + n)%nat s'.
Proof.
  induction n as [|n IH]; intros k Hf s Hs; cbn [seq foldM].
  - rewrite Nat.add_0_r. eauto.
  - destruct (Hf k s ltac:(lia) Hs) as (s1 & -> & H1). cbn [rbind].
    destruct (IH (Datatypes.S k)) with (s := s1) as (s2 & E & H2); [intros; apply Hf; [lia|assumption]|assumption|].
    exists s2. split; [assumption|]. now rewrite Nat.add_succ_r.
Qed.

Lemma map_seq_S {A} (f : nat -> A) n : map f (seq 0 (S n)) = map f (seq 0 n) ++ [f n].
Proof. now rewrite seq_S, map_app. Qed.

Lemma mapM_exists {A B} (R : A -> B -> Prop) (f : A -> res B) l :
  (forall a, In a l -> exists b, f a = Ok b /\ R a b) -> exists bs, mapM f l = Ok bs /\ Forall2 R l bs.
Proof.
  induction l as [|a l IH]; intros H; cbn [mapM]; [eauto|].
  destruct (H a (or_introl eq_refl)) as (b & -> & Hb). destruct IH as (bs & -> & F); [intros; apply H; now right|].
  cbn [rbind]. eauto.
Qed.

Lemma nth_error_nth_lt {A} (l : list A) i d : (i < length l)%nat -> nth_error l i = Some (nth i l d).
Proof. intros H. now apply nth_error_nth'. Qed.

Lemma idx_nth {A} (l : list A) i d : (i < length l)%nat -> idx l i = Ok (nth i l d).
Proof. intros H. unfold idx. now rewrite (nth_error_nth_lt l i d H). Qed.

Lemma mapM_seq {B} (f : nat -> res B) (g : nat -> B) n :
  (forall i, (i < n)%nat -> f i = Ok (g i)) -> mapM f (seq 0 n) = Ok (map g (seq 0 n)).
Proof. intros H. apply mapM_ok. intros i Hi. apply in_seq in Hi. apply H. lia. Qed.

Lemma nth_map_seq {B} (g : nat -> B) n i d : (i < n)%nat -> nth i (map g (seq 0 n)) d = g i.
Proof.
  intros H. rewrite (nth_indep _ d (g 0%nat)) by now rewrite length_map, length_seq.
  rewrite map_nth. f_equal. now apply seq_nth.
Qed.

Lemma map_nth_seq {A} (l : list A) n d : length l = n -> map (fun i => nth i l d) (seq 0 n) = l.
Proof.
  intros L. apply nth_ext with (d := d) (d' := d); [now rewrite length_map, length_seq|].
  intros i Hi. rewrite length_map, length_seq in Hi. now apply (nth_map_seq (fun i => nth i l d)).
Qed.

Lemma list_eq_nth {A} (l1 l2 : list A) d : length l1 = length l2 ->
  (forall i, (i < length l1)%nat -> nth i l1 d = nth i l2 d) -> l1 = l2.
Proof. intros L H. now apply (nth_ext l1 l2 d d). Qed.

Lemma byte_bits a b : is_byte a -> is_byte b ->
  (forall k, (k < 8)%nat -> Z.testbit a (Z.of_nat k) = Z.testbit b (Z.of_nat k)) -> a = b.
Proof.
  intros Ha Hb H. apply Z.bits_inj'. intros k Hk.
  destruct (Z.lt_ge_cases k 8) as [Hl|Hl]; [replace k with (Z.of_nat (Z.to_nat k)) by lia; apply H; lia|].
  assert (W : forall x, is_byte x -> Z.testbit x k = false).
  { intros x [Hx0 Hx]. destruct (Z.eq_dec x 0) as [->|]; [apply Z.bits_0|].
    apply Z.bits_above_log2; [assumption|]. apply Z.lt_le_trans with 8; [|assumption].
    apply Z.log2_lt_pow2; lia. }
  now rewrite !W.
Qed.

Lemma nth_byte row i : Forall is_byte row -> is_byte (nth i row 0).
Proof.
  intros F. destruct (Nat.lt_ge_cases i (length row)) as [H|H].
  - rewrite Forall_forall in F. apply F, nth_In, H.
  - rewrite nth_overflow by assumption. unfold is_byte. lia.
Qed.

Lemma ct_pick_bytes_ok n (x : bool) a b : length a = n -> length b = n -> Forall is_byte a -> Forall is_byte b ->
  ct_pick_bytes n (mask_of (Z.b2z x)) a b = Ok (if x then b else a).
Proof.
  intros La Lb Fa Fb. unfold ct_pick_bytes. rewrite (mapM_seq _ (fun i => nth i (if x then b else a) 0)).
  - rewrite map_nth_seq by (now destruct x). reflexivity.
  - intros i Hi. rewrite (idx_nth a i 0), (idx_nth b i 0) by lia. cbn [rbind].
    rewrite ct_pick by now apply nth_byte. now destruct x.
Qed.

(** The byte of a packed vector that holds bit [i], and the bit read from it. *)
Lemma idx_bit bits i : (i < 8 * length bits)%nat ->
  exists b, idx bits (i / 8) = Ok b /\ bit_of b (i mod 8) = Z.b2z (bit_at bits i).
Proof.
  intros Hi. exists (nth (i / 8) bits 0). split; [|apply bit_of_spec].
  apply idx_nth. apply Nat.Div0.div_lt_upper_bound. lia.
Qed.

Lemma combine_map {A B} (g : A -> B) l : combine l (map g l) = map (fun a => (a, g a)) l.
Proof. induction l as [|a l IH]; cbn; [reflexivity|]. now rewrite IH. Qed.

Lemma combine_seq {A} (xs : list A) d : combine (seq 0 (length xs)) xs = map (fun i => (i, nth i xs d)) (seq 0 (length xs)).
Proof. rewrite <- combine_map. f_equal. symmetry. now apply map_nth_seq. Qed.
