(* ===== verification/OtExt.v ===== *)
(** * Package [crypto/ot/otext]

    The oblivious-transfer extension: the keyed expansion of [prg.go], the bit
    matrix transposition of [transpose.go], the states of [setup.go] and the two
    sides of [extend.go] with their consistency check.  AES-CTR is a parameter. *)
From Stdlib Require Import ZArith String List Lia Bool Arith.
From S2P Require Import Prelude GoBig Common Curve Bits.
Import ListNotations.
Open Scope string_scope.
Open Scope Z_scope.
Open Scope list_scope.

(** ** params.go *)
Definition Kappa : nat := 128.
Definition DeltaBytes : nat := 16.
Definition Sigma : nat := 80.
Definition SigmaBytes : nat := 10.
Definition SeedLen : nat := 32.

(** The key stream of [cipher.NewCTR] over AES with a 16-byte key. *)
Class Aes := { aes_ctr : bytes -> bytes -> nat -> bytes }.
Class AesLaws `{Aes} := {
  aes_ctr_length : forall k iv n, length (aes_ctr k iv n) = n;
  aes_ctr_byte : forall k iv n, Forall is_byte (aes_ctr k iv n)
}.

Section Defs.
Context `{HS : Hash} `{AE : Aes}.

(** ** prg.go *)
Definition len8 (b : bytes) : bytes := le_bytes 8 (Z.of_nat (length b)).

Definition prgExpand (seed sid : bytes) (n : nat) : bytes :=
  let tag := sha512_256 (str "DKLS23-otext-prg-v2") in
  let derived := sha512_256 (tag ++ tag ++ len8 seed ++ seed ++ len8 sid ++ sid) in
  let key := firstn 16 derived in
  let iv := firstn 16 (skipn 16 derived) in
  aes_ctr key iv n.

(** ** transpose.go *)
(** [out[base+cBit][rowByteIdx] |= rowBitMask & mask] *)
Definition transpose_cell (inp : list bytes) (out : list bytes) (cell : nat * nat * nat) : res (list bytes) :=
  let '(r, cByte, cBit) := cell in
  let rowByteIdx := (r / 8)%nat in
  let rowBitMask := Z.shiftl 1 (Z.of_nat (r mod 8)) in
  let! row := idx inp r in
  let! b := idx row cByte in
  let base := (cByte * 8)%nat in
  let bit := bit_of b cBit in
  let mask := mask_of bit in
  set_at out (base + cBit) (fun o => set_at o rowByteIdx (fun x => Ok (Z.lor x (Z.land rowBitMask mask)))).

Definition transposeBits (inp : list bytes) (rows cols : nat) : res (list bytes) :=
  if negb (rows mod 8 =? 0)%nat then Panic "otext: transposeBits requires rows divisible by 8"
  else if negb (cols mod 8 =? 0)%nat then Panic "otext: transposeBits requires cols divisible by 8"
  else if negb (length inp =? rows)%nat then Panic "otext: transposeBits input row count mismatch"
  else
    let colBytes := (cols / 8)%nat in
    if negb (forallb (fun r => (length r =? colBytes)%nat) inp) then
      Panic "otext: transposeBits input column-byte length mismatch"
    else
      let rowBytes := (rows / 8)%nat in
      let out := repeat (repeat 0 rowBytes) cols in
      foldM (fun out r =>
        foldM (fun out cByte =>
          foldM (fun out cBit => transpose_cell inp out (r, cByte, cBit)) out (seq 0 8))
        out (seq 0 colBytes))
      out (seq 0 rows).

(** ** setup.go *)
Record ExtSender := { delta : bytes; seeds : list bytes }.
Record ExtReceiver := { seeds0 : list bytes; seeds1 : list bytes }.

Definition NewExtSenderFromBase (delta : bytes) (keys : list bytes) : res ExtSender :=
  guard (length delta =? DeltaBytes)%nat "otext: NewExtSenderFromBase delta must be %d bytes" ;!
  guard (length keys =? Kappa)%nat "otext: NewExtSenderFromBase keys must have length %d" ;!
  Ok {| delta := delta; seeds := keys |}.

Definition NewExtReceiverFromBase (k0 k1 : list bytes) : res ExtReceiver :=
  guard (negb (negb (length k0 =? Kappa)%nat || negb (length k1 =? Kappa)%nat))
    "otext: NewExtReceiverFromBase k0/k1 must each have length %d" ;!
  Ok {| seeds0 := k0; seeds1 := k1 |}.

Definition Delta (s : ExtSender) : bytes := delta s.
Definition ExtSender_Zeroize (s : option ExtSender) : option ExtSender :=
  match s with
  | None => None
  | Some s => Some {| delta := map (fun _ => 0) (delta s); seeds := map (map (fun _ => 0)) (seeds s) |}
  end.
Definition ExtReceiver_Zeroize (r : option ExtReceiver) : option ExtReceiver :=
  match r with
  | None => None
  | Some r => Some {| seeds0 := map (map (fun _ => 0)) (seeds0 r); seeds1 := map (map (fun _ => 0)) (seeds1 r) |}
  end.

Definition validateExtendInputs (l : Z) : res unit :=
  guard (negb (l <=? 0)) "otext: l must be positive" ;!
  guard (Z.rem l 8 =? 0) "otext: l must be a multiple of 8".

(** ** extend.go *)
Record ExtendMsg1 := { emL : Z; emU : list bytes; emX : bytes; emT : list bytes }.

Definition hashRow (sid : bytes) (i : nat) (v : bytes) : bytes :=
  let tag := sha512_256 (str "DKLS23-otext-row-v1") in
  sha512_256 (tag ++ tag ++ len8 sid ++ sid ++ le_bytes 8 (Z.of_nat i) ++ len8 v ++ v).

Definition deriveChallenges (sid : bytes) (u : list bytes) (l : Z) : res (list bytes) :=
  let tag := sha512_256 (str "DKLS23-otext-coin-v1") in
  let seed := sha512_256 (tag ++ tag ++ len8 sid ++ sid ++ le_bytes 8 l ++ le_bytes 8 (Z.of_nat (length u)) ++
                          flat_map (fun uj => len8 uj ++ uj) u) in
  let lb := Z.to_nat (Z.quot l 8) in
  let expand := prgExpand seed (str "DKLS23-otext-challenges-v1") (Sigma * lb) in
  mapM (fun h => slice expand (Z.of_nat (h * lb)) (Z.of_nat ((h + 1) * lb))) (seq 0 Sigma).

Definition popcountByte (b : Z) : Z :=
  let b := (b - Z.land (Z.shiftr b 1) 85) mod 256 in
  let b := (Z.land b 51 + Z.land (Z.shiftr b 2) 51) mod 256 in
  Z.land ((b + Z.shiftr b 4) mod 256) 15.

(** The sum of the rows that one byte of a challenge selects, the loop
    [for bit := 0; bit < 8; bit++], from [acc]. *)
Definition sum_bits (chiByte : Z) (base l : nat) (rows : list bytes) (acc : bytes) : res bytes :=
  foldM (fun acc bit =>
    if bit_of chiByte bit =? 1 then
      let i := (base + bit)%nat in
      if (l <=? i)%nat then Ok acc
      else
        let! row := idx rows i in
        mapM (fun b =>
          let! x := idx acc b in
          let! y := idx row b in
          Ok (Z.lxor x y)) (seq 0 DeltaBytes)
    else Ok acc) acc (seq 0 8).

(** The receiver's loop for one challenge: the parity of the selected choice bits
    and the sum of the selected rows. *)
Definition receiver_check (chi c : bytes) (v : list bytes) (l lb : nat) : res (Z * bytes) :=
  foldM (fun '(xbit, tCheck) byteIdx =>
    let! chiByte := idx chi byteIdx in
    let! cByte := idx c byteIdx in
    let selected := Z.land chiByte cByte in
    let xbit := Z.lxor xbit (Z.land (popcountByte selected) 1) in
    if chiByte =? 0 then Ok (xbit, tCheck)
    else
      let! tCheck := sum_bits chiByte (byteIdx * 8) l v tCheck in
      Ok (xbit, tCheck)) (0, repeat 0 DeltaBytes) (seq 0 lb).

(** [xCheck[h/8] |= 1 << (h & 7)] for every [h] whose bit is set. *)
Definition pack_checks (bits : list Z) : res bytes :=
  foldM (fun xCheck '(h, xbit) =>
    if xbit =? 1 then
      set_at xCheck (h / 8) (fun x => Ok (Z.lor x (Z.shiftl 1 (Z.of_nat (h mod 8)))))
    else Ok xCheck) (repeat 0 SigmaBytes) (enum bits).

Definition ExtReceiver_Extend (r : ExtReceiver) (sid c : bytes) (l : Z) : res (ExtendMsg1 * list bytes) :=
  validateExtendInputs l ;!
  guard (negb (Z.of_nat (length c) * 8 <? l)) "otext: choice buffer holds %d bits, need at least" ;!
  let lb := Z.to_nat (Z.quot l 8) in
  let! t0 := mapM (fun j => let! s := idx (seeds0 r) j in Ok (prgExpand s sid lb)) (seq 0 Kappa) in
  let! t1 := mapM (fun j => let! s := idx (seeds1 r) j in Ok (prgExpand s sid lb)) (seq 0 Kappa) in
  let! u := mapM (fun j =>
    let! t0j := idx t0 j in
    let! t1j := idx t1 j in
    mapM (fun b =>
      let! x := idx t0j b in
      let! y := idx t1j b in
      let! z := idx c b in
      Ok (Z.lxor (Z.lxor x y) z)) (seq 0 lb)) (seq 0 Kappa) in
  let! v := transposeBits t0 Kappa (Z.to_nat l) in
  let! chi := deriveChallenges sid u l in
  let! checks := mapM (fun h => let! chih := idx chi h in receiver_check chih c v (Z.to_nat l) lb) (seq 0 Sigma) in
  let! xCheck := pack_checks (map fst checks) in
  let! keys := mapM (fun i => let! vi := idx v i in Ok (hashRow sid i vi)) (seq 0 (Z.to_nat l)) in
  Ok ({| emL := l; emU := u; emX := xCheck; emT := map snd checks |}, keys).

(** The sender's loop for one challenge: the sum of the selected rows. *)
Definition sender_check (chi : bytes) (qT : list bytes) (l lb : nat) : res bytes :=
  foldM (fun tPrime byteIdx =>
    let! chiByte := idx chi byteIdx in
    if chiByte =? 0 then Ok tPrime
    else sum_bits chiByte (byteIdx * 8) l qT tPrime) (repeat 0 DeltaBytes) (seq 0 lb).

Definition sender_expected (s : ExtSender) (msg : ExtendMsg1) (h : nat) : res bytes :=
  let! xb := idx (emX msg) (h / 8) in
  let xBit := bit_of xb (h mod 8) in
  let! Th := idx (emT msg) h in
  mapM (fun b =>
    let! e := idx Th b in
    if xBit =? 1 then let! d := idx (delta s) b in Ok (Z.lxor e d) else Ok e) (seq 0 DeltaBytes).

(** The consistency check for every challenge, in order. *)
Definition sender_checks (s : ExtSender) (msg : ExtendMsg1) (chi qT : list bytes) (l lb : nat) : res unit :=
  foldM (fun _ h =>
    let! chih := idx chi h in
    let! tPrime := sender_check chih qT l lb in
    let! expected := sender_expected s msg h in
    guard (if list_eq_dec Z.eq_dec expected tPrime then true else false) "otext: consistency check failed at h=%d")
    tt (seq 0 Sigma).

Definition ExtSender_Extend (s : ExtSender) (sid : bytes) (msg : option ExtendMsg1) : res (list bytes * list bytes) :=
  match msg with
  | None => Err "otext: Extend got nil message"
  | Some msg =>
    validateExtendInputs (emL msg) ;!
    guard (length (emU msg) =? Kappa)%nat "otext: U has length %d, expected" ;!
    let l := Z.to_nat (emL msg) in
    let lb := Z.to_nat (Z.quot (emL msg) 8) in
    guard (forallb (fun uj => (length uj =? lb)%nat) (emU msg)) "otext: U[%d] length %d, expected" ;!
    let! q := mapM (fun j =>
      let! dj := idx (delta s) (j / 8) in
      let deltaBit := bit_of dj (j mod 8) in
      let mask := mask_of deltaBit in
      let! seed := idx (seeds s) j in
      let expansion := prgExpand seed sid lb in
      mapM (fun b =>
        let! e := idx expansion b in
        let! uj := idx (emU msg) j in
        let! ub := idx uj b in
        Ok (Z.lxor e (Z.land ub mask))) (seq 0 lb)) (seq 0 Kappa) in
    let! qT := transposeBits q Kappa l in
    let! chi := deriveChallenges sid (emU msg) (emL msg) in
    sender_checks s msg chi qT l lb ;!
    let! m := mapM (fun i =>
      let! row := idx qT i in
      let! xored := mapM (fun b =>
        let! x := idx row b in
        let! d := idx (delta s) b in
        Ok (Z.lxor x d)) (seq 0 DeltaBytes) in
      Ok (hashRow sid i row, hashRow sid i xored)) (seq 0 l) in
    Ok (map fst m, map snd m)
  end.
End Defs.
