(* ===== verification/OtExtCorrect.v ===== *)
(** * Package [crypto/ot/otext]: correctness

    The transposition transposes, and the two sides of the extension agree: on
    matching base-transfer outputs the sender's consistency check accepts the
    receiver's message, and each key of the receiver is the sender's key for the
    receiver's choice bit. *)
From Stdlib Require Import ZArith String List Lia Bool Arith.
From S2P Require Import Prelude GoBig Common Curve Bits OtExt.
Import ListNotations.
Open Scope Z_scope.
Open Scope list_scope.

(** ** Bytes *)
Lemma lor_byte a b : is_byte a -> is_byte b -> is_byte (Z.lor a b).
Proof.
  unfold is_byte. intros Ha Hb. assert (N : 0 <= Z.lor a b) by (apply Z.lor_nonneg; lia). split; [assumption|].
  destruct (Z.eq_dec (Z.lor a b) 0); [lia|]. change 256 with (2 ^ 8). apply Z.log2_lt_pow2; [lia|].
  rewrite Z.log2_lor by lia.
  apply Z.max_lub_lt; (match goal with |- Z.log2 ?x < 8 => destruct (Z.eq_dec x 0) as [->|]; [cbn; lia|] end);
    apply Z.log2_lt_pow2; lia.
Qed.

Lemma div_mod_eq8 k r : (k / 8 = r / 8 -> k mod 8 = r mod 8 -> k = r)%nat.
Proof. intros H1 H2. rewrite (Nat.div_mod_eq k 8), (Nat.div_mod_eq r 8). congruence. Qed.

Lemma mod8 k : (k mod 8 < 8)%nat.
Proof. apply Nat.mod_upper_bound. lia. Qed.

Lemma width8 n k : (n mod 8 = 0 -> k < n -> k / 8 < n / 8)%nat.
Proof. intros H Hk. apply Nat.Div0.div_lt_upper_bound. rewrite (Nat.div_mod_eq n 8) in Hk. lia. Qed.

(** ** Transposition *)
Definition rows_ok (m : list bytes) (n w : nat) : Prop :=
  length m = n /\ forall i, (i < n)%nat -> length (nth i m []) = w /\ Forall is_byte (nth i m []).

(** The bit that a cell of the loop writes. *)
Definition cell_hits (cell : nat * nat * nat) (r c : nat) : bool :=
  let '(r', cByte, cBit) := cell in (c =? cByte * 8 + cBit)%nat && (r =? r')%nat.

Section Transpose.
Variables (inp : list bytes) (rows cols : nat).
Hypothesis Hr8 : (rows mod 8 = 0)%nat.
Hypothesis Hc8 : (cols mod 8 = 0)%nat.
Hypothesis Hin : rows_ok inp rows (cols / 8).

Definition cell_in (cell : nat * nat * nat) : Prop :=
  let '(r, cByte, cBit) := cell in (r < rows /\ cByte < cols / 8 /\ cBit < 8)%nat.

(** The mask of one cell, bit by bit. *)
Lemma cell_mask r cBit b j : is_byte b -> (j < 8)%nat ->
  Z.testbit (Z.land (Z.shiftl 1 (Z.of_nat (r mod 8))) (mask_of (bit_of b cBit))) (Z.of_nat j) =
  (j =? r mod 8)%nat && Z.testbit b (Z.of_nat cBit).
Proof.
  intros Hb Hj. rewrite Z.land_spec, bit_of_spec, mask_testbit by lia. f_equal.
  rewrite Z.shiftl_1_l, Z.pow2_bits_eqb by lia. destruct (Nat.eqb_spec j (r mod 8)); [subst; apply Z.eqb_refl|].
  apply Z.eqb_neq. lia.
Qed.

Lemma cell_mask_byte r m : is_byte m -> is_byte (Z.land (Z.shiftl 1 (Z.of_nat (r mod 8))) m).
Proof.
  unfold is_byte. intros Hm. assert (N : 0 <= Z.land (Z.shiftl 1 (Z.of_nat (r mod 8))) m) by (apply Z.land_nonneg; lia).
  split; [assumption|]. eapply Z.le_lt_trans; [|apply Hm]. rewrite Z.land_comm.
  destruct (Z.eq_dec (Z.land m (Z.shiftl 1 (Z.of_nat (r mod 8)))) 0) as [E|E]; [lia|].
  pose proof (Z.land_ones m 8 ltac:(lia)) as O. rewrite Z.mod_small in O by (cbn; lia).
  apply Z.ldiff_le; [lia|]. apply Z.bits_inj'. intros k Hk. rewrite Z.ldiff_spec, Z.land_spec, Z.bits_0.
  destruct (Z.testbit m k); cbn; [|reflexivity]. apply andb_false_r.
Qed.

Lemma mask_byte x : is_byte (mask_of x).
Proof. unfold mask_of, is_byte. apply Z.mod_pos_bound. lia. Qed.

Lemma transpose_cell_ok out cell : rows_ok out cols (rows / 8) -> cell_in cell ->
  exists out', transpose_cell inp out cell = Ok out' /\ rows_ok out' cols (rows / 8) /\
    forall r c, (r < rows)%nat -> (c < cols)%nat ->
      bit_at (nth c out' []) r = bit_at (nth c out []) r || (cell_hits cell r c && bit_at (nth r inp []) c).
Proof.
  intros [Lo Ho] Hcell. destruct cell as [[r cByte] cBit]. destruct Hcell as (H1 & H2 & H3).
  destruct Hin as [Li Hi]. destruct (Hi r H1) as [Lr Fr].
  unfold transpose_cell. rewrite (idx_nth inp r []) by lia. cbn [rbind].
  rewrite (idx_nth _ cByte 0) by lia. cbn [rbind]. set (b := nth cByte (nth r inp []) 0).
  assert (Hb : is_byte b) by now apply nth_byte.
  assert (Hk : (cByte * 8 + cBit < cols)%nat) by (rewrite (Nat.div_mod_eq cols 8); lia).
  destruct (Ho _ Hk) as [Lc Fc]. set (o := nth (cByte * 8 + cBit) out []) in *.
  set (m := Z.land _ _). assert (Hm : is_byte m) by (apply cell_mask_byte, mask_byte).
  destruct (set_at_ok o (r / 8) (fun x => Ok (Z.lor x m)) (nth (r / 8) o 0) 0) with (b := Z.lor (nth (r / 8) o 0) m)
    as (o' & Eo' & Lo' & No'); [apply nth_error_nth_lt; rewrite Lc; now apply width8|reflexivity|].
  destruct (set_at_ok out (cByte * 8 + cBit) (fun o => set_at o (r / 8) (fun x => Ok (Z.lor x m))) o [])
    with (b := o') as (out' & E' & L' & N'); [unfold o; apply nth_error_nth_lt; lia|exact Eo'|].
  exists out'. split; [exact E'|]. split.
  - split; [lia|]. intros i Hi'. rewrite N'. destruct (Nat.eqb_spec i (cByte * 8 + cBit)); [|now apply Ho].
    split; [lia|]. apply Forall_forall. intros x Hx. apply (In_nth _ _ 0) in Hx as (k & _ & <-). rewrite No'.
    destruct (k =? r / 8)%nat; [apply lor_byte; [now apply nth_byte|assumption]|now apply nth_byte].
  - intros k c Hkr Hc. rewrite N'. unfold cell_hits.
    destruct (Nat.eqb_spec c (cByte * 8 + cBit)) as [->|]; cbn [andb]; [|now rewrite orb_false_r].
    unfold bit_at at 1. rewrite No'. fold o. destruct (Nat.eqb_spec k r) as [->|Hne]; cbn [andb].
    + rewrite Nat.eqb_refl, Z.lor_spec. f_equal. unfold m. rewrite cell_mask, Nat.eqb_refl by (assumption || apply mod8).
      cbn [andb]. unfold bit_at. rewrite (Nat.add_comm _ cBit), Nat.div_add, Nat.Div0.mod_add by lia.
      rewrite Nat.div_small, Nat.mod_small by assumption. reflexivity.
    + rewrite orb_false_r. destruct (Nat.eqb_spec (k / 8) (r / 8)) as [E|E]; [|reflexivity].
      rewrite Z.lor_spec. unfold m. rewrite cell_mask by (assumption || apply mod8).
      destruct (Nat.eqb_spec (k mod 8) (r mod 8)); [exfalso; now apply Hne, div_mod_eq8|].
      cbn [andb]. rewrite orb_false_r. unfold bit_at. now rewrite E.
Qed.

Definition all_cells : list (nat * nat * nat) :=
  flat_map (fun r => flat_map (fun cByte => map (fun cBit => (r, cByte, cBit)) (seq 0 8)) (seq 0 (cols / 8)))
    (seq 0 rows).

Lemma all_cells_in cell : In cell all_cells <-> cell_in cell.
Proof.
  unfold all_cells. rewrite in_flat_map. destruct cell as [[r cByte] cBit]. cbn [cell_in]. split.
  - intros (r' & Hr' & H). apply in_flat_map in H as (cb & Hcb & H). apply in_map_iff in H as (k & E & Hk).
    injection E as -> -> ->. rewrite in_seq in *. lia.
  - intros (H1 & H2 & H3). exists r. split; [apply in_seq; lia|]. apply in_flat_map. exists cByte.
    split; [apply in_seq; lia|]. apply in_map_iff. exists cBit. split; [reflexivity|apply in_seq; lia].
Qed.

Lemma transpose_fold cells : Forall cell_in cells -> forall out, rows_ok out cols (rows / 8) ->
  exists out', foldM (transpose_cell inp) out cells = Ok out' /\ rows_ok out' cols (rows / 8) /\
    forall r c, (r < rows)%nat -> (c < cols)%nat ->
      bit_at (nth c out' []) r =
      bit_at (nth c out []) r || (existsb (fun cell => cell_hits cell r c) cells && bit_at (nth r inp []) c).
Proof.
  induction 1 as [|cell cells Hc _ IH]; intros out Ho; cbn [foldM existsb].
  - exists out. repeat split; try apply Ho; try assumption. intros. now rewrite orb_false_r.
  - destruct (transpose_cell_ok out cell Ho Hc) as (o1 & -> & Ho1 & B1). cbn [rbind].
    destruct (IH o1 Ho1) as (o2 & E2 & Ho2 & B2). exists o2. split; [exact E2|]. split; [exact Ho2|].
    intros r c Hr Hcc. rewrite B2, B1 by assumption.
    destruct (bit_at (nth c out []) r), (cell_hits cell r c), (existsb _ cells), (bit_at (nth r inp []) c); reflexivity.
Qed.

Lemma transposeBits_ok : exists out, transposeBits inp rows cols = Ok out /\ rows_ok out cols (rows / 8) /\
  forall r c, (r < rows)%nat -> (c < cols)%nat -> bit_at (nth c out []) r = bit_at (nth r inp []) c.
Proof.
  destruct Hin as [Li Hi]. unfold transposeBits. rewrite Hr8, Hc8, Li, !Nat.eqb_refl. cbn [negb].
  replace (forallb _ inp) with true.
  2: { symmetry. apply forallb_forall. intros row Hrow. apply (In_nth _ _ []) in Hrow as (i & Hi' & <-).
       apply Nat.eqb_eq. assert (Hlt : (i < rows)%nat) by (rewrite <- Li; exact Hi'). now destruct (Hi i Hlt). }
  cbn [negb].
  assert (E : forall out, foldM (fun out r => foldM (fun out cByte =>
      foldM (fun out cBit => transpose_cell inp out (r, cByte, cBit)) out (seq 0 8)) out (seq 0 (cols / 8)))
      out (seq 0 rows) = foldM (transpose_cell inp) out all_cells).
  { intros out. unfold all_cells. rewrite foldM_flat_map. apply foldM_ext. intros s r.
    rewrite foldM_flat_map. apply foldM_ext. intros s' cb. now rewrite foldM_map. }
  rewrite E.
  destruct (transpose_fold all_cells) with (out := repeat (repeat 0 (rows / 8)) cols) as (out & E' & Ho & B).
  - apply Forall_forall. intros cell. apply all_cells_in.
  - split; [apply repeat_length|]. intros i Hi'. rewrite nth_repeat_lt by assumption.
    split; [apply repeat_length|]. apply Forall_forall. intros x Hx%repeat_spec. subst. unfold is_byte. lia.
  - exists out. split; [exact E'|]. split; [exact Ho|]. intros r c Hr Hc. rewrite B by assumption.
    rewrite nth_repeat_lt by assumption. unfold bit_at at 1. rewrite nth_repeat, Z.bits_0. cbn [orb].
    replace (existsb _ all_cells) with true; [reflexivity|]. symmetry. apply existsb_exists.
    exists (r, (c / 8)%nat, (c mod 8)%nat). split.
    + apply all_cells_in. split; [assumption|]. split; [now apply width8|apply mod8].
    + cbn [cell_hits]. rewrite Nat.eqb_refl, andb_true_r. apply Nat.eqb_eq.
      rewrite (Nat.mul_comm _ 8). apply Nat.div_mod_eq.
Qed.
End Transpose.

(** ** Rows and bits *)
(** The vector [f 0, ..., f (n-1)]. *)
Abbreviation tab n f := (map f (seq 0 n)).

Lemma tab_length {A} (f : nat -> A) n : length (tab n f) = n.
Proof. now rewrite length_map, length_seq. Qed.

Lemma bit_at_tab n f i : (i < 8 * n)%nat -> bit_at (tab n f) i = Z.testbit (f (i / 8)%nat) (Z.of_nat (i mod 8)).
Proof. intros H. unfold bit_at. rewrite nth_map_seq; [reflexivity|]. apply Nat.Div0.div_lt_upper_bound. lia. Qed.

Lemma bit_at_byte row k j : (j < 8)%nat -> bit_at row (k * 8 + j) = Z.testbit (nth k row 0) (Z.of_nat j).
Proof.
  intros H. unfold bit_at. rewrite (Nat.add_comm _ j), Nat.div_add, Nat.Div0.mod_add by lia.
  now rewrite Nat.div_small, Nat.mod_small by assumption.
Qed.

Lemma rows_tab n w f : (forall j, (j < n)%nat -> length (f j) = w /\ Forall is_byte (f j)) -> rows_ok (tab n f) n w.
Proof. intros H. split; [apply tab_length|]. intros i Hi. rewrite nth_map_seq by assumption. now apply H. Qed.

Lemma tab_bytes n f : (forall j, (j < n)%nat -> is_byte (f j)) -> Forall is_byte (tab n f).
Proof.
  intros H. apply Forall_forall. intros x Hx. apply in_map_iff in Hx as (j & <- & Hj). apply in_seq in Hj. apply H. lia.
Qed.

(** The sum of two rows and the multiple [x * delta]. *)
Definition sel (x : bool) (d : Z) : Z := if x then d else 0.

Lemma sel_xor a v x c d : Z.lxor (Z.lxor a (sel x d)) (Z.lxor v (sel c d)) = Z.lxor (Z.lxor a v) (sel (xorb x c) d).
Proof.
  apply Z.bits_inj'. intros k Hk. rewrite !Z.lxor_spec. unfold sel.
  destruct x, c; cbn [xorb]; rewrite ?Z.bits_0;
    destruct (Z.testbit a k), (Z.testbit v k), (Z.testbit d k); reflexivity.
Qed.

Lemma xor_row_ok acc row : length acc = DeltaBytes -> length row = DeltaBytes ->
  mapM (fun b => let! x := idx acc b in let! y := idx row b in Ok (Z.lxor x y)) (seq 0 DeltaBytes) =
  Ok (tab DeltaBytes (fun b => Z.lxor (nth b acc 0) (nth b row 0))).
Proof.
  intros La Lr. apply mapM_seq. intros i Hi. rewrite (idx_nth acc i 0), (idx_nth row i 0) by lia. reflexivity.
Qed.

(** ** The consistency check *)
Section Check.
Variables (dl c : bytes) (v qT : list bytes) (lb : nat).
Abbreviation l := (8 * lb)%nat.
Hypothesis Hdl : length dl = DeltaBytes.
Hypothesis Hc : (lb <= length c)%nat.
Hypothesis Hcb : Forall is_byte c.
Hypothesis Hv : rows_ok v l DeltaBytes.
Hypothesis Hq : rows_ok qT l DeltaBytes.
(** The correlation of the extension. *)
Hypothesis Hcorr : forall i k, (i < l)%nat -> (k < DeltaBytes)%nat ->
  nth k (nth i qT []) 0 = Z.lxor (nth k (nth i v []) 0) (sel (bit_at c i) (nth k dl 0)).

(** The accumulators of the two sides differ by [x * delta]. *)
Definition acc_rel (x : bool) (acc acc' : bytes) : Prop :=
  length acc = DeltaBytes /\ length acc' = DeltaBytes /\
  forall k, (k < DeltaBytes)%nat -> nth k acc' 0 = Z.lxor (nth k acc 0) (sel x (nth k dl 0)).

Lemma sum_bits_rel chi byteIdx : (byteIdx < lb)%nat -> forall x acc acc', acc_rel x acc acc' ->
  exists a a', sum_bits chi (byteIdx * 8) l v acc = Ok a /\ sum_bits chi (byteIdx * 8) l qT acc' = Ok a' /\
    acc_rel (fold_left (fun x j => xorb x (Z.testbit chi (Z.of_nat j) && Z.testbit (nth byteIdx c 0) (Z.of_nat j)))
      (seq 0 8) x) a a'.
Proof.
  intros Hb. unfold sum_bits. assert (F : Forall (fun j => (j < 8)%nat) (seq 0 8))
    by (apply Forall_forall; intros j Hj%in_seq; lia).
  induction F as [|j js Hj _ IH]; intros x acc acc' HR; cbn [foldM fold_left].
  - exists acc, acc'. auto.
  - rewrite bit_of_spec. destruct (Z.testbit chi (Z.of_nat j)) eqn:Ec; cbn [Z.b2z Z.eqb Pos.eqb andb].
    + rewrite (proj2 (Nat.leb_gt _ _)) by lia. destruct HR as (L1 & L2 & H).
      destruct (proj2 Hv (byteIdx * 8 + j)%nat ltac:(lia)) as [Lv _].
      destruct (proj2 Hq (byteIdx * 8 + j)%nat ltac:(lia)) as [Lq _].
      destruct Hv as [Lv' _], Hq as [Lq' _].
      rewrite (idx_nth v _ []), (idx_nth qT _ []) by lia. cbn [rbind]. rewrite !xor_row_ok by assumption. cbn [rbind].
      apply IH. split; [apply tab_length|]. split; [apply tab_length|]. intros k Hk. rewrite !nth_map_seq by assumption.
      rewrite H, Hcorr, bit_at_byte by (assumption || lia). apply sel_xor.
    + cbn [rbind]. rewrite xorb_false_r. now apply IH.
Qed.

Lemma popcount_parity b : is_byte b ->
  Z.land (popcountByte b) 1 = Z.b2z (fold_left (fun x j => xorb x (Z.testbit b (Z.of_nat j))) (seq 0 8) false).
Proof.
  intros Hb. assert (K : forallb (fun b => Z.land (popcountByte b) 1 =?
    Z.b2z (fold_left (fun x j => xorb x (Z.testbit b (Z.of_nat j))) (seq 0 8) false)) (map Z.of_nat (seq 0 256)) = true)
    by (vm_compute; reflexivity).
  rewrite forallb_forall in K. apply Z.eqb_eq, K. unfold is_byte in Hb. apply in_map_iff.
  exists (Z.to_nat b). split; [lia|]. apply in_seq. lia.
Qed.

Lemma fold_xorb_shift (f : nat -> bool) js x :
  fold_left (fun x j => xorb x (f j)) js x = xorb x (fold_left (fun x j => xorb x (f j)) js false).
Proof.
  revert x. induction js as [|j js IH]; intros x; cbn [fold_left]; [now rewrite xorb_false_r|].
  rewrite IH, (IH (xorb false (f j))). destruct x, (f j), (fold_left _ js false); reflexivity.
Qed.

Lemma checks_rel chi : length chi = lb -> Forall is_byte chi ->
  exists x T T', receiver_check chi c v l lb = Ok (Z.b2z x, T) /\ sender_check chi qT l lb = Ok T' /\ acc_rel x T T'.
Proof.
  intros Lchi Fchi. unfold receiver_check, sender_check.
  assert (G : forall bs, Forall (fun b => (b < lb)%nat) bs -> forall x T T', acc_rel x T T' ->
    exists x1 T1 T1', foldM (fun '(xbit, tCheck) byteIdx =>
        let! chiByte := idx chi byteIdx in
        let! cByte := idx c byteIdx in
        let selected := Z.land chiByte cByte in
        let xbit := Z.lxor xbit (Z.land (popcountByte selected) 1) in
        if chiByte =? 0 then Ok (xbit, tCheck)
        else let! tCheck := sum_bits chiByte (byteIdx * 8) l v tCheck in Ok (xbit, tCheck)) (Z.b2z x, T) bs
      = Ok (Z.b2z x1, T1) /\
      foldM (fun tPrime byteIdx =>
        let! chiByte := idx chi byteIdx in
        if chiByte =? 0 then Ok tPrime else sum_bits chiByte (byteIdx * 8) l qT tPrime) T' bs = Ok T1' /\
      acc_rel x1 T1 T1').
  { induction 1 as [|b bs Hb _ IH]; intros x T T' HR; cbn [foldM]; [eauto 8|].
    rewrite (idx_nth chi b 0), (idx_nth c b 0) by lia. cbn [rbind].
    set (cb := nth b c 0). set (hb := nth b chi 0).
    assert (Hcb' : is_byte cb) by now apply nth_byte. assert (Hhb : is_byte hb) by now apply nth_byte.
    assert (Hsel : is_byte (Z.land hb cb)).
    { unfold is_byte in *. split; [apply Z.land_nonneg; lia|]. rewrite <- (Z.mod_small hb 256), Z.land_comm by lia.
      change 256 with (2 ^ 8). rewrite <- Z.land_ones, Z.land_assoc, Z.land_ones by lia. apply Z.mod_pos_bound. lia. }
    rewrite popcount_parity by assumption. set (p := fold_left _ (seq 0 8) false).
    replace (Z.lxor (Z.b2z x) (Z.b2z p)) with (Z.b2z (xorb x p)) by (destruct x, p; reflexivity).
    assert (Ep : forall y, fold_left (fun x j => xorb x (Z.testbit hb (Z.of_nat j) && Z.testbit cb (Z.of_nat j)))
      (seq 0 8) y = xorb y p).
    { intros y. rewrite fold_xorb_shift. f_equal. unfold p. cbn [seq fold_left]. now rewrite !Z.land_spec. }
    destruct (Z.eqb_spec hb 0) as [E0|_]; cbn [rbind].
    - apply IH. replace p with false; [now rewrite xorb_false_r|].
      unfold p. rewrite E0. cbn [Z.land seq fold_left]. now rewrite !Z.bits_0.
    - destruct (sum_bits_rel hb b Hb x T T' HR) as (T1 & T1' & -> & -> & HR1). fold cb in HR1. rewrite Ep in HR1.
      cbn [rbind]. now apply IH. }
  apply (G (seq 0 lb)) with (x := false).
  - apply Forall_forall. intros b Hb%in_seq. lia.
  - split; [apply repeat_length|]. split; [apply repeat_length|]. intros k _. cbn [sel]. now rewrite Z.lxor_0_r.
Qed.
End Check.

(** ** The packed answers *)
Lemma pack_checks_ok bits : length bits = Sigma -> Forall (fun x => x = 0 \/ x = 1) bits ->
  exists X, pack_checks bits = Ok X /\ length X = SigmaBytes /\
    forall h, (h < Sigma)%nat -> bit_at X h = (nth h bits 0 =? 1).
Proof.
  intros L F. unfold pack_checks.
  assert (G : forall es, Forall (fun e => (fst e < Sigma)%nat) es -> forall X, length X = SigmaBytes ->
    exists X', foldM (fun xCheck '(h, xbit) => if xbit =? 1 then
        set_at xCheck (h / 8) (fun x => Ok (Z.lor x (Z.shiftl 1 (Z.of_nat (h mod 8))))) else Ok xCheck) X es = Ok X' /\
      length X' = SigmaBytes /\ forall k, (k < Sigma)%nat ->
        bit_at X' k = bit_at X k || existsb (fun '(h, x) => (k =? h)%nat && (x =? 1)) es).
  { induction 1 as [|[h x] es Hh _ IH]; intros X LX; cbn [foldM existsb fst] in *.
    - exists X. repeat split; auto. intros. now rewrite orb_false_r.
    - destruct (Z.eqb_spec x 1) as [->|Hx]; cbn [rbind].
      2: { destruct (IH X LX) as (X' & E & L' & B). exists X'. repeat split; auto. intros k Hk.
           rewrite B, andb_false_r by assumption. reflexivity. }
      destruct (set_at_ok X (h / 8) (fun x => Ok (Z.lor x (Z.shiftl 1 (Z.of_nat (h mod 8))))) (nth (h / 8) X 0) 0)
        with (b := Z.lor (nth (h / 8) X 0) (Z.shiftl 1 (Z.of_nat (h mod 8)))) as (X1 & E1 & L1 & N1);
        [apply nth_error_nth_lt; rewrite LX; change SigmaBytes with (Sigma / 8)%nat; now apply width8|reflexivity|].
      rewrite E1. cbn [rbind]. destruct (IH X1 ltac:(lia)) as (X' & E & L' & B). exists X'. repeat split; auto.
      intros k Hk. rewrite B by assumption. rewrite orb_assoc, andb_true_r. f_equal. unfold bit_at. rewrite N1.
      destruct (Nat.eqb_spec (k / 8) (h / 8)) as [Ed|Ed].
      + rewrite Z.lor_spec, Z.shiftl_1_l, Z.pow2_bits_eqb, Ed by lia. f_equal.
        destruct (Nat.eqb_spec k h) as [->|Hne]; [apply Z.eqb_refl|]. apply Z.eqb_neq. intros E'.
        apply Hne, div_mod_eq8; [assumption|lia].
      + destruct (Nat.eqb_spec k h) as [->|]; [contradiction|]. now rewrite orb_false_r. }
  destruct (G (enum bits)) with (X := repeat 0 SigmaBytes) as (X & E & LX & B).
  - apply Forall_forall. intros [h x] Hin. apply enum_In in Hin. cbn [fst]. rewrite <- L.
    apply nth_error_Some. now rewrite Hin.
  - apply repeat_length.
  - exists X. split; [exact E|]. split; [exact LX|]. intros h Hh. rewrite B by assumption.
    unfold bit_at. rewrite nth_repeat, Z.bits_0. cbn [orb].
    destruct (Z.eqb_spec (nth h bits 0) 1) as [E1|E1].
    + apply existsb_exists. exists (h, 1). split; [|now rewrite Nat.eqb_refl].
      apply enum_In. rewrite <- E1. apply nth_error_nth_lt. lia.
    + apply not_true_is_false. intros E2. apply existsb_exists in E2 as ([h' x] & Hin & Hx).
      apply andb_true_iff in Hx as [Hk Hx]. apply Nat.eqb_eq in Hk. apply Z.eqb_eq in Hx. subst h' x.
      apply enum_In in Hin. apply nth_error_nth with (d := 0) in Hin. contradiction.
Qed.

(** ** The two sides *)
Section Extension.
Context `{HS : Hash} `{AL : AesLaws}.

Lemma prgExpand_length seed sid n : length (prgExpand seed sid n) = n.
Proof. apply aes_ctr_length. Qed.

Lemma prgExpand_byte seed sid n : Forall is_byte (prgExpand seed sid n).
Proof. apply aes_ctr_byte. Qed.

Lemma deriveChallenges_ok sid u l lb : lb = Z.to_nat (Z.quot l 8) ->
  exists chi, deriveChallenges sid u l = Ok chi /\ rows_ok chi Sigma lb.
Proof.
  intros Hlb. unfold deriveChallenges. rewrite <- Hlb.
  set (e := prgExpand _ _ _). assert (Le : length e = (Sigma * lb)%nat) by apply prgExpand_length.
  exists (tab Sigma (fun h => firstn lb (skipn (h * lb) e))). split.
  - apply mapM_seq. intros h Hh. unfold slice. rewrite Le.
    assert (B : (((h + 1) * lb) <= Sigma * lb)%nat) by (apply Nat.mul_le_mono_r; lia).
    rewrite (proj2 (Z.leb_le 0 _)), (proj2 (Z.leb_le _ (Z.of_nat ((h + 1) * lb)))),
      (proj2 (Z.leb_le (Z.of_nat ((h + 1) * lb)) _)) by lia.
    cbn [andb]. rewrite Nat2Z.id. f_equal. f_equal. lia.
  - apply rows_tab. intros h Hh. split.
    + rewrite length_firstn, length_skipn, Le. assert (((h + 1) * lb <= Sigma * lb)%nat) by (apply Nat.mul_le_mono_r; lia).
      lia.
    + apply (Forall_split_at is_byte lb), (Forall_split_at is_byte (h * lb)), prgExpand_byte.
Qed.

(** The matching of the base transfers: the sender holds, for every index, the
    seed that its correlation bit selects. *)
Record matched (r : ExtReceiver) (s : ExtSender) : Prop := {
  mt_delta : length (delta s) = DeltaBytes;
  mt_delta_bytes : Forall is_byte (delta s);
  mt_seeds0 : length (seeds0 r) = Kappa;
  mt_seeds1 : length (seeds1 r) = Kappa;
  mt_seeds : length (seeds s) = Kappa;
  mt_choice : forall j, (j < Kappa)%nat ->
    nth j (seeds s) [] = if bit_at (delta s) j then nth j (seeds1 r) [] else nth j (seeds0 r) []
}.

Section Run.
Variables (r : ExtReceiver) (s : ExtSender) (sid c : bytes) (lb : nat).
Hypothesis HM : matched r s.
Hypothesis Hlb : (0 < lb)%nat.
Hypothesis Hc : (lb <= length c)%nat.
Hypothesis Hcb : Forall is_byte c.
Abbreviation l := (8 * lb)%nat.
Abbreviation zl := (Z.of_nat (8 * lb)).

Definition t0 (j : nat) : bytes := prgExpand (nth j (seeds0 r) []) sid lb.
Definition t1 (j : nat) : bytes := prgExpand (nth j (seeds1 r) []) sid lb.
Definition urow (j : nat) : bytes :=
  tab lb (fun b => Z.lxor (Z.lxor (nth b (t0 j) 0) (nth b (t1 j) 0)) (nth b c 0)).
Definition qrow (j : nat) : bytes :=
  tab lb (fun b => Z.lxor (nth b (prgExpand (nth j (seeds s) []) sid lb) 0)
    (Z.land (nth b (urow j) 0) (mask_of (bit_of (nth (j / 8) (delta s) 0) (j mod 8))))).

Lemma lb_of : Z.to_nat (Z.quot zl 8) = lb.
Proof. rewrite Z.quot_div_nonneg by lia. replace zl with (Z.of_nat lb * 8) by lia. rewrite Z.div_mul by lia. lia. Qed.

Lemma validate_ok : validateExtendInputs zl = Ok tt.
Proof.
  unfold validateExtendInputs. rewrite (proj2 (Z.leb_gt _ _)) by lia. cbn [negb guard rbind].
  rewrite Z.rem_mod_nonneg by lia. replace zl with (Z.of_nat lb * 8) by lia. now rewrite Z.mod_mul by lia.
Qed.

Lemma urow_byte j b : is_byte (nth b (urow j) 0).
Proof.
  apply nth_byte, tab_bytes. intros k Hk. apply lxor_byte; [|now apply nth_byte].
  apply lxor_byte; apply nth_byte, prgExpand_byte.
Qed.

Lemma t0_rows : rows_ok (tab Kappa t0) Kappa lb.
Proof. apply rows_tab. intros j _. split; [apply prgExpand_length|apply prgExpand_byte]. Qed.

Lemma delta_bit j : bit_of (nth (j / 8) (delta s) 0) (j mod 8) = Z.b2z (bit_at (delta s) j).
Proof. apply bit_of_spec. Qed.

Lemma qrow_byte j b : (b < lb)%nat -> nth b (qrow j) 0 =
  Z.lxor (nth b (t0 j) 0) (if bit_at (delta s) j then nth b c 0 else 0).
Proof.
  intros Hb. unfold qrow. rewrite nth_map_seq, delta_bit, land_mask by (assumption || apply urow_byte).
  unfold t0. destruct (Nat.lt_ge_cases j Kappa) as [Hj|Hj].
  - rewrite (mt_choice _ _ HM j Hj). destruct (bit_at (delta s) j); [|reflexivity].
    unfold urow. rewrite nth_map_seq by assumption. unfold t0, t1.
    set (x := nth b (prgExpand (nth j (seeds0 r) []) sid lb) 0). set (y := nth b (prgExpand (nth j (seeds1 r) []) sid lb) 0).
    rewrite <- Z.lxor_assoc, (Z.lxor_comm x y), <- (Z.lxor_assoc y y x), Z.lxor_nilpotent, Z.lxor_0_l. reflexivity.
  - assert (E : bit_at (delta s) j = false).
    { unfold bit_at. rewrite nth_overflow; [apply Z.bits_0|]. rewrite (mt_delta _ _ HM).
      apply Nat.div_le_lower_bound; [lia|exact Hj]. }
    rewrite E, (nth_overflow (seeds s)), (nth_overflow (seeds0 r)) by (rewrite ?(mt_seeds0 _ _ HM), ?(mt_seeds _ _ HM); exact Hj).
    reflexivity.
Qed.

Lemma qrow_rows : rows_ok (tab Kappa qrow) Kappa lb.
Proof.
  apply rows_tab. intros j _. split; [apply tab_length|]. apply tab_bytes. intros b Hb. apply lxor_byte.
  - apply nth_byte, prgExpand_byte.
  - rewrite delta_bit, land_mask by apply urow_byte. destruct bit_at; [apply urow_byte|unfold is_byte; lia].
Qed.

(** The correlation between the transposed matrices. *)
Lemma correlation v qT : rows_ok v l DeltaBytes -> rows_ok qT l DeltaBytes ->
  (forall j i, (j < Kappa)%nat -> (i < l)%nat -> bit_at (nth i v []) j = bit_at (t0 j) i) ->
  (forall j i, (j < Kappa)%nat -> (i < l)%nat -> bit_at (nth i qT []) j = bit_at (qrow j) i) ->
  forall i k, (i < l)%nat -> (k < DeltaBytes)%nat ->
    nth k (nth i qT []) 0 = Z.lxor (nth k (nth i v []) 0) (sel (bit_at c i) (nth k (delta s) 0)).
Proof.
  intros Hv Hq Bv Bq i k Hi Hk.
  assert (Hd : is_byte (nth k (delta s) 0)) by (apply nth_byte, (mt_delta_bytes _ _ HM)).
  assert (Hs : is_byte (sel (bit_at c i) (nth k (delta s) 0))) by (unfold sel; destruct bit_at; [assumption|unfold is_byte; lia]).
  apply byte_bits; [apply nth_byte, Hq, Hi|apply lxor_byte; [apply nth_byte, Hv, Hi|assumption]|].
  intros j Hj. rewrite Z.lxor_spec, <- !bit_at_byte by assumption.
  assert (Hkj : (k * 8 + j < Kappa)%nat) by (unfold Kappa, DeltaBytes in *; lia).
  rewrite Bv, Bq by assumption. unfold bit_at at 1. rewrite qrow_byte by (apply Nat.Div0.div_lt_upper_bound; lia).
  rewrite Z.lxor_spec. fold (bit_at (t0 (k * 8 + j)) i). f_equal. unfold sel.
  rewrite bit_at_byte by assumption. unfold bit_at.
  destruct (Z.testbit (nth k (delta s) 0) (Z.of_nat j)) eqn:Ed, (Z.testbit (nth (i / 8) c 0) (Z.of_nat (i mod 8)));
    rewrite ?Z.bits_0; auto.
Qed.

Lemma receiver_rows :
  mapM (fun j => let! sd := idx (seeds0 r) j in Ok (prgExpand sd sid lb)) (seq 0 Kappa) = Ok (tab Kappa t0) /\
  mapM (fun j => let! sd := idx (seeds1 r) j in Ok (prgExpand sd sid lb)) (seq 0 Kappa) = Ok (tab Kappa t1) /\
  mapM (fun j =>
    let! t0j := idx (tab Kappa t0) j in
    let! t1j := idx (tab Kappa t1) j in
    mapM (fun b =>
      let! x := idx t0j b in
      let! y := idx t1j b in
      let! z := idx c b in
      Ok (Z.lxor (Z.lxor x y) z)) (seq 0 lb)) (seq 0 Kappa) = Ok (tab Kappa urow).
Proof.
  repeat split; apply mapM_seq; intros j Hj.
  - rewrite (idx_nth _ j ([] : bytes)) by (rewrite (mt_seeds0 _ _ HM); exact Hj). reflexivity.
  - rewrite (idx_nth _ j ([] : bytes)) by (rewrite (mt_seeds1 _ _ HM); exact Hj). reflexivity.
  - rewrite !(idx_nth _ j ([] : bytes)) by (rewrite tab_length; exact Hj). cbn [rbind]. rewrite !nth_map_seq by assumption.
    unfold urow. apply mapM_seq. intros b Hb.
    rewrite !(idx_nth _ b 0) by (lia || (unfold t0, t1; rewrite prgExpand_length; exact Hb)). reflexivity.
Qed.

Lemma sender_rows :
  mapM (fun j =>
    let! dj := idx (delta s) (j / 8) in
    let deltaBit := bit_of dj (j mod 8) in
    let mask := mask_of deltaBit in
    let! seed := idx (seeds s) j in
    let expansion := prgExpand seed sid lb in
    mapM (fun b =>
      let! e := idx expansion b in
      let! uj := idx (tab Kappa urow) j in
      let! ub := idx uj b in
      Ok (Z.lxor e (Z.land ub mask))) (seq 0 lb)) (seq 0 Kappa) = Ok (tab Kappa qrow).
Proof.
  apply mapM_seq. intros j Hj.
  rewrite (idx_nth (delta s) (j / 8) 0) by (rewrite (mt_delta _ _ HM); apply (width8 Kappa); [reflexivity|exact Hj]).
  rewrite (idx_nth _ j ([] : bytes)) by (rewrite (mt_seeds _ _ HM); exact Hj). cbn [rbind]. cbv zeta.
  unfold qrow. apply mapM_seq. intros b Hb.
  rewrite (idx_nth _ b 0) by (rewrite prgExpand_length; exact Hb). cbn [rbind].
  rewrite (idx_nth _ j ([] : bytes)) by (rewrite tab_length; exact Hj). cbn [rbind]. rewrite nth_map_seq by assumption.
  rewrite (idx_nth _ b 0) by (unfold urow; rewrite tab_length; exact Hb). reflexivity.
Qed.

Lemma sender_expected_ok msg h x T T' : length (emX msg) = SigmaBytes -> (h < Sigma)%nat ->
  bit_at (emX msg) h = x -> nth_error (emT msg) h = Some T -> acc_rel (delta s) x T T' ->
  sender_expected s msg h = Ok T'.
Proof.
  intros LX Hh Hx ET (L1 & L2 & HR). unfold sender_expected.
  rewrite (idx_nth _ (h / 8) 0) by (rewrite LX; apply (width8 Sigma); [reflexivity|exact Hh]).
  cbn [rbind]. unfold idx at 1. rewrite ET. cbn [rbind].
  rewrite bit_of_spec. fold (bit_at (emX msg) h). rewrite Hx.
  transitivity (Ok (tab DeltaBytes (fun k => nth k T' 0))).
  - apply mapM_seq. intros k Hk. rewrite (idx_nth T k 0), HR by lia. cbn [rbind]. destruct x; cbn [Z.b2z Z.eqb Pos.eqb sel].
    + rewrite (idx_nth _ k 0) by (rewrite (mt_delta _ _ HM); exact Hk). reflexivity.
    + now rewrite Z.lxor_0_r.
  - f_equal. apply list_eq_nth with (d := 0); rewrite tab_length; [now symmetry|]. intros k Hk. now rewrite nth_map_seq by assumption.
Qed.

(** The two keys of every row. *)
Definition out_pairs (qT : list bytes) : list (bytes * bytes) :=
  tab l (fun i => (hashRow sid i (nth i qT []),
                   hashRow sid i (tab DeltaBytes (fun b => Z.lxor (nth b (nth i qT []) 0) (nth b (delta s) 0))))).

Lemma out_pairs_ok qT : rows_ok qT l DeltaBytes ->
  mapM (fun i =>
    let! row := idx qT i in
    let! xored := mapM (fun b =>
      let! x := idx row b in
      let! d := idx (delta s) b in
      Ok (Z.lxor x d)) (seq 0 DeltaBytes) in
    Ok (hashRow sid i row, hashRow sid i xored)) (seq 0 l) = Ok (out_pairs qT).
Proof.
  intros [L F]. apply mapM_seq. intros i Hi. rewrite (idx_nth qT i ([] : bytes)) by lia. cbn [rbind].
  rewrite xor_row_ok; [reflexivity|now apply F|apply (mt_delta _ _ HM)].
Qed.

Lemma sender_checks_ok msg (chi qT : list bytes) (checks : list (Z * bytes)) : length chi = Sigma -> length (emX msg) = SigmaBytes ->
  emT msg = map snd checks -> (forall h, (h < Sigma)%nat -> bit_at (emX msg) h = (nth h (map fst checks) 0 =? 1)) ->
  Forall2 (fun h xT => exists x T', fst xT = Z.b2z x /\
      sender_check (nth h chi []) qT l lb = Ok T' /\ acc_rel (delta s) x (snd xT) T') (seq 0 Sigma) checks ->
  sender_checks s msg chi qT l lb = Ok tt.
Proof.
  intros Lchi LX ET BX F. unfold sender_checks.
  match goal with |- foldM ?f _ ?js = _ => destruct (foldM_inv (fun _ => True) f js) with (s := tt) as ([] & E & _) end;
    [|exact I|exact E].
  intros [] h Hh%in_seq _. exists tt. split; [|exact I]. cbv beta.
  assert (Hs : nth_error (seq 0 Sigma) h = Some h) by (rewrite nth_error_nth' with (d := 0%nat) by
    (rewrite length_seq; lia); f_equal; now apply seq_nth).
  destruct (Forall2_nth_error_l _ _ _ _ _ F Hs) as ([z T] & Ec & x & T' & Ez & EC & HR). cbn [fst snd] in *. subst z.
  rewrite (idx_nth chi h ([] : bytes)) by lia. cbn [rbind]. rewrite EC. cbn [rbind].
  rewrite (sender_expected_ok msg h x T T'); try assumption; [|lia| |].
  - cbn [rbind]. destruct list_eq_dec; [reflexivity|contradiction].
  - rewrite BX by lia. apply (map_nth_error fst) in Ec. cbn [fst] in Ec.
    rewrite (nth_error_nth _ _ 0 Ec). now destruct x.
  - rewrite ET. now apply (map_nth_error snd) in Ec.
Qed.

(** Correctness of the extension for one choice vector. *)
Lemma extend_ok : exists msg keys m0 m1,
  ExtReceiver_Extend r sid c zl = Ok (msg, keys) /\ ExtSender_Extend s sid (Some msg) = Ok (m0, m1) /\
  emL msg = zl /\ length keys = l /\ length m0 = l /\ length m1 = l /\
  Forall (fun k => exists m, k = sha512_256 m) (keys ++ m0 ++ m1) /\
  forall i, (i < l)%nat -> nth i keys [] = if bit_at c i then nth i m1 [] else nth i m0 [].
Proof.
  destruct receiver_rows as (R0 & R1 & RU).
  destruct (deriveChallenges_ok sid (tab Kappa urow) zl lb) as (chi & Echi & Lchi & Hchi); [symmetry; apply lb_of|].
  assert (E8 : (l / 8 = lb)%nat) by (rewrite Nat.mul_comm; apply Nat.div_mul; lia).
  assert (M8 : (l mod 8 = 0)%nat) by (rewrite Nat.mul_comm; apply Nat.Div0.mod_mul).
  destruct (transposeBits_ok (tab Kappa t0) Kappa l eq_refl M8) as (v & Ev & Hv & Bv); [rewrite E8; apply t0_rows|].
  destruct (transposeBits_ok (tab Kappa qrow) Kappa l eq_refl M8) as (qT & Eq & Hq & Bq); [rewrite E8; apply qrow_rows|].
  change (Kappa / 8)%nat with DeltaBytes in Hv, Hq.
  assert (HC : forall i k, (i < l)%nat -> (k < DeltaBytes)%nat ->
    nth k (nth i qT []) 0 = Z.lxor (nth k (nth i v []) 0) (sel (bit_at c i) (nth k (delta s) 0))).
  { apply correlation; try assumption; intros j i Hj Hi; [rewrite Bv by assumption|rewrite Bq by assumption];
      now rewrite nth_map_seq by assumption. }
  destruct (mapM_exists (fun h xT => exists x T', fst xT = Z.b2z x /\
      sender_check (nth h chi []) qT l lb = Ok T' /\ acc_rel (delta s) x (snd xT) T')
    (fun h => let! chih := idx chi h in receiver_check chih c v l lb) (seq 0 Sigma)) as (checks & Ecs & Fcs).
  { intros h Hh%in_seq. destruct (Hchi h ltac:(lia)) as [Lh Fh].
    destruct (checks_rel (delta s) c v qT lb (mt_delta _ _ HM) Hc Hcb Hv Hq HC (nth h chi []) Lh Fh) as (x & T & T' & E1 & E2 & HR).
    exists (Z.b2z x, T). rewrite (idx_nth chi h ([] : bytes)) by lia. cbn [rbind fst snd]. eauto 6. }
  pose proof (Forall2_length Fcs) as Lcs. rewrite length_seq in Lcs.
  destruct (pack_checks_ok (map fst checks)) as (X & EX & LX & BX).
  { rewrite length_map. now symmetry. }
  { apply Forall_map, Forall_forall. intros xT Hin. apply (Forall2_In_r _ _ _ Fcs) in Hin as (h & _ & x & T' & -> & _).
    destruct x; auto. }
  set (msg := {| emL := zl; emU := tab Kappa urow; emX := X; emT := map snd checks |}).
  assert (Ekeys : mapM (fun i => let! vi := idx v i in Ok (hashRow sid i vi)) (seq 0 l) =
    Ok (tab l (fun i => hashRow sid i (nth i v [])))).
  { apply mapM_seq. intros i Hi. rewrite (idx_nth v i ([] : bytes)) by (rewrite (proj1 Hv); exact Hi). reflexivity. }
  exists msg, (tab l (fun i => hashRow sid i (nth i v []))), (map fst (out_pairs qT)), (map snd (out_pairs qT)).
  split; [|split].
  - unfold ExtReceiver_Extend. rewrite validate_ok. cbn [rbind].
    rewrite (proj2 (Z.ltb_ge _ _)) by lia. cbn [negb guard rbind]. rewrite lb_of, Nat2Z.id, R0, R1. cbn [rbind].
    rewrite RU. cbn [rbind]. rewrite Ev. cbn [rbind]. rewrite Echi. cbn [rbind]. rewrite Ecs. cbn [rbind].
    rewrite EX. cbn [rbind]. rewrite Ekeys. reflexivity.
  - pose proof sender_rows as SR. cbv zeta in SR. unfold ExtSender_Extend. cbn [emL emU msg]. rewrite validate_ok.
    cbn [rbind]. cbv zeta. rewrite tab_length, lb_of, Nat2Z.id.
    cbn [Nat.eqb Kappa guard rbind]. replace (forallb _ (tab Kappa urow)) with true.
    2: { symmetry. apply forallb_forall. intros u Hu. apply in_map_iff in Hu as (j & <- & _). apply Nat.eqb_eq, tab_length. }
    cbn [guard rbind]. rewrite SR. cbn [rbind]. rewrite Eq. cbn [rbind]. rewrite Echi. cbn [rbind].
    rewrite (sender_checks_ok msg chi qT checks) by (assumption || reflexivity). cbn [rbind].
    rewrite out_pairs_ok by assumption. reflexivity.
  - unfold out_pairs. split; [reflexivity|]. rewrite !length_map, !length_seq. repeat (split; [reflexivity|]). split.
    + repeat (apply Forall_app; split); apply Forall_forall; intros k Hk; rewrite ?map_map in Hk;
        apply in_map_iff in Hk as (i & <- & _); cbn [fst snd]; unfold hashRow; eauto.
    + intros i Hi. rewrite !map_map, !nth_map_seq by assumption. cbn [fst snd].
      assert (E : forall k, (k < DeltaBytes)%nat -> nth k (nth i qT []) 0 =
        Z.lxor (nth k (nth i v []) 0) (sel (bit_at c i) (nth k (delta s) 0))) by (intros; now apply HC).
      destruct (proj2 Hv i Hi) as [Lvi _], (proj2 Hq i Hi) as [Lqi _].
      destruct (bit_at c i); f_equal.
      * apply list_eq_nth with (d := 0); [now rewrite tab_length|]. intros k Hk. rewrite Lvi in Hk.
        rewrite nth_map_seq, E by assumption. cbn [sel]. now rewrite Z.lxor_assoc, Z.lxor_nilpotent, Z.lxor_0_r.
      * apply list_eq_nth with (d := 0); [congruence|]. intros k Hk. rewrite Lvi in Hk.
        rewrite E by assumption. cbn [sel]. now rewrite Z.lxor_0_r.
Qed.
End Run.

(** The base transfers give the sender, for every index, the seed that its
    correlation bit selects: the two constructors accept and the states match. *)
Lemma NewExt_matched (dl : bytes) (keys k0 k1 : list bytes) : length dl = DeltaBytes -> Forall is_byte dl ->
  length k0 = Kappa -> length k1 = Kappa -> length keys = Kappa ->
  (forall j, (j < Kappa)%nat -> nth j keys [] = if bit_at dl j then nth j k1 [] else nth j k0 []) ->
  exists s r, NewExtSenderFromBase dl keys = Ok s /\ NewExtReceiverFromBase k0 k1 = Ok r /\ matched r s.
Proof.
  intros Hd Hdb H0 H1 Hk Hj. unfold NewExtSenderFromBase, NewExtReceiverFromBase.
  rewrite Hd, H0, H1, Hk, Nat.eqb_refl. cbn [guard rbind negb orb Nat.eqb Kappa].
  eexists _, _. split; [reflexivity|]. split; [reflexivity|]. now constructor.
Qed.

(** C15. The oblivious-transfer extension is correct: from matching base transfers
    (the sender holds the seed that each bit of its correlation selects), for
    every session id, every positive row count that is a multiple of 8 and every
    choice vector that is long enough, the receiver's [Extend] succeeds, the
    sender's [Extend] accepts its message (all 80 consistency checks pass), and
    the receiver's key of row [i] is the sender's key of row [i] for choice bit
    [i]. *)
Theorem Extend_correct (dl : bytes) (keys k0 k1 : list bytes) (sid c : bytes) (L : Z) : length dl = DeltaBytes -> Forall is_byte dl ->
  length k0 = Kappa -> length k1 = Kappa -> length keys = Kappa ->
  (forall j, (j < Kappa)%nat -> nth j keys [] = if bit_at dl j then nth j k1 [] else nth j k0 []) ->
  0 < L -> L mod 8 = 0 -> L <= 8 * Z.of_nat (length c) -> Forall is_byte c ->
  exists s r msg out m0 m1,
    NewExtSenderFromBase dl keys = Ok s /\ NewExtReceiverFromBase k0 k1 = Ok r /\
    ExtReceiver_Extend r sid c L = Ok (msg, out) /\ ExtSender_Extend s sid (Some msg) = Ok (m0, m1) /\
    length out = Z.to_nat L /\ length m0 = Z.to_nat L /\ length m1 = Z.to_nat L /\
    forall i, (i < Z.to_nat L)%nat -> nth i out [] = if bit_at c i then nth i m1 [] else nth i m0 [].
Proof.
  intros Hd Hdb H0 H1 Hk Hj HL HL8 HLc Hc.
  destruct (NewExt_matched dl keys k0 k1 Hd Hdb H0 H1 Hk Hj) as (s & r & Es & Er & HM).
  pose (lb := Z.to_nat (L / 8)). pose proof (Z.div_mod L 8 ltac:(lia)) as DL. rewrite HL8, Z.add_0_r in DL.
  assert (EL : L = Z.of_nat (8 * lb)) by (unfold lb; lia).
  destruct (extend_ok r s sid c lb HM ltac:(lia) ltac:(lia) Hc) as (msg & out & m0 & m1 & E1 & E2 & _ & L1 & L2 & L3 & _ & HK).
  rewrite EL, Nat2Z.id. exists s, r, msg, out, m0, m1. tauto.
Qed.
End Extension.

(** Transposing twice gives the matrix back, for dimensions that are multiples of 8. *)
Theorem transposeBits_involutive (m : list bytes) (rows cols : nat) : (rows mod 8 = 0)%nat -> (cols mod 8 = 0)%nat ->
  rows_ok m rows (cols / 8) ->
  exists t, transposeBits m rows cols = Ok t /\ length t = cols /\ transposeBits t cols rows = Ok m.
Proof.
  intros Hr Hc Hm. destruct (transposeBits_ok m rows cols Hr Hc Hm) as (t & Et & Ht & Bt).
  destruct (transposeBits_ok t cols rows Hc Hr Ht) as (m' & Em & Hm' & Bm). exists t. split; [assumption|].
  split; [exact (proj1 Ht)|]. rewrite Em. f_equal. apply list_eq_nth with (d := ([] : bytes)); [now rewrite (proj1 Hm), (proj1 Hm')|].
  intros i Hi. rewrite (proj1 Hm') in Hi. destruct (proj2 Hm i Hi) as [L F], (proj2 Hm' i Hi) as [L' F'].
  apply list_eq_nth with (d := 0); [now rewrite L, L'|]. intros k Hk. rewrite L' in Hk.
  apply byte_bits; [now apply nth_byte|now apply nth_byte|]. intros j Hj. rewrite <- !bit_at_byte by assumption.
  pose proof (Nat.div_mod_eq cols 8) as DC. rewrite Hc, Nat.add_0_r in DC.
  rewrite Bm, Bt by lia. reflexivity.
Qed.

(** ** Evaluation on concrete inputs *)
#[export] Instance toy_aes : Aes := {| aes_ctr := fun k iv n => map (fun i => nth (i mod 16) k 0 mod 256) (seq 0 n) |}.
#[export] Instance toy_aes_laws : @AesLaws toy_aes.
Proof.
  split; intros k iv n; cbn [aes_ctr toy_aes]; [apply tab_length|]. apply tab_bytes. intros i _.
  apply Z.mod_pos_bound. lia.
Qed.

Definition w_delta : bytes := repeat 165 16.
Definition w_k (b : Z) : list bytes := map (fun j => [b; Z.of_nat j]) (seq 0 Kappa).
Definition w_keys (dl : bytes) : list bytes :=
  map (fun j => if bit_at dl j then nth j (w_k 1) [] else nth j (w_k 0) []) (seq 0 Kappa).

Lemma Extend_correct_witness : exists s r msg out m0 m1,
  NewExtSenderFromBase w_delta (w_keys w_delta) = Ok s /\ NewExtReceiverFromBase (w_k 0) (w_k 1) = Ok r /\
  @ExtReceiver_Extend toy_hash toy_aes r [7] [201; 3] 16 = Ok (msg, out) /\
  @ExtSender_Extend toy_hash toy_aes s [7] (Some msg) = Ok (m0, m1) /\
  length out = 16%nat /\ length m0 = 16%nat /\ length m1 = 16%nat /\
  forall i, (i < 16)%nat -> nth i out [] = if bit_at [201; 3] i then nth i m1 [] else nth i m0 [].
Proof.
  apply (@Extend_correct toy_hash toy_aes toy_aes_laws w_delta (w_keys w_delta) (w_k 0) (w_k 1) [7] [201; 3] 16);
    try reflexivity; try (cbn; lia).
  - repeat constructor; unfold is_byte; lia.
  - intros j Hj. unfold w_keys. now rewrite nth_map_seq by assumption.
  - repeat constructor; unfold is_byte; lia.
Defined.

Lemma transposeBits_involutive_witness : exists t,
  transposeBits (map (fun i => [Z.of_nat i]) (seq 0 16)) 16 8 = Ok t /\ length t = 8%nat /\
  transposeBits t 8 16 = Ok (map (fun i => [Z.of_nat i]) (seq 0 16)).
Proof.
  apply (transposeBits_involutive (map (fun i => [Z.of_nat i]) (seq 0 16)) 16 8); [reflexivity..|].
  apply rows_tab. intros i Hi. split; [reflexivity|]. constructor; [unfold is_byte; lia|constructor].
Defined.
