(* ===== verification/BaseOt.v ===== *)
(** * Package [crypto/ot/baseot]

    The Chou-Orlandi oblivious transfer of [baseot.go] on secp256k1, a batch of
    [n] transfers: the sender's two moves, the receiver's two moves and the key
    derivation.  The caller's random source and the system's, which the
    constant-time multiplications without a reader use, are separate readers.
    [Finalize] returns the state it leaves behind: its secret is gone. *)
From Stdlib Require Import ZArith String List Lia Bool Arith.
From S2P Require Import Prelude GoBig Common Curve CtMul Field Schnorr Bits.
Import ListNotations.
Open Scope string_scope.
Open Scope Z_scope.
Open Scope list_scope.

Record Sender := { s_sid : bytes; s_n : Z; s_y : option Z; s_S : option ECPoint }.
Record Receiver := { r_sid : bytes; r_n : Z; r_bits : bytes; r_x : option (list (option Z)); r_S : option ECPoint }.
Record SenderMsg1 := { smS : option ECPoint; smPoK : option ZKProof }.
Record ReceiverMsg1 := { rmR : list (option ECPoint) }.

Section Defs.
Context `{HS : Hash} `{CS : Curves} `{SL : Secp256k1Lib} `{EL : Ed25519Lib}.

Definition KeyLen : nat := 32.
Definition tagKey : bytes := str "DKLS23-baseot-key-v1".
Definition tagPoK : bytes := str "DKLS23-baseot-pok-v1".

Definition pokSession (sid : bytes) : bytes := tagPoK ++ sid.

Definition NewSender (sid : bytes) (n : Z) : rnd (Sender * SenderMsg1) :=
  let~ _ := rlift (guard (negb (n <=? 0)) "baseot: NewSender requires n > 0") in
  let~ _ := rlift (guard (negb (length sid =? 0)%nat) "baseot: NewSender requires non-empty sid") in
  let q := cN S256 in
  let~ y := GetRandomPositiveInt (Some q) in
  let~ SG := ScalarBaseMultWithRand S256 y in
  let~ pok := (fun r => rewrap "baseot: NewSender PoK" (NewZKProof (pokSession sid) y SG r)) in
  rret ({| s_sid := sid; s_n := n; s_y := y; s_S := SG |}, {| smS := SG; smPoK := Some pok |}).

Definition ctSelectPoint (curve : Curve) (b : bool) (ra rb : ECPoint) : res ECPoint :=
  let mask := if b then 255 else 0 in
  let! x := ECPoint_X ra in let! xa := FillBytes 32 x in
  let! y := ECPoint_Y ra in let! ya := FillBytes 32 y in
  let! x := ECPoint_X rb in let! xb := FillBytes 32 x in
  let! y := ECPoint_Y rb in let! yb := FillBytes 32 y in
  let! xpick := ct_pick_bytes 32 mask xa xb in
  let! ypick := ct_pick_bytes 32 mask ya yb in
  Ok (NewECPointNoCurveCheck curve (SetBytes xpick) (SetBytes ypick)).

(** One turn of the receiver's loop; the state holds the scalars, the responses
    and the two readers. *)
Definition recv_row (bits : bytes) (SG : ECPoint)
  (st : list (option Z) * list (option ECPoint) * reader * reader) (i : nat)
  : res (list (option Z) * list (option ECPoint) * reader * reader) :=
  let '(xs, Rs, rand, sys) := st in
  let! (x, rand) := GetRandomPositiveInt (Some (cN S256)) rand in
  let! byte := idx bits (i / 8) in
  let c := bit_of byte (i mod 8) in
  let! (Ra, sys) := ctmul_ScalarBaseMult S256 x sys in
  let! Ra := deref Ra in
  let! Rb := rewrap "baseot: NewReceiver Add" (ECPoint_Add Ra SG) in
  let! R := ctSelectPoint S256 (c =? 1) Ra Rb in
  Ok (xs ++ [x], Rs ++ [Some R], rand, sys).

Definition NewReceiver (sid : bytes) (n : Z) (bits : bytes) (msg : option SenderMsg1) (rand sys : reader)
  : res (Receiver * ReceiverMsg1 * reader * reader) :=
  guard (negb (n <=? 0)) "baseot: NewReceiver requires n > 0" ;!
  guard (negb (Z.of_nat (length bits) * 8 <? n)) "baseot: NewReceiver bits buffer holds %d bits, need at least %d" ;!
  match msg with
  | Some {| smS := Some SG; smPoK := Some pok |} =>
    guard (ECPoint_ValidateBasic (Some SG)) "baseot: NewReceiver sender S is not a valid curve point" ;!
    guard (curve_eqb (curve SG) S256) "baseot: NewReceiver sender S is on the wrong curve" ;!
    let! ok := ZKProof_Verify (Some pok) (pokSession sid) (Some SG) in
    guard ok "baseot: NewReceiver Schnorr PoK on S failed verification" ;!
    let! st := foldM (recv_row bits SG) ([], [], rand, sys) (seq 0 (Z.to_nat n)) in
    let '(xs, Rs, rand, sys) := st in
    Ok ({| r_sid := sid; r_n := n; r_bits := bits; r_x := Some xs; r_S := Some SG |}, {| rmR := Rs |}, rand, sys)
  | _ => Err "baseot: NewReceiver got nil or incomplete sender message"
  end.

(** The tagged hash of the instance, the bit and the point, in 32 bytes. *)
Definition deriveKey (sid : bytes) (instance bit : Z) (P : option ECPoint) : res bytes :=
  let! P := deref P in
  let tag := tagKey ++ sid in
  let! x := ECPoint_X P in
  let! y := ECPoint_Y P in
  let! h := deref (SHA512_256i_TAGGED tag [Some instance; Some bit; Some x; Some y]) in
  let bz := Bytes h in
  if (KeyLen <=? length bz)%nat then Ok (skipn (length bz - KeyLen) bz)
  else Ok (repeat 0 (KeyLen - length bz) ++ bz).

Definition negPoint (P : ECPoint) : res ECPoint :=
  let p := cP (curve P) in
  let! y := ECPoint_Y P in
  let! negY := Mod (- y) p in
  let! x := ECPoint_X P in
  Ok (NewECPointNoCurveCheck (curve P) x negY).

(** One turn of the sender's last loop. *)
Definition send_row (s : Sender) (R : list (option ECPoint)) (negYS : ECPoint)
  (st : list bytes * list bytes * reader) (i : nat) : res (list bytes * list bytes * reader) :=
  let '(k0, k1, sys) := st in
  let! Ri := idx R i in
  guard (is_some Ri && ECPoint_ValidateBasic Ri) "baseot: Sender.Finalize R[%d] is not a valid curve point" ;!
  let! Ri' := deref Ri in
  guard (curve_eqb (curve Ri') S256) "baseot: Sender.Finalize R[%d] is on the wrong curve" ;!
  let! (yR, sys) := ScalarMult Ri (s_y s) sys in
  let! key0 := deriveKey (s_sid s) (Z.of_nat i) 0 yR in
  let! yR := deref yR in
  let! yRMinusYS := rewrap "baseot: Sender.Finalize subtract" (ECPoint_Add yR negYS) in
  let! key1 := deriveKey (s_sid s) (Z.of_nat i) 1 (Some yRMinusYS) in
  Ok (k0 ++ [key0], k1 ++ [key1], sys).

(** The two keys of every instance, and the sender without its secret. *)
Definition Sender_Finalize (s : option Sender) (msg : option ReceiverMsg1) (sys : reader)
  : res (list bytes * list bytes * Sender * reader) :=
  match s with
  | Some s =>
    guard (is_some (s_y s)) "baseot: Sender.Finalize already consumed or not initialized" ;!
    match msg with
    | Some msg =>
      guard (Z.of_nat (length (rmR msg)) =? s_n s) "baseot: Sender.Finalize expected %d receiver responses, got %d" ;!
      let! (yS, sys) := ScalarMult (s_S s) (s_y s) sys in
      let! yS := deref yS in
      let! negYS := negPoint yS in
      let! st := foldM (send_row s (rmR msg) negYS) ([], [], sys) (seq 0 (Z.to_nat (s_n s))) in
      let '(k0, k1, sys) := st in
      Ok (k0, k1, {| s_sid := s_sid s; s_n := s_n s; s_y := None; s_S := s_S s |}, sys)
    | None => Err "baseot: Sender.Finalize expected %d receiver responses, got %d"
    end
  | None => Err "baseot: Sender.Finalize already consumed or not initialized"
  end.

(** One turn of the receiver's last loop. *)
Definition key_row (r : Receiver) (xs : list (option Z)) (st : list bytes * reader) (i : nat) : res (list bytes * reader) :=
  let '(keys, sys) := st in
  let! byte := idx (r_bits r) (i / 8) in
  let c := bit_of byte (i mod 8) in
  let! x := idx xs i in
  let! (xS, sys) := ScalarMult (r_S r) x sys in
  let! key := deriveKey (r_sid r) (Z.of_nat i) c xS in
  Ok (keys ++ [key], sys).

Definition Receiver_Finalize (r : option Receiver) (sys : reader) : res (list bytes * Receiver * reader) :=
  match r with
  | Some r =>
    match r_x r with
    | Some xs =>
      let! st := foldM (key_row r xs) ([], sys) (seq 0 (Z.to_nat (r_n r))) in
      let '(keys, sys) := st in
      Ok (keys, {| r_sid := r_sid r; r_n := r_n r; r_bits := r_bits r; r_x := None; r_S := r_S r |}, sys)
    | None => Err "baseot: Receiver.Finalize already consumed or not initialized"
    end
  | None => Err "baseot: Receiver.Finalize already consumed or not initialized"
  end.

Definition Sender_N (s : Sender) : Z := s_n s.
Definition Receiver_N (r : Receiver) : Z := r_n r.
End Defs.

(** ** Correctness *)
Section Correct.
Context `{HS : Hash} `{CS : Curves} `{SL : Secp256k1Lib} `{EL : Ed25519Lib}.
Context {pt : Z -> Z * Z} {L : CurveLaws S256 pt false} {CT : CtCurve S256 pt false}.
(** The inverse of a point of a Weierstrass curve. *)
Hypothesis Hneg : forall a, pt (- a) = (fst (pt a), (- snd (pt a)) mod cP S256).
Abbreviation q := (cN S256).
Abbreviation pnt := (mkpt S256 pt).
Abbreviation on_k := (on_c S256 false).

Lemma negPoint_pt a : negPoint (pnt a) = Ok (pnt (- a)).
Proof.
  unfold negPoint, ECPoint_X, ECPoint_Y. cbn [curve coords mkpt NewECPointNoCurveCheck fst snd deref rbind].
  pose proof (cl_x (CurveLaws := L) a). rewrite Mod_ok by lia. cbn [rbind]. unfold mkpt. now rewrite Hneg.
Qed.

Lemma ctSelectPoint_pt (b : bool) i j : ctSelectPoint S256 b (pnt i) (pnt j) = Ok (pnt (if b then j else i)).
Proof.
  unfold ctSelectPoint, ECPoint_X, ECPoint_Y. cbn [curve coords mkpt NewECPointNoCurveCheck fst snd deref rbind]. cbv zeta.
  pose proof (cl_P (CurveLaws := L)) as HP. assert (E256 : 256 ^ Z.of_nat 32 = 2 ^ 256) by reflexivity.
  pose proof (cl_x (CurveLaws := L) i). pose proof (cl_x (CurveLaws := L) j).
  pose proof (cl_y (CurveLaws := L) i). pose proof (cl_y (CurveLaws := L) j).
  repeat (rewrite FillBytes_ok by (rewrite E256; lia); cbn [rbind]).
  replace (if b then 255 else 0) with (mask_of (Z.b2z b)) by now destruct b.
  rewrite ct_pick_bytes_ok by (apply be_bytes_length || apply be_bytes_byte). cbn [rbind].
  rewrite ct_pick_bytes_ok by (apply be_bytes_length || apply be_bytes_byte). cbn [rbind].
  destruct b; rewrite !SetBytes_be by (rewrite E256; lia); reflexivity.
Qed.

(** The key of an instance, a bit and a point. *)
Definition dkey (sid : bytes) (i : nat) (b k : Z) : bytes :=
  match deriveKey sid (Z.of_nat i) b (Some (pnt k)) with Ok key => key | _ => [] end.

Lemma deriveKey_pt sid i b k : deriveKey sid (Z.of_nat i) b (Some (pnt k)) = Ok (dkey sid i b k).
Proof.
  unfold dkey, deriveKey, ECPoint_X, ECPoint_Y. cbn [curve coords mkpt NewECPointNoCurveCheck fst snd deref rbind].
  unfold SHA512_256i_TAGGED. cbn [length Nat.eqb deref rbind]. now destruct (_ <=? _)%nat.
Qed.

Lemma dkey_cong sid i b k k' : cong q k k' -> dkey sid i b k = dkey sid i b k'.
Proof. intros H. unfold dkey. now rewrite (mkpt_cong (L := L) k k' H). Qed.

(** The response of an instance: [x G + c S]. *)
Definition resp (bits : bytes) (y : Z) (i : nat) (x : Z) : Z := x + (if bit_at bits i then y else 0).

Lemma NewSender_run sid n r s m r' : Forall is_byte r -> NewSender sid n r = Ok ((s, m), r') ->
  exists y pok, 1 <= y < q /\ 0 < n /\ s = {| s_sid := sid; s_n := n; s_y := Some y; s_S := Some (pnt y) |} /\
    m = {| smS := Some (pnt y); smPoK := Some pok |} /\ Forall is_byte r'.
Proof.
  intros Hr H. unfold NewSender in H. inv_res.
  destruct (Z.leb_spec n 0); [discriminate|].
  match goal with E : GetRandomPositiveInt _ _ = Ok (?x, _) |- _ => destruct x as [y|] end;
    [|unfold rewrap, NewZKProof, rlift in *; cbn [rbind] in *; discriminate].
  match goal with E : GetRandomPositiveInt _ _ = _ |- _ => apply GetRandomPositiveInt_range in E as [Ry Fr]; [|assumption] end.
  match goal with E : ScalarBaseMultWithRand _ _ _ = _ |- _ => apply ct_base in E as [-> Fb]; [|lia|assumption] end.
  match goal with E : rewrap _ (NewZKProof _ _ _ _) = _ |- _ => apply rewrap_ok in E;
    apply NewZKProof_run in E as (_ & _ & Fc & _); [|assumption|apply on_c_nonzero; rewrite Z.mod_small; lia] end.
  eauto 8.
Qed.

(** The receiver's loop, taken apart: a scalar per instance and its response. *)
Lemma recv_loop bits y n : forall k xs0 Rs0 rand sys xs1 Rs1 rand1 sys1,
  (k + n <= 8 * length bits)%nat -> Forall is_byte rand -> Forall is_byte sys ->
  foldM (recv_row bits (pnt y)) (xs0, Rs0, rand, sys) (seq k n) = Ok (xs1, Rs1, rand1, sys1) ->
  exists xs, length xs = n /\ xs1 = xs0 ++ map Some xs /\
    Rs1 = Rs0 ++ map (fun p => Some (pnt (resp bits y (fst p) (snd p)))) (combine (seq k n) xs) /\
    Forall (fun x => 1 <= x < q /\ on_k (x + y) = true) xs /\ Forall is_byte rand1 /\ Forall is_byte sys1.
Proof.
  induction n as [|n IH]; intros k xs0 Rs0 rand sys xs1 Rs1 rand1 sys1 Hk Fr Fs H; cbn [seq foldM] in H.
  - inv_res. exists []. rewrite !app_nil_r. auto 7.
  - apply rbind_ok in H as ([[[xs2 Rs2] rand2] sys2] & E & H). unfold recv_row in E.
    destruct (idx_bit bits k ltac:(lia)) as (b & Eb & Bb).
    apply rbind_ok in E as ([x rand'] & Ex & E). rewrite Eb in E. cbn [rbind] in E. cbv zeta in E.
    apply rbind_ok in E as ([Ra sys'] & Ea & E). apply rbind_ok in E as (Ra' & Ed & E). apply deref_ok in Ed. subst Ra.
    destruct x as [x|].
    2: { unfold ctmul_ScalarBaseMult, ScalarBaseMultWithRand in Ea.
         destruct (curve_eqb S256 Edwards); [discriminate Ea|]. rewrite curve_eqb_refl in Ea. discriminate Ea. }
    apply GetRandomPositiveInt_range in Ex as [Rx Fr']; [|assumption].
    apply ct_base in Ea as [Ea Fs']; [|lia|assumption]. injection Ea as ->.
    rewrite ECPoint_Add_pt in E. destruct (on_k (x + y)) eqn:Hon; [|discriminate E]. cbn [rewrap rbind] in E.
    rewrite ctSelectPoint_pt, Bb in E. cbn [rbind] in E. inv_res.
    destruct (IH (S k) _ _ _ _ _ _ _ _ ltac:(lia) Fr' Fs' H) as (xs & Lx & -> & -> & Fx & F1 & F2).
    exists (x :: xs). split; [cbn; lia|]. split; [now rewrite <- app_assoc|]. split; [|split; [now constructor|auto]].
    rewrite <- app_assoc. cbn [seq combine map app fst snd]. unfold resp.
    destruct (bit_at bits k); cbn [Z.b2z Z.eqb Pos.eqb]; [reflexivity|]. now rewrite Z.add_0_r.
Qed.

(** The sender's last loop. *)
Lemma send_loop s y R (e : nat -> Z) n : s_y s = Some y -> 0 <= y -> y mod q <> 0 ->
  forall k rest k0 k1 sys, Forall is_byte sys -> ct_healthy_n (n + rest) sys ->
  (forall i, (k <= i < k + n)%nat -> nth_error R i = Some (Some (pnt (e i))) /\ e i mod q <> 0 /\ (e i - y) mod q <> 0) ->
  exists sys', Forall is_byte sys' /\ ct_healthy_n rest sys' /\ foldM (send_row s R (pnt (- (y * y)))) (k0, k1, sys) (seq k n) =
    Ok (k0 ++ map (fun i => dkey (s_sid s) i 0 (y * e i)) (seq k n),
        k1 ++ map (fun i => dkey (s_sid s) i 1 (y * (e i - y))) (seq k n), sys').
Proof.
  intros Ey Hy0 Hy. pose proof (cl_prime (CurveLaws := L)) as Hp.
  induction n as [|n IH]; intros k rest k0 k1 sys Fs Hh HR; cbn [seq foldM map].
  - rewrite !app_nil_r. eauto.
  - destruct Hh as [Hh1 Hh2]. destruct (HR k ltac:(lia)) as (ER & Re & Re').
    unfold send_row at 1. unfold idx at 1. rewrite ER. cbn [rbind is_some]. rewrite mkpt_valid, on_c_nonzero by assumption.
    cbn [andb guard rbind deref curve mkpt NewECPointNoCurveCheck]. rewrite curve_eqb_refl. cbn [guard rbind].
    rewrite Ey. unfold ScalarMult. fold (NewECPointNoCurveCheck S256 (fst (pt (e k))) (snd (pt (e k)))). fold (pnt (e k)).
    rewrite ct_mult_total by (try apply on_c_nonzero, (mul_mod_nz q Hp); assumption). cbn [rbind].
    rewrite deriveKey_pt. cbn [rbind deref]. rewrite ECPoint_Add_pt.
    assert (Hc : y * e k + - (y * y) = y * (e k - y)) by ring. rewrite Hc, on_c_nonzero by now apply (mul_mod_nz q Hp).
    cbn [rewrap rbind]. rewrite deriveKey_pt. cbn [rbind].
    destruct (IH (S k) rest (k0 ++ [dkey (s_sid s) k 0 (y * e k)]) (k1 ++ [dkey (s_sid s) k 1 (y * (e k - y))]) (ct_rest sys))
      as (sys' & Fs' & Hh' & E); [now apply ct_rest_byte|assumption|intros i Hi; apply HR; lia|].
    exists sys'. do 2 (split; [assumption|]). etransitivity; [exact E|]. now rewrite <- !app_assoc.
Qed.

(** The receiver's last loop. *)
Lemma key_loop r y xs n : r_S r = Some (pnt y) -> y mod q <> 0 -> (n <= length xs)%nat -> (n <= 8 * length (r_bits r))%nat ->
  Forall (fun x => 1 <= x < q) xs -> forall m k rest keys sys, (k + m = n)%nat -> Forall is_byte sys -> ct_healthy_n (m + rest) sys ->
  exists sys', Forall is_byte sys' /\ ct_healthy_n rest sys' /\ foldM (key_row r (map Some xs)) (keys, sys) (seq k m) =
    Ok (keys ++ map (fun i => dkey (r_sid r) i (Z.b2z (bit_at (r_bits r) i)) (nth i xs 0 * y)) (seq k m), sys').
Proof.
  intros ES Hy Hl Hb Fx. pose proof (cl_prime (CurveLaws := L)) as Hp.
  induction m as [|m IH]; intros k rest keys sys Hk Fs Hh; cbn [seq foldM map].
  - rewrite app_nil_r. eauto.
  - destruct Hh as [Hh1 Hh2]. unfold key_row at 1.
    destruct (idx_bit (r_bits r) k ltac:(lia)) as (b & Eb & Bb). rewrite Eb. cbn [rbind]. cbv zeta.
    unfold idx at 1. rewrite (map_nth_error Some _ _ (nth_error_nth_lt xs k 0 ltac:(lia))). cbn [rbind].
    rewrite ES. unfold ScalarMult.
    assert (Rx : 1 <= nth k xs 0 < q) by (rewrite Forall_forall in Fx; apply Fx, nth_In; lia).
    assert (Hx : nth k xs 0 mod q <> 0) by (rewrite Z.mod_small; lia).
    rewrite ct_mult_total by (try apply on_c_nonzero, (mul_mod_nz q Hp); lia || assumption). cbn [rbind].
    rewrite Bb, deriveKey_pt. cbn [rbind].
    destruct (IH (S k) rest (keys ++ [dkey (r_sid r) k (Z.b2z (bit_at (r_bits r) k)) (nth k xs 0 * y)]) (ct_rest sys))
      as (sys' & Fs' & Hh' & E); [lia|now apply ct_rest_byte|assumption|].
    exists sys'. do 2 (split; [assumption|]). etransitivity; [exact E|]. now rewrite <- app_assoc.
Qed.

(** The same loops, taken apart from a run that succeeded. *)
Lemma send_loop_inv s y R (e : nat -> Z) n : s_y s = Some y -> 0 <= y ->
  forall k k0 k1 sys k0' k1' sys', Forall is_byte sys ->
  (forall i, (k <= i < k + n)%nat -> nth_error R i = Some (Some (pnt (e i))) /\ e i mod q <> 0) ->
  foldM (send_row s R (pnt (- (y * y)))) (k0, k1, sys) (seq k n) = Ok (k0', k1', sys') ->
  k0' = k0 ++ map (fun i => dkey (s_sid s) i 0 (y * e i)) (seq k n) /\
  k1' = k1 ++ map (fun i => dkey (s_sid s) i 1 (y * (e i - y))) (seq k n) /\ Forall is_byte sys'.
Proof.
  intros Ey Hy0. induction n as [|n IH]; intros k k0 k1 sys k0' k1' sys' Fs HR H; cbn [seq foldM map] in *.
  - inv_res. now rewrite !app_nil_r.
  - destruct (HR k ltac:(lia)) as (ER & Re). apply rbind_ok in H as ([[k0a k1a] sysa] & E & H).
    unfold send_row in E. unfold idx in E. rewrite ER in E. cbn [rbind is_some] in E.
    rewrite mkpt_valid, on_c_nonzero in E by assumption. cbn [andb guard rbind deref] in E.
    replace (curve_eqb (curve (pnt (e k))) S256) with true in E by (symmetry; apply curve_eqb_refl). cbn [guard rbind] in E.
    rewrite Ey in E. unfold ScalarMult in E. apply rbind_ok in E as ([yR sysb] & Em & E).
    apply ct_mult in Em as [-> Fb]; [|assumption|lia|assumption].
    rewrite deriveKey_pt in E. cbn [rbind deref] in E. rewrite ECPoint_Add_pt in E.
    assert (Hc : y * e k + - (y * y) = y * (e k - y)) by ring. rewrite Hc in E.
    destruct on_c; [|discriminate E]. cbn [rewrap rbind] in E. rewrite deriveKey_pt in E. cbn [rbind] in E. inv_res.
    destruct (IH (S k) _ _ _ _ _ _ Fb ltac:(intros i Hi; apply HR; lia) H) as (-> & -> & F).
    now rewrite <- !app_assoc.
Qed.

Lemma key_loop_inv r y xs n : r_S r = Some (pnt y) -> y mod q <> 0 -> (n <= length xs)%nat -> (n <= 8 * length (r_bits r))%nat ->
  Forall (fun x => 1 <= x < q) xs -> forall m k keys sys keys' sys', (k + m = n)%nat -> Forall is_byte sys ->
  foldM (key_row r (map Some xs)) (keys, sys) (seq k m) = Ok (keys', sys') ->
  keys' = keys ++ map (fun i => dkey (r_sid r) i (Z.b2z (bit_at (r_bits r) i)) (nth i xs 0 * y)) (seq k m) /\ Forall is_byte sys'.
Proof.
  intros ES Hy Hl Hb Fx. induction m as [|m IH]; intros k keys sys keys' sys' Hk Fs H; cbn [seq foldM map] in *.
  - inv_res. now rewrite app_nil_r.
  - apply rbind_ok in H as ([keysa sysa] & E & H). unfold key_row in E.
    destruct (idx_bit (r_bits r) k ltac:(lia)) as (b & Eb & Bb). rewrite Eb in E. cbn [rbind] in E. cbv zeta in E.
    unfold idx in E. rewrite (map_nth_error Some _ _ (nth_error_nth_lt xs k 0 ltac:(lia))) in E. cbn [rbind] in E.
    rewrite ES in E. unfold ScalarMult in E. apply rbind_ok in E as ([xS sysb] & Em & E).
    assert (Rx : 1 <= nth k xs 0 < q) by (rewrite Forall_forall in Fx; apply Fx, nth_In; lia).
    apply ct_mult in Em as [-> Fb]; [|assumption|lia|assumption].
    rewrite Bb, deriveKey_pt in E. cbn [rbind] in E. inv_res.
    destruct (IH (S k) _ _ _ _ ltac:(lia) Fb H) as (-> & F). now rewrite <- app_assoc.
Qed.

(** The first two moves: the states and the messages in terms of the scalars. *)
Lemma first_moves sid n bits rand s m1 rand1 randR sysR r rm randR1 sysR1 :
  Forall is_byte rand -> Forall is_byte randR -> Forall is_byte sysR ->
  NewSender sid n rand = Ok ((s, m1), rand1) ->
  NewReceiver sid n bits (Some m1) randR sysR = Ok (r, rm, randR1, sysR1) ->
  exists y xs, 1 <= y < q /\ length xs = Z.to_nat n /\ 0 < n /\ n <= 8 * Z.of_nat (length bits) /\
    s = {| s_sid := sid; s_n := n; s_y := Some y; s_S := Some (pnt y) |} /\
    r = {| r_sid := sid; r_n := n; r_bits := bits; r_x := Some (map Some xs); r_S := Some (pnt y) |} /\
    rm = {| rmR := map (fun i => Some (pnt (resp bits y i (nth i xs 0)))) (seq 0 (Z.to_nat n)) |} /\
    Forall (fun x => 1 <= x < q /\ on_k (x + y) = true) xs /\
    Forall is_byte rand1 /\ Forall is_byte randR1 /\ Forall is_byte sysR1.
Proof.
  intros Fr FR FS HS' HRv. destruct (NewSender_run _ _ _ _ _ _ Fr HS') as (y & pok & Ry & Hn & -> & -> & Frd).
  unfold NewReceiver in HRv. apply rbind_ok in HRv as ([] & _ & HRv). apply rbind_ok in HRv as ([] & Hb & HRv).
  apply guard_ok in Hb. apply negb_true_iff, Z.ltb_ge in Hb. cbn [smS smPoK] in HRv.
  apply rbind_ok in HRv as ([] & _ & HRv). apply rbind_ok in HRv as ([] & _ & HRv).
  apply rbind_ok in HRv as (ok & _ & HRv). apply rbind_ok in HRv as ([] & _ & HRv).
  apply rbind_ok in HRv as ([[[xs1 Rs1] rd] sy] & E & HRv). inv_res.
  destruct (recv_loop bits y (Z.to_nat n) 0 [] [] randR sysR xs1 Rs1 randR1 sysR1 ltac:(lia) FR FS E)
    as (xs & Lx & -> & -> & Fx & F1 & F2). exists y, xs. rewrite !app_nil_l. repeat (split; [assumption || lia || reflexivity|]).
  split; [|auto]. f_equal. rewrite <- Lx, (combine_seq xs 0), map_map. reflexivity.
Qed.

(** The keys of the two sides, from the scalars. *)
Lemma keys_agree sid bits y xs i : (i < length xs)%nat ->
  dkey sid i (Z.b2z (bit_at bits i)) (nth i xs 0 * y) =
  if bit_at bits i then dkey sid i 1 (y * (resp bits y i (nth i xs 0) - y)) else dkey sid i 0 (y * resp bits y i (nth i xs 0)).
Proof. intros Hi. unfold resp. destruct (bit_at bits i); cbn [Z.b2z]; f_equal; ring. Qed.

(** The negated square of the sender's secret, [-y S]. *)
Lemma neg_yS y sys yS sys1 : 1 <= y < q -> Forall is_byte sys -> ScalarMult (Some (pnt y)) (Some y) sys = Ok (yS, sys1) ->
  yS = Some (pnt (y * y)) /\ Forall is_byte sys1.
Proof. intros Ry Fs E. apply ct_mult in E; [assumption| |lia|assumption]. rewrite Z.mod_small; lia. Qed.

Lemma resp_facts y xs bits i : 1 <= y < q -> Forall (fun x => 1 <= x < q /\ on_k (x + y) = true) xs -> (i < length xs)%nat ->
  resp bits y i (nth i xs 0) mod q <> 0 /\
  (nth i xs 0 <> y -> (resp bits y i (nth i xs 0) - y) mod q <> 0).
Proof.
  intros Ry Fx Hi. rewrite Forall_forall in Fx. destruct (Fx (nth i xs 0) (nth_In _ _ Hi)) as [Rx Ho]. unfold resp.
  unfold on_c in Ho. cbn [orb] in Ho. apply negb_true_iff, Z.eqb_neq in Ho.
  assert (Hx : nth i xs 0 mod q <> 0) by (rewrite Z.mod_small; lia).
  destruct (bit_at bits i).
  - split; [assumption|]. intros _. now replace (nth i xs 0 + y - y) with (nth i xs 0) by ring.
  - rewrite Z.add_0_r. split; [assumption|]. intros Hne E. apply Hne. apply (cong_small q); [lia|lia|].
    unfold cong. apply Z.mod_divide; [lia|assumption].
Qed.

(** A batch that ran to its end: the two sides agree and their secrets are gone. *)
Lemma run_agree sid n bits rand s m1 rand1 randR sysR r rm randR1 sysR1 sysS k0 k1 s' sysS1 sysF keys r' sysF1 :
  Forall is_byte rand -> Forall is_byte randR -> Forall is_byte sysR -> Forall is_byte sysS -> (Forall is_byte sysS1 -> Forall is_byte sysF) ->
  NewSender sid n rand = Ok ((s, m1), rand1) ->
  NewReceiver sid n bits (Some m1) randR sysR = Ok (r, rm, randR1, sysR1) ->
  Sender_Finalize (Some s) (Some rm) sysS = Ok (k0, k1, s', sysS1) ->
  Receiver_Finalize (Some r) sysF = Ok (keys, r', sysF1) ->
  (s_y s' = None /\ r_x r' = None /\ length k0 = Z.to_nat n /\ length k1 = Z.to_nat n /\ length keys = Z.to_nat n /\
  forall i, (i < Z.to_nat n)%nat -> nth i keys [] = if bit_at bits i then nth i k1 [] else nth i k0 []) /\
  Forall is_byte sysS1 /\ Forall is_byte sysF1.
Proof.
  intros Fr FR FSR FSS FSF E1 E2 E3 E4.
  destruct (first_moves _ _ _ _ _ _ _ _ _ _ _ _ _ Fr FR FSR E1 E2) as (y & xs & Ry & Lx & Hn & Hb & -> & -> & -> & Fx & _).
  unfold Sender_Finalize in E3. cbn [s_y s_n s_S s_sid is_some guard rbind rmR] in E3.
  apply rbind_ok in E3 as ([] & _ & E3). apply rbind_ok in E3 as ([yS sysa] & Em & E3).
  apply (neg_yS y) in Em as [-> Fa]; [|assumption|assumption]. cbn [deref rbind] in E3. rewrite negPoint_pt in E3. cbn [rbind] in E3.
  apply rbind_ok in E3 as ([[k0' k1'] sysb] & Es & E3).
  apply (send_loop_inv _ y _ (fun i => resp bits y i (nth i xs 0))) in Es as (-> & -> & Fb);
    [|reflexivity|lia|assumption|].
  2: { intros i Hi. split; [|now apply resp_facts; [..|lia]].
       apply (map_nth_error (fun i => Some (pnt (resp bits y i (nth i xs 0))))), nth_error_seq_0. lia. }
  inv_res. specialize (FSF Fb). unfold Receiver_Finalize in E4. cbn [r_x r_n] in E4. apply rbind_ok in E4 as ([keys' sysc] & Ek & E4).
  apply (key_loop_inv _ y xs (Z.to_nat n)) in Ek as (-> & Fc); [|reflexivity|rewrite Z.mod_small; lia|lia|cbn [r_bits]; lia| |lia|assumption].
  2: { eapply Forall_impl; [|exact Fx]. now intros x [Hx _]. }
  inv_res. cbn [s_y r_x s_sid r_sid r_bits app]. rewrite !length_map, !length_seq. split; [|auto]. repeat (split; [reflexivity|]).
  intros i Hi. rewrite !nth_map_seq by assumption. rewrite keys_agree by lia. reflexivity.
Qed.

(** ** First moves that succeed *)
(** [n] scalars read in turn. *)
Fixpoint draw_n (n : nat) (r : reader) : res (list Z * reader) :=
  match n with
  | O => Ok ([], r)
  | S n =>
    let! (x, r) := GetRandomPositiveInt (Some q) r in
    let! x := deref x in
    let! (xs, r) := draw_n n r in
    Ok (x :: xs, r)
  end.

Lemma recv_total bits y n : forall k rest xs0 Rs0 (rand sys : reader) xs rand1,
  (k + n <= 8 * length bits)%nat -> Forall is_byte rand -> Forall is_byte sys -> ct_healthy_n (n + rest) sys ->
  draw_n n rand = Ok (xs, rand1) -> Forall (fun x => on_k (x + y) = true) xs ->
  exists Rs1 sys1, ct_healthy_n rest sys1 /\
    foldM (recv_row bits (pnt y)) (xs0, Rs0, rand, sys) (seq k n) = Ok (xs0 ++ map Some xs, Rs1, rand1, sys1).
Proof.
  induction n as [|n IH]; intros k rest xs0 Rs0 rand sys xs rand1 Hk Fr Fs Hh Hd Fx; cbn [seq foldM draw_n] in *.
  - injection Hd as <- <-. rewrite app_nil_r. eauto.
  - destruct Hh as [Hh1 Hh2]. apply rbind_ok in Hd as ([x r1] & Ex & Hd). apply rbind_ok in Hd as (x' & Ed & Hd).
    apply deref_ok in Ed. subst x. apply rbind_ok in Hd as ([xs' r2] & Hd & E). injection E as <- <-.
    pose proof (Forall_inv Fx) as Hx. apply Forall_inv_tail in Fx. cbv beta in Hx.
    destruct (GetRandomPositiveInt_range _ _ _ _ Fr Ex) as [Rx F1].
    unfold recv_row at 1. rewrite Ex. cbn [rbind]. destruct (idx_bit bits k ltac:(lia)) as (b & Eb & Bb). rewrite Eb.
    cbn [rbind]. cbv zeta. unfold ctmul_ScalarBaseMult. rewrite ct_base_total by (assumption || lia). cbn [rbind deref].
    rewrite ECPoint_Add_pt, Hx. cbn [rewrap rbind]. rewrite ctSelectPoint_pt. cbn [rbind].
    edestruct (IH (S k) rest (xs0 ++ [Some x'])) as (Rs1 & sys1 & Hr & E);
      [lia|exact F1|apply ct_rest_byte; exact Fs|exact Hh2|exact Hd|exact Fx|].
    exists Rs1, sys1. split; [exact Hr|]. etransitivity; [exact E|]. now rewrite <- app_assoc.
Qed.

(** The sender's move succeeds when its two draws do. *)
Lemma NewSender_total sid n r y r1 a r2 : sid <> [] -> 0 < n -> Forall is_byte r ->
  GetRandomPositiveInt (Some q) r = Ok (Some y, r1) -> ct_healthy r1 ->
  GetRandomPositiveInt (Some q) (ct_rest r1) = Ok (Some a, r2) -> ct_healthy r2 ->
  NewSender sid n r = Ok (({| s_sid := sid; s_n := n; s_y := Some y; s_S := Some (pnt y) |},
    {| smS := Some (pnt y); smPoK := Some {| Alpha := Some (pnt a); T := Some ((chal (C := S256) (pt := pt) (pokSession sid) [y; 1; a] * y + a) mod q) |} |}),
    ct_rest r2).
Proof.
  intros Hsid Hn Hr E1 H1 E2 H2. destruct (GetRandomPositiveInt_range _ _ _ _ Hr E1) as [Ry F1].
  unfold NewSender, rnd_bind, rlift, rret. rewrite (proj2 (Z.leb_gt _ _)) by lia.
  replace (length sid =? 0)%nat with false by (destruct sid; [contradiction|reflexivity]).
  cbn [negb guard rbind fst snd]. rewrite E1. cbn [rbind fst snd].
  rewrite ct_base_total by (assumption || lia). cbn [rbind fst snd].
  rewrite (NewZKProof_total (L := L) (CT := CT) (pokSession sid) y y (ct_rest r1) a r2);
    [reflexivity|now apply ct_rest_byte|apply on_c_nonzero; rewrite Z.mod_small; lia|assumption|assumption].
Qed.

(** The receiver's move succeeds on it, for scalars whose responses are points. *)
Lemma NewReceiver_total sid n bits y a (rand sys : reader) xs rand1 rest : 1 <= y < q -> 0 < n -> n <= 8 * Z.of_nat (length bits) ->
  1 <= a < q -> Forall is_byte rand -> Forall is_byte sys -> ct_healthy_n (Z.to_nat n + rest) sys ->
  draw_n (Z.to_nat n) rand = Ok (xs, rand1) -> Forall (fun x => on_k (x + y) = true) xs ->
  let c := chal (C := S256) (pt := pt) (pokSession sid) [y; 1; a] in
  on_k (c * y + a) = true -> on_k (c * y) = true ->
  exists r rm sys1, ct_healthy_n rest sys1 /\ r_x r = Some (map Some xs) /\ NewReceiver sid n bits (Some {| smS := Some (pnt y);
    smPoK := Some {| Alpha := Some (pnt a); T := Some ((c * y + a) mod q) |} |}) rand sys = Ok (r, rm, rand1, sys1).
Proof.
  intros Ry Hn Hb Ra Fr Fs Hh Hd Fx c H1 H2. unfold NewReceiver.
  rewrite (proj2 (Z.leb_gt _ _)), (proj2 (Z.ltb_ge _ _)) by lia. cbn [negb guard rbind].
  rewrite mkpt_valid, on_c_nonzero by (rewrite Z.mod_small; lia). cbn [guard rbind curve mkpt NewECPointNoCurveCheck].
  rewrite curve_eqb_refl. cbn [guard rbind]. fold (NewECPointNoCurveCheck S256 (fst (pt y)) (snd (pt y))). fold (pnt y).
  assert (Ec : cong q ((c * y + a) mod q) (c * y + a)) by apply cong_mod.
  rewrite ZKProof_Verify_run; [|apply Z.mod_pos_bound; lia|apply on_c_nonzero; rewrite Z.mod_small; lia|apply on_c_nonzero; rewrite Z.mod_small; lia].
  fold c. rewrite (on_c_cong _ _ Ec), H1, H2, (Z.add_comm a), H1.
  replace ((c * y + a - (c * y + a) mod q) mod q =? 0) with true.
  2: { symmetry. apply Z.eqb_eq, Z.mod_divide; [lia|]. change (cong q (c * y + a) ((c * y + a) mod q)). now rewrite cong_mod. }
  cbn [rbind guard].
  destruct (recv_total bits y (Z.to_nat n) 0 rest [] [] rand sys xs rand1 ltac:(lia) Fr Fs Hh Hd Fx)
    as (Rs1 & sys1 & Hr & E).
  match goal with |- context [recv_row bits ?P] => change P with (pnt y) end. rewrite E. cbn [rbind app].
  do 3 eexists. split; [exact Hr|]. split; [|reflexivity]. reflexivity.
Qed.

(** Both [Finalize] calls succeed on the states of [first_moves]. *)
Lemma finalize_sender sid n bits y xs sys rest : 1 <= y < q -> 0 < n -> length xs = Z.to_nat n -> Forall is_byte sys ->
  ct_healthy_n (S (Z.to_nat n) + rest) sys -> Forall (fun x => 1 <= x < q /\ on_k (x + y) = true) xs -> ~ In y xs ->
  exists k0 k1 s' sys', Forall is_byte sys' /\ ct_healthy_n rest sys' /\
    Sender_Finalize (Some {| s_sid := sid; s_n := n; s_y := Some y; s_S := Some (pnt y) |})
      (Some {| rmR := map (fun i => Some (pnt (resp bits y i (nth i xs 0)))) (seq 0 (Z.to_nat n)) |}) sys = Ok (k0, k1, s', sys').
Proof.
  intros Ry Hn Lx FS [Hh1 Hh2] Fx Hdiff. assert (Hy : y mod q <> 0) by (rewrite Z.mod_small; lia).
  unfold Sender_Finalize. cbn [s_y s_n s_S s_sid is_some guard rbind rmR].
  rewrite length_map, length_seq, Z2Nat.id, Z.eqb_refl by lia. cbn [guard rbind]. unfold ScalarMult.
  rewrite ct_mult_total by (try apply on_c_nonzero, (mul_mod_nz q (cl_prime (CurveLaws := L))); lia || assumption).
  cbn [rbind deref]. rewrite negPoint_pt. cbn [rbind].
  edestruct (send_loop {| s_sid := sid; s_n := n; s_y := Some y; s_S := Some (pnt y) |} y
    (map (fun i => Some (pnt (resp bits y i (nth i xs 0)))) (seq 0 (Z.to_nat n))) (fun i => resp bits y i (nth i xs 0))
    (Z.to_nat n)) as (sys' & Fs' & Hh' & ->); [reflexivity|lia|assumption|apply ct_rest_byte; assumption|exact Hh2| |].
  - intros i Hi. split; [apply (map_nth_error (fun i => Some (pnt (resp bits y i (nth i xs 0))))), nth_error_seq_0; lia|].
    destruct (resp_facts y xs bits i Ry Fx ltac:(lia)) as [H1 H2]. split; [assumption|]. apply H2. intros E.
    apply Hdiff. rewrite <- E. apply nth_In. lia.
  - cbn [rbind]. do 4 eexists. split; [exact Fs'|]. split; [exact Hh'|]. reflexivity.
Qed.

Lemma finalize_receiver sid n bits y xs sys rest : 1 <= y < q -> length xs = Z.to_nat n -> n <= 8 * Z.of_nat (length bits) ->
  Forall is_byte sys -> ct_healthy_n (Z.to_nat n + rest) sys -> Forall (fun x => 1 <= x < q /\ on_k (x + y) = true) xs ->
  exists keys r' sys', Forall is_byte sys' /\ ct_healthy_n rest sys' /\
    Receiver_Finalize (Some {| r_sid := sid; r_n := n; r_bits := bits; r_x := Some (map Some xs); r_S := Some (pnt y) |}) sys =
      Ok (keys, r', sys').
Proof.
  intros Ry Lx Hb FS Hh Fx. unfold Receiver_Finalize. cbn [r_x r_n].
  edestruct (key_loop {| r_sid := sid; r_n := n; r_bits := bits; r_x := Some (map Some xs); r_S := Some (pnt y) |} y xs
    (Z.to_nat n)) as (sys' & Fs' & Hh' & ->); [reflexivity|rewrite Z.mod_small; lia|lia|cbn [r_bits]; lia| |lia|assumption|exact Hh|].
  - eapply Forall_impl; [|exact Fx]. now intros x [Hx _].
  - cbn [rbind]. eauto 8.
Qed.

(** C16. Correctness of a batch of base transfers.  After the first move of each side
    has succeeded, for system readers that serve the blinded multiplications and
    unless a scalar of the receiver equals the sender's secret, both [Finalize]
    calls succeed, consume their secret, and the receiver's key of every instance
    is the sender's key for the receiver's choice bit. *)
Theorem BaseOT_correct sid n bits rand s m1 rand1 randR sysR r rm randR1 sysR1 sysS sysF :
  Forall is_byte rand -> Forall is_byte randR -> Forall is_byte sysR -> Forall is_byte sysS -> Forall is_byte sysF ->
  NewSender sid n rand = Ok ((s, m1), rand1) ->
  NewReceiver sid n bits (Some m1) randR sysR = Ok (r, rm, randR1, sysR1) ->
  ct_healthy_n (S (Z.to_nat n)) sysS -> ct_healthy_n (Z.to_nat n) sysF ->
  (forall xs, r_x r = Some xs -> ~ In (s_y s) xs) ->
  exists k0 k1 s' sysS1 keys r' sysF1,
    Sender_Finalize (Some s) (Some rm) sysS = Ok (k0, k1, s', sysS1) /\
    Receiver_Finalize (Some r) sysF = Ok (keys, r', sysF1) /\
    s_y s' = None /\ r_x r' = None /\ length k0 = Z.to_nat n /\ length k1 = Z.to_nat n /\ length keys = Z.to_nat n /\
    forall i, (i < Z.to_nat n)%nat -> nth i keys [] = if bit_at bits i then nth i k1 [] else nth i k0 [].
Proof.
  intros Fr FR FSR FSS FSF E1 E2 Hh Hf Hdiff. pose proof E1 as E1'. pose proof E2 as E2'.
  destruct (first_moves _ _ _ _ _ _ _ _ _ _ _ _ _ Fr FR FSR E1 E2) as (y & xs & Ry & Lx & Hn & Hb & -> & -> & -> & Fx & _).
  rewrite <- (Nat.add_0_r (S _)) in Hh. rewrite <- (Nat.add_0_r (Z.to_nat n)) in Hf.
  edestruct (finalize_sender sid n bits y xs sysS 0 Ry Hn Lx FSS Hh Fx) as (k0 & k1 & s' & sysS1 & _ & _ & E3).
  { intros Hin. apply (Hdiff (map Some xs) eq_refl). cbn [s_y]. now apply (in_map Some). }
  edestruct (finalize_receiver sid n bits y xs sysF 0 Ry Lx Hb FSF Hf Fx) as (keys & r' & sysF1 & _ & _ & E4).
  exists k0, k1, s', sysS1, keys, r', sysF1. split; [exact E3|]. split; [exact E4|].
  exact (proj1 (run_agree _ _ _ _ _ _ _ _ _ _ _ _ _ _ _ _ _ _ _ _ _ _ Fr FR FSR FSS (fun _ => FSF) E1' E2' E3 E4)).
Qed.
End Correct.

(** ** Evaluation on concrete inputs *)
Lemma toy_neg a : toy256_pt (- a) = (fst (toy256_pt a), (- snd (toy256_pt a)) mod 43).
Proof.
  assert (H : forall k, 0 <= k < 31 -> pair_eqb (toy256_pt (- k)) (fst (toy256_pt k), (- snd (toy256_pt k)) mod 43) = true).
  { intros k Hk. apply (forall_below (fun k => pair_eqb (toy256_pt (- k)) (fst (toy256_pt k), (- snd (toy256_pt k)) mod 43)) 31);
      [vm_compute; reflexivity|lia]. }
  assert (E : toy256_pt (a mod 31) = toy256_pt a) by exact (pt_mod (L := toy256_laws) a).
  transitivity (toy256_pt (- (a mod 31))).
  - apply (pt_cong (L := toy256_laws)). change (cN toy256) with 31. now rewrite cong_mod.
  - now rewrite (pair_eqb_eq _ _ (H (a mod 31) (Z.mod_pos_bound a 31 eq_refl))), E.
Qed.

(** The value of a call that succeeds, and the default otherwise. *)
Definition get_ok {A} (c : res A) (d : A) : A := match c with Ok a => a | _ => d end.
Lemma get_ok_eq {A} (c : res A) d : is_ok c = true -> c = Ok (get_ok c d).
Proof. now destruct c. Qed.

Definition w_bo_sender : Sender * SenderMsg1 * reader :=
  get_ok (@NewSender toy_hash toy_curves toy_secp toy_ed [7] 2 (9 :: repeat 1 40 ++ 5 :: repeat 1 40))
    ({| s_sid := []; s_n := 0; s_y := None; s_S := None |}, {| smS := None; smPoK := None |}, []).
Definition w_bo_receiver : Receiver * ReceiverMsg1 * reader * reader :=
  get_ok (@NewReceiver toy_hash toy_curves toy_secp toy_ed [7] 2 [1] (Some (snd (fst w_bo_sender))) [3; 4] (repeat 1 80))
    ({| r_sid := []; r_n := 0; r_bits := []; r_x := None; r_S := None |}, {| rmR := [] |}, [], []).

Lemma BaseOT_correct_witness : exists k0 k1 s' sysS1 keys r' sysF1,
  @Sender_Finalize toy_hash toy_curves toy_secp (Some (fst (fst w_bo_sender)))
    (Some (snd (fst (fst w_bo_receiver)))) (repeat 1 120) = Ok (k0, k1, s', sysS1) /\
  @Receiver_Finalize toy_hash toy_curves toy_secp (Some (fst (fst (fst w_bo_receiver)))) (repeat 1 80) = Ok (keys, r', sysF1) /\
  s_y s' = None /\ r_x r' = None /\ length k0 = 2%nat /\ length k1 = 2%nat /\ length keys = 2%nat /\
  forall i, (i < 2)%nat -> nth i keys [] = if bit_at [1] i then nth i k1 [] else nth i k0 [].
Proof.
  apply (@BaseOT_correct toy_hash toy_curves toy_secp toy_ed toy256_pt toy256_laws toy256_ct toy_neg [7] 2 [1]
    (9 :: repeat 1 40 ++ 5 :: repeat 1 40) (fst (fst w_bo_sender)) (snd (fst w_bo_sender)) (snd w_bo_sender)
    [3; 4] (repeat 1 80) (fst (fst (fst w_bo_receiver))) (snd (fst (fst w_bo_receiver))) (snd (fst w_bo_receiver))
    (snd w_bo_receiver) (repeat 1 120) (repeat 1 80)).
  - constructor; [unfold is_byte; lia|]. apply Forall_app. split; [apply ones_byte|].
    constructor; [unfold is_byte; lia|apply ones_byte].
  - repeat constructor; unfold is_byte; lia.
  - apply ones_byte.
  - apply ones_byte.
  - apply ones_byte.
  - rewrite <- !surjective_pairing. apply get_ok_eq. vm_compute. reflexivity.
  - rewrite <- !surjective_pairing. apply get_ok_eq. vm_compute. reflexivity.
  - apply toy_healthy_n. lia.
  - apply toy_healthy_n. lia.
  - intros xs Hxs. assert (E : r_x (fst (fst (fst w_bo_receiver))) = Some [Some 3; Some 4]) by (vm_compute; reflexivity).
    rewrite E in Hxs. injection Hxs as <-.
    assert (Ey : s_y (fst (fst w_bo_sender)) = Some 9) by (vm_compute; reflexivity). rewrite Ey.
    intros [H|[H|[]]]; discriminate H.
Defined.
