(* ===== verification/Ole.v ===== *)
(** * Package [crypto/ot/ole]

    Oblivious linear evaluation over the scalar field of secp256k1, the
    multiplication of the two-party signing protocol: [mul.go] and its checked
    variant [mulcheck.go], on top of the transfer extension of [OtExt].  Alice holds
    [alpha], Bob [beta]; their outputs add up to [alpha * beta] modulo the order. *)
From Stdlib Require Import ZArith String List Lia Bool Arith.
From S2P Require Import Prelude GoBig Common Curve Field Bits OtExt OtExtCorrect.
Import ListNotations.
Open Scope string_scope.
Open Scope Z_scope.
Open Scope list_scope.

Section Defs.
Context `{HS : Hash} `{AE : Aes} `{CS : Curves}.

(** ** mul.go *)
Definition ScalarBits : nat := 256.

Record BobMsg := { Corrections : list (option Z) }.
Record AliceState := { as_sid : bytes; as_alpha : Z; as_keys : list bytes }.

(** [byte(v.Bit(i)) << (uint(i) & 7)] is or-ed into byte [i/8], for every bit. *)
Definition bitsLE (v : Z) : res bytes :=
  foldM (fun out i =>
    set_at out (i / 8) (fun x => Ok (Z.lor x (Z.shiftl (Bit v (Z.of_nat i)) (Z.of_nat (i mod 8)) mod 256))))
    (repeat 0 (ScalarBits / 8)) (seq 0 ScalarBits).

Definition AliceStep1 (sid : bytes) (extReceiver : option ExtReceiver) (alpha : option Z)
  : res (ExtendMsg1 * AliceState) :=
  match extReceiver with
  | None => Err "ole: AliceStep1 nil ExtReceiver"
  | Some extReceiver =>
    match alpha with
    | None => Err "ole: AliceStep1 nil alpha"
    | Some alpha =>
      let! a := Mod alpha (cN S256) in
      let! choice := bitsLE a in
      let! p := rewrap "ole: AliceStep1 OT extension" (ExtReceiver_Extend extReceiver sid choice (Z.of_nat ScalarBits)) in
      let '(extMsg, keys) := p in
      guard (length keys =? ScalarBits)%nat "ole: AliceStep1 unexpected key count %d (want %d)" ;!
      Ok (extMsg, {| as_sid := sid; as_alpha := a; as_keys := keys |})
    end
  end.

(** One turn of Bob's loop: the correction of row [i], the running share and [2^i]. *)
Definition bob_row (q b : Z) (m0 m1 : list bytes) (s : list (option Z) * Z * Z) (i : nat)
  : res (list (option Z) * Z * Z) :=
  let '(corrections, uB, twoToI) := s in
  let! k0 := idx m0 i in
  let! m0i := Mod (SetBytes k0) q in
  let! k1 := idx m1 i in
  let! m1i := Mod (SetBytes k1) q in
  let! contrib := Mod (b * twoToI) q in
  let! ci := Mod (m0i - m1i + contrib) q in
  Ok (corrections ++ [Some ci], uB - m0i, Z.shiftl twoToI 1).

Definition BobStep1 (sid : bytes) (extSender : option ExtSender) (beta : option Z) (aliceMsg : option ExtendMsg1)
  : res (BobMsg * Z) :=
  match extSender with
  | None => Err "ole: BobStep1 nil ExtSender"
  | Some extSender =>
    match beta with
    | None => Err "ole: BobStep1 nil beta"
    | Some beta =>
      match aliceMsg with
      | None => Err "ole: BobStep1 nil aliceMsg"
      | Some aliceMsg =>
        guard (emL aliceMsg =? Z.of_nat ScalarBits) "ole: BobStep1 expected L=%d, got %d" ;!
        let q := cN S256 in
        let! b := Mod beta q in
        let! m := rewrap "ole: BobStep1 OT extension" (ExtSender_Extend extSender sid (Some aliceMsg)) in
        let! st := foldM (bob_row q b (fst m) (snd m)) ([], 0, 1) (seq 0 ScalarBits) in
        let '(corrections, uB, _) := st in
        let! uB := Mod uB q in
        Ok ({| Corrections := corrections |}, uB)
      end
    end
  end.

(** One turn of Alice's loop: the masked choice between the row's value and the
    corrected value, on 32-byte buffers. *)
Definition alice_row (q : Z) (state : AliceState) (corrections : list (option Z)) (uA : Z) (i : nat) : res Z :=
  let! key := idx (as_keys state) i in
  let! base := Mod (SetBytes key) q in
  let! ci := idx corrections i in
  let! ci := deref ci in
  let! corrected := Mod (base + ci) q in
  let! baseBuf := FillBytes 32 base in
  let! corrBuf := FillBytes 32 corrected in
  let mask := mask_of (Z.land (Bit (as_alpha state) (Z.of_nat i)) 1) in
  let! pick := ct_pick_bytes 32 mask baseBuf corrBuf in
  Ok (uA + SetBytes pick).

Definition AliceStep2 (state : option AliceState) (bobMsg : option BobMsg) : res Z :=
  match state with
  | None => Err "ole: AliceStep2 nil state"
  | Some state =>
    match bobMsg with
    | None => Err "ole: AliceStep2 nil bobMsg"
    | Some bobMsg =>
      guard (length (Corrections bobMsg) =? ScalarBits)%nat "ole: AliceStep2 expected %d corrections, got %d" ;!
      guard (forallb is_some (Corrections bobMsg)) "ole: AliceStep2 nil correction[%d]" ;!
      let! uA := foldM (alice_row (cN S256) state (Corrections bobMsg)) 0 (seq 0 ScalarBits) in
      Mod uA (cN S256)
    end
  end.

(** ** mulcheck.go *)
Record CheckedBobMsg := { Msg1 : option BobMsg; Msg2 : option BobMsg; cbZ : option Z }.
Record CheckedAliceState := { state1 : option AliceState; state2 : option AliceState }.

(** [sid || "|" || tag] *)
Definition subSid (sid : bytes) (tag : Z) : bytes := sid ++ [124; tag].

Definition CheckedAliceStep1 (sid : bytes) (extReceiver : option ExtReceiver) (alpha : option Z)
  : res (ExtendMsg1 * ExtendMsg1 * CheckedAliceState) :=
  guard (is_some extReceiver) "ole: CheckedAliceStep1 nil ExtReceiver" ;!
  guard (is_some alpha) "ole: CheckedAliceStep1 nil alpha" ;!
  let sid1 := subSid sid 49 in
  let sid2 := subSid sid 50 in
  let! p1 := rewrap "ole: CheckedAliceStep1 mul1" (AliceStep1 sid1 extReceiver alpha) in
  let! p2 := rewrap "ole: CheckedAliceStep1 mul2" (AliceStep1 sid2 extReceiver alpha) in
  Ok (fst p1, fst p2, {| state1 := Some (snd p1); state2 := Some (snd p2) |}).

Definition CheckedBobStep1 (sid : bytes) (extSender : option ExtSender) (beta : option Z)
  (aliceMsg1 aliceMsg2 : option ExtendMsg1) : res (CheckedBobMsg * Z) :=
  guard (is_some extSender) "ole: CheckedBobStep1 nil ExtSender" ;!
  guard (is_some beta) "ole: CheckedBobStep1 nil beta" ;!
  let sid1 := subSid sid 49 in
  let sid2 := subSid sid 50 in
  let! p1 := rewrap "ole: CheckedBobStep1 mul1" (BobStep1 sid1 extSender beta aliceMsg1) in
  let! p2 := rewrap "ole: CheckedBobStep1 mul2" (BobStep1 sid2 extSender beta aliceMsg2) in
  let! zB := Mod (snd p1 - snd p2) (cN S256) in
  Ok ({| Msg1 := Some (fst p1); Msg2 := Some (fst p2); cbZ := Some zB |}, snd p1).

Definition ErrMulCheckFailed : string := "ole: Mul-then-check failed".

Definition CheckedAliceStep2 (state : option CheckedAliceState) (bobMsg : option CheckedBobMsg) : res Z :=
  match state, bobMsg with
  | Some state, Some bobMsg =>
    let! uA1 := rewrap "ole: CheckedAliceStep2 mul1" (AliceStep2 (state1 state) (Msg1 bobMsg)) in
    let! uA2 := rewrap "ole: CheckedAliceStep2 mul2" (AliceStep2 (state2 state) (Msg2 bobMsg)) in
    let! Za := Mod (uA1 - uA2) (cN S256) in
    let! Zb := deref (cbZ bobMsg) in
    let! sum := Mod (Za + Zb) (cN S256) in
    guard (sum =? 0) ErrMulCheckFailed ;!
    Ok uA1
  | _, _ => Err "ole: CheckedAliceStep2 nil input"
  end.
End Defs.

(** ** Bits *)
Lemma Bit_b2z v i : Bit v i = Z.b2z (Z.testbit v i).
Proof. unfold Bit. now destruct Z.testbit. Qed.

Lemma shifted_bit (x : bool) k : (k < 8)%nat -> Z.shiftl (Z.b2z x) (Z.of_nat k) mod 256 = if x then 2 ^ Z.of_nat k else 0.
Proof.
  intros Hk. rewrite Z.shiftl_mul_pow2 by lia. destruct x; cbn [Z.b2z]; rewrite ?Z.mul_1_l, ?Z.mul_0_l; [|reflexivity].
  apply Z.mod_small. split; [now apply Z.pow_nonneg|]. change 256 with (2 ^ 8). apply Z.pow_lt_mono_r; lia.
Qed.

(** The first [n] bits of [a] sum up to [a] modulo [2^n]. *)
Lemma bits_sum a n : zsum (map (fun i => Z.b2z (Z.testbit a (Z.of_nat i)) * 2 ^ Z.of_nat i) (seq 0 n)) = a mod 2 ^ Z.of_nat n.
Proof.
  induction n as [|n IH]; [cbn; now rewrite Z.mod_1_r|].
  rewrite map_seq_S, zsum_app, IH. cbn [zsum fold_right]. rewrite Z.add_0_r, Nat2Z.inj_succ, Z.pow_succ_r by lia.
  rewrite (Z.mul_comm 2), Z.rem_mul_r by (try apply Z.pow_nonzero; lia).
  rewrite <- Z.testbit_spec' by lia. ring.
Qed.

Lemma bitsLE_ok v : exists c, bitsLE v = Ok c /\ length c = 32%nat /\ Forall is_byte c /\
  forall i, (i < ScalarBits)%nat -> bit_at c i = Z.testbit v (Z.of_nat i).
Proof.
  pose (P := fun (n : nat) (c : bytes) => length c = 32%nat /\ Forall is_byte c /\
    forall i, bit_at c i = (i <? n)%nat && Z.testbit v (Z.of_nat i)).
  destruct (foldM_seq_inv P (fun out i => set_at out (i / 8) (fun x => Ok (Z.lor x
    (Z.shiftl (Bit v (Z.of_nat i)) (Z.of_nat (i mod 8)) mod 256)))) ScalarBits 0) with (s := repeat 0 (ScalarBits / 8))
    as (c & Ec & Lc & Fc & Bc).
  - intros i c Hi (Lc & Fc & Bc). set (m := Z.shiftl _ _ mod 256).
    assert (Hm : m = if Z.testbit v (Z.of_nat i) then 2 ^ Z.of_nat (i mod 8) else 0)
      by (unfold m; rewrite Bit_b2z; apply shifted_bit, mod8).
    destruct (set_at_ok c (i / 8) (fun x => Ok (Z.lor x m)) (nth (i / 8) c 0) 0) with (b := Z.lor (nth (i / 8) c 0) m)
      as (c' & Ec & Lc' & Nc); [apply nth_error_nth_lt; rewrite Lc; apply (width8 ScalarBits); [reflexivity|lia]|reflexivity|].
    exists c'. split; [exact Ec|]. split; [lia|]. split.
    + apply Forall_forall. intros x Hx. apply (In_nth _ _ 0) in Hx as (k & _ & <-). rewrite Nc.
      destruct (k =? i / 8)%nat; [apply lor_byte; [now apply nth_byte|unfold m; apply Z.mod_pos_bound; lia]|now apply nth_byte].
    + intros j. unfold bit_at. rewrite Nc. specialize (Bc j). unfold bit_at in Bc.
      replace (j <? S i)%nat with ((j <? i) || (j =? i))%nat
        by (destruct (Nat.ltb_spec j i), (Nat.eqb_spec j i), (Nat.ltb_spec j (S i)); lia || reflexivity).
      destruct (Nat.eqb_spec (j / 8) (i / 8)) as [E|E].
      * rewrite Z.lor_spec, <- E, Bc, Hm. destruct (Nat.eqb_spec j i) as [->|Hne].
        { rewrite Nat.ltb_irrefl. cbn [andb orb]. destruct (Z.testbit v (Z.of_nat i)); [|apply Z.bits_0].
          rewrite Z.pow2_bits_eqb by lia. apply Z.eqb_refl. }
        { rewrite orb_false_r. destruct (Z.testbit v (Z.of_nat i)); [|now rewrite Z.bits_0, orb_false_r].
          rewrite Z.pow2_bits_eqb by lia. destruct (Z.eqb_spec (Z.of_nat (i mod 8)) (Z.of_nat (j mod 8))) as [E'|];
            [|now rewrite orb_false_r]. exfalso. apply Hne, div_mod_eq8; [assumption|lia]. }
      * rewrite Bc. destruct (Nat.eqb_spec j i) as [->|]; [contradiction|]. now rewrite orb_false_r.
  - split; [reflexivity|]. split; [apply Forall_forall; intros x ->%repeat_spec; unfold is_byte; lia|].
    intros i. unfold bit_at. now rewrite nth_repeat, Z.bits_0.
  - exists c. unfold bitsLE. split; [exact Ec|]. split; [exact Lc|]. split; [exact Fc|]. intros i Hi. rewrite Bc.
    destruct (Nat.ltb_spec i (0 + ScalarBits)); [reflexivity|lia].
Qed.

(** ** Correctness *)
Section Correct.
Context `{HS : Hash} `{AL : AesLaws} `{CS : Curves}.
Abbreviation q := (cN S256).
Hypothesis Hq : 0 < q < 2 ^ 256.

(** The value of a row key in the field. *)
Definition kv (ks : list bytes) (i : nat) : Z := SetBytes (nth i ks []) mod q.

Lemma kv_range ks i : 0 <= kv ks i < q.
Proof. apply Z.mod_pos_bound. lia. Qed.

(** Bob's correction of row [i]. *)
Definition corr (b : Z) (m0 m1 : list bytes) (i : nat) : Z :=
  (kv m0 i - kv m1 i + b * 2 ^ Z.of_nat i mod q) mod q.

Lemma bob_loop b m0 m1 : length m0 = ScalarBits -> length m1 = ScalarBits ->
  foldM (bob_row q b m0 m1) ([], 0, 1) (seq 0 ScalarBits) =
  Ok (map (fun i => Some (corr b m0 m1 i)) (seq 0 ScalarBits), - zsum (map (kv m0) (seq 0 ScalarBits)), 2 ^ Z.of_nat ScalarBits).
Proof.
  intros L0 L1.
  destruct (foldM_seq_inv (fun n s => s = (map (fun i => Some (corr b m0 m1 i)) (seq 0 n),
      - zsum (map (kv m0) (seq 0 n)), 2 ^ Z.of_nat n)) (bob_row q b m0 m1) ScalarBits 0) with (s := (([] : list (option Z)), 0, 1))
    as (s & -> & ->); [|reflexivity|reflexivity].
  intros i s Hi ->. eexists. split; [|reflexivity]. unfold bob_row.
  rewrite (idx_nth m0 i ([] : bytes)), (idx_nth m1 i ([] : bytes)) by lia. cbn [rbind].
  repeat (rewrite Mod_ok by lia; cbn [rbind]).
  rewrite !map_seq_S, zsum_app. cbn [zsum fold_right]. fold (kv m0 i) (kv m1 i). unfold corr.
  rewrite Z.shiftl_mul_pow2, Nat2Z.inj_succ, Z.pow_succ_r by lia.
  f_equal. f_equal; [f_equal|]; lia.
Qed.

(** Alice's masked choice. *)
Lemma alice_row_ok st cs uA i c : length (as_keys st) = ScalarBits -> (i < ScalarBits)%nat ->
  nth_error cs i = Some (Some c) ->
  alice_row q st cs uA i = Ok (uA + if Z.testbit (as_alpha st) (Z.of_nat i) then (kv (as_keys st) i + c) mod q else kv (as_keys st) i).
Proof.
  intros Lk Hi Ec. unfold alice_row. rewrite (idx_nth _ i ([] : bytes)) by lia. cbn [rbind].
  rewrite Mod_ok by lia. cbn [rbind]. unfold idx at 1. rewrite Ec. cbn [rbind deref].
  fold (kv (as_keys st) i). set (k := kv (as_keys st) i). assert (Hk : 0 <= k < q) by apply kv_range.
  rewrite Mod_ok by lia. cbn [rbind]. set (k' := (k + c) mod q).
  assert (Hk' : 0 <= k' < q) by (apply Z.mod_pos_bound; lia).
  assert (E256 : 256 ^ Z.of_nat 32 = 2 ^ 256) by reflexivity.
  rewrite !FillBytes_ok by (rewrite E256; lia). cbn [rbind]. cbv zeta.
  assert (Hb : Z.land (Bit (as_alpha st) (Z.of_nat i)) 1 = Z.b2z (Z.testbit (as_alpha st) (Z.of_nat i)))
    by (rewrite Bit_b2z; now destruct Z.testbit).
  rewrite Hb, ct_pick_bytes_ok by (apply be_bytes_length || apply be_bytes_byte). cbn [rbind]. do 2 f_equal.
  destruct Z.testbit; apply SetBytes_be; rewrite E256; lia.
Qed.

(** Alice's sum, once every row holds the value of her choice. *)
Lemma alice_loop st cs (ks : nat -> Z) : length (as_keys st) = ScalarBits ->
  (forall i, (i < ScalarBits)%nat -> nth_error cs i = Some (Some (ks i))) ->
  foldM (alice_row q st cs) 0 (seq 0 ScalarBits) =
  Ok (zsum (map (fun i => if Z.testbit (as_alpha st) (Z.of_nat i) then (kv (as_keys st) i + ks i) mod q
                          else kv (as_keys st) i) (seq 0 ScalarBits))).
Proof.
  intros Lk Ec.
  destruct (foldM_seq_inv (fun n s => s = zsum (map (fun i => if Z.testbit (as_alpha st) (Z.of_nat i) then
      (kv (as_keys st) i + ks i) mod q else kv (as_keys st) i) (seq 0 n))) (alice_row q st cs) ScalarBits 0)
    with (s := 0) as (s & -> & ->); [|reflexivity|reflexivity].
  intros i s Hi ->. eexists. split; [apply alice_row_ok; [assumption|lia|apply Ec; lia]|].
  rewrite map_seq_S, zsum_app. cbn [zsum fold_right]. lia.
Qed.

(** The row identity, summed: the masked choices add up to Bob's mask plus the product. *)
Lemma picks_sum a b (K M0 M1 : nat -> Z) n : (forall i, (i < n)%nat -> K i = if Z.testbit a (Z.of_nat i) then M1 i else M0 i) ->
  cong q (zsum (map (fun i => if Z.testbit a (Z.of_nat i) then
      (K i + (M0 i - M1 i + b * 2 ^ Z.of_nat i mod q) mod q) mod q else K i) (seq 0 n)))
    (zsum (map M0 (seq 0 n)) + b * (a mod 2 ^ Z.of_nat n)).
Proof.
  intros HK. rewrite <- bits_sum, <- zsum_map_mul_l, <- zsum_map_add. apply cong_zsum_map.
  intros i Hi%in_seq. rewrite HK by lia. destruct Z.testbit; cbn [Z.b2z]; [|apply cong_eq; ring].
  rewrite !cong_mod. apply cong_eq. ring.
Qed.

(** One multiplication: Alice's first message, and Bob's answer for any [beta]. *)
Lemma mul_ok r s sid alpha : matched r s -> exists msg st,
  AliceStep1 sid (Some r) (Some alpha) = Ok (msg, st) /\
  forall beta, exists bm uA uB,
    BobStep1 sid (Some s) (Some beta) (Some msg) = Ok (bm, uB) /\
    AliceStep2 (Some st) (Some bm) = Ok uA /\ 0 <= uA < q /\ 0 <= uB < q /\ cong q (uA + uB) (alpha * beta).
Proof.
  intros HM. unfold AliceStep1. rewrite Mod_ok by lia. cbn [rbind].
  set (a := alpha mod q). assert (Ha : 0 <= a < q) by (apply Z.mod_pos_bound; lia).
  destruct (bitsLE_ok a) as (c & -> & Lc & Fc & Bc). cbn [rbind].
  destruct (extend_ok r s sid c 32 HM ltac:(lia) ltac:(lia) Fc) as (msg & keys & m0 & m1 & Er & Es & El & Lk & L0 & L1 & _ & HK).
  change (8 * 32)%nat with ScalarBits in *. rewrite Er. cbn [rewrap rbind]. rewrite Lk, Nat.eqb_refl. cbn [guard rbind].
  eexists _, _. split; [reflexivity|]. intros beta. unfold BobStep1. rewrite El, Z.eqb_refl. cbn [guard rbind].
  rewrite Mod_ok by lia. cbn [rbind]. rewrite Es. cbn [rewrap rbind fst snd]. rewrite bob_loop by assumption. cbn [rbind].
  rewrite Mod_ok by lia. cbn [rbind]. eexists _, _, _. split; [reflexivity|]. unfold AliceStep2. cbn [Corrections].
  rewrite length_map, length_seq, Nat.eqb_refl. cbn [guard rbind].
  replace (forallb is_some _) with true by (symmetry; apply forallb_forall; intros x (i & <- & _)%in_map_iff; reflexivity).
  cbn [guard rbind]. rewrite (alice_loop _ _ (corr (beta mod q) m0 m1)).
  2: exact Lk.
  2: { intros i Hi. apply (map_nth_error (fun i => Some (corr (beta mod q) m0 m1 i))), nth_error_seq_0, Hi. }
  cbn [rbind as_alpha as_keys]. rewrite Mod_ok by lia. split; [reflexivity|].
  split; [apply Z.mod_pos_bound; lia|]. split; [apply Z.mod_pos_bound; lia|]. rewrite !cong_mod.
  unfold corr. rewrite (picks_sum a (beta mod q) (kv keys) (kv m0) (kv m1) ScalarBits).
  - change (Z.of_nat ScalarBits) with 256. rewrite (Z.mod_small a) by lia. unfold a. rewrite !cong_mod. apply cong_eq. ring.
  - intros i Hi. unfold kv. rewrite HK, Bc by assumption. now destruct Z.testbit.
Qed.

(** A checked multiplication against a Bob who answers its two runs with
    [beta1] and [beta2] and sends the difference of his two shares. *)
Lemma checked_ok r s sid alpha : matched r s -> exists msg1 msg2 st,
  CheckedAliceStep1 sid (Some r) (Some alpha) = Ok (msg1, msg2, st) /\
  forall beta1 beta2, exists bm1 uB1 bm2 uB2 uA,
    BobStep1 (subSid sid 49) (Some s) (Some beta1) (Some msg1) = Ok (bm1, uB1) /\
    BobStep1 (subSid sid 50) (Some s) (Some beta2) (Some msg2) = Ok (bm2, uB2) /\
    cong q (uA + uB1) (alpha * beta1) /\
    CheckedAliceStep2 (Some st) (Some {| Msg1 := Some bm1; Msg2 := Some bm2; cbZ := Some ((uB1 - uB2) mod q) |}) =
      if (alpha * (beta1 - beta2)) mod q =? 0 then Ok uA else Err ErrMulCheckFailed.
Proof.
  intros HM. destruct (mul_ok r s (subSid sid 49) alpha HM) as (msg1 & st1 & E1 & H1).
  destruct (mul_ok r s (subSid sid 50) alpha HM) as (msg2 & st2 & E2 & H2).
  unfold CheckedAliceStep1. cbn [is_some guard rbind]. rewrite E1, E2. cbn [rewrap rbind fst snd].
  eexists _, _, _. split; [reflexivity|]. intros beta1 beta2.
  destruct (H1 beta1) as (bm1 & uA1 & uB1 & B1 & A1 & _ & _ & C1).
  destruct (H2 beta2) as (bm2 & uA2 & uB2 & B2 & A2 & _ & _ & C2).
  exists bm1, uB1, bm2, uB2, uA1. split; [exact B1|]. split; [exact B2|]. split; [exact C1|].
  unfold CheckedAliceStep2. cbn [state1 state2 Msg1 Msg2 cbZ]. rewrite A1, A2. cbn [rewrap rbind deref].
  rewrite Mod_ok by lia. cbn [rbind]. rewrite Mod_ok by lia. cbn [rbind].
  replace (((uA1 - uA2) mod q + (uB1 - uB2) mod q) mod q) with ((alpha * (beta1 - beta2)) mod q).
  - now destruct (_ =? 0).
  - apply cong_iff. rewrite !cong_mod. replace (uA1 - uA2 + (uB1 - uB2)) with (uA1 + uB1 - (uA2 + uB2)) by ring.
    rewrite C1, C2. apply cong_eq. ring.
Qed.

(** The checked multiplication with [CheckedBobStep1] run on one [beta]. *)
Lemma checked_run r s sid alpha beta : matched r s -> exists msg1 msg2 st bm uA uB,
  CheckedAliceStep1 sid (Some r) (Some alpha) = Ok (msg1, msg2, st) /\
  CheckedBobStep1 sid (Some s) (Some beta) (Some msg1) (Some msg2) = Ok (bm, uB) /\
  CheckedAliceStep2 (Some st) (Some bm) = Ok uA /\ cong q (uA + uB) (alpha * beta).
Proof.
  intros HM. destruct (checked_ok r s sid alpha HM) as (msg1 & msg2 & st & E1 & HB).
  destruct (HB beta beta) as (bm1 & uB1 & bm2 & uB2 & uA & B1 & B2 & C & E3).
  rewrite Z.sub_diag, Z.mul_0_r, Z.mod_0_l in E3 by lia. cbn [Z.eqb] in E3.
  exists msg1, msg2, st. eexists _, uA, uB1. split; [exact E1|]. split; [|split; [exact E3|exact C]].
  unfold CheckedBobStep1. cbn [is_some guard rbind]. rewrite B1, B2. cbn [rewrap rbind fst snd].
  rewrite Mod_ok by lia. reflexivity.
Qed.

(** C17. The multiplication is correct: for every session, every [alpha] and [beta]
    (of any size and sign), the three steps succeed on matching transfer states
    and the two shares, both reduced, add up to [alpha * beta] modulo the group
    order. *)
Theorem Mul_correct r s sid alpha beta : matched r s -> exists msg st bm uA uB,
  AliceStep1 sid (Some r) (Some alpha) = Ok (msg, st) /\
  BobStep1 sid (Some s) (Some beta) (Some msg) = Ok (bm, uB) /\
  AliceStep2 (Some st) (Some bm) = Ok uA /\
  0 <= uA < q /\ 0 <= uB < q /\ (uA + uB) mod q = (alpha * beta) mod q.
Proof.
  intros HM. destruct (mul_ok r s sid alpha HM) as (msg & st & E1 & HB). destruct (HB beta) as (bm & uA & uB & E2 & E3 & RA & RB & C).
  exists msg, st, bm, uA, uB. repeat (split; [assumption|]). now apply cong_iff.
Qed.

(** The checked multiplication accepts an honest Bob: with [CheckedBobStep1] run on
    one [beta], Alice gets the share of the first run and the product is right. *)
Theorem CheckedMul_correct r s sid alpha beta : matched r s -> exists msg1 msg2 st bm uA uB,
  CheckedAliceStep1 sid (Some r) (Some alpha) = Ok (msg1, msg2, st) /\
  CheckedBobStep1 sid (Some s) (Some beta) (Some msg1) (Some msg2) = Ok (bm, uB) /\
  CheckedAliceStep2 (Some st) (Some bm) = Ok uA /\ (uA + uB) mod q = (alpha * beta) mod q.
Proof.
  intros HM. destruct (checked_run r s sid alpha beta HM) as (msg1 & msg2 & st & bm & uA & uB & E1 & E2 & E3 & C).
  exists msg1, msg2, st, bm, uA, uB. repeat (split; [assumption|]). now apply cong_iff.
Qed.

(** C18. The cross-run check catches a Bob who uses different values in the two runs:
    if [beta1] and [beta2] differ modulo the (prime) order and [alpha] is not zero,
    Alice's second step returns [ErrMulCheckFailed] and no share. *)
Theorem CheckedMul_detects r s sid alpha beta1 beta2 : Z.prime q -> matched r s ->
  alpha mod q <> 0 -> beta1 mod q <> beta2 mod q -> exists msg1 msg2 st bm1 uB1 bm2 uB2,
  CheckedAliceStep1 sid (Some r) (Some alpha) = Ok (msg1, msg2, st) /\
  BobStep1 (subSid sid 49) (Some s) (Some beta1) (Some msg1) = Ok (bm1, uB1) /\
  BobStep1 (subSid sid 50) (Some s) (Some beta2) (Some msg2) = Ok (bm2, uB2) /\
  CheckedAliceStep2 (Some st) (Some {| Msg1 := Some bm1; Msg2 := Some bm2; cbZ := Some ((uB1 - uB2) mod q) |}) =
    Err ErrMulCheckFailed.
Proof.
  intros Hp HM Ha Hb. destruct (checked_ok r s sid alpha HM) as (msg1 & msg2 & st & E1 & HB).
  destruct (HB beta1 beta2) as (bm1 & uB1 & bm2 & uB2 & uA & B1 & B2 & _ & E3).
  exists msg1, msg2, st, bm1, uB1, bm2, uB2. repeat (split; [assumption|]). rewrite E3.
  rewrite (proj2 (Z.eqb_neq _ _)); [reflexivity|]. apply (mul_mod_nz q Hp); [assumption|]. now apply sub_mod_nz.
Qed.
End Correct.

(** ** Evaluation on concrete inputs *)
Definition w_sender : ExtSender := {| delta := w_delta; seeds := w_keys w_delta |}.
Definition w_receiver : ExtReceiver := {| seeds0 := w_k 0; seeds1 := w_k 1 |}.

Lemma w_matched : matched w_receiver w_sender.
Proof.
  constructor; try reflexivity.
  - repeat constructor; unfold is_byte; lia.
  - intros j Hj. unfold w_sender, w_keys. cbn [seeds delta seeds0 seeds1 w_receiver]. now rewrite nth_map_seq by assumption.
Qed.

Lemma w_order : 0 < cN (@S256 toy_curves) < 2 ^ 256.
Proof. cbn. lia. Qed.

Lemma Mul_correct_witness : exists msg st bm uA uB,
  @AliceStep1 toy_hash toy_aes toy_curves [7] (Some w_receiver) (Some (-5)) = Ok (msg, st) /\
  @BobStep1 toy_hash toy_aes toy_curves [7] (Some w_sender) (Some 40) (Some msg) = Ok (bm, uB) /\
  @AliceStep2 toy_curves (Some st) (Some bm) = Ok uA /\
  0 <= uA < 31 /\ 0 <= uB < 31 /\ (uA + uB) mod 31 = (-5 * 40) mod 31.
Proof. apply (@Mul_correct toy_hash toy_aes toy_aes_laws toy_curves w_order). exact w_matched. Defined.

Lemma CheckedMul_correct_witness : exists msg1 msg2 st bm uA uB,
  @CheckedAliceStep1 toy_hash toy_aes toy_curves [7] (Some w_receiver) (Some 3) = Ok (msg1, msg2, st) /\
  @CheckedBobStep1 toy_hash toy_aes toy_curves [7] (Some w_sender) (Some 4) (Some msg1) (Some msg2) = Ok (bm, uB) /\
  @CheckedAliceStep2 toy_curves (Some st) (Some bm) = Ok uA /\ (uA + uB) mod 31 = (3 * 4) mod 31.
Proof. apply (@CheckedMul_correct toy_hash toy_aes toy_aes_laws toy_curves w_order). exact w_matched. Defined.

Lemma CheckedMul_detects_witness : exists msg1 msg2 st bm1 uB1 bm2 uB2,
  @CheckedAliceStep1 toy_hash toy_aes toy_curves [7] (Some w_receiver) (Some 3) = Ok (msg1, msg2, st) /\
  @BobStep1 toy_hash toy_aes toy_curves (subSid [7] 49) (Some w_sender) (Some 4) (Some msg1) = Ok (bm1, uB1) /\
  @BobStep1 toy_hash toy_aes toy_curves (subSid [7] 50) (Some w_sender) (Some 5) (Some msg2) = Ok (bm2, uB2) /\
  @CheckedAliceStep2 toy_curves (Some st)
    (Some {| Msg1 := Some bm1; Msg2 := Some bm2; cbZ := Some ((uB1 - uB2) mod 31) |}) = Err ErrMulCheckFailed.
Proof.
  apply (@CheckedMul_detects toy_hash toy_aes toy_aes_laws toy_curves w_order w_receiver w_sender [7] 3 4 5).
  - apply (cl_prime (C := toy256)).
  - exact w_matched.
  - discriminate.
  - discriminate.
Defined.
