(* ===== verification/Party.v ===== *)
(** * Package [tss]: parties, parameters and peers

    [party_id.go], [peers.go], [params.go] and [error.go].  A [*PartyID] is a
    reference into a heap, because [SortPartyIDs] writes the index of the objects
    it is given: whoever holds the same pointer sees the change.  A reference that
    the heap does not map is a nil pointer. *)
From stdpp Require Import base gmap list.
From Stdlib Require Import ZArith String List Lia Bool Sorted Permutation.
From S2P Require Import Prelude GoBig Common Curve.
Import ListNotations.
Open Scope string_scope.
Open Scope Z_scope.
Open Scope list_scope.

(** ** party_id.go *)
(** The protobuf part; [Key] may be nil. *)
Record PartyWrapper := { pw_Id : string; pw_Moniker : string; pw_Key : option bytes }.
Record PartyID := { wrapper : option PartyWrapper; Index : Z }.

Abbreviation ref := nat.
Abbreviation Heap := (gmap nat PartyID).

Definition load (h : Heap) (r : ref) : res PartyID := deref (h !! r).

(** A nil slice reads as the empty one. *)
Definition PartyWrapper_KeyInt (w : option PartyWrapper) : res Z :=
  let! w := deref w in Ok (SetBytes (match pw_Key w with Some k => k | None => [] end)).
Definition KeyInt (h : Heap) (r : ref) : res Z :=
  let! p := load h r in PartyWrapper_KeyInt (wrapper p).

(** [pid != nil && pid.Key != nil && 0 <= pid.Index]; a nil embedded pointer is
    dereferenced. *)
Definition PartyID_ValidateBasic (h : Heap) (r : ref) : res bool :=
  match h !! r with
  | None => Ok false
  | Some p =>
    let! w := deref (wrapper p) in
    Ok (match pw_Key w with None => false | Some _ => 0 <=? Index p end)
  end.

Definition NewPartyID (id moniker : string) (key : option Z) : res PartyID :=
  let! key := deref key in
  Ok {| wrapper := Some {| pw_Id := id; pw_Moniker := moniker; pw_Key := Some (Bytes key) |}; Index := -1 |}.

(** [spids.Less(a, b)] on the elements themselves. *)
Definition less (h : Heap) (a b : ref) : res bool :=
  let! x := KeyInt h a in let! y := KeyInt h b in Ok (Cmp x y =? -1).

(** [sort.Sort]: an insertion sort.  The package sorts by insertion up to 12
    elements, and on distinct keys every sort has the same result. *)
Fixpoint insert_ref (h : Heap) (r : ref) (l : list ref) : res (list ref) :=
  match l with
  | [] => Ok [r]
  | x :: l' =>
    let! b := less h r x in
    if b then Ok (r :: l) else let! l' := insert_ref h r l' in Ok (x :: l')
  end.
Definition sort_refs (h : Heap) (ids : list ref) : res (list ref) :=
  foldM (fun sorted r => insert_ref h r sorted) [] ids.

(** [id.Index = v] *)
Definition set_Index (h : Heap) (r : ref) (v : Z) : res Heap :=
  let! p := load h r in Ok (<[r := {| wrapper := wrapper p; Index := v |}]> h).

(** [startAt] is variadic. *)
Definition SortPartyIDs (h : Heap) (ids : list ref) (startAt : list Z) : res (list ref * Heap) :=
  let! sorted := sort_refs h ids in
  let! h := foldM (fun h '(i, id) =>
    let frm := match startAt with [] => 0 | s :: _ => s end in
    set_Index h id (Z.of_nat i + frm)) h (enum sorted) in
  Ok (sorted, h).

Definition Keys (h : Heap) (spids : list ref) : res (list Z) := mapM (KeyInt h) spids.

Fixpoint FindByKey (h : Heap) (spids : list ref) (key : Z) : res (option ref) :=
  match spids with
  | [] => Ok None
  | pid :: spids =>
    let! k := KeyInt h pid in
    if Cmp k key =? 0 then Ok (Some pid) else FindByKey h spids key
  end.

Definition Exclude (h : Heap) (spids : list ref) (exclude : ref) : res (list ref) :=
  foldM (fun acc pid =>
    let! k := KeyInt h pid in
    let! e := KeyInt h exclude in
    if Cmp k e =? 0 then Ok acc else Ok (acc ++ [pid])) [] spids.

(** [spids.Swap(a, b)] *)
Definition Swap (l : list ref) (a b : nat) : res (list ref) :=
  let! x := idx l a in let! y := idx l b in
  Ok (<[b := x]> (<[a := y]> l)).

(** ** peers.go *)
Record PeerContext := { partyIDs : list ref }.
Definition NewPeerContext (parties : list ref) : PeerContext := {| partyIDs := parties |}.
Definition IDs (ctx : PeerContext) : list ref := partyIDs ctx.
Definition SetIDs (ctx : PeerContext) (ids : list ref) : PeerContext := {| partyIDs := ids |}.

(** ** params.go *)
Record Parameters := {
  p_ec : Curve; p_partyID : ref; p_parties : PeerContext; p_partyCount : Z; p_threshold : Z;
  p_concurrency : Z; p_safePrimeGenTimeout : Z; p_noProofMod : bool; p_noProofFac : bool
}.
Record ReSharingParameters := {
  rs_params : Parameters; rs_newParties : PeerContext; rs_newPartyCount : Z; rs_newThreshold : Z
}.

(** Five minutes, in nanoseconds. *)
Definition defaultSafePrimeGenTimeout : Z := 5 * 60 * 1000000000.

(** [gomaxprocs] is [runtime.GOMAXPROCS(0)]. *)
Definition NewParameters (gomaxprocs : Z) (ec : option Curve) (ctx : PeerContext) (partyID : ref)
  (partyCount threshold : Z) : res Parameters :=
  match ec with
  | None => Panic "NewParameters: ec must not be nil"
  | Some ec =>
    if partyCount <? 1 then Panic "NewParameters: partyCount must be positive"
    else if (threshold <? 0) || (partyCount <=? threshold) then
      Panic "NewParameters: threshold must satisfy 0 <= threshold < partyCount"
    else Ok {| p_ec := ec; p_partyID := partyID; p_parties := ctx; p_partyCount := partyCount;
               p_threshold := threshold; p_concurrency := gomaxprocs;
               p_safePrimeGenTimeout := defaultSafePrimeGenTimeout; p_noProofMod := false; p_noProofFac := false |}
  end.

Definition NewReSharingParameters (gomaxprocs : Z) (ec : option Curve) (ctx newCtx : PeerContext) (partyID : ref)
  (partyCount threshold newPartyCount newThreshold : Z) : res ReSharingParameters :=
  let! params := NewParameters gomaxprocs ec ctx partyID partyCount threshold in
  Ok {| rs_params := params; rs_newParties := newCtx; rs_newPartyCount := newPartyCount; rs_newThreshold := newThreshold |}.

Definition OldParties (rg : ReSharingParameters) : PeerContext := p_parties (rs_params rg).
Definition OldPartyCount (rg : ReSharingParameters) : Z := p_partyCount (rs_params rg).
Definition OldAndNewParties (rg : ReSharingParameters) : list ref := IDs (OldParties rg) ++ IDs (rs_newParties rg).
Definition OldAndNewPartyCount (rg : ReSharingParameters) : Z := OldPartyCount rg + rs_newPartyCount rg.

(** The loop of [IsOldCommittee] and [IsNewCommittee]. *)
Fixpoint in_committee (h : Heap) (me : ref) (ids : list ref) : res bool :=
  match ids with
  | [] => Ok false
  | Pj :: ids =>
    let! k := KeyInt h me in let! kj := KeyInt h Pj in
    if Cmp k kj =? 0 then Ok true else in_committee h me ids
  end.
Definition IsOldCommittee (h : Heap) (rg : ReSharingParameters) : res bool :=
  in_committee h (p_partyID (rs_params rg)) (IDs (p_parties (rs_params rg))).
Definition IsNewCommittee (h : Heap) (rg : ReSharingParameters) : res bool :=
  in_committee h (p_partyID (rs_params rg)) (IDs (rs_newParties rg)).

(** ** error.go *)
Record Error := { e_cause : string; e_task : string; e_round : Z; e_victim : option ref; e_culprits : list ref }.
Definition NewError (err task : string) (round : Z) (victim : option ref) (culprits : list ref) : Error :=
  {| e_cause := err; e_task := task; e_round := round; e_victim := victim; e_culprits := culprits |}.

(** ** Sorting *)
Definition valid_ref (h : Heap) (r : ref) : Prop := exists p w, h !! r = Some p /\ wrapper p = Some w.
(** The key of a reference, 0 if it has none. *)
Definition key_of (h : Heap) (r : ref) : Z := match KeyInt h r with Ok k => k | _ => 0 end.
Definition key_le (h : Heap) (a b : ref) : Prop := key_of h a <= key_of h b.

Lemma KeyInt_valid h r : valid_ref h r -> KeyInt h r = Ok (key_of h r).
Proof. intros (p & w & Hp & Hw). unfold key_of, KeyInt, load. rewrite Hp. cbn [deref rbind]. now rewrite Hw. Qed.

Lemma less_valid h a b : valid_ref h a -> valid_ref h b -> less h a b = Ok (key_of h a <? key_of h b).
Proof.
  intros Ha Hb. unfold less. rewrite !KeyInt_valid by assumption. cbn [rbind]. f_equal. apply Cmp_lt.
Qed.

Lemma insert_ref_ok h r l : valid_ref h r -> Forall (valid_ref h) l -> exists l',
  insert_ref h r l = Ok l' /\ Permutation (r :: l) l' /\
  (StronglySorted (key_le h) l -> StronglySorted (key_le h) l').
Proof.
  intros Hr. induction 1 as [|x l Hx F (l' & E & P & SS)]; cbn [insert_ref].
  - exists [r]. split; [reflexivity|]. split; [reflexivity|]. intros _. repeat constructor.
  - rewrite less_valid by assumption. cbn [rbind]. destruct (Z.ltb_spec (key_of h r) (key_of h x)) as [Hlt|Hge].
    + exists (r :: x :: l). split; [reflexivity|]. split; [reflexivity|]. intros Hs. constructor; [assumption|].
      apply StronglySorted_inv in Hs as [_ Hs]. constructor; [unfold key_le; lia|].
      eapply Forall_impl; [|exact Hs]. unfold key_le. intros y Hy. lia.
    + rewrite E. cbn [rbind]. exists (x :: l'). split; [reflexivity|]. split; [now rewrite perm_swap, P|].
      intros Hs. apply StronglySorted_inv in Hs as [Hs Hall]. constructor; [now apply SS|].
      eapply Permutation_Forall; [exact P|]. constructor; [unfold key_le; lia|assumption].
Qed.

Lemma sort_refs_ok h ids : Forall (valid_ref h) ids -> exists sorted,
  sort_refs h ids = Ok sorted /\ Permutation ids sorted /\ StronglySorted (key_le h) sorted.
Proof.
  intros F. unfold sort_refs.
  enough (G : forall acc, Forall (valid_ref h) acc -> StronglySorted (key_le h) acc -> exists sorted,
    foldM (fun sorted r => insert_ref h r sorted) acc ids = Ok sorted /\ Permutation (acc ++ ids) sorted /\
    StronglySorted (key_le h) sorted) by (apply (G []); constructor).
  induction F as [|r ids Hr F IH]; intros acc Fa Sa; cbn [foldM].
  - exists acc. rewrite app_nil_r. auto.
  - destruct (insert_ref_ok h r acc Hr Fa) as (acc' & -> & P & HS). cbn [rbind].
    destruct (IH acc') as (sorted & E & P' & S'); [|now apply HS|].
    + eapply Permutation_Forall; [exact P|]. now constructor.
    + exists sorted. split; [exact E|]. split; [|exact S']. rewrite <- P', <- P. symmetry. apply Permutation_middle.
Qed.

(** The index loop, from position [k]. *)
Lemma index_loop frm l : forall k h, NoDup l -> Forall (fun r => is_Some (h !! r)) l ->
  exists h', foldM (fun h '(i, id) => set_Index h id (Z.of_nat i + frm)) h (combine (seq k (length l)) l) = Ok h' /\
    (forall i r, nth_error l i = Some r -> exists p, h !! r = Some p /\
       h' !! r = Some {| wrapper := wrapper p; Index := Z.of_nat (k + i) + frm |}) /\
    (forall r, ~ In r l -> h' !! r = h !! r).
Proof.
  induction l as [|x l IH]; intros k h ND F; cbn [length seq combine foldM].
  - exists h. split; [reflexivity|]. split; [intros [|i] r E; discriminate E|reflexivity].
  - apply List.NoDup_cons_iff in ND as [Nx ND]. inversion_clear F as [|? ? [p Hp] F'].
    unfold set_Index at 1, load. rewrite Hp. cbn [deref rbind].
    set (h1 := <[x := _]> h). destruct (IH (S k) h1 ND) as (h' & E & Hi & Hr).
    { eapply Forall_impl; [|exact F']. intros r [p' Hp']. unfold h1.
      destruct (decide (x = r)) as [->|Hne]; [rewrite lookup_insert_eq; eauto|rewrite lookup_insert_ne; eauto]. }
    exists h'. split; [exact E|]. split.
    + intros [|i] r Er; cbn [nth_error] in Er.
      * injection Er as <-. exists p. split; [assumption|]. rewrite Hr by assumption. unfold h1.
        rewrite lookup_insert_eq, Nat.add_0_r. reflexivity.
      * destruct (Hi i r Er) as (p' & Hp' & E'). exists p'. rewrite E'. unfold h1 in Hp'.
        rewrite lookup_insert_ne in Hp'; [|intros ->; apply Nx; eapply nth_error_In; exact Er].
        split; [assumption|]. do 3 f_equal. lia.
    + intros r Hn. rewrite Hr by (intros H; apply Hn; now right). unfold h1. apply lookup_insert_ne.
      intros ->. apply Hn. now left.
Qed.

(** [SortPartyIDs] on distinct non-nil identities returns them in ascending order
    of key, writes to each the index of its position (from [startAt]) and changes
    nothing else: not the keys, and no other object. *)
Theorem SortPartyIDs_correct h ids startAt : Forall (valid_ref h) ids -> NoDup ids ->
  let frm := match startAt with [] => 0 | s :: _ => s end in
  exists sorted h', SortPartyIDs h ids startAt = Ok (sorted, h') /\ Permutation ids sorted /\
    StronglySorted (key_le h') sorted /\
    (forall i r, nth_error sorted i = Some r -> exists p, h !! r = Some p /\
       h' !! r = Some {| wrapper := wrapper p; Index := Z.of_nat i + frm |}) /\
    (forall r, ~ In r ids -> h' !! r = h !! r).
Proof.
  intros F ND frm. destruct (sort_refs_ok h ids F) as (sorted & E & P & SS).
  assert (NDs : NoDup sorted) by (eapply Permutation_NoDup; eassumption).
  assert (Fs : Forall (fun r => is_Some (h !! r)) sorted).
  { eapply Permutation_Forall; [exact P|]. eapply Forall_impl; [|exact F]. intros r (p & w & Hp & _). eauto. }
  destruct (index_loop frm sorted 0 h NDs Fs) as (h' & E' & Hi & Hr). exists sorted, h'.
  unfold SortPartyIDs. rewrite E. cbn [rbind]. cbv zeta. fold frm. unfold enum. rewrite E'. cbn [rbind].
  split; [reflexivity|]. split; [assumption|]. split; [|split; [exact Hi|]].
  - assert (K : forall r, In r sorted -> key_of h' r = key_of h r).
    { intros r Hin. apply In_nth_error in Hin as (i & Ei). destruct (Hi i r Ei) as (p & Hp & Hp').
      unfold key_of, KeyInt, load. now rewrite Hp, Hp'. }
    clear - SS K. induction SS as [|x l _ IH Fx]; constructor.
    + apply IH. intros r Hr. apply K. now right.
    + rewrite Forall_forall in *. intros y Hy. unfold key_le. rewrite (K x (or_introl eq_refl)), (K y (or_intror Hy)). now apply Fx.
  - intros r Hn. apply Hr. intros Hin. apply Hn. eapply Permutation_in; [symmetry; exact P|exact Hin].
Qed.

(** [Exclude] keeps, in order, exactly the identities with another key. *)
Lemma Exclude_filter h e ids : valid_ref h e -> Forall (valid_ref h) ids ->
  Exclude h ids e = Ok (List.filter (fun r => negb (key_of h r =? key_of h e)) ids).
Proof.
  intros He F. unfold Exclude. rewrite (KeyInt_valid h e He).
  enough (G : forall acc, foldM (fun acc pid => let! k := KeyInt h pid in let! e' := Ok (key_of h e) in
      if Cmp k e' =? 0 then Ok acc else Ok (acc ++ [pid])) acc ids =
    Ok (acc ++ List.filter (fun r => negb (key_of h r =? key_of h e)) ids)) by apply G.
  induction F as [|r ids Hr F IH]; intros acc; cbn [foldM List.filter]; [now rewrite app_nil_r|].
  rewrite (KeyInt_valid h r Hr). cbn [rbind]. rewrite Cmp_eq.
  destruct (key_of h r =? key_of h e); cbn [rbind negb]; etransitivity; [apply IH|reflexivity|apply IH|].
  now rewrite <- app_assoc.
Qed.

(** [FindByKey] returns the first identity with the key, and nil exactly when no
    identity of the list has it. *)
Lemma FindByKey_spec h ids k : Forall (valid_ref h) ids ->
  FindByKey h ids k = Ok (List.find (fun r => key_of h r =? k) ids).
Proof.
  induction 1 as [|r ids Hr F IH]; cbn [FindByKey List.find]; [reflexivity|].
  rewrite KeyInt_valid by assumption. cbn [rbind]. rewrite Cmp_eq. now destruct (_ =? _).
Qed.

(** C40. [NewParameters] panics exactly on a nil curve, a party count below 1 or a
    threshold outside [0, partyCount). *)
Theorem NewParameters_bounds g ec ctx me n t :
  (exists c, ec = Some c /\ 1 <= n /\ 0 <= t < n /\
     exists p, NewParameters g ec ctx me n t = Ok p /\ p_ec p = c /\ p_partyCount p = n /\ p_threshold p = t /\
       p_parties p = ctx /\ p_partyID p = me) \/
  ((ec = None \/ n < 1 \/ t < 0 \/ n <= t) /\ is_panic (NewParameters g ec ctx me n t) = true).
Proof.
  unfold NewParameters. destruct ec as [c|]; [|right; auto].
  destruct (Z.ltb_spec n 1); [right; split; [lia|reflexivity]|].
  destruct (Z.ltb_spec t 0); [right; split; [lia|reflexivity]|].
  destruct (Z.leb_spec n t); [right; split; [lia|reflexivity]|]. left. exists c. repeat (split; [reflexivity || lia|]).
  eexists. repeat (split; [reflexivity|]). reflexivity.
Qed.

(** ** Evaluation on concrete inputs *)
Definition w_party (k : Z) : PartyID := {| wrapper := Some {| pw_Id := ""; pw_Moniker := ""; pw_Key := Some (Bytes k) |}; Index := -1 |}.
Definition w_heap : Heap := <[5%nat := w_party 30]> (<[6%nat := w_party 10]> (<[7%nat := w_party 20]> empty)).

Lemma SortPartyIDs_correct_witness : exists sorted h',
  SortPartyIDs w_heap [5%nat; 6%nat; 7%nat] [2] = Ok (sorted, h') /\ Permutation [5%nat; 6%nat; 7%nat] sorted /\
  StronglySorted (key_le h') sorted /\
  (forall i r, nth_error sorted i = Some r -> exists p, w_heap !! r = Some p /\
     h' !! r = Some {| wrapper := wrapper p; Index := Z.of_nat i + 2 |}) /\
  (forall r, ~ In r [5%nat; 6%nat; 7%nat] -> h' !! r = w_heap !! r).
Proof.
  apply (SortPartyIDs_correct w_heap [5%nat; 6%nat; 7%nat] [2]).
  - repeat constructor; eexists _, _; split; reflexivity.
  - repeat constructor; cbn; intuition discriminate.
Defined.
