(* ===== verification/Handler.v ===== *)
(** * Handlers of the networked protocols

    The callbacks of the brokered parties run on the party's own state, send
    messages and stop at the first error, which goes to the [Err] channel: what was
    written and sent before the error stays.  [hnd] is the state and error monad of
    such code.  [res]'s panic ends the process; its error becomes the handler's. *)
From Stdlib Require Import ZArith String List.
From S2P Require Import Prelude GoBig Common Party.
Import ListNotations.
Open Scope string_scope.
Open Scope list_scope.

(** The dynamic type behind the interface [error]. *)
Inductive GoErr := TssErr (e : Error) | PlainErr (m : string).

Section Monad.
Context {S : Type}.

Definition hnd (A : Type) : Type := S -> res (S * (A + GoErr)).
Definition hret {A} (a : A) : hnd A := fun s => Ok (s, inl a).
Definition herr {A} (e : GoErr) : hnd A := fun s => Ok (s, inr e).
Definition hbind {A B} (c : hnd A) (k : A -> hnd B) : hnd B := fun s =>
  rbind (c s) (fun '(s, r) => match r with inl a => k a s | inr e => Ok (s, inr e) end).

(** A call that returns a value or an error. *)
Definition hlift {A} (c : res A) : hnd A := fun s =>
  match c with Ok a => Ok (s, inl a) | Err m => Ok (s, inr (PlainErr m)) | Panic w => Panic w end.
Definition hget : hnd S := fun s => Ok (s, inl s).
Definition hmod (f : S -> S) : hnd unit := fun s => Ok (f s, inl tt).
Definition hguard (b : bool) (m : string) : hnd unit := hlift (guard b m).

(** A loop whose body may stop the handler. *)
Fixpoint hfor {A} (f : A -> hnd unit) (l : list A) : hnd unit :=
  match l with [] => hret tt | a :: l => hbind (f a) (fun _ => hfor f l) end.
(** A loop with an accumulator. *)
Fixpoint hfold {A B} (f : B -> A -> hnd B) (b : B) (l : list A) : hnd B :=
  match l with [] => hret b | a :: l => hbind (f b a) (fun b => hfold f b l) end.
End Monad.
Arguments hnd : clear implicits.

Notation "'let^' x := c 'in' k" := (hbind c (fun x => k))
  (at level 10, x pattern, c at level 200, k at level 200) : tss_scope.
Notation "c ';^' k" := (hbind c (fun _ : unit => k))
  (at level 199, k at level 200, right associativity) : tss_scope.

(** ** The machine of a party *)
(** What the callbacks of a brokered party work on: the party, the readers of its
    parameters and of the system, what it gave to the broker and the types it
    connected, with the senders that the collector expects. *)
Record Machine (K M : Type) := {
  self : K; rPartial : reader; rRand : reader; rSys : reader; sent : list M; connected : list (string * list ref)
}.
Arguments self {K M}. Arguments rPartial {K M}. Arguments rRand {K M}. Arguments rSys {K M}. Arguments sent {K M}. Arguments connected {K M}.

(** The answer of the application's broker to a message. *)
Class Broker (M : Type) := { broker_Receive : M -> option string }.

(** [sendOnce]: the first value stays. *)
Definition sendOnce {T} (ch : option T) (v : T) : option T := match ch with None => Some v | Some _ => ch end.

Section Effects.
Context {K M : Type}.
Abbreviation Core := (Machine K M).

Definition with_self (f : K -> K) (s : Core) : Core :=
  {| self := f (self s); rPartial := rPartial s; rRand := rRand s; rSys := rSys s; sent := sent s; connected := connected s |}.
Definition upd (f : K -> K) : hnd Core unit := hmod (with_self f).

(** A draw from [PartialKeyRand], from [Rand], from [Rand] and the system's reader,
    from the latter alone. *)
Definition draw_partial {A} (f : rnd A) : hnd Core A := fun s =>
  match f (rPartial s) with
  | Ok (a, r) => Ok ({| self := self s; rPartial := r; rRand := rRand s; rSys := rSys s; sent := sent s; connected := connected s |}, inl a)
  | Err m => Ok (s, inr (PlainErr m))
  | Panic w => Panic w
  end.
Definition draw_both {A} (f : reader -> reader -> res (A * reader * reader)) : hnd Core A := fun s =>
  match f (rRand s) (rSys s) with
  | Ok (a, r, y) => Ok ({| self := self s; rPartial := rPartial s; rRand := r; rSys := y; sent := sent s; connected := connected s |}, inl a)
  | Err m => Ok (s, inr (PlainErr m))
  | Panic w => Panic w
  end.
Definition draw_rand {A} (f : rnd A) : hnd Core A := draw_both (fun r y => let! (a, r) := f r in Ok (a, r, y)).
Definition draw_sys {A} (f : reader -> res (A * reader)) : hnd Core A := draw_both (fun r y => let! (a, y) := f y in Ok (a, r, y)).

(** [Broker().Receive(m)], its error under the caller's message. *)
Definition send `{!Broker M} (msg : string) (m : M) : hnd Core unit := fun s =>
  Ok ({| self := self s; rPartial := rPartial s; rRand := rRand s; rSys := rSys s; sent := sent s ++ [m]; connected := connected s |},
      match broker_Receive m with None => inl tt | Some _ => inr (PlainErr msg) end).
(** [Broker().Connect(typ, NewJsonExpect(typ, ids, ...))] *)
Definition connect (typ : string) (ids : list ref) : hnd Core unit :=
  hmod (fun s => {| self := self s; rPartial := rPartial s; rRand := rRand s; rSys := rSys s; sent := sent s;
                    connected := connected s ++ [(typ, ids)] |}).
(** A context that is asked for its error. *)
Definition ctx_alive (ctx : option string) : hnd Core unit := match ctx with Some e => herr (PlainErr e) | None => hret tt end.

(** A callback: its error goes to the party's [Err]. *)
Definition handle (fail : GoErr -> K -> K) (c : hnd Core unit) (s : Core) : res Core :=
  let! (s, r) := c s in Ok (match r with inl _ => s | inr e => with_self (fail e) s end).
End Effects.

(** [Reader.Read] on a finite stream: a short read leaves the rest of the buffer 0. *)
Definition reader_Read (n : nat) : rnd bytes := fun r =>
  match r with [] => Err "EOF" | _ => Ok (firstn n r ++ repeat 0 (n - length r), skipn n r) end.

(** ** Runs that return *)
Lemma hbind_ok {S A B} (c : hnd S A) (k : A -> hnd S B) s s' b :
  hbind c k s = Ok (s', inl b) <-> exists s1 a, c s = Ok (s1, inl a) /\ k a s1 = Ok (s', inl b).
Proof.
  unfold hbind. rewrite rbind_ok. split.
  - intros ([s1 [a|e]] & E & K); [eauto|discriminate].
  - intros (s1 & a & E & K). eauto.
Qed.

Lemma hlift_ok {S A} (c : res A) (s s' : S) a : hlift c s = Ok (s', inl a) <-> c = Ok a /\ s' = s.
Proof. unfold hlift. destruct c; split; intros H; try discriminate; [injection H as <- <-; auto|destruct H as [H ->]; congruence|now destruct H..]. Qed.

Lemma hguard_ok {S} b m (s s' : S) u : hguard b m s = Ok (s', inl u) <-> b = true /\ s' = s.
Proof. unfold hguard. rewrite hlift_ok, guard_ok. tauto. Qed.

(** ** Effects that return *)
Section EffectsRun.
Context {St M : Type} `{BR : !Broker M}.
Abbreviation Core := (Machine St M).

Lemma draw_both_ok {A} (f : reader -> reader -> res (A * reader * reader)) (s s' : Core) a : draw_both f s = Ok (s', inl a) ->
  exists r y, f (rRand s) (rSys s) = Ok (a, r, y) /\
    s' = {| self := self s; rPartial := rPartial s; rRand := r; rSys := y; sent := sent s; connected := connected s |}.
Proof. unfold draw_both. destruct (f _ _) as [[[b r] y]| |]; intros H; try discriminate. injection H as <- ->. eauto. Qed.
Lemma draw_rand_ok {A} (f : rnd A) (s s' : Core) a : draw_rand f s = Ok (s', inl a) ->
  exists r, f (rRand s) = Ok (a, r) /\
    s' = {| self := self s; rPartial := rPartial s; rRand := r; rSys := rSys s; sent := sent s; connected := connected s |}.
Proof. unfold draw_rand, draw_sys. intros H. apply draw_both_ok in H as (r & y & E & ->). apply rbind_ok in E as ([b r'] & E & K). injection K as <- <- <-. eauto. Qed.
Lemma draw_sys_ok {A} (f : reader -> res (A * reader)) (s s' : Core) a : draw_sys f s = Ok (s', inl a) ->
  exists y, f (rSys s) = Ok (a, y) /\
    s' = {| self := self s; rPartial := rPartial s; rRand := rRand s; rSys := y; sent := sent s; connected := connected s |}.
Proof. unfold draw_rand, draw_sys. intros H. apply draw_both_ok in H as (r & y & E & ->). apply rbind_ok in E as ([b r'] & E & K). injection K as <- <- <-. eauto. Qed.
Lemma draw_partial_ok {A} (f : rnd A) (s s' : Core) a : draw_partial f s = Ok (s', inl a) ->
  exists r, f (rPartial s) = Ok (a, r) /\
    s' = {| self := self s; rPartial := r; rRand := rRand s; rSys := rSys s; sent := sent s; connected := connected s |}.
Proof. unfold draw_partial. destruct (f _) as [[b r]| |]; intros H; try discriminate. injection H as <- ->. eauto. Qed.
Lemma send_ok msg m (s s' : Core) u : send msg m s = Ok (s', inl u) ->
  s' = {| self := self s; rPartial := rPartial s; rRand := rRand s; rSys := rSys s; sent := sent s ++ [m]; connected := connected s |}.
Proof. unfold send. destruct (broker_Receive m); intros H; [discriminate|now injection H]. Qed.
Lemma ctx_alive_ok (ctx : option string) (s s' : Core) u : ctx_alive ctx s = Ok (s', inl u) -> ctx = None /\ s' = s.
Proof. destruct ctx; cbn; intros H; [discriminate|injection H as <- _; auto]. Qed.
End EffectsRun.

(** Takes a callback that returned apart into its steps. *)
Ltac inv_hnd :=
  repeat match goal with
  | H : hbind _ _ _ = Ok (_, inl _) |- _ =>
    let s := fresh "s" in let a := fresh "a" in let E := fresh "E" in apply hbind_ok in H as (s & a & E & H)
  | H : hget _ = Ok (_, inl _) |- _ => injection H as <- <-
  | H : upd _ _ = Ok (_, inl _) |- _ => unfold upd in H
  | H : connect _ _ _ = Ok (_, inl _) |- _ => unfold connect in H
  | H : hmod _ _ = Ok (_, inl _) |- _ => injection H; clear H; intros
  | H : hret _ _ = Ok (_, inl _) |- _ => injection H; clear H; intros
  | H : herr _ _ = Ok (_, inl _) |- _ => discriminate H
  | H : hlift _ _ = Ok (_, inl _) |- _ => apply hlift_ok in H as [H ->]
  | H : hguard _ _ _ = Ok (_, inl _) |- _ => apply hguard_ok in H as [H ->]
  | H : send _ _ _ = Ok (_, inl _) |- _ => apply send_ok in H
  | H : ctx_alive _ _ = Ok (_, inl _) |- _ => apply ctx_alive_ok in H as [H ->]
  | H : draw_both _ _ = Ok (_, inl _) |- _ => apply draw_both_ok in H as (? & ? & H & ->)
  | H : draw_rand _ _ = Ok (_, inl _) |- _ => apply draw_rand_ok in H as (? & H & ->)
  | H : draw_sys _ _ = Ok (_, inl _) |- _ => apply draw_sys_ok in H as (? & H & ->)
  | H : draw_partial _ _ = Ok (_, inl _) |- _ => apply draw_partial_ok in H as (? & H & ->)
  | H : (let '(_, _) := ?p in _) _ = Ok (_, inl _) |- _ => destruct p
  | x : (_ * _)%type |- _ => destruct x
  | u : unit |- _ => destruct u
  end; try subst.

(** ** Steps that succeed *)
Lemma bind_in {S A B} (c : hnd S A) (k : A -> hnd S B) s s1 a r : c s = Ok (s1, inl a) -> k a s1 = r -> hbind c k s = r.
Proof. intros E <-. unfold hbind. now rewrite E. Qed.
Lemma lift_in {S A} (c : res A) (s : S) a : c = Ok a -> hlift c s = Ok (s, inl a).
Proof. intros ->. reflexivity. Qed.
Lemma guard_in {S} b m (s : S) : b = true -> hguard b m s = Ok (s, inl tt).
Proof. intros ->. reflexivity. Qed.
Lemma both_in {K M A} (f : reader -> reader -> res (A * reader * reader)) (k : K) p r y (se : list M) co a r' y' : f r y = Ok (a, r', y') ->
  draw_both f {| self := k; rPartial := p; rRand := r; rSys := y; sent := se; connected := co |} =
  Ok ({| self := k; rPartial := p; rRand := r'; rSys := y'; sent := se; connected := co |}, inl a).
Proof. intros E. unfold draw_both. cbn [rRand rSys]. now rewrite E. Qed.
Lemma partial_in {K M A} (f : rnd A) (k : K) p r y (se : list M) co a p' : f p = Ok (a, p') ->
  draw_partial f {| self := k; rPartial := p; rRand := r; rSys := y; sent := se; connected := co |} =
  Ok ({| self := k; rPartial := p'; rRand := r; rSys := y; sent := se; connected := co |}, inl a).
Proof. intros E. unfold draw_partial. cbn [rPartial]. now rewrite E. Qed.

(** ** What every run keeps *)
(** Whatever its outcome, a run relates the states before and after. *)
Definition hkeeps {S A} (R : S -> S -> Prop) (c : hnd S A) : Prop := forall s s' r, c s = Ok (s', r) -> R s s'.

Section Keeps.
Context {S : Type} (R : S -> S -> Prop) (Rrefl : forall s, R s s) (Rtrans : forall a b c, R a b -> R b c -> R a c).

Lemma keeps_ret {A} (a : A) : hkeeps R (hret a).
Proof. intros s s' r H. injection H as <- _. apply Rrefl. Qed.
Lemma keeps_err {A} e : hkeeps R (herr (A := A) e).
Proof. intros s s' r H. injection H as <- _. apply Rrefl. Qed.
Lemma keeps_lift {A} (c : res A) : hkeeps R (hlift c).
Proof. intros s s' r H. unfold hlift in H. destruct c; try discriminate; injection H as <- _; apply Rrefl. Qed.
Lemma keeps_get : hkeeps R (hget (S := S)).
Proof. intros s s' r H. injection H as <- _. apply Rrefl. Qed.
Lemma keeps_mod f : (forall s, R s (f s)) -> hkeeps R (hmod f).
Proof. intros Hf s s' r H. injection H as <- _. apply Hf. Qed.
Lemma keeps_bind {A B} (c : hnd S A) (k : A -> hnd S B) : hkeeps R c -> (forall a, hkeeps R (k a)) -> hkeeps R (hbind c k).
Proof.
  intros Hc Hk s s' r H. unfold hbind in H. apply rbind_ok in H as ([s1 [a|e]] & E & H).
  - eapply Rtrans; [eapply Hc; exact E|eapply Hk; exact H].
  - injection H as <- _. eapply Hc. exact E.
Qed.
Lemma keeps_for {A} (f : A -> hnd S unit) l : (forall a, hkeeps R (f a)) -> hkeeps R (hfor f l).
Proof. intros Hf. induction l as [|a l IH]; [apply keeps_ret|]. apply keeps_bind; [apply Hf|intros _; exact IH]. Qed.
Lemma keeps_fold {A B} (f : B -> A -> hnd S B) l : (forall b a, hkeeps R (f b a)) -> forall b, hkeeps R (hfold f b l).
Proof. intros Hf. induction l as [|a l IH]; intros b; [apply keeps_ret|]. apply keeps_bind; [apply Hf|exact IH]. Qed.
End Keeps.

(** ** Invariants of a party *)
(** A property of the party's own state that a run keeps, whatever its outcome. *)
Section SelfInv.
Context {K M : Type} `{BR : !Broker M} (I : K -> Prop).
Abbreviation Core := (Machine K M).
Definition inv_run {A} (c : hnd Core A) : Prop := forall s s' r, I (self s) -> c s = Ok (s', r) -> I (self s').

Lemma inv_ret {A} (a : A) : inv_run (hret a).
Proof. intros s s' r Hi E. now injection E as <- _. Qed.
Lemma inv_err {A} e : inv_run (herr (A := A) e).
Proof. intros s s' r Hi E. now injection E as <- _. Qed.
Lemma inv_upd f : (forall k, I k -> I (f k)) -> inv_run (upd f).
Proof. intros Hf s s' r Hi E. injection E as <- _. now apply Hf. Qed.
Lemma inv_send msg m : inv_run (send msg m).
Proof. intros s s' r Hi E. now injection E as <- _. Qed.
Lemma inv_connect typ ids : inv_run (connect typ ids).
Proof. intros s s' r Hi E. now injection E as <- _. Qed.
Lemma inv_ctx ctx : inv_run (ctx_alive ctx).
Proof. destruct ctx; [apply inv_err|apply inv_ret]. Qed.
Lemma inv_bind {A B} (c : hnd Core A) (k : A -> hnd Core B) : inv_run c -> (forall a, inv_run (k a)) -> inv_run (hbind c k).
Proof.
  intros Hc Hk s s' r Hi E. unfold hbind in E. apply rbind_ok in E as ([s1 [a|e]] & E1 & E).
  - exact (Hk a _ _ _ (Hc _ _ _ Hi E1) E).
  - injection E as <- _. exact (Hc _ _ _ Hi E1).
Qed.
(** The continuation knows the value that it gets. *)
Lemma inv_lift_bind {A B} (c : res A) (k : A -> hnd Core B) : (forall a, c = Ok a -> inv_run (k a)) -> inv_run (hbind (hlift c) k).
Proof.
  intros Hk s s' r Hi E. unfold hbind, hlift in E. destruct c as [a|m|w]; cbn [rbind] in E; [|now injection E as <- _|discriminate].
  exact (Hk a eq_refl _ _ _ Hi E).
Qed.
Lemma inv_get_bind {B} (k : Core -> hnd Core B) : (forall s, I (self s) -> inv_run (k s)) -> inv_run (hbind hget k).
Proof. intros Hk s s' r Hi E. exact (Hk s Hi _ _ _ Hi E). Qed.
Lemma inv_both_bind {A B} (f : reader -> reader -> res (A * reader * reader)) (k : A -> hnd Core B) :
  (forall a r y r' y', f r y = Ok (a, r', y') -> inv_run (k a)) -> inv_run (hbind (draw_both f) k).
Proof.
  intros Hk s s' r Hi E. unfold hbind, draw_both in E. destruct (f _ _) as [[[a x] y]|m|w] eqn:Ef; cbn [rbind] in E; [|now injection E as <- _|discriminate].
  refine (Hk a _ _ _ _ Ef _ _ _ _ E). exact Hi.
Qed.
Lemma inv_lift {A} (c : res A) : inv_run (hlift c).
Proof. intros s s' r Hi E. unfold hlift in E. destruct c; [now injection E as <- _|now injection E as <- _|discriminate]. Qed.
Lemma inv_for {A} (f : A -> hnd Core unit) l : (forall a, inv_run (f a)) -> inv_run (hfor f l).
Proof. intros Hf. induction l as [|a l IH]; [apply inv_ret|]. apply inv_bind; [apply Hf|intros _; exact IH]. Qed.
Lemma inv_fold {A B} (f : B -> A -> hnd Core B) l : (forall b a, inv_run (f b a)) -> forall b, inv_run (hfold f b l).
Proof. intros Hf. induction l as [|a l IH]; intros b; [apply inv_ret|]. apply inv_bind; [apply Hf|exact IH]. Qed.

(** The callback keeps what its body keeps, if reporting an error keeps it. *)
Lemma inv_handle fail (c : hnd Core unit) s s' : (forall e k, I k -> I (fail e k)) -> inv_run c -> I (self s) -> handle fail c s = Ok s' -> I (self s').
Proof.
  intros Hf Hc Hi E. unfold handle in E. apply rbind_ok in E as ([s1 [u|e]] & E1 & E); injection E as <-; [exact (Hc _ _ _ Hi E1)|].
  apply Hf. exact (Hc _ _ _ Hi E1).
Qed.
End SelfInv.

(** Follows the text of a callback; what is left are its writes. *)
Ltac inv_step :=
  match goal with
  | |- inv_run _ (hbind (hlift _) _) => apply inv_lift_bind; intros
  | |- inv_run _ (hbind (hguard _ _) _) => apply inv_lift_bind; intros
  | |- inv_run _ (hbind hget _) => apply inv_get_bind; intros
  | |- inv_run _ (hbind (draw_both _) _) => apply inv_both_bind; intros
  | |- inv_run _ (hbind (draw_rand _) _) => apply inv_both_bind; intros
  | |- inv_run _ (hbind (draw_sys _) _) => apply inv_both_bind; intros
  | |- inv_run _ (hbind _ _) => apply inv_bind; [|intros]
  | |- inv_run _ (hret _) => apply inv_ret
  | |- inv_run _ (herr _) => apply inv_err
  | |- inv_run _ (hlift _) => apply inv_lift
  | |- inv_run _ (send _ _) => apply inv_send
  | |- inv_run _ (connect _ _) => apply inv_connect
  | |- inv_run _ (ctx_alive _) => apply inv_ctx
  | |- inv_run _ (upd _) => apply inv_upd; intros
  | |- inv_run _ (hfor _ _) => apply inv_for; intros
  | |- inv_run _ (hfold _ _ _) => apply inv_fold; intros
  | |- inv_run _ (let '(_, _) := ?p in _) => destruct p
  | |- inv_run _ (match ?p with _ => _ end) => destruct p eqn:?
  end.

(** A loop that ran to its end keeps an invariant indexed by the elements done. *)
Lemma hfor_done {S A} (P : list A -> S -> Prop) (f : A -> hnd S unit) l :
  (forall done a s s', P done s -> f a s = Ok (s', inl tt) -> P (done ++ [a]) s') ->
  forall done s s', P done s -> hfor f l s = Ok (s', inl tt) -> P (done ++ l) s'.
Proof.
  intros Hf. induction l as [|a l IH]; intros done s s' Hs H; cbn [hfor] in H.
  - injection H as <-. now rewrite app_nil_r.
  - apply hbind_ok in H as (s1 & [] & E & H). replace (done ++ a :: l) with ((done ++ [a]) ++ l) by now rewrite <- app_assoc. eauto.
Qed.

Lemma hfold_done {S A B} (P : list A -> B -> S -> Prop) (f : B -> A -> hnd S B) l :
  (forall done a b s b' s', P done b s -> f b a s = Ok (s', inl b') -> P (done ++ [a]) b' s') ->
  forall done b s b' s', P done b s -> hfold f b l s = Ok (s', inl b') -> P (done ++ l) b' s'.
Proof.
  intros Hf. induction l as [|a l IH]; intros done b s b' s' Hs H; cbn [hfold] in H.
  - injection H as <- <-. now rewrite app_nil_r.
  - apply hbind_ok in H as (s1 & b1 & E & H). replace (done ++ a :: l) with ((done ++ [a]) ++ l) by now rewrite <- app_assoc. eauto.
Qed.
