(* ===== verification/Round.v ===== *)
(** * Package [tss]: messages and the life cycle of a party

    [message.go] and [wire.go] (protobuf is a parameter), [round.go] and
    [party.go]: the state machine that every protocol of the original library
    shares.  A party's own data is of any type [D] and its rounds of any type [R];
    a party is a state with its mutex, its current round and its data, and the
    calls thread it, on error paths too.  A run that goes beyond the fuel is
    [None]. *)
From stdpp Require Import base gmap list.
From Stdlib Require Import ZArith String List Lia Bool.
From S2P Require Import Prelude GoBig Common Curve Party.
Import ListNotations.
Open Scope string_scope.
Open Scope Z_scope.
Open Scope list_scope.

(** ** message.go and wire.go *)
(** [anypb.Any] and the generated message types: packing and its two inverses;
    [unmarshal_new] is [None] for a message without [ValidateBasic]. *)
Class Proto := {
  Any : Type;
  Content : Type;
  any_new : Content -> Any;
  any_marshal : Any -> res bytes;
  any_unmarshal : bytes -> res Any;
  unmarshal_new : Any -> res (option Content);
  Content_ValidateBasic : Content -> bool
}.
Class ProtoLaws `{Proto} := {
  unmarshal_marshal : forall a bz, any_marshal a = Ok bz -> any_unmarshal bz = Ok a;
  unmarshal_new_any : forall c, unmarshal_new (any_new c) = Ok (Some c)
}.

Section Messages.
Context `{PB : Proto}.

(** [From] is a pointer that may be nil; a nil [To] is a broadcast. *)
Record MessageRouting := {
  From : option ref; To : option (list ref); IsBroadcast : bool;
  IsToOldCommittee : bool; IsToOldAndNewCommittees : bool
}.
Record MessageWrapper := {
  mw_IsBroadcast : bool; mw_IsToOldCommittee : bool; mw_IsToOldAndNewCommittees : bool;
  mw_From : option PartyWrapper; mw_To : option (list (option PartyWrapper)); mw_Message : Any
}.
Record MessageImpl := { mm_routing : MessageRouting; mm_content : option Content; mm_wire : MessageWrapper }.

Definition NewMessageWrapper (h : Heap) (routing : MessageRouting) (content : Content) : res MessageWrapper :=
  let any := any_new content in
  let! to :=
    match To routing with
    | None => Ok None
    | Some to => let! ws := mapM (fun r => let! p := load h r in Ok (wrapper p)) to in Ok (Some ws)
    end in
  let! from := deref (From routing) in
  let! from := load h from in
  Ok {| mw_IsBroadcast := IsBroadcast routing; mw_IsToOldCommittee := IsToOldCommittee routing;
        mw_IsToOldAndNewCommittees := IsToOldAndNewCommittees routing;
        mw_From := wrapper from; mw_To := to; mw_Message := any |}.

Definition NewMessage (meta : MessageRouting) (content : option Content) (wire : MessageWrapper) : MessageImpl :=
  {| mm_routing := meta; mm_content := content; mm_wire := wire |}.

Definition MessageImpl_GetTo (mm : MessageImpl) : option (list ref) := To (mm_routing mm).
Definition MessageImpl_GetFrom (mm : MessageImpl) : option ref := From (mm_routing mm).
Definition MessageImpl_IsBroadcast (mm : MessageImpl) : bool := mw_IsBroadcast (mm_wire mm).
Definition MessageImpl_IsToOldCommittee (mm : MessageImpl) : bool := mw_IsToOldCommittee (mm_wire mm).
Definition MessageImpl_IsToOldAndNewCommittees (mm : MessageImpl) : bool := mw_IsToOldAndNewCommittees (mm_wire mm).
Definition MessageImpl_ValidateBasic (mm : MessageImpl) : res bool :=
  let! c := deref (mm_content mm) in Ok (Content_ValidateBasic c).

Definition WireBytes (mm : MessageImpl) : res (bytes * MessageRouting) :=
  let! bz := any_marshal (mw_Message (mm_wire mm)) in Ok (bz, mm_routing mm).

Definition parseWrappedMessage (wire : MessageWrapper) (from : ref) : res MessageImpl :=
  let! m := unmarshal_new (mw_Message wire) in
  let meta := {| From := Some from; To := None; IsBroadcast := mw_IsBroadcast wire;
                 IsToOldCommittee := false; IsToOldAndNewCommittees := false |} in
  match m with
  | Some content => Ok (NewMessage meta (Some content) wire)
  | None => Err "ParseWireMessage: the message contained unknown content"
  end.

Definition ParseWireMessage (h : Heap) (wireBytes : bytes) (from : option ref) (isBroadcast : bool) : res MessageImpl :=
  match from with
  | None => Err "ParseWireMessage: nil or unresolved sender PartyID"
  | Some f =>
    match h !! f with
    | Some {| wrapper := Some w |} =>
      let! any := any_unmarshal wireBytes in
      parseWrappedMessage {| mw_IsBroadcast := isBroadcast; mw_IsToOldCommittee := false; mw_IsToOldAndNewCommittees := false;
                             mw_From := Some w; mw_To := None; mw_Message := any |} f
    | _ => Err "ParseWireMessage: nil or unresolved sender PartyID"
    end
  end.
End Messages.

(** ** round.go *)
(** The interface of a round; a call may change the party's data, also when it
    fails.  A nil next round is [None]. *)
Class Round (R D : Type) := {
  r_Start : R -> D -> D * res unit;
  r_Update : R -> D -> D * res bool;
  r_CanProceed : R -> D -> bool;
  r_NextRound : R -> D -> D * option R;
  r_RoundNumber : R -> Z;
  r_WaitingFor : R -> D -> list ref
}.
(** What a protocol's party adds to [BaseParty]. *)
Class PartyImpl `{Proto} (R D : Type) := {
  p_PartyID : option ref;
  p_FirstRound : R;
  p_StoreMessage : MessageImpl -> D -> D * res bool
}.

(** ** party.go *)
Record PState (R D : Type) := { mtx : bool; rnd : option R; data : D }.
Arguments mtx {R D}. Arguments rnd {R D}. Arguments data {R D}.

Section Machine.
Context `{PB : Proto} {R D : Type} `{RI : !Round R D} `{PI : !PartyImpl R D}.
Abbreviation St := (PState R D).

(** Calls that change the state and may fail; an error keeps the changes. *)
Definition M (A : Type) := St -> St * res A.
Definition mret {A} (a : A) : M A := fun s => (s, Ok a).
Definition mres {A} (c : res A) : M A := fun s => (s, c).
Definition mbind {A B} (c : M A) (k : A -> M B) : M B := fun s =>
  match c s with
  | (s, Ok a) => k a s
  | (s, Err e) => (s, Err e)
  | (s, Panic w) => (s, Panic w)
  end.
(** The error as a value, for the code that looks at it. *)
Definition mtry {A} (c : M A) : M (res A) := fun s =>
  match c s with
  | (s, Panic w) => (s, Panic w)
  | (s, r) => (s, Ok r)
  end.
Notation "'let^' x := c 'in' k" := (mbind c (fun x => k)) (at level 10, x pattern, c at level 200, k at level 200).

(** A call of the implementation, on its data. *)
Definition on_data {A} (f : D -> D * res A) : M A := fun s =>
  let (d, r) := f (data s) in ({| mtx := mtx s; rnd := rnd s; data := d |}, r).

Definition lock : M unit := fun s =>
  if mtx s then (s, Panic "deadlock") else ({| mtx := true; rnd := rnd s; data := data s |}, Ok tt).
Definition unlock : M unit := fun s =>
  if mtx s then ({| mtx := false; rnd := rnd s; data := data s |}, Ok tt) else (s, Panic "unlock of unlocked mutex").
(** [defer p.unlock()]: runs on every way out, panics included. *)
Definition deferred_unlock {A} (c : M A) : M A := fun s =>
  let (s, r) := c s in
  match unlock s with
  | (s, Panic w) => (s, Panic w)
  | (s, _) => (s, r)
  end.

Definition Running (s : St) : bool := is_some (rnd s).

Definition WaitingFor : M (list ref) :=
  let^ _ := lock in
  deferred_unlock (fun s =>
    match rnd s with None => (s, Ok []) | Some r => (s, Ok (r_WaitingFor r (data s))) end).

Definition ValidateMessage (h : Heap) (msg : option MessageImpl) : res bool :=
  match msg with
  | Some m =>
    guard (is_some (mm_content m)) "received nil msg" ;!
    let! ok := match MessageImpl_GetFrom m with None => Ok false | Some f => PartyID_ValidateBasic h f end in
    guard ok "received msg with an invalid sender" ;!
    let! ok := MessageImpl_ValidateBasic m in
    guard ok "message failed ValidateBasic" ;!
    Ok true
  | None => Err "received nil msg"
  end.

Definition setRound (r : R) : M unit := fun s =>
  match rnd s with
  | Some _ => (s, Err "a round is already set on this party")
  | None => ({| mtx := mtx s; rnd := Some r; data := data s |}, Ok tt)
  end.

Definition advance : M unit := fun s =>
  match rnd s with
  | None => (s, Panic "nil pointer dereference")
  | Some r => let (d, n) := r_NextRound r (data s) in ({| mtx := mtx s; rnd := n; data := d |}, Ok tt)
  end.

Definition get_round : M (option R) := fun s => (s, Ok (rnd s)).

Definition BaseStart (h : Heap) (prepare : list (R -> D -> D * res unit)) : M unit :=
  let^ _ := lock in
  deferred_unlock (
    let^ ok := mres (match p_PartyID with None => Ok false | Some me => PartyID_ValidateBasic h me end) in
    let^ _ := mres (guard ok "could not start. this party has an invalid PartyID") in
    let^ cur := get_round in
    let^ _ := mres (guard (negb (is_some cur)) "could not start. this party is in an unexpected state. use the constructor and Start()") in
    let round := p_FirstRound in
    let^ _ := setRound round in
    let^ _ := mres (guard (length prepare <=? 1)%nat "too many prepare functions given to Start(); 1 allowed") in
    let^ _ := match prepare with [f] => on_data (f round) | _ => mret tt end in
    let^ cur := get_round in
    let^ cur := mres (deref cur) in
    on_data (r_Start cur)).

(** The closure [r]: unlock, then return. *)
Definition r_exit {A} (c : res A) : M A := let^ _ := unlock in mres c.

(** One pass of [BaseUpdate]: [None] when it calls itself again. *)
Definition update_pass (h : Heap) (msg : option MessageImpl) : M (option bool) :=
  let^ _ := mres (ValidateMessage h msg) in
  let^ m := mres (deref msg) in
  let^ _ := lock in
  let^ stored := mtry (on_data (p_StoreMessage m)) in
  match stored with
  | Err e => r_exit (Err e)
  | Panic w => mres (Panic w)
  | Ok false => r_exit (Ok (Some false))
  | Ok true =>
    let^ cur := get_round in
    match cur with
    | None => r_exit (Ok (Some true))
    | Some rd =>
      let^ upd := mtry (on_data (r_Update rd)) in
      match upd with
      | Err e => r_exit (Err e)
      | Panic w => mres (Panic w)
      | Ok _ =>
        let^ go := (fun s => (s, Ok (r_CanProceed rd (data s)))) in
        if (go : bool) then
          let^ _ := advance in
          let^ cur := get_round in
          let^ started := match cur with None => mret (Ok tt) | Some rd' => mtry (on_data (r_Start rd')) end in
          match started with
          | Err e => r_exit (Err e)
          | Panic w => mres (Panic w)
          | Ok _ => let^ _ := unlock in mret None
          end
        else r_exit (Ok (Some true))
      end
    end
  end.

Fixpoint BaseUpdate (fuel : nat) (h : Heap) (msg : option MessageImpl) (s : St) : option (St * res bool) :=
  match fuel with
  | O => None
  | S fuel =>
    match update_pass h msg s with
    | (s, Ok (Some ok)) => Some (s, Ok ok)
    | (s, Ok None) => BaseUpdate fuel h msg s
    | (s, Err e) => Some (s, Err e)
    | (s, Panic w) => Some (s, Panic w)
    end
  end.

(** ** The life cycle *)
(** The round is over, or it cannot proceed. *)
Definition settled (s : St) : Prop :=
  match rnd s with None => True | Some r => r_CanProceed r (data s) = false end.

(** The current round was kept, or it was replaced by its successor. *)
Definition moved (s s' : St) : Prop :=
  rnd s' = rnd s \/ exists r d d', rnd s = Some r /\ r_NextRound r d = (d', rnd s').

(** Closes the goal at the end of a path of a pass. *)
Ltac end_pass :=
  cbn [mtx rnd data]; let E := fresh "E" in intros E; injection E as <- <-; unfold moved, settled; cbn [mtx rnd data is_panic];
  split; [solve [left; reflexivity | right; eauto 6]|];
  split; [intros; first [reflexivity | discriminate]|];
  split; intros; first [discriminate | assumption | exact I | eauto 6].

Lemma update_pass_spec h msg s s' r : mtx s = false -> update_pass h msg s = (s', r) ->
  moved s s' /\ (is_panic r = false -> mtx s' = false) /\
  (r = Ok (Some true) -> settled s') /\
  (r = Ok None -> exists rd d d', rnd s = Some rd /\ r_NextRound rd d = (d', rnd s')).
Proof.
  intros Hm. destruct s as [mx rn d]. cbn [mtx] in Hm. subst mx.
  unfold update_pass, r_exit, mbind, mres, mret, mtry, on_data, lock, unlock, advance, get_round. cbn [mtx rnd data].
  destruct (ValidateMessage h msg) as [b|e|w]; [|end_pass|end_pass].
  destruct msg as [m|]; cbn [deref]; [|end_pass].
  destruct (p_StoreMessage m d) as [d1 [[|]|e|w]]; cbn [mtx rnd data]; [|end_pass|end_pass|end_pass].
  destruct rn as [rd|]; cbn [mtx rnd data]; [|end_pass].
  destruct (r_Update rd d1) as [d2 [u|e|w]]; cbn [mtx rnd data]; [|end_pass|end_pass].
  destruct (r_CanProceed rd d2) eqn:Ec; cbn [mtx rnd data]; [|end_pass].
  destruct (r_NextRound rd d2) as [d3 [rd'|]] eqn:En; cbn [mtx rnd data]; [|end_pass].
  destruct (r_Start rd' d3) as [d4 [u'|e|w]]; end_pass.
Qed.

(** A measure of the rounds that are left. *)
Definition rounds_left (m : R -> nat) (s : St) : nat := match rnd s with None => 0 | Some r => S (m r) end.


(** The states of a party that is started and fed messages, in any order and any
    number, by calls that do not panic. *)
Inductive party_step (s : St) : St -> Prop :=
| step_start h prepare s' r : BaseStart h prepare s = (s', r) -> is_panic r = false -> party_step s s'
| step_update fuel h msg s' r : BaseUpdate fuel h msg s = Some (s', r) -> is_panic r = false -> party_step s s'
| step_waiting s' r : WaitingFor s = (s', r) -> is_panic r = false -> party_step s s'.
Inductive reachable : St -> Prop :=
| reach_init d : reachable {| mtx := false; rnd := None; data := d |}
| reach_step s s' : reachable s -> party_step s s' -> reachable s'.

(** The rounds that follow the first one. *)
Inductive round_of : R -> Prop :=
| round_first : round_of p_FirstRound
| round_next r d d' r' : round_of r -> r_NextRound r d = (d', Some r') -> round_of r'.

Definition good (s : St) : Prop := mtx s = false /\ match rnd s with None => True | Some r => round_of r end.

Lemma moved_good s s' : good s -> moved s s' -> mtx s' = false -> good s'.
Proof.
  intros [_ Hr] Hmv Hm. split; [assumption|]. destruct Hmv as [E|(r & d & d' & Er & En)]; [now rewrite E|].
  rewrite Er in Hr. destruct (rnd s') as [r'|]; [|exact I]. eapply round_next; eassumption.
Qed.

Lemma BaseUpdate_good fuel h msg : forall s s' r, good s -> BaseUpdate fuel h msg s = Some (s', r) ->
  is_panic r = false -> good s'.
Proof.
  induction fuel as [|fuel IH]; intros s s' r Hg H Hp; [discriminate H|]. cbn [BaseUpdate] in H.
  destruct (update_pass h msg s) as [s1 r1] eqn:E.
  destruct (update_pass_spec _ _ _ _ _ (proj1 Hg) E) as (Hmv & Hun & _ & _).
  destruct r1 as [[ok|]|e|w]; [| |injection H as <- <-|injection H as <- <-; discriminate Hp].
  - injection H as <- <-. apply (moved_good s); auto.
  - apply (IH s1 s' r); [|assumption..]. apply (moved_good s); auto.
  - apply (moved_good s); auto.
Qed.

Lemma BaseStart_good h prepare s s' r : good s -> BaseStart h prepare s = (s', r) -> is_panic r = false -> good s'.
Proof.
  intros [Hm Hr]. destruct s as [mx rn d]. cbn [mtx rnd] in *. subst mx.
  unfold BaseStart, deferred_unlock, mbind, mres, mret, on_data, lock, unlock, get_round, setRound, guard. cbn [mtx rnd data].
  destruct (match p_PartyID with None => _ | Some me => _ end) as [[|]|e|w]; cbn [mtx rnd data];
    [|intros E; injection E as <- <-; now split..].
  destruct rn as [rd|]; cbn [is_some negb mtx rnd data]; [intros E; injection E as <- <-; now split|].
  destruct prepare as [|f [|g prepare]]; cbn [length Nat.leb mtx rnd data deref].
  - destruct (r_Start p_FirstRound d) as [d1 [u|e|w]]; cbn [mtx rnd data]; intros E; injection E as <- <-; split;
      cbn [mtx rnd data]; constructor.
  - destruct (f p_FirstRound d) as [d1 [u|e|w]]; cbn [mtx rnd data deref];
      [|intros E; injection E as <- <-; split; cbn [mtx rnd data]; constructor..].
    destruct (r_Start p_FirstRound d1) as [d2 [u'|e|w]]; cbn [mtx rnd data]; intros E; injection E as <- <-; split;
      cbn [mtx rnd data]; constructor.
  - intros E; injection E as <- <-; split; cbn [mtx rnd data]; constructor.
Qed.

(** C29. The invariant of a party's life: between calls its mutex is free, and its
    current round is the first round or one that follows it in the protocol. *)
Theorem reachable_good s : reachable s -> good s.
Proof.
  induction 1 as [d|s s' _ Hg [h prepare s1 r E Hp|fuel h msg s1 r E Hp|s1 r E Hp]].
  - split; [reflexivity|exact I].
  - eapply BaseStart_good; eassumption.
  - eapply BaseUpdate_good; eassumption.
  - destruct s as [mx rn d], Hg as [Hm Hr]. cbn [mtx rnd] in *. subst mx.
    unfold WaitingFor, deferred_unlock, mbind, lock, unlock in E. cbn [mtx rnd data] in E.
    destruct rn; injection E as <- <-; now split.
Qed.
End Machine.

(** ** Messages over the wire *)
Section Wire.
Context `{PL : ProtoLaws}.

(** The wire round trip: the bytes of a message, parsed by a receiver who knows
    the sender and the mode of delivery, give a message with the same content,
    sender and mode. *)
Theorem ParseWireMessage_roundtrip h f routing content wire bz routing' :
  valid_ref h f -> From routing = Some f -> NewMessageWrapper h routing content = Ok wire ->
  WireBytes (NewMessage routing (Some content) wire) = Ok (bz, routing') ->
  routing' = routing /\ exists mm, ParseWireMessage h bz (Some f) (IsBroadcast routing) = Ok mm /\
    mm_content mm = Some content /\ MessageImpl_GetFrom mm = Some f /\ MessageImpl_IsBroadcast mm = IsBroadcast routing.
Proof.
  intros (p & w & Hp & Hw) Hf HW HB. unfold NewMessageWrapper in HW. inv_res. unfold WireBytes in HB. inv_res.
  split; [reflexivity|]. cbn [NewMessage mm_wire mw_Message] in *.
  unfold ParseWireMessage. rewrite Hp. destruct p as [wr ix]. cbn [wrapper] in Hw. subst wr.
  match goal with E : any_marshal _ = Ok _ |- _ => rewrite (unmarshal_marshal _ _ E) end. cbn [rbind].
  unfold parseWrappedMessage. cbn [mw_Message mw_IsBroadcast]. rewrite unmarshal_new_any. cbn [rbind].
  eexists. split; [reflexivity|]. repeat split.
Qed.
End Wire.

(** ** Evaluation on concrete inputs *)
#[export] Instance toy_proto : Proto := {|
  Any := Z; Content := Z; any_new := fun c => c; any_marshal := fun a => Ok [a];
  any_unmarshal := fun bz => match bz with [a] => Ok a | _ => Err "proto" end;
  unmarshal_new := fun a => Ok (Some a); Content_ValidateBasic := fun _ => true |}.
#[export] Instance toy_proto_laws : @ProtoLaws toy_proto.
Proof. split; [intros a bz E; injection E as <-; reflexivity|reflexivity]. Qed.

(** A protocol with the rounds 3, 2, 1, 0 that waits for two messages in each. *)
#[export] Instance toy_round : Round nat nat := {|
  r_Start := fun _ _ => (0%nat, Ok tt); r_Update := fun _ d => (d, Ok true);
  r_CanProceed := fun _ d => (2 <=? d)%nat;
  r_NextRound := fun r d => (d, match r with O => None | S r => Some r end);
  r_RoundNumber := Z.of_nat; r_WaitingFor := fun _ _ => [] |}.
#[export] Instance toy_party : @PartyImpl toy_proto nat nat := {|
  p_PartyID := Some 5%nat; p_FirstRound := 3%nat; p_StoreMessage := fun _ d => (S d, Ok true) |}.

Definition w_msg : option (@MessageImpl toy_proto) :=
  Some {| mm_routing := {| From := Some 5%nat; To := None; IsBroadcast := true; IsToOldCommittee := false; IsToOldAndNewCommittees := false |};
          mm_content := Some 8;
          mm_wire := {| mw_IsBroadcast := true; mw_IsToOldCommittee := false; mw_IsToOldAndNewCommittees := false;
                        mw_From := None; mw_To := None; mw_Message := 8 |} |}.
Definition w_state : PState nat nat := {| mtx := false; rnd := Some 3%nat; data := 1%nat |}.
Definition w_heap1 : Heap := <[5%nat := {| wrapper := wrapper (w_party 30); Index := 0 |}]> empty.


Lemma reachable_good_witness : good (fst (BaseStart w_heap1 [] {| mtx := false; rnd := None; data := 7%nat |})).
Proof.
  apply reachable_good. eapply reach_step; [apply (reach_init 7%nat)|].
  eapply step_start with (h := w_heap1) (prepare := []); [apply surjective_pairing|reflexivity].
Defined.

Definition w_routing : MessageRouting :=
  {| From := Some 5%nat; To := None; IsBroadcast := true; IsToOldCommittee := false; IsToOldAndNewCommittees := false |}.

Lemma ParseWireMessage_roundtrip_witness : w_routing = w_routing /\
  exists mm, @ParseWireMessage toy_proto w_heap1 [8] (Some 5%nat) true = Ok mm /\
    mm_content mm = Some (8 : @Content toy_proto) /\ MessageImpl_GetFrom mm = Some 5%nat /\ MessageImpl_IsBroadcast mm = true.
Proof.
  apply (@ParseWireMessage_roundtrip toy_proto toy_proto_laws w_heap1 5%nat w_routing (8 : @Content toy_proto)
    {| mw_IsBroadcast := true; mw_IsToOldCommittee := false; mw_IsToOldAndNewCommittees := false;
       mw_From := wrapper (w_party 30); mw_To := None; mw_Message := (8 : @Any toy_proto) |} [8] w_routing);
    [|reflexivity|reflexivity|reflexivity].
  eexists _, _. split; reflexivity.
Defined.
