(* ===== verification/Json.v ===== *)
(** * Package [tss]: brokers and message collection

    [broker.go] and [json.go].  [jsonExpect] collects one packet from each party
    of a round and calls back once all have come; every networked protocol of the
    library is built from it.  The callback of a [Receive] is part of its result.
    The decoding of a raw JSON value is a parameter; a JSON null decodes to a nil
    pointer. *)
From stdpp Require Import base gmap list strings.
From Stdlib Require Import ZArith String List Lia Bool.
From S2P Require Import Prelude GoBig Common Curve Party.
Import ListNotations.
Open Scope string_scope.
Open Scope Z_scope.
Open Scope list_scope.

(** [encoding/json] on the raw data of a message, into a [*T]. *)
Class Json (T : Type) := {
  Raw : Type;
  raw_null : Raw;
  json_unmarshal : Raw -> res (option T)
}.
Class JsonLaws (T : Type) `{Json T} := { unmarshal_null : json_unmarshal raw_null = Ok None }.

(** ** json.go *)
(** The dynamic type of [Data]: raw JSON, a [*T], or something else. *)
Inductive Data (T RawT : Type) :=
| DRaw (raw : RawT)
| DVal (p : option T)
| DOther.
Arguments DRaw {T RawT}. Arguments DVal {T RawT}. Arguments DOther {T RawT}.

Record JsonMessage (T RawT : Type) := { jm_Type : string; jm_From : option ref; jm_To : option ref; jm_Data : Data T RawT }.
Arguments jm_Type {T RawT}. Arguments jm_From {T RawT}. Arguments jm_To {T RawT}. Arguments jm_Data {T RawT}.

Record jsonExpect (T : Type) := { je_Type : string; je_From : list ref; je_Packet : list (option T); je_missing : Z }.
Arguments je_Type {T}. Arguments je_From {T}. Arguments je_Packet {T}. Arguments je_missing {T}.

(** The arguments of the callback. *)
Definition Callback (T : Type) : Type := list ref * list (option T).

Section Expect.
Context {T : Type} `{JS : Json T}.
Abbreviation Msg := (JsonMessage T Raw).

Definition JsonGet (j : Msg) : res (option T) :=
  match jm_Data j with
  | DRaw n => json_unmarshal n
  | DVal n => Ok n
  | DOther => Err "incompatible type %T while getting %T"
  end.

Definition JsonWrap (typ : string) (o : option T) (from to : option ref) : Msg :=
  {| jm_Type := typ; jm_From := from; jm_To := to; jm_Data := DVal o |}.

Definition NewJsonExpect (typ : string) (parties : list ref) : jsonExpect T :=
  {| je_Type := typ; je_From := parties; je_Packet := repeat None (length parties); je_missing := Z.of_nat (length parties) |}.

(** The loop that locates the party: the first position with a nil packet and the
    sender's key. *)
Fixpoint locate (h : Heap) (ki : Z) (n : nat) (From : list ref) (Packet : list (option T)) : res (option nat) :=
  match From with
  | [] => Ok None
  | p :: From =>
    let! pk := idx Packet n in
    if is_some pk then locate h ki (S n) From Packet
    else
      let! k := KeyInt h p in
      if Cmp k ki =? 0 then Ok (Some n) else locate h ki (S n) From Packet
  end.

(** The object, the callback it made if any, and the returned error. *)
Definition jsonExpect_Receive (h : Heap) (e : jsonExpect T) (msg : Msg) : jsonExpect T * option (Callback T) * res unit :=
  if negb (String.eqb (jm_Type msg) (je_Type e)) then (e, None, Err "unexpected message type %s while we want %s")
  else if je_missing e =? 0 then (e, None, Err "json expect has completed")
  else
    match JsonGet msg with
    | Err m => (e, None, Err m)
    | Panic w => (e, None, Panic w)
    | Ok obj =>
      match (let! f := deref (jm_From msg) in let! ki := KeyInt h f in locate h ki 0 (je_From e) (je_Packet e)) with
      | Err m => (e, None, Err m)
      | Panic w => (e, None, Panic w)
      | Ok None => (e, None, Err "unexpected source peer")
      | Ok (Some n) =>
        let Packet := <[n := obj]> (je_Packet e) in
        let missing := je_missing e - 1 in
        let e' := {| je_Type := je_Type e; je_From := je_From e; je_Packet := Packet; je_missing := missing |} in
        (e', if missing =? 0 then Some (je_From e, Packet) else None, Ok tt)
      end
    end.

(** A sequence of messages, in the order they arrive; the callbacks in order. *)
Fixpoint receive_all (h : Heap) (e : jsonExpect T) (msgs : list Msg) : jsonExpect T * list (Callback T) :=
  match msgs with
  | [] => (e, [])
  | m :: msgs =>
    let '(e, cb, _) := jsonExpect_Receive h e m in
    let '(e, cbs) := receive_all h e msgs in
    (e, match cb with Some c => c :: cbs | None => cbs end)
  end.
End Expect.

(** ** broker.go *)
(** The broker's table; a receiver is any handler [H]. *)
Definition testBroker (H : Type) : Type := gmap string H.
Definition NewTestBroker {H} : testBroker H := empty.
Definition testBroker_Connect {H} (b : testBroker H) (typ : string) (dest : H) : testBroker H := <[typ := dest]> b.
Definition testBroker_Receive {H} (b : testBroker H) (typ : string) : res H :=
  match b !! typ with Some tgt => Ok tgt | None => Err "no handler for message type %s" end.

(** ** The abstract collector *)
(** A partial map from positions to packets; the first packet of a position
    counts, and the collection completes once, with all of them. *)
Inductive Outcome (T : Type) := Rejected | Accepted | Completed (packets : list (option T)).
Arguments Rejected {T}. Arguments Accepted {T}. Arguments Completed {T}.

Definition collect {T} (n : nat) (got : gmap nat T) (i : nat) (x : T) : gmap nat T * Outcome T :=
  match got !! i with
  | Some _ => (got, Rejected)
  | None =>
    let got' := <[i := x]> got in
    (got', if (size got' =? n)%nat then Completed (map (fun j => got' !! j) (seq 0 n)) else Accepted)
  end.
Fixpoint collect_all {T} (n : nat) (got : gmap nat T) (xs : list (nat * T)) : gmap nat T * list (list (option T)) :=
  match xs with
  | [] => (got, [])
  | (i, x) :: xs =>
    let '(got, o) := collect n got i x in
    let '(got, os) := collect_all n got xs in
    (got, match o with Completed ps => ps :: os | _ => os end)
  end.

(** ** The abstract collector, as a function of the whole sequence *)
Section Collector.
Context {T : Type}.
Implicit Types (got : gmap nat T) (xs : list (nat * T)).

(** The first packet of position [i]. *)
Fixpoint first_of (i : nat) xs : option T :=
  match xs with
  | [] => None
  | (j, x) :: xs => if (j =? i)%nat then Some x else first_of i xs
  end.

Definition within (n : nat) got : Prop := forall i x, got !! i = Some x -> (i < n)%nat.

Lemma within_size n got : within n got -> (size got <= n)%nat.
Proof.
  intros H. transitivity (size (set_seq 0 n : gset nat)); [|now rewrite size_set_seq].
  rewrite <- size_dom. apply subseteq_size. intros i [x Hx]%elem_of_dom. apply elem_of_set_seq. apply H in Hx. lia.
Qed.

Lemma within_insert n got i x : within n got -> (i < n)%nat -> within n (<[i := x]> got).
Proof.
  intros H Hi j y. destruct (decide (i = j)) as [->|Hne]; [intros _; assumption|].
  rewrite lookup_insert_ne by assumption. apply H.
Qed.

(** A full collector has every position. *)
Lemma full_lookup n got i : within n got -> size got = n -> (i < n)%nat -> got !! i <> None.
Proof.
  intros H Hs Hi E. destruct (map_to_list got) as [|[j y] l] eqn:El.
  - apply map_to_list_empty_iff in El. subst got. rewrite map_size_empty in Hs. lia.
  - pose proof (within_size n _ (within_insert n got i y H Hi)) as Hle. rewrite map_size_insert_None in Hle by assumption. lia.
Qed.

Lemma collect_all_spec n xs : Forall (fun p => (fst p < n)%nat) xs -> forall got, within n got ->
  let '(got', out) := collect_all n got xs in
  within n got' /\ (forall i, got' !! i = match got !! i with Some y => Some y | None => first_of i xs end) /\
  out = (if (size got =? n)%nat then [] else if (size got' =? n)%nat then [map (fun j => got' !! j) (seq 0 n)] else []).
Proof.
  induction 1 as [|[i x] xs Hi _ IH]; intros got Hg; cbn [collect_all first_of fst] in *.
  - split; [assumption|]. split; [intros i; now destruct (got !! i)|]. now destruct (size got =? n)%nat.
  - unfold collect. destruct (got !! i) as [y|] eqn:Ei.
    + specialize (IH got Hg). destruct (collect_all n got xs) as [got' out]. destruct IH as (W & L & O).
      split; [assumption|]. split; [|assumption]. intros j. rewrite L. destruct (got !! j) eqn:Ej; [reflexivity|].
      destruct (Nat.eqb_spec i j) as [->|]; [congruence|reflexivity].
    + specialize (IH (<[i := x]> got) (within_insert n got i x Hg Hi)).
      destruct (collect_all n (<[i := x]> got) xs) as [got' out]. destruct IH as (W & L & O).
      assert (Hs : (size got =? n)%nat = false).
      { apply Nat.eqb_neq. intros Hs. now apply (full_lookup n got i Hg Hs Hi). }
      rewrite Hs. split; [assumption|]. split.
      { intros j. rewrite L. destruct (Nat.eqb_spec i j) as [->|Hne].
        - rewrite lookup_insert_eq, Ei. reflexivity.
        - now rewrite lookup_insert_ne by assumption. }
      subst out. destruct (Nat.eqb_spec (size (<[i := x]> got)) n) as [Hf|Hf]; [|reflexivity].
      assert (Eq : got' = <[i := x]> got).
      { apply map_eq. intros j. rewrite L. destruct (<[i := x]> got !! j) eqn:Ej; [reflexivity|].
        destruct (Nat.lt_ge_cases j n) as [Hj|Hj]; [exfalso; eapply full_lookup; [|exact Hf|exact Hj|exact Ej]|].
        - now apply within_insert.
        - destruct (first_of j xs) eqn:Ef; [|reflexivity]. exfalso.
          assert (Hl : got' !! j = Some t) by (now rewrite L, Ej, Ef). apply W in Hl. lia. }
      rewrite Eq, Hf, Nat.eqb_refl. reflexivity.
Qed.

(** A sequence that has a packet for every position completes exactly once. *)
Lemma collect_all_complete n xs : (0 < n)%nat -> Forall (fun p => (fst p < n)%nat) xs ->
  (forall i, (i < n)%nat -> first_of i xs <> None) ->
  snd (collect_all n empty xs) = [map (fun i => first_of i xs) (seq 0 n)].
Proof.
  intros Hn F Hall. pose proof (collect_all_spec n xs F empty) as H.
  destruct (collect_all n empty xs) as [got out]. destruct H as (W & L & ->); [intros i x E; now rewrite lookup_empty in E|].
  cbn [snd]. rewrite map_size_empty. destruct (Nat.eqb_spec 0 n); [lia|].
  assert (Hs : size got = n).
  { apply Nat.le_antisymm; [now apply within_size|]. transitivity (size (set_seq 0 n : gset nat)); [now rewrite size_set_seq|].
    rewrite <- size_dom. apply subseteq_size.
    intros i Hi%elem_of_set_seq. apply elem_of_dom. rewrite L, lookup_empty.
    destruct (first_of i xs) eqn:E; [eauto|]. exfalso. apply (Hall i); [lia|assumption]. }
  rewrite Hs, Nat.eqb_refl. f_equal. apply map_ext. intros i. now rewrite L, lookup_empty.
Qed.
End Collector.

(** ** Refinement *)
Lemma nth_error_lookup {A} (l : list A) i : nth_error l i = l !! i.
Proof. revert i. induction l as [|a l IH]; intros [|i]; cbn; auto. Qed.

Lemma list_of_lookups {A} (l : list A) (f : nat -> A) n : length l = n ->
  (forall i, (i < n)%nat -> nth_error l i = Some (f i)) -> l = map f (seq 0 n).
Proof.
  intros L H. apply nth_error_ext. intros i. destruct (Nat.lt_ge_cases i n) as [Hi|Hi].
  - rewrite H by assumption. symmetry. apply map_nth_error, nth_error_seq_0. exact Hi.
  - rewrite !(proj2 (nth_error_None _ _)); [reflexivity|now rewrite length_map, length_seq|lia].
Qed.

Section Refine.
Context {T : Type} `{JL : JsonLaws T}.
Variables (h : Heap) (parties : list ref).
Abbreviation n := (length parties).
Hypothesis Hvalid : Forall (valid_ref h) parties.
(** The parties of a round have different keys. *)
Hypothesis Hkeys : forall i j p p', nth_error parties i = Some p -> nth_error parties j = Some p' ->
  key_of h p = key_of h p' -> i = j.

(** The collector that an object stands for. *)
Definition sim (e : jsonExpect T) (got : gmap nat T) : Prop :=
  je_From e = parties /\ length (je_Packet e) = n /\ within n got /\
  (forall i, (i < n)%nat -> nth_error (je_Packet e) i = Some (got !! i)) /\
  je_missing e = Z.of_nat n - Z.of_nat (size got).

(** The message carries the object [x] from the party of position [i]. *)
Definition delivers (typ : string) (msg : JsonMessage T Raw) (i : nat) (obj : option T) : Prop :=
  jm_Type msg = typ /\ JsonGet msg = Ok obj /\
  exists f p, jm_From msg = Some f /\ valid_ref h f /\ nth_error parties i = Some p /\ key_of h f = key_of h p.

Lemma locate_none ki (Packet : list (option T)) suf : forall k, Forall (valid_ref h) suf -> length Packet = (k + length suf)%nat ->
  (forall j p, nth_error suf j = Some p -> key_of h p <> ki) -> locate h ki k suf Packet = Ok None.
Proof.
  induction suf as [|p suf IH]; intros k F L Hk; cbn [locate length] in *; [reflexivity|].
  inversion_clear F as [|? ? Hp F'].
  destruct (nth_error Packet k) as [pk|] eqn:E; [|apply nth_error_None in E; lia].
  unfold idx. rewrite E. cbn [rbind].
  assert (IH' : locate h ki (S k) suf Packet = Ok None)
    by (apply IH; [assumption|lia|intros j; apply (Hk (S j))]).
  destruct pk; cbn [is_some]; [exact IH'|]. rewrite KeyInt_valid by assumption. cbn [rbind]. rewrite Cmp_eq.
  destruct (Z.eqb_spec (key_of h p) ki) as [E'|]; [|exact IH']. now destruct (Hk 0%nat p eq_refl).
Qed.

Lemma locate_ok ki (Packet : list (option T)) i suf : forall k, Forall (valid_ref h) suf -> length Packet = (k + length suf)%nat ->
  (k <= i < k + length suf)%nat ->
  (forall j p, nth_error suf j = Some p -> (key_of h p = ki <-> (k + j)%nat = i)) ->
  locate h ki k suf Packet = Ok (match nth_error Packet i with Some None => Some i | _ => None end).
Proof.
  induction suf as [|p suf IH]; intros k F L Hi Hk; cbn [length] in *; [lia|]. cbn [locate].
  inversion_clear F as [|? ? Hp F'].
  destruct (nth_error Packet k) as [pk|] eqn:E; [|apply nth_error_None in E; lia].
  unfold idx. rewrite E. cbn [rbind].
  pose proof (Hk 0%nat p eq_refl) as H0. rewrite Nat.add_0_r in H0.
  destruct (Nat.eq_dec k i) as [->|Hne].
  - rewrite E. assert (IHn : locate h ki (S i) suf Packet = Ok None).
    { apply locate_none; [assumption|lia|]. intros j p' Ej K. apply (Hk (S j) p' Ej) in K. lia. }
    destruct pk; cbn [is_some]; [exact IHn|]. rewrite KeyInt_valid by assumption. cbn [rbind]. rewrite Cmp_eq.
    rewrite (proj2 H0 eq_refl), Z.eqb_refl. reflexivity.
  - assert (IH' : locate h ki (S k) suf Packet = Ok (match nth_error Packet i with Some None => Some i | _ => None end)).
    { apply IH; [assumption|lia|lia|]. intros j p' Ej. rewrite (Hk (S j) p' Ej). lia. }
    destruct pk; cbn [is_some]; [exact IH'|]. rewrite KeyInt_valid by assumption. cbn [rbind]. rewrite Cmp_eq.
    destruct (Z.eqb_spec (key_of h p) ki) as [E'|]; [|exact IH']. apply H0 in E'. lia.
Qed.

(** The search for the sender of a message. *)
Lemma locate_sender (e : jsonExpect T) typ msg i obj : je_From e = parties -> length (je_Packet e) = n -> delivers typ msg i obj ->
  (let! f := deref (jm_From msg) in let! ki := KeyInt h f in locate h ki 0 (je_From e) (je_Packet e)) =
  Ok (match nth_error (je_Packet e) i with Some None => Some i | _ => None end).
Proof.
  intros HF HP (_ & _ & f & p & Ef & Vf & Ep & Ek). rewrite Ef. cbn [deref rbind]. rewrite KeyInt_valid by assumption.
  cbn [rbind]. rewrite HF. apply locate_ok; [assumption|cbn [Nat.add]; exact HP| |].
  - split; [lia|]. apply nth_error_Some. now rewrite Ep.
  - intros j p' Ej. rewrite Ek. cbn [Nat.add]. split; [intros E; now apply (Hkeys j i p' p)|].
    intros ->. rewrite Ep in Ej. now injection Ej as ->.
Qed.

Lemma sim_init typ : sim (NewJsonExpect typ parties) empty.
Proof.
  split; [reflexivity|]. cbn [NewJsonExpect je_Packet je_missing]. split; [apply repeat_length|].
  split; [intros i x E; now rewrite lookup_empty in E|]. split.
  - intros i Hi. rewrite lookup_empty, nth_error_repeat by assumption. reflexivity.
  - rewrite map_size_empty. lia.
Qed.

(** One message refines one abstract step. *)
Lemma receive_step e got typ msg i x : sim e got -> je_Type e = typ -> delivers typ msg i (Some x) ->
  let '(e', cb, r) := jsonExpect_Receive h e msg in
  let '(got', o) := collect n got i x in
  sim e' got' /\ je_Type e' = typ /\
  match o with
  | Rejected => cb = None /\ is_ok r = false /\ is_panic r = false
  | Accepted => cb = None /\ r = Ok tt
  | Completed ps => cb = Some (parties, ps) /\ r = Ok tt
  end.
Proof.
  intros (HF & HP & HW & HN & HM) HT HD. pose proof HD as (ET & EG & _ & p & _ & _ & Ep & _).
  assert (Hi : (i < n)%nat) by (apply nth_error_Some; now rewrite Ep).
  unfold jsonExpect_Receive. rewrite ET, HT, String.eqb_refl. cbn [negb]. unfold collect.
  destruct (Z.eqb_spec (je_missing e) 0) as [Hz|Hz].
  - destruct (got !! i) eqn:Ei.
    + repeat split; auto; apply HN.
    + exfalso. apply (full_lookup n got i HW ltac:(lia) Hi Ei).
  - rewrite EG, (locate_sender e typ msg i (Some x) HF HP HD), (HN i Hi).
    destruct (got !! i) eqn:Ei; [repeat split; auto; apply HN|].
    assert (Hs : size (<[i := x]> got) = S (size got)) by now apply map_size_insert_None.
    assert (HN' : forall j, (j < n)%nat -> nth_error (<[i := Some x]> (je_Packet e)) j = Some (<[i := x]> got !! j)).
    { intros j Hj. rewrite nth_error_lookup. destruct (decide (i = j)) as [->|Hne].
      - rewrite lookup_insert_eq. apply list_lookup_insert_eq. lia.
      - rewrite list_lookup_insert_ne, <- nth_error_lookup, lookup_insert_ne by assumption. now apply HN. }
    set (e' := {| je_Type := _ |}). split; [|split; [reflexivity|]].
    + split; [exact HF|]. split; [cbn [je_Packet e']; now rewrite length_insert|]. split; [now apply within_insert|].
      split; [exact HN'|cbn [je_missing e']; lia].
    + replace (je_missing e - 1 =? 0) with (size (<[i := x]> got) =? n)%nat.
      2: { destruct (Nat.eqb_spec (size (<[i := x]> got)) n), (Z.eqb_spec (je_missing e - 1) 0); lia || reflexivity. }
      destruct (size (<[i := x]> got) =? n)%nat; [|auto]. split; [|reflexivity]. rewrite HF. do 2 f_equal.
      apply list_of_lookups; [now rewrite length_insert|exact HN'].
Qed.

(** A sequence of messages refines the abstract run: the callbacks are the
    abstract completions. *)
Lemma receive_all_refines typ msgs xs :
  Forall2 (fun msg p => delivers typ msg (fst p) (Some (snd p))) msgs xs ->
  forall e got, sim e got -> je_Type e = typ ->
  let '(e', cbs) := receive_all h e msgs in
  let '(got', outs) := collect_all n got xs in
  sim e' got' /\ cbs = map (fun ps => (parties, ps)) outs.
Proof.
  induction 1 as [|msg [i x] msgs xs HD _ IH]; intros e got Hs HT; cbn [receive_all collect_all]; [auto|].
  pose proof (receive_step e got typ msg i x Hs HT HD) as St.
  destruct (jsonExpect_Receive h e msg) as [[e1 cb] r]. destruct (collect n got i x) as [got1 o].
  destruct St as (Hs1 & HT1 & Ho). specialize (IH e1 got1 Hs1 HT1).
  destruct (receive_all h e1 msgs) as [e2 cbs]. destruct (collect_all n got1 xs) as [got2 outs].
  destruct IH as (Hs2 & ->). split; [assumption|]. destruct o as [| |ps].
  - now destruct Ho as (-> & _).
  - now destruct Ho as (-> & _).
  - now destruct Ho as (-> & _).
Qed.

Lemma delivers_index typ msgs xs :
  Forall2 (fun msg p => delivers typ msg (fst p) (Some (snd p))) msgs xs -> Forall (fun p => (fst p < n)%nat) xs.
Proof.
  induction 1 as [|msg [i x] msgs xs (_ & _ & f & p & _ & _ & Ep & _) _ IH]; constructor; [|assumption].
  apply nth_error_Some. cbn [fst] in *. now rewrite Ep.
Qed.

(** C30. Refinement: whatever sequence of messages of the parties arrives (any order,
    with repetitions), the object behaves as the abstract collector: it holds the
    first packet of every party that has sent one, and its callbacks are exactly
    the completions of the collector. *)
Theorem jsonExpect_refines typ msgs xs :
  Forall2 (fun msg p => delivers typ msg (fst p) (Some (snd p))) msgs xs ->
  sim (fst (receive_all h (NewJsonExpect typ parties) msgs)) (fst (collect_all n empty xs)) /\
  snd (receive_all h (NewJsonExpect typ parties) msgs) = map (fun ps => (parties, ps)) (snd (collect_all n empty xs)).
Proof.
  intros F. pose proof (receive_all_refines typ msgs xs F (NewJsonExpect typ parties) empty (sim_init typ) eq_refl) as HR.
  destruct (receive_all h (NewJsonExpect typ parties) msgs) as [e cbs]. now destruct (collect_all n empty xs) as [got outs].
Qed.

(** C31. Liveness and exactly-once delivery: once every party has sent a packet, in
    whatever order and however often, the callback has been called exactly once,
    with the first packet of every party, in the parties' order. *)
Theorem jsonExpect_completes typ msgs xs : (0 < n)%nat ->
  Forall2 (fun msg p => delivers typ msg (fst p) (Some (snd p))) msgs xs ->
  (forall i, (i < n)%nat -> first_of i xs <> None) ->
  snd (receive_all h (NewJsonExpect typ parties) msgs) = [(parties, map (fun i => first_of i xs) (seq 0 n))].
Proof.
  intros Hn F Hall.
  pose proof (receive_all_refines typ msgs xs F (NewJsonExpect typ parties) empty (sim_init typ) eq_refl) as HR.
  pose proof (collect_all_complete n xs Hn (delivers_index _ _ _ F) Hall) as HC.
  destruct (receive_all h (NewJsonExpect typ parties) msgs) as [e cbs]. destruct (collect_all n empty xs) as [got outs].
  destruct HR as [_ ->]. cbn [snd] in *. now rewrite HC.
Qed.

(** Null packets are counted and not stored: each of them leaves the slots as they
    are and takes one off the count. *)
Lemma receive_null (e : jsonExpect T) typ msg i : je_From e = parties -> length (je_Packet e) = n -> je_Type e = typ ->
  nth_error (je_Packet e) i = Some None -> je_missing e <> 0 -> delivers typ msg i None ->
  jsonExpect_Receive h e msg =
  ({| je_Type := typ; je_From := parties; je_Packet := je_Packet e; je_missing := je_missing e - 1 |},
   if je_missing e - 1 =? 0 then Some (parties, je_Packet e) else None, Ok tt).
Proof.
  intros HF HP HT Hi Hm HD. pose proof HD as (ET & EG & _). unfold jsonExpect_Receive.
  rewrite ET, HT, String.eqb_refl. cbn [negb]. destruct (Z.eqb_spec (je_missing e) 0); [contradiction|].
  rewrite EG, (locate_sender e typ msg i None HF HP HD), Hi, HF. rewrite nth_error_lookup in Hi.
  now rewrite (list_insert_id _ _ _ Hi).
Qed.

(** C39. A single party can complete the collection alone, with no packet at all: as
    many messages with a null payload as there are parties make the object call
    back with nil packets only. *)
Theorem jsonExpect_null_completes typ msg i : (0 < n)%nat -> delivers typ msg i None ->
  snd (receive_all h (NewJsonExpect typ parties) (repeat msg n)) = [(parties, repeat None n)].
Proof.
  intros Hn HD.
  assert (Hi : (i < n)%nat) by (destruct HD as (_ & _ & f & p & _ & _ & Ep & _); apply nth_error_Some; now rewrite Ep).
  enough (G : forall k, (0 < k)%nat -> snd (receive_all h {| je_Type := typ; je_From := parties; je_Packet := repeat None n;
    je_missing := Z.of_nat k |} (repeat msg k)) = [(parties, repeat None n)]) by (apply (G n Hn)).
  induction k as [|k IH]; intros Hk; [lia|]. cbn [repeat receive_all].
  rewrite (receive_null _ typ msg i); [|reflexivity|apply repeat_length|reflexivity|now apply nth_error_repeat|cbn [je_missing]; lia|assumption].
  cbn [je_Packet je_missing]. replace (Z.of_nat (S k) - 1) with (Z.of_nat k) by lia. destruct k as [|k].
  - reflexivity.
  - specialize (IH ltac:(lia)). destruct (Z.eqb_spec (Z.of_nat (S k)) 0); [lia|].
    destruct (receive_all h _ (repeat msg (S k))) as [e cbs]. exact IH.
Qed.
End Refine.

(** ** Evaluation on concrete inputs *)
(** An encoding that is the value itself. *)
Definition id_json (T : Type) : Json T := {| Raw := option T; raw_null := None; json_unmarshal := fun r => Ok r |}.
#[export] Instance toy_json : Json Z := id_json Z.
#[export] Instance toy_json_laws : @JsonLaws Z toy_json.
Proof. split. reflexivity. Qed.

Definition w_parties : list ref := [6%nat; 7%nat; 5%nat].
Definition w_json (f : ref) (raw : option Z) : JsonMessage Z (option Z) :=
  {| jm_Type := "r1"; jm_From := Some f; jm_To := None; jm_Data := DRaw raw |}.
(** Party 5, then 6 twice, then 7. *)
Definition w_jsons : list (JsonMessage Z (option Z)) := [w_json 5 (Some 50); w_json 6 (Some 60); w_json 6 (Some 61); w_json 7 (Some 70)].
Definition w_packets : list (nat * Z) := [(2%nat, 50); (0%nat, 60); (0%nat, 61); (1%nat, 70)].

Lemma w_parties_valid : Forall (valid_ref w_heap) w_parties.
Proof. repeat constructor; eexists _, _; split; reflexivity. Qed.

Lemma w_parties_keys i j p p' : nth_error w_parties i = Some p -> nth_error w_parties j = Some p' ->
  key_of w_heap p = key_of w_heap p' -> i = j.
Proof.
  destruct i as [|[|[|i]]], j as [|[|[|j]]]; cbn [nth_error w_parties]; intros E1 E2 E3; try reflexivity;
    try (rewrite nth_error_nil in *); try discriminate;
    injection E1 as <-; injection E2 as <-; vm_compute in E3; discriminate E3.
Qed.

Lemma w_delivers f i obj : nth_error w_parties i = Some f -> In f w_parties ->
  delivers w_heap w_parties "r1" (w_json f obj) i obj.
Proof.
  intros Ei Hin. split; [reflexivity|]. split; [reflexivity|]. exists f, f. split; [reflexivity|]. split; [|auto].
  pose proof w_parties_valid as V. rewrite Forall_forall in V. now apply V.
Qed.

Lemma w_jsons_deliver : Forall2 (fun msg p => delivers w_heap w_parties "r1" msg (fst p) (Some (snd p))) w_jsons w_packets.
Proof. repeat constructor; cbn [fst snd]; apply (w_delivers _ _ (Some _)); cbn; auto. Qed.

Lemma jsonExpect_refines_witness :
  sim w_parties (fst (receive_all w_heap (NewJsonExpect "r1" w_parties) w_jsons)) (fst (collect_all 3 empty w_packets)) /\
  snd (receive_all w_heap (NewJsonExpect "r1" w_parties) w_jsons) =
    map (fun ps => (w_parties, ps)) (snd (collect_all 3 empty w_packets)).
Proof. apply (jsonExpect_refines (T := Z) (H := toy_json) w_heap w_parties w_parties_valid w_parties_keys "r1" w_jsons w_packets), w_jsons_deliver. Defined.

Lemma jsonExpect_completes_witness :
  snd (receive_all w_heap (NewJsonExpect "r1" w_parties) w_jsons) = [(w_parties, [Some 60; Some 70; Some 50])].
Proof.
  apply (jsonExpect_completes (T := Z) (H := toy_json) w_heap w_parties w_parties_valid w_parties_keys "r1" w_jsons w_packets);
    [cbn; lia|apply w_jsons_deliver|].
  intros [|[|[|i]]] Hi; cbn in *; try discriminate; lia.
Defined.

Lemma jsonExpect_null_completes_witness :
  snd (receive_all w_heap (NewJsonExpect "r1" w_parties) (repeat (w_json 7 None) 3)) = [(w_parties, [None; None; None])].
Proof.
  apply (jsonExpect_null_completes (T := Z) (H := toy_json) w_heap w_parties w_parties_valid w_parties_keys "r1" (w_json 7 None) 1);
    [cbn; lia|]. apply w_delivers; cbn; auto.
Defined.
