(* ===== verification/Dkls.v ===== *)
(** * Package [dklstss]: keys, Lagrange coefficients and the signature gate

    [key.go], [lagrange.go] and [verify_gate.go].  Identities are
    references into a heap ([Party]).  [ecdsa_Verify] is the generic verifier of
    [crypto/ecdsa], which the package uses on secp256k1. *)
From stdpp Require Import base gmap list.
From Stdlib Require Import ZArith String List Lia Bool Arith Permutation.
From S2P Require Import Prelude GoBig Common Curve CtMul Field Schnorr Bits OtExt BaseOt Ole Party.
Import ListNotations.
Open Scope string_scope.
Open Scope Z_scope.
Open Scope list_scope.

(** [l[i]] for an [int] index: negative and too large indices panic. *)
Definition idxZ {A} (l : list A) (i : Z) : res A :=
  if i <? 0 then Panic "index out of range" else idx l (Z.to_nat i).

(** ** crypto/ecdsa *)
(** [hashToInt]: the leftmost bits of the digest. *)
Definition hashToInt (N : Z) (hash : bytes) : Z :=
  let orderBits := BitLen N in
  let orderBytes := (orderBits + 7) / 8 in
  let hash := if orderBytes <? Z.of_nat (length hash) then firstn (Z.to_nat orderBytes) hash else hash in
  let ret := SetBytes hash in
  let excess := Z.of_nat (length hash) * 8 - orderBits in
  if 0 <? excess then Z.shiftr ret excess else ret.

Definition ecdsa_Verify (c : Curve) (X Y : Z) (hash : bytes) (r s : Z) : res bool :=
  let N := cN c in
  if (r <=? 0) || (s <=? 0) then Ok false
  else if (N <=? r) || (N <=? s) then Ok false
  else
    let e := hashToInt N hash in
    let! w := ModInverse s N in
    match w with
    | None => Panic "nil pointer dereference"
    | Some w =>
      let! u1 := Mod (e * w) N in
      let! u2 := Mod (r * w) N in
      let '(x1, y1) := cScalarBaseMult c (Bytes u1) in
      let '(x2, y2) := cScalarMult c X Y (Bytes u2) in
      let '(x, y) := cAdd c x1 y1 x2 y2 in
      if (x =? 0) && (y =? 0) then Ok false
      else let! x := Mod x N in Ok (Cmp x r =? 0)
    end.

(** ** key.go *)
Record PairOTState := { AsAlice : option ExtReceiver; AsBob : option ExtSender }.
Record Key := {
  kCurve : option Curve; kN : Z; kT : Z; kIdx : Z; kPartyIDs : list ref; kXi : option Z;
  kBigXj : list (option ECPoint); kECDSAPub : option ECPoint; kOT : list (option PairOTState); kChainCode : bytes
}.
Record Signature := { sigR : Z; sigS : Z; sigV : Z }.

Section Defs.
Context `{HS : Hash} `{AE : Aes} `{CS : Curves} `{SL : Secp256k1Lib} `{EL : Ed25519Lib}.

(** The pairwise states: nil for the party itself, both directions for a peer. *)
Definition check_OT (k : Key) : res unit :=
  foldM (fun _ '(i, st) =>
    if Z.of_nat i =? kIdx k then guard (negb (is_some st)) "dklstss: OT[%d] (self) must be nil"
    else
      guard (match st with Some {| AsAlice := Some _; AsBob := Some _ |} => true | _ => false end)
        "dklstss: OT[%d] missing direction(s)") tt (enum (kOT k)).

Definition Key_ValidateBasic (k : option Key) (sys : reader) : res reader :=
  match k with
  | None => Err "dklstss: nil Key"
  | Some k =>
    guard (is_some (kCurve k)) "dklstss: Key.Curve is nil" ;!
    guard (negb ((kN k <=? 0) || (kT k <? 0) || (kN k <=? kT k))) "dklstss: invalid (N=%d, T=%d)" ;!
    guard (negb ((kIdx k <? 0) || (kN k <=? kIdx k))) "dklstss: Idx=%d out of range [0,%d)" ;!
    guard (Z.of_nat (length (kPartyIDs k)) =? kN k) "dklstss: PartyIDs has %d entries, expected %d" ;!
    guard (is_some (kXi k)) "dklstss: Xi is nil" ;!
    let! c := deref (kCurve k) in
    let! xi := deref (kXi k) in
    guard (negb ((Z.sgn xi <=? 0) || (0 <=? Cmp xi (cN c)))) "dklstss: Xi out of range - must satisfy 0 < Xi < q" ;!
    guard (Z.of_nat (length (kBigXj k)) =? kN k) "dklstss: BigXj has %d entries, expected %d" ;!
    guard (is_some (kECDSAPub k) && ECPoint_ValidateBasic (kECDSAPub k)) "dklstss: ECDSAPub is not a valid curve point" ;!
    guard (Z.of_nat (length (kOT k)) =? kN k) "dklstss: OT slice has %d entries, expected %d" ;!
    check_OT k ;!
    guard (length (kChainCode k) =? 32)%nat "dklstss: ChainCode must be 32 bytes, got %d" ;!
    let! X := idxZ (kBigXj k) (kIdx k) in
    guard (is_some X) "dklstss: BigXj[Idx=%d] is nil" ;!
    let! (expectXi, sys) := ctmul_ScalarBaseMult c (Some xi) sys in
    let! eq := ECPoint_Equals expectXi X in
    guard eq "dklstss: Xi * G does not equal BigXj[Idx]" ;!
    Ok sys
  end.

Definition Key_Zeroize (k : option Key) : option Key :=
  match k with
  | None => None
  | Some k =>
    Some {| kCurve := kCurve k; kN := kN k; kT := kT k; kIdx := kIdx k; kPartyIDs := kPartyIDs k;
            kXi := ZeroizeBigInt (kXi k); kBigXj := kBigXj k; kECDSAPub := kECDSAPub k;
            kOT := map (option_map (fun p => {| AsAlice := ExtReceiver_Zeroize (AsAlice p); AsBob := ExtSender_Zeroize (AsBob p) |})) (kOT k);
            kChainCode := ZeroizeBytes (kChainCode k) |}
  end.

(** ** lagrange.go *)
(** One turn of the loop, [x] the reduced target identity. *)
Definition lag_row (q targetIdx x : Z) : Z * Z -> nat * Z -> res (Z * Z) := fun '(num, den) '(j, idJ) =>
  if Z.of_nat j =? targetIdx then Ok (num, den)
  else
    let! jMod := Mod idJ q in
    let! numFactor := Mod (- jMod) q in
    let! num := Mod (num * numFactor) q in
    let! diff := Mod (x - jMod) q in
    guard (negb (Z.sgn diff =? 0)) "dklstss: lagrangeCoefficient duplicate ids at %d and %d" ;!
    let! den := Mod (den * diff) q in
    Ok (num, den).
Definition lagrangeCoefficient (q : Z) (ids : list Z) (targetIdx : Z) : res Z :=
  guard (negb ((targetIdx <? 0) || (Z.of_nat (length ids) <=? targetIdx)))
    "dklstss: lagrangeCoefficient targetIdx %d out of range" ;!
  let! idI := idxZ ids targetIdx in
  let! idI := Mod idI q in
  let! (num, den) := foldM (lag_row q targetIdx idI) (1, 1) (enum ids) in
  let! denInv := modInt_ModInverse q den in
  match denInv with
  | None => Err "dklstss: lagrangeCoefficient denominator has no inverse"
  | Some denInv => Mod (num * denInv) q
  end.

Definition validateSortedSubset (h : Heap) (subset : list ref) : res unit :=
  foldM (fun _ i =>
    let! a := idx subset (i - 1) in let! ka := KeyInt h a in
    let! b := idx subset i in let! kb := KeyInt h b in
    guard (negb (0 <=? Cmp ka kb)) "dklstss: subset not strictly ascending at index %d") tt (seq 1 (length subset - 1)).

(** [k.PartyIDs[k.Idx].KeyInt()] *)
Definition own_id (h : Heap) (k : Key) : res Z :=
  let! r := idxZ (kPartyIDs k) (kIdx k) in KeyInt h r.

(** [sort.SliceStable]: the stable sort has one result, that of insertion. *)
Fixpoint insert_signer (h : Heap) (k : Key) (l : list Key) : res (list Key) :=
  match l with
  | [] => Ok [k]
  | x :: l' =>
    let! a := own_id h k in let! b := own_id h x in
    if Cmp a b =? -1 then Ok (k :: l) else let! l' := insert_signer h k l' in Ok (x :: l')
  end.
Definition sortSignersByID (h : Heap) (signers : list Key) : res (list Key) :=
  foldM (fun sorted k => insert_signer h k sorted) [] signers.

Definition hashToScalar (q : Z) (hash : bytes) : res Z :=
  let z := SetBytes hash in
  let qBits := BitLen q in
  let hBits := Z.of_nat (length hash) * 8 in
  let z := if qBits <? hBits then Z.shiftr z (hBits - qBits) else z in
  Mod z q.

(** ** verify_gate.go *)
Definition effectiveVerifyPub (pub : option ECPoint) (tweak : option Z) (sys : reader) : res (ECPoint * reader) :=
  match pub with
  | None => Err "dklstss: nil public key for verification"
  | Some pub =>
    match tweak with
    | None => Ok (pub, sys)
    | Some tweak =>
      let! tw := Mod tweak (cN (curve pub)) in
      if Z.sgn tw =? 0 then Ok (pub, sys)
      else
        let! (twG, sys) := ctmul_ScalarBaseMult (curve pub) (Some tw) sys in
        let! twG := deref twG in
        let! child := rewrap "dklstss: tweaked pubkey" (ECPoint_Add pub twG) in
        Ok (child, sys)
    end
  end.

Definition verifyFinalSignature (pub : option ECPoint) (tweak : option Z) (hash : bytes) (r s : Z) (sys : reader) : res reader :=
  let! (vpub, sys) := effectiveVerifyPub pub tweak sys in
  let! X := ECPoint_X vpub in
  let! Y := ECPoint_Y vpub in
  let! ok := ecdsa_Verify (curve vpub) X Y hash r s in
  guard ok "dklstss: assembled signature failed self-verification against the public key - corrupt share or malicious peer reveal" ;!
  Ok sys.

End Defs.

(** ** Lagrange coefficients *)
Section Lagrange.
Variable q : Z.
Hypothesis Hq : Z.prime q.

Lemma lag_row_self t x num den k y : Z.of_nat k = t -> lag_row q t x (num, den) (k, y) = Ok (num, den).
Proof. intros E. cbn. now rewrite (proj2 (Z.eqb_eq _ _) E). Qed.

Lemma lag_row_other t x num den k y : Z.of_nat k <> t -> (x - y mod q) mod q <> 0 ->
  lag_row q t x (num, den) (k, y) =
    Ok ((num * (- (y mod q) mod q)) mod q, (den * ((x - y mod q) mod q)) mod q).
Proof.
  pose proof (prime_gt_1 q Hq) as Q1. intros E Hs. unfold lag_row. rewrite (proj2 (Z.eqb_neq _ _) E).
  repeat (rewrite Mod_ok by lia; cbn [rbind]).
  rewrite (proj2 (Z.eqb_neq _ _)) by (rewrite Z.sgn_null_iff; assumption). reflexivity.
Qed.

(** The loop turns the pair into one whose quotient is the coefficient. *)
Lemma lagrange_loop x t l : forall k num den L, 0 <= x < q ->
  (forall i y, nth_error l i = Some y -> Z.of_nat (k + i) <> t -> y mod q <> x) ->
  (forall i y, nth_error l i = Some y -> Z.of_nat (k + i) = t -> y mod q = x) ->
  den mod q <> 0 -> cong q num (den * L) ->
  exists num' den', foldM (lag_row q t x) (num, den) (combine (seq k (length l)) l) = Ok (num', den') /\
    den' mod q <> 0 /\ cong q num' (den' * (L * lam q (map (fun y => y mod q) l) x)).
Proof.
  pose proof (prime_gt_1 q Hq) as Q1.
  induction l as [|y l IH]; intros k num den L Hx Hne Heq Hd HL; cbn [length seq combine foldM map].
  - exists num, den. split; [reflexivity|]. split; [assumption|]. rewrite HL. apply cong_eq. cbn. ring.
  - assert (H1 := Hne 0%nat y eq_refl). assert (H2 := Heq 0%nat y eq_refl). rewrite Nat.add_0_r in H1, H2.
    assert (Hne' : forall i z, nth_error l i = Some z -> Z.of_nat (S k + i) <> t -> z mod q <> x)
      by (intros i z Ez; specialize (Hne (S i) z Ez); now rewrite Nat.add_succ_comm).
    assert (Heq' : forall i z, nth_error l i = Some z -> Z.of_nat (S k + i) = t -> z mod q = x)
      by (intros i z Ez; specialize (Heq (S i) z Ez); now rewrite Nat.add_succ_comm).
    rewrite lam_cons. destruct (Z.eq_dec (Z.of_nat k) t) as [Et|Et].
    + rewrite lag_row_self by assumption. cbn [rbind].
      destruct (IH (S k) num den L Hx Hne' Heq' Hd HL) as (num' & den' & E & Hd' & HL'). exists num', den'.
      split; [exact E|]. split; [assumption|]. rewrite HL', H2, (lterm_self q Hq) by assumption. apply cong_eq. ring.
    + assert (Hs : (x - y mod q) mod q <> 0).
      { apply (sub_mod_nz q Hq). rewrite Z.mod_mod, (Z.mod_small x) by lia. intros E. now apply H1. }
      assert (Hs' : (y mod q - x) mod q <> 0).
      { apply (sub_mod_nz q Hq). rewrite Z.mod_mod, (Z.mod_small x) by lia. now apply H1. }
      rewrite lag_row_other by assumption. cbn [rbind].
      edestruct (IH (S k)) with (L := L * lterm q x (y mod q)) as (num' & den' & E & Hd' & HL');
        [exact Hx|exact Hne'|exact Heq'| | |exists num', den'; split; [exact E|split; [assumption|]]].
      * rewrite Z.mod_mod by lia. apply (mul_mod_nz q Hq); [assumption|]. now rewrite Z.mod_mod by lia.
      * set (LT := lterm q x (y mod q)). transitivity (den * L * ((x - y mod q) * LT)).
        { subst LT. rewrite (lterm_other q Hq) by assumption. rewrite !cong_mod, HL. reflexivity. }
        set (d := x - y mod q). rewrite (cong_mod q (den * _)), (cong_mod q d). apply cong_eq. ring.
      * rewrite HL'. apply cong_eq. ring.
Qed.

(** The coefficient is the Lagrange coefficient at 0, in [0,q). *)
Lemma lagrange_run ids t : (t < length ids)%nat -> distinct q ids ->
  exists l, lagrangeCoefficient q ids (Z.of_nat t) = Ok l /\ 0 <= l < q /\
    cong q l (lam q (map (fun y => y mod q) ids) (nth t ids 0 mod q)).
Proof.
  pose proof (prime_gt_1 q Hq) as Q1. intros Ht D. unfold lagrangeCoefficient.
  rewrite (proj2 (Z.ltb_ge _ _)), (proj2 (Z.leb_gt _ _)) by lia. cbn [orb negb guard rbind].
  unfold idxZ. rewrite (proj2 (Z.ltb_ge _ _)), Nat2Z.id by lia.
  pose proof (nth_error_nth' ids 0 Ht) as En. rewrite (proj2 (idx_ok _ _ _) En). cbn [rbind].
  rewrite Mod_ok by lia. cbn [rbind]. set (x := nth t ids 0 mod q).
  edestruct (lagrange_loop x (Z.of_nat t) ids 0 1 1 1) as (num & den & E & Hd & HL).
  - subst x. now apply Z.mod_pos_bound; lia.
  - intros i y Ei Hi Exy. cbn in Hi. unfold distinct in D. rewrite NoDup_nth_error in D. specialize (D i t).
    rewrite !nth_error_map, Ei, En, length_map in D. cbn [option_map] in D.
    enough (i = t) by lia. apply D; [apply nth_error_Some; congruence|now rewrite Exy].
  - intros i y Ei Hi. cbn in Hi. replace i with t in Ei by lia. rewrite En in Ei. now injection Ei as <-.
  - now rewrite Z.mod_small by lia.
  - reflexivity.
  - unfold enum. rewrite E. cbn [rbind]. rewrite modInt_ModInverse_ok by (try lia; now apply (prime_gcd q Hq)). cbn [rbind].
    rewrite Mod_ok by lia. eexists. split; [reflexivity|]. split; [apply Z.mod_pos_bound; lia|].
    rewrite cong_mod, HL. set (M := lam _ _ _).
    replace (den * (1 * M) * Z.invmod den q) with (M * (Z.invmod den q * den)) by ring.
    rewrite (inv_l q Hq) by assumption. apply cong_eq. ring.
Qed.
End Lagrange.

(** ** Digest reduction *)
Lemma SetBytes_firstn n (bs : bytes) : Forall is_byte bs -> (n <= length bs)%nat ->
  SetBytes (firstn n bs) = Z.shiftr (SetBytes bs) (8 * Z.of_nat (length bs - n)).
Proof.
  intros Hb Hn. rewrite <- (firstn_skipn n bs) at 2. rewrite !SetBytes_rev, rev_app_distr, le_val_app, length_rev.
  rewrite length_skipn. rewrite Z.shiftr_div_pow2 by lia.
  replace (2 ^ (8 * Z.of_nat (length bs - n))) with (256 ^ Z.of_nat (length bs - n)) by (rewrite Z.pow_mul_r by lia; reflexivity).
  assert (Hs : 0 <= le_val (rev (skipn n bs)) < 256 ^ Z.of_nat (length bs - n)).
  { rewrite <- length_skipn, <- length_rev. apply le_val_bound, Forall_rev, Forall_forall.
    rewrite Forall_forall in Hb. intros x Hx. apply Hb. rewrite <- (firstn_skipn n bs). apply in_or_app. now right. }
  rewrite (Z.mul_comm (256 ^ _)), Z.div_add by lia. now rewrite Z.div_small by assumption.
Qed.

Lemma hashToScalar_run q (hash : bytes) (Hq : 0 < q) (Hb : Forall is_byte hash) :
  hashToScalar q hash = Ok (hashToInt q hash mod q).
Proof.
  unfold hashToScalar, hashToInt. rewrite Mod_ok by assumption. do 2 f_equal.
  pose proof (BitLen_nonneg q) as Hn. set (qb := BitLen q) in *. set (ob := (qb + 7) / 8).
  assert (Hob : 8 * ob <= qb + 7 < 8 * ob + 8) by (subst ob; pose proof (Z.div_mod (qb + 7) 8);
    pose proof (Z.mod_pos_bound (qb + 7) 8); lia).
  destruct (Z.ltb_spec ob (Z.of_nat (length hash))) as [Hl|Hl].
  - rewrite length_firstn, Nat.min_l, Z2Nat.id by lia. rewrite SetBytes_firstn by (assumption || lia).
    rewrite (proj2 (Z.ltb_lt qb _)) by lia. destruct (Z.ltb_spec 0 (ob * 8 - qb)) as [He|He].
    + rewrite Z.shiftr_shiftr by lia. f_equal. lia.
    + f_equal. lia.
  - destruct (Z.ltb_spec qb (Z.of_nat (length hash) * 8)), (Z.ltb_spec 0 (Z.of_nat (length hash) * 8 - qb)); reflexivity || lia.
Qed.

(** The digest is reduced as [crypto/ecdsa] reduces it: [hashToScalar] is
    [hashToInt] modulo the order, for every digest length, shorter or longer
    than the order. *)
Theorem hashToScalar_hashToInt q (hash : bytes) (Hq : 0 < q) (Hb : Forall is_byte hash) :
  hashToScalar q hash = Ok (hashToInt q hash mod q).
Proof. now apply hashToScalar_run. Qed.

Lemma hashToScalar_hashToInt_witness :
  hashToScalar 31 [255; 7; 1] = Ok (hashToInt 31 [255; 7; 1] mod 31) /\ hashToInt 31 [255; 7; 1] = 31.
Proof.
  split; [|reflexivity]. apply hashToScalar_hashToInt; [reflexivity|]. repeat constructor; unfold is_byte; lia.
Defined.

(** Distinct identities modulo a prime order have a Lagrange coefficient: the
    computation succeeds and returns, in [0,q), the coefficient [lam] at 0 of
    the target among the reduced identities. *)
Theorem lagrangeCoefficient_correct q ids t (Hq : Z.prime q) (Ht : (t < length ids)%nat) (D : distinct q ids) :
  exists l, lagrangeCoefficient q ids (Z.of_nat t) = Ok l /\ 0 <= l < q /\
    cong q l (lam q (map (fun y => y mod q) ids) (nth t ids 0 mod q)).
Proof. now apply lagrange_run. Qed.

Lemma lagrangeCoefficient_correct_witness :
  (exists l, lagrangeCoefficient 31 [5; 40; 7] 1 = Ok l /\ 0 <= l < 31 /\
    cong 31 l (lam 31 (map (fun y => y mod 31) [5; 40; 7]) (nth 1 [5; 40; 7] 0 mod 31))) /\
  lagrangeCoefficient 31 [5; 40; 7] 1 = Ok 16.
Proof.
  split; [|vm_compute; reflexivity]. apply (lagrangeCoefficient_correct 31 [5; 40; 7] 1).
  - apply prime_check; [lia|vm_compute; reflexivity].
  - cbn. lia.
  - change (List.NoDup [5; 9; 7]). repeat (apply List.NoDup_cons; [cbn; intros K; repeat destruct K as [K|K]; lia|]). apply List.NoDup_nil.
Defined.
