(* ===== verification/DklsSetup.v ===== *)
(** * Package [dklstss]: pairwise oblivious-transfer setup

    [setup.go]: for each pair of parties one batch of base transfers in each
    direction, run in process.  [ot] is the matrix of the pairwise states; a
    missing state is [None]. *)
From stdpp Require Import base list.
From Stdlib Require Import ZArith String List Lia Bool Arith.
From S2P Require Import Prelude GoBig Common Curve CtMul Schnorr Bits OtExt OtExtCorrect BaseOt Dkls.
Import ListNotations.
Open Scope string_scope.
Open Scope Z_scope.
Open Scope list_scope.

Abbreviation matrix := (list (list (option PairOTState))).

Section Defs.
Context `{HS : Hash} `{AE : Aes} `{CS : Curves} `{SL : Secp256k1Lib} `{EL : Ed25519Lib}.

(** The base transfers of one pair, in process; [rng] serves both parties. *)
Definition runBaseOTPair (sid : bytes) (rng sys : reader) : res (ExtReceiver * ExtSender * reader * reader) :=
  let! ((boSender, smsg), rng) := rewrap "dklstss: setup base-OT sender" (NewSender sid (Z.of_nat Kappa) rng) in
  let! (delta, rng) := rewrap "dklstss: setup delta" (ReadFull DeltaBytes rng) in
  let! (boReceiver, rmsg, rng, sys) :=
    rewrap "dklstss: setup base-OT receiver" (NewReceiver sid (Z.of_nat Kappa) delta (Some smsg) rng sys) in
  let! (k0, k1, _, sys) := rewrap "dklstss: setup base-OT sender finalize" (Sender_Finalize (Some boSender) (Some rmsg) sys) in
  let! (chosen, _, sys) := rewrap "dklstss: setup base-OT receiver finalize" (Receiver_Finalize (Some boReceiver) sys) in
  let! extReceiver := rewrap "dklstss: setup ext-receiver" (NewExtReceiverFromBase k0 k1) in
  let! extSender := rewrap "dklstss: setup ext-sender" (NewExtSenderFromBase delta chosen) in
  Ok (extReceiver, extSender, rng, sys).

(** [byte(uint32(i) >> k)] *)
Definition u32_byte (i k : Z) : Z := Z.shiftr (i mod 2 ^ 32) k mod 256.
Definition encodePartyPair (i j dir : Z) : bytes :=
  [u32_byte i 24; u32_byte i 16; u32_byte i 8; u32_byte i 0;
   u32_byte j 24; u32_byte j 16; u32_byte j 8; u32_byte j 0; dir].

(** [ot[i][j]] receives one direction: a missing state is created first. *)
Definition set_pair (ot : matrix) (i j : nat) (f : PairOTState -> PairOTState)
  : res matrix :=
  set_at ot i (fun row => set_at row j (fun st =>
    Ok (Some (f (match st with Some st => st | None => {| AsAlice := None; AsBob := None |} end))))).

Definition setup_pair (sidPrefix : bytes) (st : matrix * reader * reader) (ij : nat * nat)
  : res (matrix * reader * reader) :=
  let '(ot, rng, sys) := st in
  let '(i, j) := ij in
  let sidA := sidPrefix ++ encodePartyPair (Z.of_nat i) (Z.of_nat j) 65 in
  let! (rcvA, sndA, rng, sys) := rewrap "dklstss: setupPairs (%d,%d)A" (runBaseOTPair sidA rng sys) in
  let sidB := sidPrefix ++ encodePartyPair (Z.of_nat i) (Z.of_nat j) 66 in
  let! (rcvB, sndB, rng, sys) := rewrap "dklstss: setupPairs (%d,%d)B" (runBaseOTPair sidB rng sys) in
  let! ot := set_pair ot i j (fun _ => {| AsAlice := Some rcvA; AsBob := Some sndB |}) in
  let! ot := set_pair ot j i (fun _ => {| AsAlice := Some rcvB; AsBob := Some sndA |}) in
  Ok (ot, rng, sys).

Definition setupPairs (n : Z) (sidPrefix : bytes) (rng sys : reader)
  : res (matrix * reader * reader) :=
  guard (negb (n <=? 0)) "dklstss: setupPairs n must be > 0, got %d" ;!
  let m := Z.to_nat n in
  foldM (fun st i => foldM (fun st j => setup_pair sidPrefix st (i, j)) st (seq (i + 1) (m - (i + 1))))
    (repeat (repeat None m) m, rng, sys) (seq 0 m).
End Defs.

(** ** Lists *)
(** A loop that ran to its end keeps an invariant indexed by the elements done. *)
Lemma foldM_done {A S} (P : list A -> S -> Prop) (f : S -> A -> res S) l :
  (forall done a s s', P done s -> f s a = Ok s' -> P (done ++ [a]) s') ->
  forall done s s', P done s -> foldM f s l = Ok s' -> P (done ++ l) s'.
Proof.
  intros Hf. induction l as [|a l IH]; intros done s s' Hs H; cbn [foldM] in H; inv_res.
  - now rewrite app_nil_r.
  - replace (done ++ a :: l) with ((done ++ [a]) ++ l) by now rewrite <- app_assoc. eauto.
Qed.

Lemma lookup_repeat {A} (x : A) n i : (i < n)%nat -> repeat x n !! i = Some x.
Proof. revert i. induction n as [|n IH]; intros [|i] H; try lia; [reflexivity|]. apply IH. lia. Qed.

Lemma set_at_inv {A} (l : list A) i f l' : set_at l i f = Ok l' ->
  exists a b, l !! i = Some a /\ f a = Ok b /\ l' = <[i := b]> l.
Proof.
  revert i l'. induction l as [|x l IH]; intros [|i] l' H; cbn [set_at] in H; try discriminate H; inv_res.
  - eauto.
  - destruct (IH _ _ ltac:(eassumption)) as (a & b & ? & ? & ->). eauto.
Qed.

(** ** The matrix *)
Definition cell (ot : matrix) (i j : nat) : option (option PairOTState) := row ← ot !! i; row !! j.

Lemma set_pair_cell ot i j f ot' : set_pair ot i j f = Ok ot' ->
  (forall a b, (a, b) <> (i, j) -> cell ot' a b = cell ot a b) /\
  exists st, cell ot i j = Some st /\
    cell ot' i j = Some (Some (f (default {| AsAlice := None; AsBob := None |} st))).
Proof.
  intros H. apply set_at_inv in H as (row & row' & Er & H & ->).
  apply set_at_inv in H as (st & st' & Es & H & ->). injection H as <-. unfold cell. split.
  - intros a b Hab. destruct (decide (a = i)) as [->|Ha]; [|now rewrite list_lookup_insert_ne].
    rewrite list_lookup_insert_eq, Er by eauto using lookup_lt_Some. cbn.
    now rewrite list_lookup_insert_ne by congruence.
  - exists st. rewrite Er. cbn. split; [assumption|]. rewrite list_lookup_insert_eq by eauto using lookup_lt_Some. cbn.
    rewrite list_lookup_insert_eq by eauto using lookup_lt_Some. now destruct st.
Qed.

(** The two parties of a pair hold matching states in both directions. *)
Definition wired (ot : matrix) (i j : nat) : Prop :=
  exists rcvA sndA rcvB sndB,
    cell ot i j = Some (Some {| AsAlice := Some rcvA; AsBob := Some sndB |}) /\
    cell ot j i = Some (Some {| AsAlice := Some rcvB; AsBob := Some sndA |}) /\
    matched rcvA sndA /\ matched rcvB sndB.

Lemma wired_cell ot ot' i j : cell ot' i j = cell ot i j -> cell ot' j i = cell ot j i -> wired ot i j -> wired ot' i j.
Proof. intros E1 E2. unfold wired. now rewrite E1, E2. Qed.

Lemma wired_sym ot i j : wired ot i j -> wired ot j i.
Proof. intros (r1 & s1 & r2 & s2 & ? & ? & ? & ?). now exists r2, s2, r1, s1. Qed.

(** The pairs in the order of the two nested loops. *)
Definition pairs (m : nat) : list (nat * nat) := flat_map (fun i => map (pair i) (seq (i + 1) (m - (i + 1)))) (seq 0 m).

Lemma pairs_In m i j : In (i, j) (pairs m) <-> (i < j < m)%nat.
Proof.
  unfold pairs. rewrite in_flat_map. split.
  - intros (a & Ha & H). apply in_map_iff in H as (b & E & Hb). injection E as <- <-.
    apply in_seq in Ha, Hb. lia.
  - intros H. exists i. split; [apply in_seq; lia|]. apply in_map, in_seq. lia.
Qed.

Section Correct.
Context `{HS : Hash} `{CS : Curves} `{SL : Secp256k1Lib} `{EL : Ed25519Lib}.
Context {pt : Z -> Z * Z} {L : CurveLaws S256 pt false} {CT : CtCurve S256 pt false}.
Hypothesis Hneg : forall a, pt (- a) = (fst (pt a), (- snd (pt a)) mod cP S256).

(** A pair whose run succeeded holds matching extension states. *)
Lemma runBaseOTPair_run sid rng sys r s rng' sys' : Forall is_byte rng -> Forall is_byte sys ->
  runBaseOTPair sid rng sys = Ok (r, s, rng', sys') -> matched r s /\ Forall is_byte rng' /\ Forall is_byte sys'.
Proof.
  intros Fr Fs H. unfold runBaseOTPair in H.
  apply rbind_ok in H as ([[bs m1] rng1] & E1 & H). apply rewrap_ok in E1.
  apply rbind_ok in H as ([dl rng2] & E2 & H). apply rewrap_ok in E2.
  apply rbind_ok in H as ([[[br rm] rng3] sys1] & E3 & H). apply rewrap_ok in E3.
  apply rbind_ok in H as ([[[k0 k1] bs'] sys2] & E4 & H). apply rewrap_ok in E4.
  apply rbind_ok in H as ([[keys br'] sys3] & E5 & H). apply rewrap_ok in E5.
  apply rbind_ok in H as (er & E6 & H). apply rewrap_ok in E6.
  apply rbind_ok in H as (es & E7 & H). apply rewrap_ok in E7. injection H as <- <- <- <-.
  destruct (NewSender_run (L := L) (CT := CT) _ _ _ _ _ _ Fr E1) as (_ & _ & _ & _ & _ & _ & F1).
  destruct (ReadFull_byte _ _ _ _ F1 E2) as (Ld & Fd & F2).
  destruct (first_moves (L := L) (CT := CT) _ _ _ _ _ _ _ _ _ _ _ _ _ Fr F2 Fs E1 E3)
    as (_ & _ & _ & _ & _ & _ & _ & _ & _ & _ & _ & F3 & F4).
  destruct (run_agree (L := L) (CT := CT) Hneg _ _ _ _ _ _ _ _ _ _ _ _ _ _ _ _ _ _ _ _ _ _ Fr F2 Fs F4 (fun F => F) E1 E3 E4 E5)
    as ((_ & _ & L0 & L1 & Lk & K) & F5 & F6). rewrite Nat2Z.id in *.
  destruct (NewExt_matched dl keys k0 k1 Ld Fd L0 L1 Lk K) as (s' & r' & Es & Er & HM).
  rewrite E6 in Er. rewrite E7 in Es. injection Er as <-. injection Es as <-. auto.
Qed.

(** An honest run succeeds when the readers serve it: the draws are named by
    [y], [a], [dl] and [xs], and no partial result is the point at infinity. *)
Lemma runBaseOTPair_total sid (rng sys : reader) y r1 a r2 dl r3 xs r4 rest :
  sid <> [] -> Forall is_byte rng -> Forall is_byte sys ->
  GetRandomPositiveInt (Some (cN S256)) rng = Ok (Some y, r1) -> ct_healthy r1 ->
  GetRandomPositiveInt (Some (cN S256)) (ct_rest r1) = Ok (Some a, r2) -> ct_healthy r2 ->
  ReadFull DeltaBytes (ct_rest r2) = Ok (dl, r3) -> draw_n Kappa r3 = Ok (xs, r4) ->
  Forall (fun x => on_c S256 false (x + y) = true) xs -> ~ In y xs ->
  (let c := chal (C := S256) (pt := pt) (pokSession sid) [y; 1; a] in
   on_c S256 false (c * y + a) = true /\ on_c S256 false (c * y) = true) ->
  ct_healthy_n (Kappa + (S Kappa + (Kappa + rest))) sys ->
  exists r s sys', runBaseOTPair sid rng sys = Ok (r, s, r4, sys') /\ Forall is_byte r4 /\ Forall is_byte sys' /\
    ct_healthy_n rest sys'.
Proof.
  intros Hsid Fr Fs E1 H1 E2 H2 E3 E4 Fx Hy [C1 C2] Hh.
  destruct (GetRandomPositiveInt_range _ _ _ _ Fr E1) as [Ry F1].
  destruct (GetRandomPositiveInt_range _ _ _ _ (ct_rest_byte _ F1) E2) as [Ra F2].
  destruct (ReadFull_byte _ _ _ _ (ct_rest_byte _ F2) E3) as (Ld & Fd & F3).
  pose proof (NewSender_total (L := L) (CT := CT) sid (Z.of_nat Kappa) rng y r1 a r2 Hsid eq_refl Fr E1 H1 E2 H2) as ES.
  destruct (NewReceiver_total (L := L) (CT := CT) sid (Z.of_nat Kappa) dl y a r3 sys xs r4 (S Kappa + (Kappa + rest)))
    as (br & rm & sys1 & Hh1 & Hx & ER); try assumption; try reflexivity.
  { rewrite Ld. vm_compute. discriminate. }
  destruct (first_moves (L := L) (CT := CT) _ _ _ _ _ _ _ _ _ _ _ _ _ Fr F3 Fs ES ER)
    as (y' & xs' & Ry' & Lx & Hn & Hb & Es & -> & -> & Fx' & _ & F4 & F5).
  injection Es as <- _. cbn [r_x] in Hx. injection Hx as Hx.
  apply (f_equal (map (default 0))) in Hx. rewrite !map_map, !map_id in Hx. subst xs'.
  destruct (finalize_sender (L := L) (CT := CT) Hneg sid (Z.of_nat Kappa) dl y xs sys1 (Kappa + rest) Ry Hn Lx F5 Hh1 Fx' Hy)
    as (k0 & k1 & s' & sys2 & F6 & Hh2 & E5).
  destruct (finalize_receiver (L := L) (CT := CT) sid (Z.of_nat Kappa) dl y xs sys2 rest Ry Lx Hb F6 Hh2 Fx')
    as (keys & r' & sys3 & F7 & Hh3 & E6).
  destruct (run_agree (L := L) (CT := CT) Hneg _ _ _ _ _ _ _ _ _ _ _ _ _ _ _ _ _ _ _ _ _ _ Fr F3 Fs F5 (fun F => F) ES ER E5 E6)
    as ((_ & _ & L0 & L1 & Lk & K) & _ & _). rewrite Nat2Z.id in *.
  destruct (NewExt_matched dl keys k0 k1 Ld Fd L0 L1 Lk K) as (es & er & Es' & Er & _).
  exists er, es, sys3. unfold runBaseOTPair. rewrite ES. cbn [rewrap rbind]. rewrite E3. cbn [rewrap rbind].
  rewrite ER. cbn [rewrap rbind]. rewrite E5. cbn [rewrap rbind]. rewrite E6. cbn [rewrap rbind].
  rewrite Er, Es'. cbn [rewrap rbind]. auto.
Qed.

(** The invariant of the loop over the pairs. *)
Record setup_inv (m : nat) (done : list (nat * nat)) (st : matrix * reader * reader) : Prop := {
  si_wired : forall i j, In (i, j) done -> wired (fst (fst st)) i j;
  si_self : forall i, (i < m)%nat -> cell (fst (fst st)) i i = Some None;
  si_rng : Forall is_byte (snd (fst st));
  si_sys : Forall is_byte (snd st)
}.

Lemma setup_pair_inv pre m done st i j st' : i <> j -> setup_inv m done st ->
  setup_pair pre st (i, j) = Ok st' -> setup_inv m (done ++ [(i, j)]) st'.
Proof.
  intros Hij I H. destruct st as [[ot rng] sys], I as [W D Fr Fs]. cbn [fst snd] in *. unfold setup_pair in H.
  apply rbind_ok in H as ([[[rA sA] rng1] sys1] & E1 & H). apply rewrap_ok in E1.
  apply runBaseOTPair_run in E1 as (MA & Fr1 & Fs1); [|assumption|assumption].
  apply rbind_ok in H as ([[[rB sB] rng2] sys2] & E2 & H). apply rewrap_ok in E2.
  apply runBaseOTPair_run in E2 as (MB & Fr2 & Fs2); [|assumption|assumption].
  apply rbind_ok in H as (ot1 & E3 & H). apply set_pair_cell in E3 as (N1 & st1 & _ & C1).
  apply rbind_ok in H as (ot2 & E4 & H). apply set_pair_cell in E4 as (N2 & st2 & _ & C2). injection H as <-.
  assert (K : wired ot2 i j).
  { exists rA, sA, rB, sB. split; [|auto]. rewrite N2; [exact C1|congruence]. }
  constructor; cbn [fst snd]; [| |assumption|assumption].
  - intros a b Hab. apply in_app_or in Hab as [Hab|[Hab|[]]]; [|now injection Hab as <- <-].
    destruct (decide ((a, b) = (i, j))) as [E|Ha]; [now injection E as -> ->|].
    destruct (decide ((a, b) = (j, i))) as [E|Hb].
    + injection E as -> ->. now apply wired_sym.
    + apply (wired_cell ot); [..|now apply W]; rewrite N2, N1 by congruence; reflexivity.
  - intros a Ha. rewrite N2, N1 by congruence. now apply D.
Qed.

Lemma setupPairs_loop n pre rng sys : 0 < n -> setupPairs n pre rng sys =
  foldM (setup_pair pre) (repeat (repeat None (Z.to_nat n)) (Z.to_nat n), rng, sys) (pairs (Z.to_nat n)).
Proof.
  intros Hn. unfold setupPairs, pairs. rewrite (proj2 (Z.leb_gt _ _)) by lia. cbn [negb guard rbind].
  rewrite foldM_flat_map. apply foldM_ext. intros st i. now rewrite foldM_map.
Qed.

Lemma setupPairs_run n pre rng sys ot rng' sys' (Fr : Forall is_byte rng) (Fs : Forall is_byte sys)
  (H : setupPairs n pre rng sys = Ok (ot, rng', sys')) :
  (forall i j, (i < Z.to_nat n)%nat -> (j < Z.to_nat n)%nat -> i <> j -> wired ot i j) /\
  (forall i, (i < Z.to_nat n)%nat -> cell ot i i = Some None).
Proof.
  destruct (Z.leb_spec n 0) as [Hn|Hn]; [split; intros; lia|]. rewrite setupPairs_loop in H by assumption.
  set (m := Z.to_nat n) in *.
  assert (I : setup_inv m ([] ++ pairs m) (ot, rng', sys')).
  { eapply (foldM_done (fun done st => Forall (fun p => fst p <> snd p) done -> setup_inv m done st)); [| |exact H|].
    - intros done [i j] st st' IH E F. apply Forall_app in F as [F Fij]. pose proof (Forall_inv Fij) as Hij. cbn in Hij.
      exact (setup_pair_inv pre m done st i j st' Hij (IH F) E).
    - intros _. constructor; cbn [fst snd]; [intros i j []| |assumption|assumption].
      intros i Hi. unfold cell. rewrite lookup_repeat by assumption. cbn. now apply lookup_repeat.
    - apply List.Forall_forall. intros [i j] Hij. apply pairs_In in Hij. cbn. lia. }
  destruct I as [W D _ _]. cbn [fst snd] in W, D. split; [|assumption]. intros i j Hi Hj Hij.
  destruct (Nat.lt_total i j) as [K|[K|K]]; [|lia|apply wired_sym]; apply W, pairs_In; lia.
Qed.
(** C14. A setup that returns has wired every pair: for all distinct parties [i] and
    [j] both entries exist, the extension receiver of [i] matches the extension
    sender of [j] (the sender holds, for each bit of its correlation, the seed the
    bit selects) and conversely; the entries on the diagonal are nil. *)
Theorem setupPairs_wired n pre rng sys ot rng' sys' (Fr : Forall is_byte rng) (Fs : Forall is_byte sys)
  (H : setupPairs n pre rng sys = Ok (ot, rng', sys')) :
  (forall i j, (i < Z.to_nat n)%nat -> (j < Z.to_nat n)%nat -> i <> j -> wired ot i j) /\
  (forall i, (i < Z.to_nat n)%nat -> cell ot i i = Some None).
Proof. now apply (setupPairs_run n pre rng sys ot rng' sys'). Qed.
End Correct.

(** ** Session identifiers *)
Lemma u32_bytes i : 0 <= i < 2 ^ 32 ->
  i = u32_byte i 24 * 2 ^ 24 + u32_byte i 16 * 2 ^ 16 + u32_byte i 8 * 2 ^ 8 + u32_byte i 0.
Proof.
  intros H. unfold u32_byte. rewrite (Z.mod_small i) by lia. rewrite !Z.shiftr_div_pow2 by lia.
  change (2 ^ 24) with 16777216. change (2 ^ 16) with 65536. change (2 ^ 8) with 256. change (2 ^ 0) with 1.
  rewrite Z.div_1_r. change 16777216 with (65536 * 256). rewrite <- Z.div_div by lia.
  change 65536 with (256 * 256). rewrite <- Z.div_div by lia.
  pose proof (Z.div_mod i 256). pose proof (Z.div_mod (i / 256) 256). pose proof (Z.div_mod (i / 256 / 256) 256).
  rewrite (Z.mod_small (i / 256 / 256 / 256)); [lia|]. rewrite !Z.div_div by lia. split; [apply Z.div_pos; lia|].
  apply Z.div_lt_upper_bound; lia.
Qed.

(** The session identifiers of the directed pairs are distinct: below 2^32
    parties, equal encodings come from the same parties and direction. *)
Theorem encodePartyPair_inj i j d i' j' d' (Hi : 0 <= i < 2 ^ 32) (Hj : 0 <= j < 2 ^ 32) (Hi' : 0 <= i' < 2 ^ 32)
  (Hj' : 0 <= j' < 2 ^ 32) (E : encodePartyPair i j d = encodePartyPair i' j' d') : i = i' /\ j = j' /\ d = d'.
Proof.
  injection E as E1 E2 E3 E4 E5 E6 E7 E8 E9. rewrite (u32_bytes i Hi), (u32_bytes j Hj), (u32_bytes i' Hi'), (u32_bytes j' Hj').
  rewrite E1, E2, E3, E4, E5, E6, E7, E8. auto.
Qed.

Lemma encodePartyPair_inj_witness : 70000 = 70000 /\ 300 = 300 /\ 65 = 65.
Proof. apply (encodePartyPair_inj 70000 300 65 70000 300 65); [lia|lia|lia|lia|reflexivity]. Defined.

(** ** Evaluation on a concrete input *)
Definition w_seg : reader := 9 :: repeat 1 40 ++ 5 :: repeat 1 40 ++ repeat 3 144.

Lemma w_seg_byte tl : Forall is_byte tl -> Forall is_byte (w_seg ++ tl).
Proof.
  intros H. apply Forall_app. split; [|exact H]. apply List.Forall_forall. intros x Hx. unfold is_byte.
  revert x Hx. apply List.Forall_forall. unfold w_seg. repeat (constructor; [lia|]). 
  repeat first [apply Forall_app; split | apply List.Forall_cons; [lia|] | apply List.Forall_nil |
    apply List.Forall_forall; intros x Hx; apply repeat_spec in Hx; lia].
Qed.

Lemma toy_healthy_app tl : @ct_healthy toy_secp (repeat 1 40 ++ tl).
Proof. split; [rewrite length_app, repeat_length; lia|reflexivity]. Qed.

Definition w_sys : reader := repeat 1 (Z.to_nat 30800).

(** One run on a segment. *)
Lemma w_run sid (tl sys : reader) rest : sid <> [] -> Forall is_byte tl -> Forall is_byte sys ->
  (let c := chal (HS := toy_hash) (C := toy256) (pt := toy256_pt) (pokSession sid) [9; 1; 5] in
   on_c toy256 false (c * 9 + 5) = true /\ on_c toy256 false (c * 9) = true) ->
  @ct_healthy_n _ _ _ toy256 toy256_pt false toy256_ct (Kappa + (S Kappa + (Kappa + rest))) sys ->
  exists r s sys', @runBaseOTPair toy_hash toy_curves toy_secp toy_ed sid (w_seg ++ tl) sys = Ok (r, s, tl, sys') /\
    Forall is_byte tl /\ Forall is_byte sys' /\ @ct_healthy_n _ _ _ toy256 toy256_pt false toy256_ct rest sys'.
Proof.
  intros Hs Ft Fs Hc Hh.
  apply (@runBaseOTPair_total toy_hash toy_curves toy_secp toy_ed toy256_pt toy256_laws toy256_ct toy_neg sid (w_seg ++ tl) sys 9
    (skipn 1 w_seg ++ tl) 5 (skipn 42 w_seg ++ tl) (repeat 3 16) (repeat 3 128 ++ tl) (repeat 3 128)); try assumption.
  - now apply w_seg_byte.
  - vm_compute. reflexivity.
  - apply toy_healthy_app.
  - vm_compute. reflexivity.
  - apply toy_healthy_app.
  - vm_compute. reflexivity.
  - vm_compute. reflexivity.
  - apply List.Forall_forall. intros x Hx. apply repeat_spec in Hx as ->. reflexivity.
  - intros Hx. apply repeat_spec in Hx. discriminate Hx.
Qed.

(** The setup of two parties on two segments. *)
Definition w_matrix (rA : ExtReceiver) (sA : ExtSender) (rB : ExtReceiver) (sB : ExtSender) : matrix :=
  [[None; Some {| AsAlice := Some rA; AsBob := Some sB |}]; [Some {| AsAlice := Some rB; AsBob := Some sA |}; None]].
Definition w_setup_cost (rest : nat) : nat :=
  (Kappa + (S Kappa + (Kappa + (Kappa + (S Kappa + (Kappa + rest))))))%nat.
Definition w_good_sid (sid : bytes) : bool :=
  let c := chal (HS := toy_hash) (C := toy256) (pt := toy256_pt) (pokSession sid) [9; 1; 5] in
  on_c toy256 false (c * 9 + 5) && on_c toy256 false (c * 9).

Lemma w_good_sid_spec sid : w_good_sid sid = true ->
  let c := chal (HS := toy_hash) (C := toy256) (pt := toy256_pt) (pokSession sid) [9; 1; 5] in
  on_c toy256 false (c * 9 + 5) = true /\ on_c toy256 false (c * 9) = true.
Proof. unfold w_good_sid. cbv zeta. intros G. now apply andb_true_iff in G. Qed.

Lemma w_setup pre (tl sys : reader) rest : Forall is_byte tl -> Forall is_byte sys ->
  w_good_sid (pre ++ encodePartyPair 0 1 65) && w_good_sid (pre ++ encodePartyPair 0 1 66) = true ->
  @ct_healthy_n _ _ _ toy256 toy256_pt false toy256_ct (w_setup_cost rest) sys ->
  exists rA sA rB sB sys', @setupPairs toy_hash toy_curves toy_secp toy_ed 2 pre (w_seg ++ w_seg ++ tl) sys =
      Ok (w_matrix rA sA rB sB, tl, sys') /\
    Forall is_byte sys' /\ @ct_healthy_n _ _ _ toy256 toy256_pt false toy256_ct rest sys'.
Proof.
  intros Ft Fs G Hh. apply andb_true_iff in G as [GA GB].
  apply w_good_sid_spec in GA, GB. unfold w_setup_cost in Hh.
  assert (NE : forall d, pre ++ encodePartyPair 0 1 d <> []) by (intros d E; apply app_eq_nil in E as [_ E]; unfold encodePartyPair in E; discriminate E).
  destruct (w_run (pre ++ encodePartyPair 0 1 65) (w_seg ++ tl) sys (Kappa + (S Kappa + (Kappa + rest)))) as (rA & sA & sys1 & EA & F1 & F2 & H2);
    [apply NE|exact (w_seg_byte _ Ft)|exact Fs|exact GA|exact Hh|].
  destruct (w_run (pre ++ encodePartyPair 0 1 66) tl sys1 rest) as (rB & sB & sys2 & EB & _ & F3 & H3);
    [apply NE|exact Ft|exact F2|exact GB|exact H2|].
  exists rA, sA, rB, sB, sys2. split; [|auto].
  rewrite setupPairs_loop by lia. change (pairs (Z.to_nat 2)) with [(0%nat, 1%nat)]. cbn [foldM]. unfold setup_pair.
  change (Z.of_nat 0) with 0. change (Z.of_nat 1) with 1. rewrite EA. cbn [rewrap rbind]. rewrite EB. cbn [rewrap rbind]. reflexivity.
Qed.

Lemma setupPairs_wired_witness : exists ot rng' sys',
  @setupPairs toy_hash toy_curves toy_secp toy_ed 2 [7] (w_seg ++ w_seg) w_sys = Ok (ot, rng', sys') /\
  wired ot 0 1 /\ cell ot 1 1 = Some None.
Proof.
  destruct (w_setup [7] [] w_sys 0) as (rA & sA & rB & sB & sys' & E & _);
    [constructor|apply ones_byte|vm_compute; reflexivity|apply toy_healthy_n; unfold w_setup_cost, Kappa; lia|].
  rewrite app_nil_r in E. do 3 eexists. split; [exact E|].
  destruct (@setupPairs_wired toy_hash toy_curves toy_secp toy_ed toy256_pt toy256_laws toy256_ct toy_neg 2 [7]
    (w_seg ++ w_seg) w_sys _ _ _ (w_seg_byte _ (proj2 (proj1 (Forall_app _ _ _) (w_seg_byte w_seg (w_seg_byte [] (List.Forall_nil _)))))) (ones_byte _) E) as [W D].
  split; [apply W|apply D]; cbn; lia.
Defined.
