(* ===== verification/DklsSign.v ===== *)
(** * Package [dklstss]: synchronous threshold-ECDSA signing

    [signing.go]: [Sign] and [SignWithTweak] over [signCore].  The keys are
    pointers (an [option]), the identities references into a heap, the reader
    [rng] may be nil, in which case the system reader serves its draws. *)
From stdpp Require Import base gmap list.
From Stdlib Require Import ZArith String List Lia Bool Arith.
From S2P Require Import Prelude GoBig Common Curve CtMul Field Schnorr Bits OtExt OtExtCorrect Ole Party Dkls DklsSetup.
Import ListNotations.
Open Scope string_scope.
Open Scope Z_scope.
Open Scope list_scope.

(** [signing.go], [signing_checked.go] and [presign.go] repeat one text with
    different error messages; the steps they share are defined once, over the
    messages. *)
Record Texts := {
  t_keys : string; t_count : string; t_range : string; t_dup : string; t_hash : string; t_key : string;
  t_lagrange : string; t_ssid : string; t_agg : string; t_r0 : string; t_ot : string;
  t_phi : string; t_inv : string; t_s0 : string
}.
Definition sign_texts : Texts := {|
  t_keys := "dklstss: Sign requires at least one key";
  t_count := "dklstss: Sign requires T+1=%d signers, got %d";
  t_range := "dklstss: Sign signerIdx %d out of range [0,%d)";
  t_dup := "dklstss: Sign duplicate signerIdx %d";
  t_hash := "dklstss: Sign hash must be non-empty";
  t_key := "dklstss: Sign key %d inconsistent with first key";
  t_lagrange := "dklstss: Sign lagrange";
  t_ssid := "dklstss: Sign ssid nonce";
  t_agg := "dklstss: Sign R aggregation";
  t_r0 := "dklstss: Sign R.X is 0 mod q; retry with fresh randomness";
  t_ot := "dklstss: Sign missing OT state between party %d and %d";
  t_phi := "dklstss: Sign φ = k·ρ is 0; retry with fresh randomness";
  t_inv := "dklstss: Sign φ has no inverse";
  t_s0 := "dklstss: Sign produced s=0; retry"
|}.

Section Defs.
Context `{HS : Hash} `{AE : Aes} `{CS : Curves} `{SL : Secp256k1Lib} `{EL : Ed25519Lib}.

Definition addMod (q a b : Z) : res Z := Mod (a + b) q.

(** [byte(i >> k)] *)
Definition int_byte (i k : Z) : Z := Z.shiftr i k mod 256.
Definition makeSid (ssid : bytes) (kind : string) (alice bob : Z) : bytes :=
  ssid ++ [124] ++ str kind ++ [124] ++
  [int_byte alice 24; int_byte alice 16; int_byte alice 8; int_byte alice 0; 124;
   int_byte bob 24; int_byte bob 16; int_byte bob 8; int_byte bob 0].

(** The signer indices: in range and distinct. *)
Definition check_signers (tx : Texts) (n : Z) (signerIdx : list Z) : res (gset Z) :=
  foldM (fun seen i =>
    guard (negb ((i <? 0) || (n <=? i))) (t_range tx) ;!
    guard (negb (bool_decide (i ∈ seen))) (t_dup tx) ;!
    Ok ({[i]} ∪ seen)) ∅ signerIdx.

(** [keys[idx]], consistent with the first key. *)
Definition resolve_signer (tx : Texts) (keys : list (option Key)) (n t : Z) (pub : option ECPoint) (i : Z) : res Key :=
  let! k := idxZ keys i in
  let! k := deref k in
  let! same := (if negb (kN k =? n) || negb (kT k =? t) then Ok false else ECPoint_Equals (kECDSAPub k) pub) in
  guard same (t_key tx) ;!
  Ok k.

(** The effective shares [λ_i x_i], the tweak added to the first. *)
Definition signing_shares (tx : Texts) (q : Z) (ids : list Z) (signers : list Key) (tweak : option Z) : res (list Z) :=
  let! lambdas := mapM (fun i => rewrap (t_lagrange tx) (lagrangeCoefficient q ids (Z.of_nat i)))
    (seq 0 (length signers)) in
  let! sx := mapM (fun '(lam, k) => let! xi := deref (kXi k) in Mod (lam * xi) q) (combine lambdas signers) in
  match tweak with
  | None => Ok sx
  | Some tweak =>
    let! t := Mod tweak q in
    set_at sx 0 (fun s => Mod (s + t) q)
  end.

(** Round 1 of one signer: [k_i], [ρ_i] and [K_i = k_i G]. *)
Definition draw_nonce : rnd (option Z * option Z * option ECPoint) :=
  let~ k := GetRandomPositiveInt (Some (cN S256)) in
  let~ rho := GetRandomPositiveInt (Some (cN S256)) in
  let~ Ki := ScalarBaseMultWithRand S256 k in
  rret (k, rho, Ki).

(** [R = Σ K_i] *)
Definition sum_points (tx : Texts) (Ki : list (option ECPoint)) : res ECPoint :=
  let! R := idx Ki 0 in
  let! R := foldM (fun R K =>
    let! R := deref R in let! K := deref K in
    let! R := rewrap (t_agg tx) (ECPoint_Add R K) in Ok (Some R)) R (tl Ki) in
  deref R.

(** One multiplication protocol, both sides: Alice's and Bob's additive shares. *)
Definition run_mul (mA1 mB mA2 : string) (sid : bytes) (alice : option ExtReceiver) (bob : option ExtSender) (alpha beta : Z)
  : res (Z * Z) :=
  let! (aMsg, aState) := rewrap mA1 (AliceStep1 sid alice (Some alpha)) in
  let! (bMsg, uB) := rewrap mB (BobStep1 sid bob (Some beta) (Some aMsg)) in
  let! uA := rewrap mA2 (AliceStep2 (Some aState) (Some bMsg)) in
  Ok (uA, uB).

(** The two accumulators of the ordered pair [(ai, bj)]. *)
Definition add_shares (q : Z) (acc : list Z) (ai bj : nat) (uA uB : Z) : res (list Z) :=
  let! acc := set_at acc ai (fun s => addMod q s uA) in
  set_at acc bj (fun s => addMod q s uB).

(** The two multiplications of an ordered pair, as a function of its transfer
    states: Alice's and Bob's shares of [k ρ], then of [x ρ]. *)
Definition pair_mul : Type := Key -> Key -> PairOTState -> PairOTState -> Z -> Z -> res (Z * Z).
Definition mul_pair (tx : Texts) (mulK mulX : pair_mul) (q : Z) (signers : list Key) (k rho sx : list Z)
    (st : list Z * list Z) (ab : nat * nat) : res (list Z * list Z) :=
  let '(kRho, xRho) := st in
  let '(ai, bj) := ab in
  if (ai =? bj)%nat then Ok st
  else
    let! aliceKey := idx signers ai in
    let! bobKey := idx signers bj in
    let! alicePair := idxZ (kOT aliceKey) (kIdx bobKey) in
    let! bobPair := idxZ (kOT bobKey) (kIdx aliceKey) in
    match alicePair, bobPair with
    | Some alicePair, Some bobPair =>
      let! ka := idx k ai in
      let! rb := idx rho bj in
      let! xa := idx sx ai in
      let! (uAK, uBK) := mulK aliceKey bobKey alicePair bobPair ka rb in
      let! kRho := add_shares q kRho ai bj uAK uBK in
      let! (uAX, uBX) := mulX aliceKey bobKey alicePair bobPair xa rb in
      let! xRho := add_shares q xRho ai bj uAX uBX in
      Ok (kRho, xRho)
    | _, _ => Err (t_ot tx)
    end.
Definition sign_mul (kind : string) (ssid : bytes) : pair_mul := fun aliceKey bobKey alicePair bobPair alpha beta =>
  run_mul ("dklstss: Sign ΠMul-" ++ kind ++ " Alice1 (i=%d,j=%d)") ("dklstss: Sign ΠMul-" ++ kind ++ " Bob1 (i=%d,j=%d)")
    ("dklstss: Sign ΠMul-" ++ kind ++ " Alice2 (i=%d,j=%d)")
    (makeSid ssid (kind ++ "xrho") (kIdx aliceKey) (kIdx bobKey)) (AsAlice alicePair) (AsBob bobPair) alpha beta.

(** Round 2: the shares of [k ρ] and [x ρ]. *)
Definition cross_terms (tx : Texts) (mulK mulX : pair_mul) (q : Z) (signers : list Key) (k rho sx : list Z) : res (list Z * list Z) :=
  let sgn := length signers in
  let! kRho := mapM (fun '(a, b) => CTScalarMulAddModN S256 a b 0) (combine k rho) in
  let! xRho := mapM (fun '(a, b) => CTScalarMulAddModN S256 a b 0) (combine sx rho) in
  foldM (fun st ai => foldM (fun st bj => mul_pair tx mulK mulX q signers k rho sx st (ai, bj)) st (seq 0 sgn)) (kRho, xRho) (seq 0 sgn).

(** Round 3: [s = Σ (ρ_i H(m) + r σ_i) / φ], and its low form; [adjust] is what a
    late tweak adds to [σ_i]. *)
Definition assemble (tx : Texts) (adjust : Z -> Z -> res Z) (q : Z) (hash : bytes) (r : Z) (rho kRho xRho : list Z) : res Z :=
  let! phi := foldM (fun phi a => Mod (phi + a) q) 0 kRho in
  guard (negb (Z.sgn phi =? 0)) (t_phi tx) ;!
  let! hashI := hashToScalar q hash in
  let! sigmaSum := foldM (fun sigmaSum '(rho, x) =>
    let! x := adjust rho x in
    let! t1 := CTScalarMulAddModN S256 rho hashI 0 in
    let! shat := CTScalarMulAddModN S256 r x t1 in
    Mod (sigmaSum + shat) q) 0 (combine rho xRho) in
  let! phiInv := modInt_ModInverse q phi in
  match phiInv with
  | None => Err (t_inv tx)
  | Some phiInv =>
    let! s := Mod (sigmaSum * phiInv) q in
    guard (negb (Z.sgn s =? 0)) (t_s0 tx) ;!
    Ok s
  end.

Definition low_s (q s v : Z) : Z * Z :=
  if 0 <? Cmp s (Z.shiftr q 1) then (q - s, Z.lxor v 1) else (s, v).

Definition sign_ssid (nonce hash : bytes) : bytes := str "DKLS23-sign-v1-" ++ nonce ++ [124] ++ hash.

(** The signers, checked and sorted, and the common public key; presigning has no
    digest to check. *)
Definition resolve_signers (tx : Texts) (h : Heap) (keys : list (option Key)) (signerIdx : list Z) (hash : option bytes)
  : res (list Key * option ECPoint) :=
  guard (negb (length keys =? 0)%nat) (t_keys tx) ;!
  let! k0 := idx keys 0 in
  let! k0 := deref k0 in
  guard (Z.of_nat (length signerIdx) =? kT k0 + 1) (t_count tx) ;!
  let! _ := check_signers tx (kN k0) signerIdx in
  guard (match hash with Some hash => negb (length hash =? 0)%nat | None => true end) (t_hash tx) ;!
  let! signers := mapM (resolve_signer tx keys (kN k0) (kT k0) (kECDSAPub k0)) signerIdx in
  let! signers := sortSignersByID h signers in
  Ok (signers, kECDSAPub k0).

(** What the first round leaves behind. *)
Record Started := {
  st_signers : list Key; st_pub : option ECPoint; st_sx : list Z; st_nonce : bytes;
  st_R : ECPoint; st_r : Z; st_k : list Z; st_rho : list Z
}.

(** From the arguments to the group nonce. *)
Definition start_signing (tx : Texts) (h : Heap) (keys : list (option Key)) (signerIdx : list Z) (tweak : option Z)
    (hash : option bytes) (rd : reader) : res (Started * reader) :=
  let! (signers, pub) := resolve_signers tx h keys signerIdx hash in
  let q := cN S256 in
  let! ids := mapM (own_id h) signers in
  let! sx := signing_shares tx q ids signers tweak in
  let! (nonce, rd) := rewrap (t_ssid tx) (ReadFull 16 rd) in
  let! (draws, rd) := rmapM (fun _ => draw_nonce) signers rd in
  let! R := sum_points tx (map snd draws) in
  let! Rx := ECPoint_X R in
  let! r := Mod Rx q in
  guard (negb (Z.sgn r =? 0)) (t_r0 tx) ;!
  let! k := mapM deref (map (fun d => fst (fst d)) draws) in
  let! rho := mapM deref (map (fun d => snd (fst d)) draws) in
  Ok ({| st_signers := signers; st_pub := pub; st_sx := sx; st_nonce := nonce; st_R := R; st_r := r; st_k := k; st_rho := rho |}, rd).

(** From the additive shares to the verified signature. *)
Definition finish_signing (tx : Texts) (adjust : Z -> Z -> res Z) (pub : option ECPoint) (tweak : option Z) (hash : bytes)
    (R : ECPoint) (r : Z) (rho kRho xRho : list Z) (sys : reader) : res (Signature * reader) :=
  let q := cN S256 in
  let! s := assemble tx adjust q hash r rho kRho xRho in
  let! Ry := ECPoint_Y R in
  let (s, v) := low_s q s (Bit Ry 0) in
  let! sys := verifyFinalSignature pub tweak hash r s sys in
  Ok ({| sigR := r; sigS := s; sigV := v |}, sys).

Definition signCore (h : Heap) (keys : list (option Key)) (signerIdx : list Z) (tweak : option Z) (hash : bytes)
    (rng : option reader) (sys : reader) : res (Signature * option reader * reader) :=
  let rd := match rng with Some r => r | None => sys end in
  let! (st, rd) := start_signing sign_texts h keys signerIdx tweak (Some hash) rd in
  let (rng, sys) := match rng with Some _ => (Some rd, sys) | None => (None, rd) end in
  let ssid := sign_ssid (st_nonce st) hash in
  let! (kRho, xRho) := cross_terms sign_texts (sign_mul "k" ssid) (sign_mul "x" ssid) (cN S256) (st_signers st)
    (st_k st) (st_rho st) (st_sx st) in
  let! (sg, sys) := finish_signing sign_texts (fun _ x => Ok x) (st_pub st) tweak hash (st_R st) (st_r st) (st_rho st) kRho xRho sys in
  Ok (sg, rng, sys).

Definition Sign (h : Heap) (keys : list (option Key)) (signerIdx : list Z) (hash : bytes) (rng : option reader) (sys : reader) :=
  signCore h keys signerIdx None hash rng sys.
Definition SignWithTweak (h : Heap) (keys : list (option Key)) (signerIdx : list Z) (tweak : option Z) (hash : bytes)
    (rng : option reader) (sys : reader) :=
  signCore h keys signerIdx tweak hash rng sys.
End Defs.
