(* ===== verification/DklsSignCorrect.v ===== *)
(** * Correctness of the synchronous signing of [dklstss]

    [consistent] is what key generation establishes: Shamir shares of one secret
    on a polynomial of degree [T], the common public key, distinct identities
    and matching transfer states for each ordered pair.  A signing run over such
    keys returns a signature that the verifier accepts, or one of the errors that
    ask for fresh randomness. *)
From stdpp Require Import base gmap list.
From Stdlib Require Import ZArith String List Lia Bool Arith Permutation.
From S2P Require Import Prelude GoBig Common Curve CtMul Field Schnorr Bits OtExt OtExtCorrect Ole Party Dkls DklsSetup DklsSign.
Import ListNotations.
Open Scope string_scope.
Open Scope Z_scope.
Open Scope list_scope.

(** ** Sums *)
Lemma zsum_perm l1 l2 : Permutation l1 l2 -> zsum l1 = zsum l2.
Proof. induction 1; rewrite ?zsum_cons in *; lia. Qed.

Lemma zsum_map_const_mul {A} (f : A -> Z) c l : zsum (map (fun a => f a * c) l) = zsum (map f l) * c.
Proof. induction l as [|a l IH]; cbn; [reflexivity|]. unfold zsum in *. lia. Qed.

Lemma cong_peval q cs x y : cong q x y -> cong q (peval cs x) (peval cs y).
Proof. intros E. induction cs as [|c cs IH]; cbn [peval]; [reflexivity|]. now rewrite IH, E. Qed.

(** A loop that adds up modulo [q]. *)
Lemma foldM_sum {A} q (f : Z -> A -> res Z) (g : A -> Z) l : 0 < q ->
  (forall s a, In a l -> f s a = Ok ((s + g a) mod q)) -> forall s, 0 <= s < q ->
  exists s', foldM f s l = Ok s' /\ 0 <= s' < q /\ cong q s' (s + zsum (map g l)).
Proof.
  intros Hq Hf. induction l as [|a l IH]; intros s Hs; cbn [foldM map].
  - exists s. split; [reflexivity|]. split; [assumption|]. apply cong_eq. cbn. ring.
  - rewrite Hf by now left. cbn [rbind]. destruct (IH ltac:(intros; apply Hf; now right) ((s + g a) mod q))
      as (s' & E & R & C); [apply Z.mod_pos_bound; lia|]. exists s'. split; [assumption|]. split; [assumption|].
    rewrite C, cong_mod, zsum_cons. apply cong_eq. ring.
Qed.

Lemma zsum_others (f : nat -> Z) a n : forall k, (k <= a < k + n)%nat ->
  zsum (map (fun b => if (a =? b)%nat then 0 else f b) (seq k n)) + f a = zsum (map f (seq k n)).
Proof.
  induction n as [|n IH]; intros k H; [lia|]. cbn [seq map]. rewrite !zsum_cons.
  destruct (Nat.eqb_spec a k) as [->|Hak]; [|rewrite <- (IH (S k)) by lia; ring].
  rewrite (map_ext_in _ f); [ring|]. intros b Hb. apply in_seq in Hb. destruct (Nat.eqb_spec k b); [lia|reflexivity].
Qed.

Lemma zsum_nth l : zsum (map (fun i => nth i l 0) (seq 0 (length l))) = zsum l.
Proof. now rewrite (map_nth_seq l). Qed.

Lemma zsum_combine k r : length k = length r ->
  zsum (map (fun p => fst p * snd p) (combine k r)) = zsum (map (fun i => nth i k 0 * nth i r 0) (seq 0 (length k))).
Proof.
  revert r. induction k as [|a k IH]; intros [|b r] H; try discriminate H; [reflexivity|].
  cbn [combine length seq map nth]. rewrite !zsum_cons, <- seq_shift, map_map, IH by (cbn in H; lia). reflexivity.
Qed.

Lemma combine_fst {A B} (f : A -> Z) (l : list A) (l' : list B) : length l = length l' ->
  zsum (map (fun p => f (fst p)) (combine l l')) = zsum (map f l).
Proof. revert l'. induction l as [|a l IH]; intros [|b l'] E; try discriminate E; cbn; [reflexivity|]. f_equal. apply IH. cbn in E. lia. Qed.

Lemma combine_snd {A B} (f : B -> Z) (l : list A) (l' : list B) : length l = length l' ->
  zsum (map (fun p => f (snd p)) (combine l l')) = zsum (map f l').
Proof. revert l'. induction l as [|a l IH]; intros [|b l'] E; try discriminate E; cbn; [reflexivity|]. f_equal. apply IH. cbn in E. lia. Qed.

(** Diagonal and cross terms make the product of the sums. *)
Lemma cross_sum k r n : length k = n -> length r = n ->
  zsum (map (fun p => fst p * snd p) (combine k r)) +
  zsum (map (fun a => zsum (map (fun b => if (a =? b)%nat then 0 else nth a k 0 * nth b r 0) (seq 0 n))) (seq 0 n)) =
  zsum k * zsum r.
Proof.
  intros Hk Hr. rewrite zsum_combine, Hk by lia. rewrite <- zsum_map_add.
  rewrite <- (zsum_nth k), Hk, <- zsum_map_const_mul. f_equal. apply map_ext_in. intros a Ha. apply in_seq in Ha.
  rewrite Z.add_comm, (zsum_others (fun b => nth a k 0 * nth b r 0) a n 0) by lia.
  rewrite zsum_map_mul_l, <- (zsum_nth r), Hr. reflexivity.
Qed.

(** ** Sorting *)
Lemma insert_signer_perm h (idf : Key -> Z) k l : own_id h k = Ok (idf k) -> Forall (fun x => own_id h x = Ok (idf x)) l ->
  exists l', insert_signer h k l = Ok l' /\ Permutation (k :: l) l'.
Proof.
  intros Hk. induction l as [|x l IH]; intros F; cbn [insert_signer]; [eauto|].
  pose proof (Forall_inv F) as Hx. cbv beta in Hx. rewrite Hk, Hx. cbn [rbind].
  destruct (_ =? -1); [eauto|]. destruct (IH (Forall_inv_tail F)) as (l' & -> & P). cbn [rbind]. eexists. split; [reflexivity|].
  rewrite perm_swap. now constructor.
Qed.

Lemma sortSignersByID_perm h (idf : Key -> Z) l : Forall (fun x => own_id h x = Ok (idf x)) l ->
  exists l', sortSignersByID h l = Ok l' /\ Permutation l l'.
Proof.
  unfold sortSignersByID. intros F. enough (H : forall acc, Forall (fun x => own_id h x = Ok (idf x)) acc ->
    exists l', foldM (fun sorted k => insert_signer h k sorted) acc l = Ok l' /\ Permutation (l ++ acc) l').
  { destruct (H [] (List.Forall_nil _)) as (l' & E & P). rewrite app_nil_r in P. eauto. }
  induction l as [|k l IH]; intros acc Fa; cbn [foldM app]; [eauto|].
  destruct (insert_signer_perm h idf k acc (Forall_inv F) Fa) as (acc' & -> & P). cbn [rbind].
  destruct (IH (Forall_inv_tail F) acc') as (l' & E & P').
  { apply List.Forall_forall. intros x Hx. apply (Permutation_in x (Permutation_sym P)) in Hx as [<-|Hx];
      [exact (Forall_inv F)|]. rewrite List.Forall_forall in Fa. auto. }
  exists l'. split; [assumption|]. rewrite <- P', <- P. apply Permutation_middle.
Qed.

Lemma mapM_nth {A B} (f : A -> res B) l l' i a : mapM f l = Ok l' -> nth_error l i = Some a ->
  exists b, f a = Ok b /\ nth_error l' i = Some b.
Proof.
  revert i l'. induction l as [|x l IH]; intros [|i] l' H E; try discriminate E; cbn [mapM nth_error] in *; inv_res.
  - injection E as ->. eauto.
  - eauto.
Qed.

Lemma mapM_deref_some {A B} (f : A -> B) l : mapM deref (map (fun a => Some (f a)) l) = Ok (map f l).
Proof. induction l as [|a l IH]; cbn; [reflexivity|]. now rewrite IH. Qed.

Lemma low_s_range q s v : 0 < s < q -> 0 < fst (low_s q s v) <= q / 2.
Proof.
  intros Hs. unfold low_s. change (Z.shiftr q 1) with (Z.div2 q). rewrite Z.div2_div.
  pose proof (Z.div_mod q 2). pose proof (Z.mod_pos_bound q 2). unfold Cmp.
  destruct (Z.compare_spec s (q / 2)); cbn [Z.ltb Z.compare fst]; lia.
Qed.

Section Sign.
Context `{HS : Hash} `{AL : AesLaws} `{CS : Curves} `{SL : Secp256k1Lib} `{EL : Ed25519Lib}.
Context {pt : Z -> Z * Z} {L : CurveLaws S256 pt false} {CT : CtCurve S256 pt false}.
Hypothesis Hneg : forall a, pt (- a) = (fst (pt a), (- snd (pt a)) mod cP S256).
Abbreviation q := (cN S256).
Abbreviation pnt := (mkpt S256 pt).
Abbreviation on_k := (on_c S256 false).

Lemma q_pos : 1 < q.
Proof. exact (prime_gt_1 q cl_prime). Qed.

(** ** Consistent keys *)
(** The keys of [length keys] parties with identities [ids], whose shares lie on
    the polynomial with coefficients [cs] and whose transfer states match. *)
Record consistent (h : Heap) (keys : list (option Key)) (ids cs : list Z) : Prop := {
  co_len : length ids = length keys;
  co_distinct : distinct q ids;
  co_key : forall i, (i < length keys)%nat -> exists k, nth_error keys i = Some (Some k) /\
    kN k = Z.of_nat (length keys) /\ kT k + 1 = Z.of_nat (length cs) /\ kIdx k = Z.of_nat i /\
    kECDSAPub k = Some (pnt (peval cs 0)) /\ own_id h k = Ok (nth i ids 0) /\
    exists xi, kXi k = Some xi /\ cong q xi (peval cs (nth i ids 0));
  co_ot : forall i j ki kj, i <> j -> nth_error keys i = Some (Some ki) -> nth_error keys j = Some (Some kj) ->
    exists pi pj r s, idxZ (kOT ki) (Z.of_nat j) = Ok (Some pi) /\ idxZ (kOT kj) (Z.of_nat i) = Ok (Some pj) /\
      AsAlice pi = Some r /\ AsBob pj = Some s /\ matched r s
}.

Section Keys.
Variables (h : Heap) (keys : list (option Key)) (ids cs : list Z).
Hypothesis CK : consistent h keys ids cs.

(** A key of the set, and its identity. *)
Definition member (k : Key) : Prop := exists i, (i < length keys)%nat /\ nth_error keys i = Some (Some k) /\ kIdx k = Z.of_nat i.
Definition id_of (k : Key) : Z := nth (Z.to_nat (kIdx k)) ids 0.

Lemma member_facts k : member k ->
  kN k = Z.of_nat (length keys) /\ kT k + 1 = Z.of_nat (length cs) /\ kECDSAPub k = Some (pnt (peval cs 0)) /\
  own_id h k = Ok (id_of k) /\ exists xi, kXi k = Some xi /\ cong q xi (peval cs (id_of k)).
Proof.
  intros (i & Hi & E & Ei). destruct (co_key _ _ _ _ CK i Hi) as (k' & E' & H1 & H2 & H3 & H4 & H5 & H6).
  rewrite E in E'. injection E' as <-. unfold id_of. rewrite Ei, Nat2Z.id. auto 8.
Qed.

Lemma member_of i : 0 <= i < Z.of_nat (length keys) -> exists k, idxZ keys i = Ok (Some k) /\ member k /\ kIdx k = i.
Proof.
  intros Hi. destruct (co_key _ _ _ _ CK (Z.to_nat i) ltac:(lia)) as (k & E & _ & _ & EI & _). exists k.
  unfold idxZ. rewrite (proj2 (Z.ltb_ge _ _)) by lia. rewrite (proj2 (idx_ok _ _ _) E). split; [reflexivity|].
  split; [|lia]. exists (Z.to_nat i). split; [lia|auto].
Qed.

(** Distinct members have transfer states that match. *)
Lemma member_ot ka kb : member ka -> member kb -> kIdx ka <> kIdx kb ->
  exists pa pb r s, idxZ (kOT ka) (kIdx kb) = Ok (Some pa) /\ idxZ (kOT kb) (kIdx ka) = Ok (Some pb) /\
    AsAlice pa = Some r /\ AsBob pb = Some s /\ matched r s.
Proof.
  intros (i & _ & Ei & Ii) (j & _ & Ej & Ij) Hne. rewrite Ii, Ij. apply (co_ot _ _ _ _ CK i j ka kb); [lia|assumption|assumption].
Qed.

Lemma ids_distinct signers : Forall member signers -> NoDup (map kIdx signers) -> distinct q (map id_of signers).
Proof.
  intros F N. pose proof (co_distinct _ _ _ _ CK) as D. unfold distinct in *.
  rewrite map_map. rewrite List.NoDup_nth_error in D.
  induction signers as [|k l IH]; cbn [map]; [constructor|]. pose proof (Forall_inv F) as Hk. cbv beta in Hk.
  cbn [map] in N. apply List.NoDup_cons_iff in N as [N1 N2]. apply List.NoDup_cons; [|apply IH; [exact (Forall_inv_tail F)|assumption]].
  intros Hin. apply in_map_iff in Hin as (k' & E & Hk'). apply N1. apply in_map_iff. exists k'. split; [|assumption].
  apply Forall_inv_tail in F. rewrite List.Forall_forall in F. destruct (F k' Hk') as (j & Hj & _ & Ij), Hk as (i & Hi & _ & Ii).
  unfold id_of in E. rewrite Ii, Ij, !Nat2Z.id in E. rewrite Ii, Ij. f_equal. pose proof (co_len _ _ _ _ CK) as Len.
  apply D; [rewrite length_map; lia|].
  rewrite !nth_error_map, !(nth_error_nth_lt ids _ 0) by lia. cbn [option_map]. now rewrite E.
Qed.

(** ** The signers *)
Lemma check_signers_ok tx n l : Forall (fun i => 0 <= i < n) l -> NoDup l -> exists s, check_signers tx n l = Ok s.
Proof.
  intros F N. unfold check_signers. enough (K : forall seen : gset Z, (forall i, In i l -> i ∉ seen) ->
    exists s, foldM (fun seen i => guard (negb ((i <? 0) || (n <=? i))) (t_range tx) ;!
      guard (negb (bool_decide (i ∈ seen))) (t_dup tx) ;! Ok ({[i]} ∪ seen)) seen l = Ok s).
  { apply K. intros i _. set_solver. }
  induction l as [|i l IH]; intros seen Hs; cbn [foldM]; [eauto|].
  pose proof (Forall_inv F) as Hi. cbv beta in Hi. apply List.NoDup_cons_iff in N as [N1 N2].
  rewrite (proj2 (Z.ltb_ge _ _)), (proj2 (Z.leb_gt _ _)) by lia. cbn [orb negb guard rbind].
  rewrite bool_decide_eq_false_2 by (apply Hs; now left). cbn [negb guard rbind].
  apply IH; [exact (Forall_inv_tail F)|assumption|]. intros j Hj. apply not_elem_of_union. split; [|apply Hs; now right].
  intros E. apply elem_of_singleton in E. now subst.
Qed.

Lemma resolve_signers_ok tx signerIdx (hash : option bytes) : keys <> [] -> length signerIdx = length cs -> hash <> Some [] ->
  Forall (fun i => 0 <= i < Z.of_nat (length keys)) signerIdx -> NoDup signerIdx ->
  exists signers, resolve_signers tx h keys signerIdx hash = Ok (signers, Some (pnt (peval cs 0))) /\
    length signers = length cs /\ Forall member signers /\ NoDup (map kIdx signers).
Proof.
  intros Hk Hl Hh F N. unfold resolve_signers.
  assert (Hn : (0 < length keys)%nat) by (destruct keys; [contradiction|cbn; lia]).
  replace (length keys =? 0)%nat with false by (symmetry; apply Nat.eqb_neq; lia). cbn [negb guard rbind].
  destruct (member_of 0 ltac:(lia)) as (k0 & E0 & M0 & _). change (idxZ keys 0) with (idx keys 0) in E0. rewrite E0. cbn [rbind deref].
  destruct (member_facts k0 M0) as (-> & T0 & -> & _).
  rewrite (proj2 (Z.eqb_eq _ _)) by lia. cbn [guard rbind].
  destruct (check_signers_ok tx _ _ F N) as (seen & ->). cbn [rbind].
  replace (match hash with Some hash => negb (length hash =? 0)%nat | None => true end) with true
    by (destruct hash as [[|]|]; [contradiction|reflexivity|reflexivity]). cbn [guard rbind].
  assert (R : exists ks, mapM (resolve_signer tx keys (Z.of_nat (length keys)) (kT k0) (Some (pnt (peval cs 0)))) signerIdx = Ok ks /\
    Forall2 (fun i k => member k /\ kIdx k = i) signerIdx ks).
  { apply mapM_exists. intros i Hi. rewrite List.Forall_forall in F. destruct (member_of i (F i Hi)) as (k & E & Mk & Ik).
    exists k. split; [|auto]. unfold resolve_signer. rewrite E. cbn [rbind deref].
    destruct (member_facts k Mk) as (-> & Tk & -> & _). rewrite Z.eqb_refl. cbn [negb orb].
    replace (kT k =? kT k0) with true by (symmetry; apply Z.eqb_eq; lia). cbn [negb].
    replace (ECPoint_Equals _ _) with (Ok true); [reflexivity|].
    cbn. unfold Cmp. now rewrite !Z.compare_refl. }
  destruct R as (ks & -> & F2). cbn [rbind].
  assert (FM : Forall member ks) by (apply List.Forall_forall; intros k Hk'; destruct (Forall2_In_r _ _ _ F2 k Hk') as (i & _ & Mk & _); exact Mk).
  destruct (sortSignersByID_perm h id_of ks) as (ks' & -> & P).
  { apply List.Forall_forall. intros k Hk'. rewrite List.Forall_forall in FM. now apply member_facts, FM. }
  cbn [rbind]. exists ks'. split; [reflexivity|]. split; [|split].
  - rewrite <- (Permutation_length P), <- (Forall2_length F2). assumption.
  - apply List.Forall_forall. intros k Hk'. rewrite List.Forall_forall in FM. apply FM. now apply (Permutation_in k (Permutation_sym P)).
  - apply (Permutation_NoDup (Permutation_map kIdx P)). replace (map kIdx ks) with signerIdx; [assumption|].
    clear - F2. induction F2 as [|i k l l' [_ <-] F2 IH]; cbn; [reflexivity|now rewrite IH at 1].
Qed.

(** ** The effective shares *)
Lemma lambdas_ok msg suf : forall pre, distinct q (map id_of (pre ++ suf)) ->
  exists lams, mapM (fun i => rewrap msg (lagrangeCoefficient q (map id_of (pre ++ suf)) (Z.of_nat i)))
    (seq (length pre) (length suf)) = Ok lams /\
  Forall2 (fun l k => cong q l (lam q (map (fun y => y mod q) (map id_of (pre ++ suf))) (id_of k mod q))) lams suf.
Proof.
  induction suf as [|k suf IH]; intros pre D; cbn [length seq mapM]; [eauto|].
  assert (Hl : (length pre < length (map id_of (pre ++ k :: suf)))%nat) by (rewrite length_map, length_app; cbn; lia).
  destruct (lagrange_run q cl_prime _ (length pre) Hl D) as (l & -> & _ & Cl). cbn [rewrap rbind].
  replace (pre ++ k :: suf) with ((pre ++ [k]) ++ suf) in * by now rewrite <- app_assoc.
  specialize (IH (pre ++ [k]) D). rewrite length_app, Nat.add_1_r in IH. destruct IH as (lams & -> & F2). cbn [rbind].
  exists (l :: lams). split; [reflexivity|]. constructor; [|assumption]. rewrite Cl.
  rewrite !map_app, app_nth1, app_nth2 by (rewrite ?length_app, ?length_map; cbn; lia).
  now rewrite length_map, Nat.sub_diag.
Qed.

Lemma weighted_ok g lams signers : Forall member signers -> Forall2 (fun l k => cong q l (g k)) lams signers ->
  exists sx, mapM (fun '(lam, k) => let! xi := deref (kXi k) in Mod (lam * xi) q) (combine lams signers) = Ok sx /\
    length sx = length signers /\ cong q (zsum sx) (zsum (map (fun k => peval cs (id_of k) * g k) signers)).
Proof.
  pose proof q_pos as Q1. intros F F2. induction F2 as [|l k lams ks Hl F2 IH]; cbn [combine mapM map].
  - exists []. split; [reflexivity|]. split; reflexivity.
  - destruct (member_facts k (Forall_inv F)) as (_ & _ & _ & _ & xi & -> & Cx). cbn [deref rbind].
    rewrite Mod_ok by lia. cbn [rbind]. destruct (IH (Forall_inv_tail F)) as (sx & -> & Len & Cs). cbn [rbind].
    eexists. split; [reflexivity|]. split; [cbn; now rewrite Len|]. rewrite !zsum_cons, cong_mod, Hl, Cx, Cs.
    apply cong_eq. ring.
Qed.

(** The weighted shares of enough members interpolate the secret. *)
Lemma interpolate_members signers : Forall member signers -> NoDup (map kIdx signers) -> signers <> [] ->
  (length cs <= length signers)%nat ->
  cong q (zsum (map (fun k => peval cs (id_of k) * lam q (map (fun y => y mod q) (map id_of signers)) (id_of k mod q)) signers))
    (peval cs 0).
Proof.
  pose proof q_pos as Q1. intros F N Hne Hl. pose proof (ids_distinct signers F N) as D.
  set (xs := map (fun y => y mod q) (map id_of signers)).
  assert (Dx : distinct q xs).
  { unfold distinct, xs in *. rewrite map_map. rewrite (map_ext _ (fun y => y mod q)); [exact D|].
    intros y. apply Z.mod_mod. lia. }
  rewrite <- (lagrange_at_0 q cl_prime xs cs Dx);
    [|unfold xs; rewrite !length_map; lia|unfold xs; destruct signers; [contradiction|discriminate]].
  set (F2' := fun x => peval cs x * lam q xs x). unfold xs at 2. rewrite !map_map. apply cong_zsum_map. intros k _. unfold F2'.
  rewrite (cong_peval q cs (id_of k mod q) (id_of k)) by apply cong_mod. reflexivity.
Qed.

Definition tweak_of (tweak : option Z) : Z := match tweak with Some t => t | None => 0 end.

Lemma signing_shares_ok tx tweak signers : Forall member signers -> NoDup (map kIdx signers) -> signers <> [] ->
  (length cs <= length signers)%nat ->
  exists sx, signing_shares tx q (map id_of signers) signers tweak = Ok sx /\ length sx = length signers /\
    cong q (zsum sx) (peval cs 0 + tweak_of tweak).
Proof.
  pose proof q_pos as Q1. intros F N Hne Hl. pose proof (ids_distinct signers F N) as D. unfold signing_shares.
  destruct (lambdas_ok (t_lagrange tx) signers [] D) as (lams & E & F2). cbn [app length] in E. rewrite E. cbn [rbind].
  destruct (weighted_ok (fun k => lam q (map (fun y => y mod q) (map id_of signers)) (id_of k mod q)) lams signers F F2)
    as (sx & -> & Len & Cs). cbn [rbind].
  assert (C0 : cong q (zsum sx) (peval cs 0)) by (rewrite Cs; now apply interpolate_members).
  destruct tweak as [tw|]; cbn [tweak_of].
  - rewrite Mod_ok by lia. cbn [rbind]. destruct sx as [|s sx]; [cbn in Len; destruct signers; [contradiction|discriminate]|].
    cbn [set_at]. rewrite Mod_ok by lia. cbn [rbind]. eexists. split; [reflexivity|]. split; [exact Len|].
    rewrite <- C0, !zsum_cons, !cong_mod. apply cong_eq. ring.
  - exists sx. split; [reflexivity|]. split; [assumption|]. rewrite C0. apply cong_eq. ring.
Qed.
End Keys.

(** ** The multiplications *)
(** Two accumulator lists and what they sum up to. *)
Definition acc_ok (n : nat) (st : list Z * list Z) (S T : Z) : Prop :=
  length (fst st) = n /\ length (snd st) = n /\ cong q (zsum (fst st)) S /\ cong q (zsum (snd st)) T.

Lemma foldM_acc {A} n f (gk gx : A -> Z) l :
  (forall a st S T, In a l -> acc_ok n st S T -> exists st', f st a = Ok st' /\ acc_ok n st' (S + gk a) (T + gx a)) ->
  forall st S T, acc_ok n st S T ->
  exists st', foldM f st l = Ok st' /\ acc_ok n st' (S + zsum (map gk l)) (T + zsum (map gx l)).
Proof.
  induction l as [|a l IH]; intros Hf st S T Hs; cbn [foldM map].
  - exists st. split; [reflexivity|]. cbn. now rewrite !Z.add_0_r.
  - destruct (Hf a st S T (or_introl eq_refl) Hs) as (st1 & -> & H1). cbn [rbind].
    destruct (IH (fun b st S T Hb => Hf b st S T (or_intror Hb)) _ _ _ H1) as (st2 & E & H2).
    exists st2. split; [assumption|]. now rewrite !zsum_cons, !Z.add_assoc.
Qed.

Lemma set_at_sum l i u : (i < length l)%nat ->
  exists l', set_at l i (fun s => addMod q s u) = Ok l' /\ length l' = length l /\ cong q (zsum l') (zsum l + u).
Proof.
  pose proof q_pos as Q1. revert i. induction l as [|a l IH]; intros [|i] Hi; cbn [length] in Hi; try lia; cbn [set_at].
  - unfold addMod. rewrite Mod_ok by lia. cbn [rbind]. eexists. split; [reflexivity|]. split; [reflexivity|].
    rewrite !zsum_cons, cong_mod. apply cong_eq. ring.
  - destruct (IH i ltac:(lia)) as (l' & -> & Len & C). cbn [rbind]. eexists. split; [reflexivity|].
    split; [cbn; now rewrite Len|]. rewrite !zsum_cons, C. apply cong_eq. ring.
Qed.

Lemma add_shares_ok acc a b uA uB : (a < length acc)%nat -> (b < length acc)%nat ->
  exists acc', add_shares q acc a b uA uB = Ok acc' /\ length acc' = length acc /\ cong q (zsum acc') (zsum acc + (uA + uB)).
Proof.
  intros Ha Hb. unfold add_shares. destruct (set_at_sum acc a uA Ha) as (l1 & -> & L1 & C1). cbn [rbind].
  destruct (set_at_sum l1 b uB ltac:(lia)) as (l2 & -> & L2 & C2). exists l2. split; [reflexivity|]. split; [lia|].
  rewrite C2, C1. apply cong_eq. ring.
Qed.

Lemma run_mul_ok m1 m2 m3 sid r s alpha beta : matched r s ->
  exists uA uB, run_mul m1 m2 m3 sid (Some r) (Some s) alpha beta = Ok (uA, uB) /\ cong q (uA + uB) (alpha * beta).
Proof.
  intros M. pose proof q_pos as Q1. unfold run_mul.
  destruct (mul_ok (conj (Z.lt_trans _ _ _ Z.lt_0_1 Q1) cl_N) r s sid alpha M) as (msg & st & -> & Hb). cbn [rewrap rbind].
  destruct (Hb beta) as (bm & uA & uB & -> & E & _ & _ & C). cbn [rewrap rbind]. rewrite E. cbn [rewrap rbind]. eauto.
Qed.

(** Signers whose transfer states match for every ordered pair. *)
Definition linked (signers : list Key) : Prop := forall i j ki kj, i <> j ->
  nth_error signers i = Some ki -> nth_error signers j = Some kj ->
  exists pi pj r s, idxZ (kOT ki) (kIdx kj) = Ok (Some pi) /\ idxZ (kOT kj) (kIdx ki) = Ok (Some pj) /\
    AsAlice pi = Some r /\ AsBob pj = Some s /\ matched r s.

(** A multiplication that is right on matching states. *)
Definition good_mul (mul : pair_mul) : Prop := forall ka kb pa pb r s alpha beta,
  AsAlice pa = Some r -> AsBob pb = Some s -> matched r s ->
  exists uA uB, mul ka kb pa pb alpha beta = Ok (uA, uB) /\ cong q (uA + uB) (alpha * beta).

Lemma sign_mul_good kind ssid : good_mul (sign_mul kind ssid).
Proof. intros ka kb pa pb r s alpha beta EA EB M. unfold sign_mul. rewrite EA, EB. now apply run_mul_ok. Qed.

Section Cross.
Variables (tx : Texts) (mulK mulX : pair_mul) (signers : list Key) (k rho sx : list Z).
Hypothesis HL : linked signers.
Hypothesis HK : good_mul mulK.
Hypothesis HX : good_mul mulX.
Abbreviation n := (length signers).
Hypothesis Hk : length k = n.
Hypothesis Hr : length rho = n.
Hypothesis Hx : length sx = n.

Lemma mul_pair_ok a b st S T : (a < n)%nat -> (b < n)%nat -> acc_ok n st S T ->
  exists st', mul_pair tx mulK mulX q signers k rho sx st (a, b) = Ok st' /\
    acc_ok n st' (S + (if (a =? b)%nat then 0 else nth a k 0 * nth b rho 0))
      (T + (if (a =? b)%nat then 0 else nth a sx 0 * nth b rho 0)).
Proof.
  intros Ha Hb Hst. destruct st as [kR xR]. unfold mul_pair. destruct (Nat.eqb_spec a b) as [|Hab].
  - exists (kR, xR). rewrite !Z.add_0_r. auto.
  - destruct Hst as (L1 & L2 & C1 & C2). cbn [fst snd] in *.
    destruct (nth_error signers a) as [ka|] eqn:Ea; [|apply nth_error_None in Ea; lia].
    destruct (nth_error signers b) as [kb|] eqn:Eb; [|apply nth_error_None in Eb; lia].
    unfold idx at 1 2. rewrite Ea, Eb. cbn [rbind].
    destruct (HL a b ka kb Hab Ea Eb) as (pa & pb & r & s & -> & -> & EA & EB & M). cbn [rbind].
    rewrite (proj2 (idx_ok k a (nth a k 0))) by (apply nth_error_nth_lt; lia).
    rewrite (proj2 (idx_ok rho b (nth b rho 0))) by (apply nth_error_nth_lt; lia).
    rewrite (proj2 (idx_ok sx a (nth a sx 0))) by (apply nth_error_nth_lt; lia). cbn [rbind].
    edestruct HK as (uA & uB & E1 & K1); [exact EA|exact EB|exact M|]. rewrite E1. cbn [rbind].
    destruct (add_shares_ok kR a b uA uB ltac:(lia) ltac:(lia)) as (kR' & -> & L1' & C1'). cbn [rbind].
    edestruct HX as (vA & vB & E2 & K2); [exact EA|exact EB|exact M|]. rewrite E2. cbn [rbind].
    destruct (add_shares_ok xR a b vA vB ltac:(lia) ltac:(lia)) as (xR' & -> & L2' & C2'). cbn [rbind].
    eexists. split; [reflexivity|]. split; [cbn; lia|]. split; [cbn; lia|]. cbn [fst snd].
    rewrite C1', C2', K1, K2, C1, C2. split; reflexivity.
Qed.

Lemma diag_ok l r' : length l = n -> length r' = n ->
  exists d, mapM (fun '(a, b) => CTScalarMulAddModN S256 a b 0) (combine l r') = Ok d /\ length d = n /\
    cong q (zsum d) (zsum (map (fun p => fst p * snd p) (combine l r'))).
Proof.
  intros Hl Hr'. exists (map (fun p => (fst p * snd p + 0) mod q) (combine l r')).
  split; [apply mapM_ok; intros [a b] _; apply ct_muladd|]. split; [rewrite length_map, length_combine; lia|].
  apply cong_zsum_map. intros p _. rewrite cong_mod. apply cong_eq. ring.
Qed.

(** The accumulators share the products of the sums. *)
Lemma cross_terms_ok : exists kRho xRho, cross_terms tx mulK mulX q signers k rho sx = Ok (kRho, xRho) /\
  length kRho = n /\ length xRho = n /\
  cong q (zsum kRho) (zsum k * zsum rho) /\ cong q (zsum xRho) (zsum sx * zsum rho).
Proof.
  unfold cross_terms. destruct (diag_ok k rho Hk Hr) as (dk & -> & Lk & Ck). cbn [rbind].
  destruct (diag_ok sx rho Hx Hr) as (dx & -> & Lx & Cx). cbn [rbind].
  destruct (foldM_acc n (fun st ai => foldM (fun st bj => mul_pair tx mulK mulX q signers k rho sx st (ai, bj)) st (seq 0 n))
    (fun a => zsum (map (fun b => if (a =? b)%nat then 0 else nth a k 0 * nth b rho 0) (seq 0 n)))
    (fun a => zsum (map (fun b => if (a =? b)%nat then 0 else nth a sx 0 * nth b rho 0) (seq 0 n))) (seq 0 n))
    with (st := (dk, dx)) (S := zsum dk) (T := zsum dx) as ([kR xR] & E & L1 & L2 & C1 & C2).
  - intros a st S T Ha Hs. apply in_seq in Ha.
    apply (foldM_acc n (fun st bj => mul_pair tx mulK mulX q signers k rho sx st (a, bj))); [|assumption].
    intros b st' S' T' Hb Hs'. apply in_seq in Hb. apply mul_pair_ok; [lia|lia|assumption].
  - repeat split; assumption || reflexivity.
  - exists kR, xR. split; [exact E|]. cbn [fst snd] in *. split; [assumption|]. split; [assumption|].
    rewrite C1, C2, Ck, Cx, !cross_sum by assumption. split; reflexivity.
Qed.
End Cross.

(** ** The nonces *)
Lemma rmapM_const {A B C} (f : rnd C) (l : list A) (l' : list B) : length l = length l' ->
  forall r, rmapM (fun _ => f) l r = rmapM (fun _ => f) l' r.
Proof.
  revert l'. induction l as [|a l IH]; intros [|b l'] E r; try discriminate E; [reflexivity|]. cbn [rmapM].
  unfold rnd_bind. destruct (f r) as [[c r']| |]; cbn [rbind fst snd]; try reflexivity. rewrite (IH l'); [reflexivity|].
  cbn in E. lia.
Qed.

Definition nonce_of (p : Z * Z) : option Z * option Z * option ECPoint := (Some (fst p), Some (snd p), Some (pnt (fst p))).

Lemma positive_draw r o r' : Forall is_byte r -> GetRandomPositiveInt (Some q) r = Ok (o, r') ->
  exists x, o = Some x /\ 1 <= x < q /\ Forall is_byte r'.
Proof.
  pose proof q_pos as Q1. intros Fr E. destruct o as [x|].
  - exists x. split; [reflexivity|]. now apply GetRandomPositiveInt_range in E.
  - exfalso. unfold GetRandomPositiveInt in E.
    rewrite Cmp_lt, (proj2 (Z.ltb_lt 0 q)) in E by lia. cbn [negb] in E.
    destruct (Z.leb_spec (Cmp q 1) 0) as [Hc|_]; [|now apply rbind_ok in E as (? & _ & E)].
    unfold Cmp in Hc. destruct (Z.compare_spec q 1); lia.
Qed.

Lemma draw_nonce_inv r d r' : Forall is_byte r -> draw_nonce r = Ok (d, r') ->
  exists p, d = nonce_of p /\ 1 <= fst p < q /\ Forall is_byte r'.
Proof.
  intros Fr E. unfold draw_nonce in E. apply rnd_bind_ok in E as (k & r1 & E1 & E).
  destruct (positive_draw _ _ _ Fr E1) as (k' & -> & Rk & F1).
  apply rnd_bind_ok in E as (rho & r2 & E2 & E). destruct (positive_draw _ _ _ F1 E2) as (rho' & -> & _ & F2).
  apply rnd_bind_ok in E as (K & r3 & E3 & E). apply ct_base in E3 as [-> F3]; [|lia|assumption].
  injection E as <- <-. now exists (k', rho').
Qed.

Lemma draws_inv {A} (l : list A) : forall r draws r', Forall is_byte r -> rmapM (fun _ => draw_nonce) l r = Ok (draws, r') ->
  exists prs, draws = map nonce_of prs /\ length prs = length l /\ Forall (fun p => 1 <= fst p < q) prs.
Proof.
  induction l as [|a l IH]; intros r draws r' Fr E; cbn [rmapM] in E.
  - injection E as <- <-. exists []. repeat constructor.
  - apply rnd_bind_ok in E as (d & r1 & E1 & E). destruct (draw_nonce_inv _ _ _ Fr E1) as (p & -> & Rp & F1).
    apply rnd_bind_ok in E as (ds & r2 & E2 & E). injection E as <- <-.
    destruct (IH _ _ _ F1 E2) as (prs & -> & Len & Fp). exists (p :: prs). cbn. auto.
Qed.

Lemma sum_points_ok tx (prs : list (Z * Z)) : prs <> [] -> Forall (fun p => 1 <= fst p < q) prs ->
  (sum_points tx (map (fun p => Some (pnt (fst p))) prs) = Err (t_agg tx) /\
   exists l1 l2, map fst prs = l1 ++ l2 /\ l1 <> [] /\ zsum l1 mod q = 0) \/
  sum_points tx (map (fun p => Some (pnt (fst p))) prs) = Ok (pnt (zsum (map fst prs))) /\ zsum (map fst prs) mod q <> 0.
Proof.
  destruct prs as [|[k0 rho0] prs]; [contradiction|]. intros _ F. pose proof (Forall_inv F) as H0. cbn in H0.
  unfold sum_points. cbn [map idx nth_error rbind tl fst]. rewrite zsum_cons.
  assert (Hk : k0 mod q <> 0) by (rewrite Z.mod_small; lia). clear F H0.
  enough (K : forall k0, k0 mod q <> 0 ->
    (rbind (foldM (fun R K => let! R := deref R in let! K := deref K in
        let! R := rewrap (t_agg tx) (ECPoint_Add R K) in Ok (Some R)) (Some (pnt k0))
        (map (fun p => Some (pnt (fst p))) prs)) deref = Err (t_agg tx) /\
      exists l1 l2, map fst prs = l1 ++ l2 /\ l1 <> [] /\ (k0 + zsum l1) mod q = 0) \/
    rbind (foldM (fun R K => let! R := deref R in let! K := deref K in
        let! R := rewrap (t_agg tx) (ECPoint_Add R K) in Ok (Some R)) (Some (pnt k0))
        (map (fun p => Some (pnt (fst p))) prs)) deref = Ok (pnt (k0 + zsum (map fst prs))) /\ (k0 + zsum (map fst prs)) mod q <> 0).
  { destruct (K k0 Hk) as [(E & l1 & l2 & El & _ & Z0)|E]; [left|right; exact E].
    split; [exact E|]. exists (k0 :: l1), l2. cbn [app]. rewrite El, zsum_cons. split; [reflexivity|]. split; [discriminate|exact Z0]. }
  clear k0 Hk. induction prs as [|[k r] prs IH]; intros k0 Hk; cbn [map foldM fst].
  - right. cbn. rewrite Z.add_0_r. auto.
  - cbn [deref rbind]. rewrite ECPoint_Add_pt. unfold on_c at 1 2. cbn [orb].
    destruct (Z.eqb_spec ((k0 + k) mod q) 0) as [E|E]; cbn [negb rewrap rbind].
    + left. split; [reflexivity|]. exists [k], (map fst prs). cbn. rewrite Z.add_0_r. split; [reflexivity|]. split; [discriminate|exact E].
    + rewrite zsum_cons, Z.add_assoc. destruct (IH (k0 + k) E) as [(E' & l1 & l2 & El & _ & Z0)|E']; [left|right; exact E'].
      split; [exact E'|]. exists (k :: l1), l2. cbn [app]. rewrite El, zsum_cons, Z.add_assoc.
      split; [reflexivity|]. split; [discriminate|exact Z0].
Qed.

(** ** The last round *)
(** The assembled value solves the signature equation for the nonce sum [K]. *)
(** [adjust] adds [tw ρ] to a share. *)
Definition adjusts (adjust : Z -> Z -> res Z) (f : Z -> Z -> Z) (tw : Z) : Prop :=
  forall rho x, adjust rho x = Ok (f rho x) /\ cong q (f rho x) (x + tw * rho).

Lemma adjusts_none : adjusts (fun _ x => Ok x) (fun _ x => x) 0.
Proof. intros rho x. split; [reflexivity|]. apply cong_eq. ring. Qed.

Lemma assemble_ok tx adjust f tw (hash : bytes) r rho kRho xRho K X : adjusts adjust f tw ->
  length rho = length xRho -> Forall is_byte hash ->
  cong q (zsum kRho) (K * zsum rho) -> cong q (zsum xRho) (X * zsum rho) ->
  (exists s, assemble tx adjust q hash r rho kRho xRho = Ok s /\ 0 < s < q /\ cong q (s * K) (hashToInt q hash + r * (X + tw))) \/
  (assemble tx adjust q hash r rho kRho xRho = Err (t_phi tx) /\ (K * zsum rho) mod q = 0) \/
  (assemble tx adjust q hash r rho kRho xRho = Err (t_s0 tx) /\ (hashToInt q hash + r * (X + tw)) mod q = 0).
Proof.
  pose proof q_pos as Q1. intros HA Hl Hb CK CX. unfold assemble.
  destruct (foldM_sum q (fun phi a => Mod (phi + a) q) (fun a => a) kRho (Z.lt_trans _ _ _ Z.lt_0_1 Q1)) with (s := 0)
    as (phi & -> & Rp & Cp); [intros; now rewrite Mod_ok by lia|lia|]. cbn [rbind].
  rewrite map_id, Z.add_0_l, CK in Cp.
  destruct (Z.eqb_spec (Z.sgn phi) 0) as [E|E]; cbn [negb guard rbind].
  { right. left. split; [reflexivity|]. apply (proj1 (Z.sgn_null_iff _)) in E. subst phi. apply cong_iff in Cp. rewrite <- Cp. now apply Z.mod_0_l; lia. }
  assert (Hp : phi mod q <> 0) by (rewrite Z.mod_small; lia).
  rewrite hashToScalar_run by (lia || assumption). cbn [rbind]. set (e := hashToInt q hash).
  destruct (foldM_sum q (fun sigmaSum '(rho, x) =>
    let! x := adjust rho x in
    let! t1 := CTScalarMulAddModN S256 rho (e mod q) 0 in
    let! shat := CTScalarMulAddModN S256 r x t1 in
    Mod (sigmaSum + shat) q) (fun p => (r * f (fst p) (snd p) + (fst p * (e mod q) + 0) mod q) mod q) (combine rho xRho) (Z.lt_trans _ _ _ Z.lt_0_1 Q1))
    with (s := 0) as (sg & -> & Rs & Cs);
    [intros s [a x] _; rewrite (proj1 (HA a x)); cbn [rbind]; rewrite ct_muladd; cbn [rbind]; rewrite ct_muladd; cbn [rbind]; now rewrite Mod_ok by lia|lia|].
  cbn [rbind]. rewrite modInt_ModInverse_ok by (try lia; now apply (prime_gcd q cl_prime)). cbn [rbind].
  rewrite Mod_ok by lia. cbn [rbind]. pose proof (Z.mod_pos_bound (sg * Z.invmod phi q) q).
  assert (Cs' : cong q sg (zsum rho * (e + r * (X + tw)))).
  { rewrite Cs. transitivity (zsum (map (fun p => r * snd p + (e + r * tw) * fst p) (combine rho xRho))).
    - rewrite Z.add_0_l. apply cong_zsum_map. intros p _. rewrite !cong_mod, (proj2 (HA _ _)). apply cong_eq. ring.
    - rewrite zsum_map_add, !zsum_map_mul_l. rewrite (combine_fst (fun a => a)), (combine_snd (fun a => a)), !map_id by assumption. rewrite CX. apply cong_eq. ring. }
  assert (Eq : cong q ((sg * Z.invmod phi q) mod q * K) (e + r * (X + tw))).
  { apply (cong_cancel q cl_prime (zsum rho)).
  { intros Z0. apply Hp. apply cong_iff in Cp. rewrite Cp, <- Z.mul_mod_idemp_r, Z0, Z.mul_0_r by lia. apply Z.mod_0_l. lia. }
  rewrite <- Cs', cong_mod.
  replace (zsum rho * (sg * Z.invmod phi q * K)) with (sg * Z.invmod phi q * (K * zsum rho)) by ring.
  rewrite <- Cp. replace (sg * Z.invmod phi q * phi) with (sg * (Z.invmod phi q * phi)) by ring.
  rewrite (inv_l q cl_prime) by assumption. apply cong_eq. ring. }
  destruct (Z.eqb_spec (Z.sgn ((sg * Z.invmod phi q) mod q)) 0) as [E0|E0]; cbn [negb guard rbind].
  - right. right. split; [reflexivity|]. apply (proj1 (Z.sgn_null_iff _)) in E0. rewrite E0 in Eq. apply cong_iff in Eq.
    rewrite <- Eq. apply Z.mod_0_l. lia.
  - left. eexists. split; [reflexivity|]. split; [lia|exact Eq].
Qed.

(** ** The verification gate *)
Lemma effectiveVerifyPub_ok x tweak (sys : reader) : Forall is_byte sys -> ct_healthy sys ->
  (exists x' sys', effectiveVerifyPub (Some (pnt x)) tweak sys = Ok (pnt x', sys') /\ cong q x' (x + tweak_of tweak)) \/
  (effectiveVerifyPub (Some (pnt x)) tweak sys = Err "dklstss: tweaked pubkey" /\ (x + tweak_of tweak) mod q = 0).
Proof.
  pose proof q_pos as Q1. intros Fs Hh. unfold effectiveVerifyPub. destruct tweak as [t|]; cbn [tweak_of].
  2: { left. exists x, sys. split; [reflexivity|]. now rewrite Z.add_0_r. }
  change (curve (pnt x)) with (@S256 CS). rewrite Mod_ok by lia. cbn [rbind].
  destruct (Z.eqb_spec (Z.sgn (t mod q)) 0) as [E|E].
  - left. exists x, sys. split; [reflexivity|]. apply (proj1 (Z.sgn_null_iff _)) in E. apply cong_iff.
    now rewrite <- Z.add_mod_idemp_r, E, Z.add_0_r by lia.
  - unfold ctmul_ScalarBaseMult. rewrite ct_base_total by (try apply Z.mod_pos_bound; lia || assumption). cbn [rbind deref].
    rewrite ECPoint_Add_pt. unfold on_c. cbn [orb].
    destruct (Z.eqb_spec ((x + t mod q) mod q) 0) as [Z0|Z0]; cbn [negb rewrap rbind]; [right|left].
    + split; [reflexivity|]. now rewrite Z.add_mod_idemp_r in Z0 by lia.
    + do 2 eexists. split; [reflexivity|]. now rewrite cong_mod.
Qed.

(** The generic verifier accepts a solution of the signature equation. *)
Lemma ecdsa_Verify_ok (hash : bytes) x r s k : 0 < r < q -> 0 < s < q -> k mod q <> 0 -> r = fst (pt k) mod q ->
  cong q (s * k) (hashToInt q hash + r * x) ->
  ecdsa_Verify S256 (fst (pt x)) (snd (pt x)) hash r s = Ok true.
Proof.
  pose proof q_pos as Q1. intros Hr Hs Hk Er E. unfold ecdsa_Verify.
  rewrite !(proj2 (Z.leb_gt _ _)) by lia. cbn [orb].
  assert (Hsu : s mod q <> 0) by (rewrite Z.mod_small; lia).
  rewrite ModInverse_coprime by (try lia; now apply (prime_gcd q cl_prime)). cbn [rbind].
  rewrite !Mod_ok by lia. cbn [rbind]. set (e := hashToInt q hash) in *. set (w := Z.invmod s q).
  rewrite cl_bmult by apply Bytes_byte. rewrite SetBytes_Bytes_pos by (apply Z.mod_pos_bound; lia).
  rewrite cl_mult by apply Bytes_byte. rewrite SetBytes_Bytes_pos by (apply Z.mod_pos_bound; lia).
  rewrite (surjective_pairing (pt ((e * w) mod q))), (surjective_pairing (pt ((r * w) mod q * x))), cl_add.
  assert (Ek : pt ((e * w) mod q + (r * w) mod q * x) = pt k).
  { apply cl_eq. rewrite !cong_mod. replace (e * w + r * w * x) with (w * (e + r * x)) by ring. rewrite <- E.
    replace (w * (s * k)) with (w * s * k) by ring. unfold w. rewrite (inv_l q cl_prime) by assumption. apply cong_eq. ring. }
  rewrite Ek, (surjective_pairing (pt k)).
  replace ((fst (pt k) =? 0) && (snd (pt k) =? 0)) with false.
  - rewrite Mod_ok by lia. cbn [rbind]. rewrite Cmp_eq, <- Er. now rewrite Z.eqb_refl.
  - symmetry. apply not_true_iff_false. intros H0. apply andb_true_iff in H0 as [H1 H2]. apply Z.eqb_eq in H1, H2.
    apply Hk. assert (H0 : pt k = pt 0) by (rewrite cl_id, (surjective_pairing (pt k)), H1, H2; reflexivity).
    apply cl_eq, cong_iff in H0. rewrite H0. apply Z.mod_0_l. lia.
Qed.

Lemma half_bounds : 2 * (q / 2) <= q < 2 * (q / 2) + 2.
Proof. pose proof (Z.div_mod q 2). pose proof (Z.mod_pos_bound q 2). lia. Qed.

(** The low form of a solution is a solution, for the negated nonce if it was
    reduced; the recovery bit is the parity of the nonce point's ordinate. *)
Lemma low_s_ok s k e v : 2 < q -> Z.odd (cP S256) = true -> 0 < s < q -> k mod q <> 0 -> cong q (s * k) e ->
  v = Bit (snd (pt k)) 0 ->
  exists k', k' mod q <> 0 /\ fst (pt k') = fst (pt k) /\ cong q (fst (low_s q s v) * k') e /\
    0 < fst (low_s q s v) <= q / 2 /\ snd (low_s q s v) = Bit (snd (pt k')) 0.
Proof.
  intros Q2 Hodd Hs Hk E Ev. unfold low_s. change (Z.shiftr q 1) with (Z.div2 q). rewrite Z.div2_div.
  pose proof half_bounds as Hq2.
  destruct (Z.ltb_spec 0 (Cmp s (q / 2))) as [Hc|Hc]; cbn [fst snd].
  - assert (Hs2 : q / 2 < s) by (unfold Cmp in Hc; destruct (Z.compare_spec s (q / 2)); lia).
    exists (- k). rewrite Hneg. cbn [fst snd]. split; [now apply (mod_opp_nz q cl_prime)|]. split; [reflexivity|].
    split; [rewrite <- E; apply cong_iff; replace ((q - s) * - k) with (s * k + (- k) * q) by ring; now rewrite Z.mod_add by lia|].
    split; [lia|]. subst v. pose proof (cl_y (CurveLaws := L) k) as Ry.
    assert (Hy : snd (pt k) <> 0).
    { intros Z0. assert (K : pt (- k) = pt k) by (rewrite Hneg, Z0, (surjective_pairing (pt k)), Z0; reflexivity).
      apply cl_eq in K. destruct K as [c Hc2]. apply Hk.
      apply Z.mod_divide; [lia|]. apply (Z.gauss q 2 k); [exists (- c); lia|].
      apply Z.coprime_prime_l; [apply cl_prime|]. intros D. apply Z.divide_pos_le in D; lia. }
    replace (- snd (pt k)) with (cP S256 - snd (pt k) + (-1) * cP S256) by ring. rewrite Z.mod_add, Z.mod_small by lia.
    unfold Bit. rewrite !Z.bit0_odd, Z.odd_sub, Hodd. now destruct (Z.odd (snd (pt k))).
  - assert (Hs2 : s <= q / 2) by (unfold Cmp in Hc; destruct (Z.compare_spec s (q / 2)); lia).
    exists k. repeat split; assumption || lia.
Qed.

(** ** Signing *)
(** What a caller may rely on: an ECDSA signature of the digest under the secret
    [x], in low form, with the recovery bit of its nonce point. *)
Definition good_signature (x : Z) (hash : bytes) (sg : Signature) : Prop :=
  0 < sigR sg < q /\ 0 < sigS sg <= q / 2 /\
  ecdsa_Verify S256 (fst (pt x)) (snd (pt x)) hash (sigR sg) (sigS sg) = Ok true /\
  exists k, k mod q <> 0 /\ sigR sg = fst (pt k) mod q /\ sigV sg = Bit (snd (pt k)) 0 /\
    cong q (sigS sg * k) (hashToInt q hash + sigR sg * x).

(** The errors a caller answers with fresh randomness, each with the event that
    causes it: [prs] are the pairs of nonce and mask the signers drew. *)
Definition degenerate (tx : Texts) (prs : list (Z * Z)) (x : Z) (hash : bytes) (e : string) : Prop :=
  let K := zsum (map fst prs) in
  (e = t_agg tx /\ exists l1 l2, map fst prs = l1 ++ l2 /\ l1 <> [] /\ zsum l1 mod q = 0) \/
  (e = t_r0 tx /\ fst (pt K) mod q = 0) \/
  (e = t_phi tx /\ (K * zsum (map snd prs)) mod q = 0) \/
  (e = t_s0 tx /\ (hashToInt q hash + fst (pt K) mod q * x) mod q = 0) \/
  (e = "dklstss: tweaked pubkey" /\ x mod q = 0).

Lemma members_linked h keys ids cs signers : consistent h keys ids cs -> Forall (member keys) signers ->
  NoDup (map kIdx signers) -> linked signers.
Proof.
  intros CK F N i j ki kj Hij Ei Ej. apply (member_ot h keys ids cs CK).
  - rewrite List.Forall_forall in F. apply F. now apply nth_error_In in Ei.
  - rewrite List.Forall_forall in F. apply F. now apply nth_error_In in Ej.
  - intros E. apply Hij. rewrite List.NoDup_nth_error in N. apply N.
    + rewrite length_map. apply nth_error_Some. congruence.
    + rewrite !nth_error_map, Ei, Ej. cbn. now rewrite E.
Qed.

Lemma verify_gate_ok x tweak (hash : bytes) r s k (sys : reader) : Forall is_byte sys -> ct_healthy sys ->
  0 < r < q -> 0 < s < q -> k mod q <> 0 -> r = fst (pt k) mod q ->
  cong q (s * k) (hashToInt q hash + r * (x + tweak_of tweak)) ->
  (exists sys', verifyFinalSignature (Some (pnt x)) tweak hash r s sys = Ok sys' /\
     ecdsa_Verify S256 (fst (pt (x + tweak_of tweak))) (snd (pt (x + tweak_of tweak))) hash r s = Ok true) \/
  (verifyFinalSignature (Some (pnt x)) tweak hash r s sys = Err "dklstss: tweaked pubkey" /\ (x + tweak_of tweak) mod q = 0).
Proof.
  intros Fs Hh Hr Hs Hk Er E. unfold verifyFinalSignature.
  destruct (effectiveVerifyPub_ok x tweak sys Fs Hh) as [(x' & sys' & -> & Cx)|[-> Z0]]; [left|right; auto].
  cbn [rbind]. change (ECPoint_X (pnt x')) with (Ok (fst (pt x'))). change (ECPoint_Y (pnt x')) with (Ok (snd (pt x'))).
  change (curve (pnt x')) with (@S256 CS). cbn [rbind].
  rewrite (ecdsa_Verify_ok hash x' r s k) by (try rewrite Cx; assumption). cbn [rbind guard]. exists sys'. split; [reflexivity|].
  now apply (ecdsa_Verify_ok hash _ r s k).
Qed.

(** What a first round over consistent keys hands on. *)
Record started_ok (x : Z) (prs : list (Z * Z)) (nonce : bytes) (st : Started) : Prop := {
  so_pub : st_pub st = Some (pnt x);
  so_nonce : st_nonce st = nonce;
  so_R : st_R st = pnt (zsum (map fst prs));
  so_r : st_r st = fst (pt (zsum (map fst prs))) mod q;
  so_r_range : 0 < st_r st < q;
  so_K : zsum (map fst prs) mod q <> 0;
  so_k : st_k st = map fst prs;
  so_rho : st_rho st = map snd prs;
  so_linked : linked (st_signers st);
  so_len : length prs = length (st_signers st);
  so_sx_len : length (st_sx st) = length (st_signers st)
}.

Section Run.
Variables (tx : Texts) (h : Heap) (keys : list (option Key)) (ids cs : list Z) (signerIdx : list Z).
Hypothesis CK : consistent h keys ids cs.
Hypothesis Hkeys : keys <> [].
Hypothesis Hcs : cs <> [].
Hypothesis Hlen : length signerIdx = length cs.
Hypothesis Hrange : Forall (fun i => 0 <= i < Z.of_nat (length keys)) signerIdx.
Hypothesis Hdup : NoDup signerIdx.

Lemma start_ok tweak (hash : option bytes) (rd nonce rd1 : reader) draws rd2 : hash <> Some [] -> Forall is_byte rd ->
  ReadFull 16 rd = Ok (nonce, rd1) -> rmapM (fun _ => draw_nonce) signerIdx rd1 = Ok (draws, rd2) ->
  exists prs, draws = map nonce_of prs /\
  ((exists st, start_signing tx h keys signerIdx tweak hash rd = Ok (st, rd2) /\ started_ok (peval cs 0) prs nonce st /\
      cong q (zsum (st_sx st)) (peval cs 0 + tweak_of tweak)) \/
   (exists e, start_signing tx h keys signerIdx tweak hash rd = Err e /\ forall x m, degenerate tx prs x m e)).
Proof.
  pose proof q_pos as Q1. intros Hhash Hrd Hnonce Hdraws. destruct (ReadFull_byte _ _ _ _ Hrd Hnonce) as (_ & _ & F1).
  destruct (draws_inv signerIdx rd1 draws rd2 F1 Hdraws) as (prs & Edr & Lp & Fp). exists prs. split; [exact Edr|]. unfold start_signing.
  destruct (resolve_signers_ok h keys ids cs CK tx signerIdx hash Hkeys Hlen Hhash Hrange Hdup) as (signers & -> & Ls & Fm & Nd).
  cbn [rbind]. cbv zeta. assert (Hne : signers <> []) by (destruct signers, cs; cbn in Ls; congruence || discriminate).
  rewrite (mapM_ok _ (id_of ids)) by (intros k Hk; rewrite List.Forall_forall in Fm; now apply (member_facts h keys ids cs CK), Fm).
  cbn [rbind]. destruct (signing_shares_ok h keys ids cs CK tx tweak signers Fm Nd Hne ltac:(lia)) as (sx & -> & Lx & Cx). cbn [rbind].
  rewrite Hnonce. cbn [rewrap rbind].
  rewrite (rmapM_const draw_nonce signers signerIdx), Hdraws by lia. cbn [rbind]. rewrite Edr.
  rewrite !map_map. unfold nonce_of. cbn [fst snd].
  assert (Hp : prs <> []) by (destruct prs, signerIdx, cs; cbn in *; congruence || discriminate).
  destruct (sum_points_ok tx prs Hp Fp) as [(-> & Z0)|[-> HK]];
    [right; eexists; split; [reflexivity|]; intros; left; split; [reflexivity|exact Z0]|]. cbn [rbind].
  set (K := zsum (map fst prs)) in *. change (ECPoint_X (pnt K)) with (Ok (fst (pt K))). cbn [rbind].
  rewrite Mod_ok by lia. cbn [rbind]. set (r := fst (pt K) mod q).
  pose proof (Z.mod_pos_bound (fst (pt K)) q (Z.lt_trans _ _ _ Z.lt_0_1 Q1)) as Rr. fold r in Rr.
  destruct (Z.eqb_spec (Z.sgn r) 0) as [Z0|Z0]; cbn [negb guard rbind];
    [right; eexists; split; [reflexivity|]; intros; right; left; split; [reflexivity|exact (proj1 (Z.sgn_null_iff _) Z0)]|].
  left. rewrite !mapM_deref_some. cbn [rbind]. eexists. split; [reflexivity|]. split; [|exact Cx].
  constructor; cbn [st_signers st_pub st_sx st_nonce st_R st_r st_k st_rho]; try reflexivity; try assumption; try lia.
  apply (members_linked h keys ids cs signers CK Fm Nd).
Qed.

End Run.

(** The two multiplications on what the first round handed on. *)
Lemma started_cross tx mulK mulX x prs nonce st : started_ok x prs nonce st -> good_mul mulK -> good_mul mulX ->
  exists kR xR, cross_terms tx mulK mulX q (st_signers st) (st_k st) (st_rho st) (st_sx st) = Ok (kR, xR) /\
    length kR = length prs /\ length xR = length prs /\
    cong q (zsum kR) (zsum (map fst prs) * zsum (map snd prs)) /\ cong q (zsum xR) (zsum (st_sx st) * zsum (map snd prs)).
Proof.
  intros S HK HX. rewrite (so_k _ _ _ _ S), (so_rho _ _ _ _ S). pose proof (so_len _ _ _ _ S) as Ln.
  destruct (cross_terms_ok tx mulK mulX (st_signers st) (map fst prs) (map snd prs) (st_sx st) (so_linked _ _ _ _ S) HK HX)
    as (kR & xR & E & L1 & L2 & C1 & C2); [rewrite length_map; lia|rewrite length_map; lia|apply S|].
  exists kR, xR. split; [exact E|]. split; [lia|]. split; [lia|]. split; assumption.
Qed.

Lemma finish_ok tx adjust f tw x prs tweak (hash : bytes) kR xR X (sys : reader) : 2 < q -> Z.odd (cP S256) = true ->
  let K := zsum (map fst prs) in let r := fst (pt K) mod q in
  0 < r < q -> K mod q <> 0 -> adjusts adjust f tw -> length xR = length prs -> Forall is_byte hash ->
  Forall is_byte sys -> ct_healthy sys ->
  cong q (zsum kR) (K * zsum (map snd prs)) -> cong q (zsum xR) (X * zsum (map snd prs)) -> cong q (X + tw) (x + tweak_of tweak) ->
  (exists sg sys', finish_signing tx adjust (Some (pnt x)) tweak hash (pnt K) r (map snd prs) kR xR sys = Ok (sg, sys') /\
     good_signature (x + tweak_of tweak) hash sg) \/
  (exists e, finish_signing tx adjust (Some (pnt x)) tweak hash (pnt K) r (map snd prs) kR xR sys = Err e /\
     degenerate tx prs (x + tweak_of tweak) hash e).
Proof.
  pose proof q_pos as Q1. intros Q2 Hodd K r Hr HK HA Lx Hhb Hsys Hhealthy C1 C2 Cx. unfold finish_signing. cbv zeta.
  destruct (assemble_ok tx adjust f tw hash r (map snd prs) kR xR K X HA) as [(s & -> & Rs & Cs)|[[-> Z1]|[-> Z1]]];
    [rewrite length_map; lia|assumption|assumption|assumption| |right; eexists; split; [reflexivity|unfold degenerate; auto 6]|].
  2: { right. eexists. split; [reflexivity|]. do 3 right. left. split; [reflexivity|]. etransitivity; [|exact Z1].
       apply cong_iff. fold K r. now rewrite Cx. }
  cbn [rbind]. change (ECPoint_Y (pnt K)) with (Ok (snd (pt K))). cbn [rbind].
  rewrite Cx in Cs. destruct (low_s_ok s K _ (Bit (snd (pt K)) 0) Q2 Hodd Rs HK Cs eq_refl) as (k & Hk & Ek & Cl & Rl & Pl).
  destruct (low_s q s (Bit (snd (pt K)) 0)) as [s' v']. cbn [fst snd] in Cl, Rl, Pl.
  assert (Hs' : 0 < s' < q) by (pose proof (Z.div_lt q 2 (Z.lt_trans _ _ _ Z.lt_0_1 Q1) Z.lt_1_2); lia).
  assert (Er : r = fst (pt k) mod q) by (unfold r; now rewrite Ek).
  destruct (verify_gate_ok x tweak hash r s' k sys Hsys Hhealthy Hr Hs' Hk Er Cl) as [(sys' & -> & V)|[-> Z1]];
    cbn [rbind]; [left|right; eexists; split; [reflexivity|unfold degenerate; auto 7]].
  eexists _, sys'. split; [reflexivity|]. unfold good_signature. cbn [sigR sigS sigV]. eauto 8.
Qed.

Lemma signCore_run h keys ids cs signerIdx tweak (hash : bytes) (rd sys nonce rd1 : reader) draws rd2 :
  2 < q -> Z.odd (cP S256) = true -> consistent h keys ids cs -> keys <> [] -> cs <> [] -> hash <> [] -> Forall is_byte hash ->
  length signerIdx = length cs -> Forall (fun i => 0 <= i < Z.of_nat (length keys)) signerIdx -> NoDup signerIdx ->
  Forall is_byte rd -> Forall is_byte sys -> ct_healthy sys ->
  ReadFull 16 rd = Ok (nonce, rd1) -> rmapM (fun _ => draw_nonce) signerIdx rd1 = Ok (draws, rd2) ->
  exists prs, draws = map nonce_of prs /\
  ((exists sg sys', signCore h keys signerIdx tweak hash (Some rd) sys = Ok (sg, Some rd2, sys') /\
    good_signature (peval cs 0 + tweak_of tweak) hash sg) \/
  (exists e, signCore h keys signerIdx tweak hash (Some rd) sys = Err e /\
    degenerate sign_texts prs (peval cs 0 + tweak_of tweak) hash e)).
Proof.
  intros Q2 Hodd CK Hk Hc Hh Hhb Hl Fi Nd Frd Fs Hhe En Ed.
  destruct (start_ok sign_texts h keys ids cs signerIdx CK Hk Hc Hl Fi Nd tweak (Some hash) rd nonce rd1 draws rd2
    ltac:(congruence) Frd En Ed) as (prs & Edr & [(st & ES & S & Cx)|(e & ES & D)]); exists prs; (split; [exact Edr|]);
    unfold signCore; rewrite ES; cbn [rbind]; [|right; eauto].
  destruct (started_cross sign_texts (sign_mul "k" (sign_ssid (st_nonce st) hash)) (sign_mul "x" (sign_ssid (st_nonce st) hash))
    _ _ _ _ S (sign_mul_good _ _) (sign_mul_good _ _)) as (kR & xR & -> & L1 & L2 & C1 & C2). cbn [rbind].
  destruct S as [-> _ -> Er Rr HK _ -> _ _ _]. rewrite Er in *.
  destruct (finish_ok sign_texts _ _ 0 (peval cs 0) prs tweak hash kR xR (zsum (st_sx st)) sys Q2 Hodd Rr HK adjusts_none L2 Hhb Fs Hhe C1 C2)
    as [(sg & sys' & -> & G)|(e & -> & D)]; cbn [rbind]; [now rewrite Z.add_0_r|left; eauto|right; eauto].
Qed.
End Sign.

(** ** What the gate guarantees, whatever the keys hold *)
Section Gate.
Context `{HS : Hash} `{AE : Aes} `{CS : Curves} `{SL : Secp256k1Lib} `{EL : Ed25519Lib}.
Abbreviation q := (cN S256).
Hypothesis Hq : 0 < q.


(** The first round reduces [r] and takes the public key of the first key. *)
Lemma start_sound tx h keys signerIdx tweak (hash : option bytes) (rd : reader) st rd' :
  start_signing tx h keys signerIdx tweak hash rd = Ok (st, rd') ->
  0 < st_r st < q /\ exists k0, nth_error keys 0 = Some (Some k0) /\ kECDSAPub k0 = st_pub st.
Proof.
  unfold start_signing. intros HR. apply rbind_ok in HR as ([signers pub] & E1 & HR). cbv zeta in HR.
  apply rbind_ok in HR as (ids & _ & HR). apply rbind_ok in HR as (sx & _ & HR). apply rbind_ok in HR as ([nonce rd1] & _ & HR).
  apply rbind_ok in HR as ([draws rd2] & _ & HR).
  apply rbind_ok in HR as (R & _ & HR). apply rbind_ok in HR as (Rx & _ & HR). apply rbind_ok in HR as (r & Er & HR).
  apply rbind_ok in HR as ([] & Gr & HR). apply guard_ok, negb_true_iff, Z.eqb_neq in Gr.
  rewrite Mod_ok in Er by lia. injection Er as Er. pose proof (Z.mod_pos_bound Rx q Hq) as Rr. rewrite Er in Rr.
  apply rbind_ok in HR as (k & _ & HR). apply rbind_ok in HR as (rho & _ & HR). injection HR as <- <-. cbn [st_r st_pub].
  split; [lia|]. unfold resolve_signers in E1. apply rbind_ok in E1 as (_ & _ & E1). apply rbind_ok in E1 as (k0 & Ek & E1).
  apply rbind_ok in E1 as (k0' & Ed & E1). apply idx_ok in Ek. apply deref_ok in Ed. subst k0.
  exists k0'. split; [assumption|]. inv_res. reflexivity.
Qed.

Lemma assemble_range tx adjust (hash : bytes) r rho kRho xRho s : assemble tx adjust q hash r rho kRho xRho = Ok s -> 0 < s < q.
Proof.
  unfold assemble. intros Ea. apply rbind_ok in Ea as (phi & _ & Ea). apply rbind_ok in Ea as (_ & _ & Ea).
  apply rbind_ok in Ea as (hv & _ & Ea). apply rbind_ok in Ea as (sgm & _ & Ea). apply rbind_ok in Ea as ([inv|] & _ & Ea); [|discriminate].
  rewrite Mod_ok in Ea by lia. cbn [rbind] in Ea. apply rbind_ok in Ea as ([] & Gs & Ea). apply guard_ok, negb_true_iff, Z.eqb_neq in Gs.
  injection Ea as <-. pose proof (Z.mod_pos_bound (sgm * inv) q Hq). lia.
Qed.

(** What the gate lets out verifies. *)
Lemma verifyFinalSignature_ok pub tweak (hash : bytes) r s (sys sys' : reader) : verifyFinalSignature pub tweak hash r s sys = Ok sys' ->
  exists vpub X Y, effectiveVerifyPub pub tweak sys = Ok (vpub, sys') /\ ECPoint_X vpub = Ok X /\ ECPoint_Y vpub = Ok Y /\
    ecdsa_Verify (curve vpub) X Y hash r s = Ok true.
Proof.
  unfold verifyFinalSignature. intros Ev.
  apply rbind_ok in Ev as ([vpub sys4] & Ep & Ev). apply rbind_ok in Ev as (X & EX & Ev). apply rbind_ok in Ev as (Y & EY & Ev).
  apply rbind_ok in Ev as (ok & Eok & Ev). apply rbind_ok in Ev as ([] & Gk & Ev). apply guard_ok in Gk. subst ok.
  injection Ev as <-. exists vpub, X, Y. auto.
Qed.

(** A finished signature is in low form and verifies. *)
Lemma finish_sound tx adjust pub tweak (hash : bytes) R r rho kRho xRho (sys : reader) sg sys' : 0 < r < q ->
  finish_signing tx adjust pub tweak hash R r rho kRho xRho sys = Ok (sg, sys') ->
  sigR sg = r /\ 0 < sigS sg <= q / 2 /\ exists vpub X Y,
    effectiveVerifyPub pub tweak sys = Ok (vpub, sys') /\ ECPoint_X vpub = Ok X /\ ECPoint_Y vpub = Ok Y /\
    ecdsa_Verify (curve vpub) X Y hash (sigR sg) (sigS sg) = Ok true.
Proof.
  intros Rr HR. unfold finish_signing in HR. cbv zeta in HR.
  apply rbind_ok in HR as (s & Ea & HR). apply assemble_range in Ea as Rs. apply rbind_ok in HR as (Ry & _ & HR).
  pose proof (low_s_range q s (Bit Ry 0) Rs) as Rl. destruct (low_s q s (Bit Ry 0)) as [s' v'] eqn:El. cbn [fst] in Rl.
  apply rbind_ok in HR as (sys3 & Ev & HR). injection HR as <- <-. cbn [sigR sigS].
  split; [reflexivity|]. split; [assumption|]. exact (verifyFinalSignature_ok _ _ _ _ _ _ _ Ev).
Qed.
End Gate.
