(* ===== verification/DklsKeygen.v ===== *)
(** * Package [dklstss]: in-process key generation

    [keygen.go].  [sys] is the system reader behind the blinded multiplications;
    a nil [rng] is the system's generator, whose reads are fresh bytes, and is
    modelled as one more stream.  [sha256] is the hash of [crypto/sha256]. *)
From stdpp Require Import base gmap list.
From Stdlib Require Import ZArith String List Lia Bool Arith.
From S2P Require Import Prelude GoBig Common Curve CtMul Field Vss Schnorr Bits OtExt OtExtCorrect Ole Party BaseOt.
From S2P Require Import Dkls DklsSetup DklsSign DklsSignCorrect.
Import ListNotations.
Open Scope string_scope.
Open Scope Z_scope.
Open Scope list_scope.

(** The state of the dealing loops: commitments, shares and the two readers. *)
Abbreviation dealing := (list (list (option ECPoint)) * list (list Share) * reader * reader)%type.

Section Defs.
Context `{HS : Hash} `{SH : Sha256} `{CS : Curves} `{SL : Secp256k1Lib} `{EL : Ed25519Lib}.

Definition deriveChainCode (pub : ECPoint) : res bytes :=
  let! x := ECPoint_X pub in
  let! y := ECPoint_Y pub in
  Ok (sha256 (str "DKLS23-chaincode-v1" ++ Bytes x ++ [0] ++ Bytes y)).

(** One step of Horner's rule in the exponent, and the rule. *)
Definition horner_step (q id : Z) (Vs : list (option ECPoint)) (eval : option ECPoint) (k : nat) : res (option ECPoint) :=
  let! eval := deref eval in
  let! id := Mod id q in
  let! scaled := ECPoint_ScalarMult eval id in
  let! vk := idx Vs k in
  let! vk := deref vk in
  let! eval := rewrap "dklstss: evaluateCommitmentSum add" (ECPoint_Add scaled vk) in
  Ok (Some eval).
Definition eval_commitment (q id : Z) (Vs : list (option ECPoint)) : res (option ECPoint) :=
  let! eval := idxZ Vs (Z.of_nat (length Vs) - 1) in
  foldM (horner_step q id Vs) eval (rev (seq 0 (length Vs - 1))).

Definition evaluateCommitmentSum (ec : Curve) (commitments : list (list (option ECPoint))) (id : Z) : res (option ECPoint) :=
  foldM (fun result Vs =>
    let! eval := eval_commitment (cN ec) id Vs in
    match result with
    | None => Ok eval
    | Some result =>
      let! eval := deref eval in
      let! result := rewrap "dklstss: evaluateCommitmentSum sum" (ECPoint_Add result eval) in
      Ok (Some result)
    end) None commitments.

(** Phase 1, one party: a secret and its dealing. *)
Definition deal (t : Z) (ids : list Z) (st : dealing) (i : nat) : res dealing :=
  let '(commitments, shares, rng, sys) := st in
  let! (u, rng) := GetRandomPositiveInt (Some (cN S256)) rng in
  let! (c, rng) := rewrap "dklstss: Keygen VSS create for party %d" (Create S256 t u (Some ids) sys rng) in
  let '(Vs, Sh, sys) := c in
  Ok (commitments ++ [Vs], shares ++ [Sh], rng, sys).

(** Phase 2, one recipient: the verified shares summed up. *)
Definition receive (n : nat) (t : Z) (commitments : list (list (option ECPoint))) (shares : list (list Share)) (j : nat) : res Z :=
  foldM (fun sum i =>
    let! row := idx shares i in
    let! sh := idx row j in
    let! Vs := idx commitments i in
    let! ok := Share_Verify sh S256 t (Some Vs) in
    guard ok "dklstss: Keygen share from party %d to party %d failed VSS verification" ;!
    Mod (sum + share sh) (cN S256)) 0 (seq 0 n).

(** Phase 3: the joint public key and the public shares. *)
Definition joint_key (commitments : list (list (option ECPoint))) : res (option ECPoint) :=
  let! V0 := idx commitments 0 in
  let! pub := idx V0 0 in
  foldM (fun pub Vs =>
    let! v := idx Vs 0 in
    let! pub := deref pub in
    let! v := deref v in
    let! pub := rewrap "dklstss: Keygen pubkey aggregation" (ECPoint_Add pub v) in
    Ok (Some pub)) pub (tl commitments).
Definition public_share (commitments : list (list (option ECPoint))) (id xj : Z) : res (option ECPoint) :=
  let! Xj := rewrap "dklstss: Keygen BigXj[%d]" (evaluateCommitmentSum S256 commitments id) in
  let! expected := ScalarBaseMult S256 xj in
  let! eq := ECPoint_Equals (Some expected) Xj in
  guard eq "dklstss: Keygen BigXj[%d] does not match x_j · G" ;!
  Ok Xj.

Definition otsetup_prefix (pub : ECPoint) : res bytes :=
  let! x := ECPoint_X pub in
  let! y := ECPoint_Y pub in
  Ok (str "DKLS23-dkg-otsetup-v2-" ++ Bytes x ++ [0] ++ Bytes y).

Definition Keygen (h : Heap) (n t : Z) (partyIDs : list ref) (rng sys : reader) : res (list Key * reader * reader) :=
  guard (negb (n <=? 0)) "dklstss: Keygen n must be > 0, got %d" ;!
  guard (negb ((t <? 1) || (n <=? t))) "dklstss: Keygen requires 1 ≤ T < N, got T=%d N=%d" ;!
  guard (Z.of_nat (length partyIDs) =? n) "dklstss: Keygen partyIDs length %d, expected %d" ;!
  let! ids := mapM (KeyInt h) partyIDs in
  let! _ := rewrap "dklstss: Keygen invalid party indexes" (CheckIndexes S256 ids) in
  let! (commitments, shares, rng, sys) := foldM (deal t ids) ([], [], rng, sys) (seq 0 (Z.to_nat n)) in
  let! xj := mapM (receive (Z.to_nat n) t commitments shares) (seq 0 (Z.to_nat n)) in
  let! pub := joint_key commitments in
  let! BigXj := mapM (fun '(id, x) => public_share commitments id x) (combine ids xj) in
  let! pub' := deref pub in
  let! sidPrefix := otsetup_prefix pub' in
  let! (ot, rng, sys) := rewrap "dklstss: Keygen OT setup" (setupPairs n sidPrefix rng sys) in
  let! chainCode := deriveChainCode pub' in
  let! (out, sys) := foldM (fun '(out, sys) '(i, x) =>
    let! row := idx ot i in
    let k := {| kCurve := Some S256; kN := n; kT := t; kIdx := Z.of_nat i; kPartyIDs := partyIDs; kXi := Some x;
                kBigXj := BigXj; kECDSAPub := pub; kOT := row; kChainCode := chainCode |} in
    let! sys := rewrap "dklstss: Keygen produced invalid key for party %d" (Key_ValidateBasic (Some k) sys) in
    Ok (out ++ [k], sys)) ([], sys) (enum xj) in
  Ok (out, rng, sys).
End Defs.

(** ** Sums of polynomials *)
Fixpoint padd (a b : list Z) : list Z :=
  match a, b with
  | [], b => b
  | a, [] => a
  | x :: a, y :: b => x + y :: padd a b
  end.

Lemma peval_padd a b x : peval (padd a b) x = peval a x + peval b x.
Proof. revert b. induction a as [|y a IH]; intros [|z b]; cbn [padd peval]; rewrite ?IH; ring. Qed.

Lemma padd_length a b : length (padd a b) = Nat.max (length a) (length b).
Proof. revert b. induction a as [|y a IH]; intros [|z b]; cbn [padd length]; rewrite ?IH; reflexivity. Qed.

Definition psum (ps : list (list Z)) : list Z := fold_right padd [] ps.

Lemma peval_psum ps x : peval (psum ps) x = zsum (map (fun p => peval p x) ps).
Proof. induction ps as [|p ps IH]; [reflexivity|]. cbn [psum fold_right map]. rewrite peval_padd, zsum_cons. unfold psum in IH. now rewrite IH. Qed.

Lemma psum_length ps m : ps <> [] -> Forall (fun p => length p = m) ps -> length (psum ps) = m.
Proof.
  intros Hne F. destruct ps as [|p ps]; [contradiction|]. clear Hne. revert p F.
  induction ps as [|p' ps IH]; intros p F; (match goal with |- context [psum (p :: ?l)] => change (psum (p :: l)) with (padd p (psum l)) end); rewrite padd_length, (Forall_inv F).
  - cbn. lia.
  - rewrite (IH p') by exact (Forall_inv_tail F). lia.
Qed.

Section Correct.
Context `{HS : Hash} `{SH : Sha256} `{CS : Curves} `{SL : Secp256k1Lib} `{EL : Ed25519Lib}.
Context {pt : Z -> Z * Z} {L : CurveLaws S256 pt false} {CT : CtCurve S256 pt false}.
Hypothesis Hneg : forall a, pt (- a) = (fst (pt a), (- snd (pt a)) mod cP S256).
Hypothesis Hne : curve_eqb S256 Edwards = false.
Abbreviation q := (cN S256).
Abbreviation pnt := (mkpt S256 pt).

Definition commit_to (p : list Z) : list (option ECPoint) := map (fun a => Some (pnt a)) p.

(** Phase 1: one polynomial of degree [t] per party. *)
Record dealt (t : Z) (ids : list Z) (done : list nat) (st : list (list (option ECPoint)) * list (list Share) * reader * reader)
  (ps : list (list Z)) : Prop := {
  dl_length : length ps = length done;
  dl_degree : Forall (fun p => length p = S (Z.to_nat t)) ps;
  dl_commit : fst (fst (fst st)) = map commit_to ps;
  dl_shares : snd (fst (fst st)) = map (fun p => shares_of (C := S256) t p ids) ps;
  dl_rng : Forall is_byte (snd (fst st));
  dl_sys : Forall is_byte (snd st)
}.

Lemma deal_run t ids l rng sys st : Forall is_byte rng -> Forall is_byte sys ->
  foldM (deal t ids) ([], [], rng, sys) l = Ok st -> exists ps, dealt t ids l st ps.
Proof.
  intros Fr Fs H. change l with ([] ++ l).
  apply (foldM_done (fun done st => exists ps, dealt t ids done st ps) (deal t ids) l) with (s := ([], [], rng, sys)); [| |exact H].
  - intros done i [[[cm sh] rg] sy] st' (ps & D) E. destruct D as [D1 D2 D3 D4 D5 D6]. cbn [fst snd] in *. subst cm sh.
    unfold deal in E. apply rbind_ok in E as ([u rg1] & E1 & E).
    destruct (positive_draw _ _ _ D5 E1) as (u' & -> & Ru & F1).
    apply rbind_ok in E as ([[[Vs Sh] sy1] rg2] & E2 & E). apply rewrap_ok in E2. injection E as <-.
    destruct (Create_inv (L := L) (CT := CT) Hne t u' ids sy rg1 _ _ _ _ ltac:(lia) F1 D6 E2) as (_ & cs & Lc & -> & -> & F2 & F3).
    exists (ps ++ [u' :: cs]). constructor; cbn [fst snd]; try assumption.
    + rewrite !length_app. cbn. lia.
    + apply Forall_app. split; [assumption|]. constructor; [cbn; now rewrite Lc|constructor].
    + now rewrite map_app.
    + now rewrite map_app.
  - exists []. constructor; cbn; auto.
Qed.

(** Phase 2: a share on the sum of the polynomials. *)
Lemma collect_run msg n t ids ps j x id : length ps = n -> nth_error ids j = Some id ->
  foldM (fun sum i =>
    let! row := idx (map (fun p => shares_of (C := S256) t p ids) ps) i in
    let! sh := idx row j in
    let! Vs := idx (map commit_to ps) i in
    let! ok := Share_Verify sh S256 t (Some Vs) in
    guard ok msg ;!
    Mod (sum + share sh) q) 0 (seq 0 n) = Ok x ->
  0 <= x < q /\ cong q x (peval (psum ps) id).
Proof.
  pose proof (prime_gt_1 q cl_prime) as Q1. intros Hn Hj H.
  set (P := fun done x => Forall (fun i => i < n)%nat done ->
    0 <= x < q /\ cong q x (zsum (map (fun i => peval (nth i ps []) id) done))).
  assert (K : P ([] ++ seq 0 n) x).
  { eapply (foldM_done P); [| |exact H]; [|intros _; split; [lia|reflexivity]].
    intros done i s s' IH E F. apply Forall_app in F as [Fd Fi]. apply Forall_inv in Fi. destruct (IH Fd) as [Rs Cs].
    unfold idx in E. rewrite !nth_error_map, (nth_error_nth_lt ps i []) in E by lia. cbn [option_map rbind] in E.
    unfold shares_of in E. rewrite nth_error_map, Hj in E. cbn [option_map rbind] in E.
    apply rbind_ok in E as (ok & _ & E). apply rbind_ok in E as (_ & _ & E). cbn [share] in E. rewrite Mod_ok in E by lia.
    injection E as <-. split; [apply Z.mod_pos_bound; lia|]. rewrite map_app, zsum_app. cbn [map]. rewrite zsum_cons, !cong_mod, Cs.
    apply cong_eq. cbn. ring. }
  cbn [app] in K. unfold P in K.
  rewrite <- (map_map (fun i => nth i ps []) (fun p => peval p id)), map_nth_seq, <- peval_psum in K by assumption.
  apply K. apply List.Forall_forall. intros i Hi. apply in_seq in Hi. lia.
Qed.

Lemma receive_run n t ids ps j x id : length ps = n -> nth_error ids j = Some id ->
  receive n t (map commit_to ps) (map (fun p => shares_of (C := S256) t p ids) ps) j = Ok x ->
  0 <= x < q /\ cong q x (peval (psum ps) id).
Proof. exact (collect_run _ n t ids ps j x id). Qed.

(** Phase 3: the point of the sum of the secrets. *)
Lemma joint_key_run m ps pub : ps <> [] -> Forall (fun p => length p = S m) ps ->
  joint_key (map commit_to ps) = Ok pub -> pub = Some (pnt (peval (psum ps) 0)).
Proof.
  intros Hne' F H. destruct ps as [|p ps]; [contradiction|]. unfold joint_key in H. cbn [map idx nth_error rbind tl] in H.
  pose proof (Forall_inv F) as Lp. apply Forall_inv_tail in F. destruct p as [|a p]; [discriminate|].
  unfold idx at 1 in H. cbn [commit_to map nth_error rbind] in H. rewrite peval_psum. cbn [map]. rewrite zsum_cons, peval_0. cbn [hd].
  clear Hne' Lp p. revert a H F. induction ps as [|p ps IH]; intros a H F; cbn [map foldM] in H.
  - injection H as <-. cbn. now rewrite Z.add_0_r.
  - pose proof (Forall_inv F) as Lp. apply Forall_inv_tail in F. destruct p as [|b p]; [discriminate|].
    unfold idx at 1 in H. cbn [commit_to map nth_error rbind deref] in H. rewrite ECPoint_Add_pt in H.
    destruct (on_c _ _ _); [|discriminate]. cbn [rewrap rbind] in H. apply IH in H; [|assumption].
    rewrite H. cbn [map]. rewrite zsum_cons, (peval_0 (b :: p)). cbn [hd]. do 2 f_equal. lia.
Qed.

(** The assembled keys. *)
Definition key_of (n t : Z) (partyIDs : list ref) (BigXj : list (option ECPoint)) (pub : option ECPoint)
    (ot : matrix) (chain : bytes) (p : nat * Z) : Key :=
  {| kCurve := Some S256; kN := n; kT := t; kIdx := Z.of_nat (fst p); kPartyIDs := partyIDs; kXi := Some (snd p);
     kBigXj := BigXj; kECDSAPub := pub; kOT := nth (fst p) ot []; kChainCode := chain |}.

Lemma assemble_run msg n t partyIDs BigXj pub ot chain l sys out sys' :
  foldM (fun '(out, sys) '(i, x) =>
    let! row := idx ot i in
    let k := {| kCurve := Some S256; kN := n; kT := t; kIdx := Z.of_nat i; kPartyIDs := partyIDs; kXi := Some x;
                kBigXj := BigXj; kECDSAPub := pub; kOT := row; kChainCode := chain |} in
    let! sys := rewrap msg (Key_ValidateBasic (Some k) sys) in
    Ok (out ++ [k], sys)) ([], sys) l = Ok (out, sys') ->
  out = map (key_of n t partyIDs BigXj pub ot chain) l.
Proof.
  intros H. change l with ([] ++ l).
  apply (foldM_done (fun done st => fst st = map (key_of n t partyIDs BigXj pub ot chain) done)) with (done := []) in H;
    [exact H| |reflexivity].
  intros done [i x] [out0 sys0] st' E0 E. cbn [fst] in E0. subst out0.
  apply rbind_ok in E as (row & Er & E). cbv zeta in E. apply rbind_ok in E as (sys1 & _ & E). injection E as <-.
  apply idx_ok in Er. cbn [fst]. rewrite map_app. unfold key_of at 3. cbn [map fst snd].
  now rewrite (nth_error_nth _ _ [] Er).
Qed.

Lemma idxZ_nat {A} (l : list A) i : idxZ l (Z.of_nat i) = idx l i.
Proof. unfold idxZ. rewrite (proj2 (Z.ltb_ge _ _)), Nat2Z.id by lia. reflexivity. Qed.

Lemma cell_nth (ot : matrix) i j c : cell ot i j = Some c -> idxZ (nth i ot []) (Z.of_nat j) = Ok c.
Proof.
  unfold cell. intros E. rewrite idxZ_nat. apply idx_ok. destruct (ot !! i) as [row|] eqn:Er; [|discriminate]. cbn in E.
  rewrite nth_lookup, Er. cbn. clear Er. revert j E. induction row as [|a row IH]; intros [|j] E; cbn in *; try discriminate; auto.
Qed.

(** Assembled keys whose shares lie on one polynomial are consistent. *)
Lemma keys_consistent h n t partyIDs BigXj ot chain ids xj cs : 0 < n -> 0 <= t ->
  mapM (KeyInt h) partyIDs = Ok ids -> Z.of_nat (length partyIDs) = n -> distinct q ids ->
  length cs = S (Z.to_nat t) -> length xj = Z.to_nat n ->
  (forall i, (i < Z.to_nat n)%nat -> cong q (nth i xj 0) (peval cs (nth i ids 0))) ->
  (forall i j, (i < Z.to_nat n)%nat -> (j < Z.to_nat n)%nat -> i <> j -> wired ot i j) ->
  consistent (pt := pt) h (map Some (map (key_of n t partyIDs BigXj (Some (pnt (peval cs 0))) ot chain) (enum xj))) ids cs.
Proof.
  intros Hn Ht Eids Ln D Lc Lx Cx W.
  assert (Li : length ids = Z.to_nat n) by (apply mapM_inv, Forall2_length in Eids; lia).
  assert (Lo : length (enum xj) = Z.to_nat n) by (unfold enum; rewrite length_combine, length_seq; lia).
  assert (K : forall i, (i < Z.to_nat n)%nat -> nth_error (map Some (map (key_of n t partyIDs BigXj
    (Some (pnt (peval cs 0))) ot chain) (enum xj))) i =
    Some (Some (key_of n t partyIDs BigXj (Some (pnt (peval cs 0))) ot chain (i, nth i xj 0)))).
  { intros i Hi. rewrite !nth_error_map, (enum_nth xj i (nth i xj 0)) by (apply nth_error_nth_lt; lia). reflexivity. }
  assert (B : forall i k, nth_error (map Some (map (key_of n t partyIDs BigXj (Some (pnt (peval cs 0))) ot chain) (enum xj))) i = Some k ->
    (i < Z.to_nat n)%nat).
  { intros i k E. rewrite <- Lo, <- (length_map (key_of n t partyIDs BigXj (Some (pnt (peval cs 0))) ot chain)), <- (length_map Some).
    apply nth_error_Some. congruence. }
  constructor; rewrite ?length_map.
  - lia.
  - assumption.
  - intros i Hi. rewrite Lo in *. eexists. split; [now apply K|]. cbn [key_of kN kT kIdx kECDSAPub kXi fst snd].
    split; [lia|]. split; [lia|]. split; [reflexivity|]. split; [reflexivity|]. split.
    + unfold own_id. cbn [kPartyIDs kIdx key_of fst]. rewrite idxZ_nat.
      destruct (nth_error partyIDs i) as [r|] eqn:Er; [|apply nth_error_None in Er; lia].
      rewrite (proj2 (idx_ok _ _ _) Er). cbn [rbind]. destruct (mapM_nth _ _ _ _ _ Eids Er) as (v & -> & Ev).
      now rewrite (nth_error_nth _ _ 0 Ev).
    + exists (nth i xj 0). split; [reflexivity|]. now apply Cx.
  - intros i j ki kj Hij Ei Ej. pose proof (B _ _ Ei) as Hi. pose proof (B _ _ Ej) as Hj.
    rewrite K in Ei, Ej by assumption. injection Ei as <-. injection Ej as <-. cbn [key_of kOT fst].
    destruct (W i j Hi Hj Hij) as (rA & sA & rB & sB & C1 & C2 & M & _). apply cell_nth in C1, C2.
    do 4 eexists. split; [exact C1|]. split; [exact C2|]. cbn. auto.
Qed.

(** The fields that the keys of one committee have in common. *)
Definition common_key (partyIDs : list ref) (k : Key) : Prop := kCurve k = Some S256 /\ kPartyIDs k = partyIDs.

Lemma keys_common n t partyIDs BigXj pub ot chain l :
  Forall (common_key partyIDs) (map (key_of n t partyIDs BigXj pub ot chain) l).
Proof. apply List.Forall_forall. intros k Hk. apply in_map_iff in Hk as (? & <- & _). split; reflexivity. Qed.

(** Key generation establishes [consistent]. *)
Lemma Keygen_run h n t partyIDs rng sys out rng' sys' : Forall is_byte rng -> Forall is_byte sys ->
  Keygen h n t partyIDs rng sys = Ok (out, rng', sys') ->
  exists ids cs, 1 <= t < n /\ length out = Z.to_nat n /\ length cs = S (Z.to_nat t) /\
    consistent (pt := pt) h (map Some out) ids cs /\ Forall (fun k => kECDSAPub k = Some (pnt (peval cs 0))) out /\
    mapM (KeyInt h) partyIDs = Ok ids /\ Forall (common_key partyIDs) out.
Proof.
  intros Fr Fs H. unfold Keygen in H. apply rbind_ok in H as ([] & G1 & H). apply guard_ok, negb_true_iff, Z.leb_gt in G1.
  apply rbind_ok in H as ([] & G2 & H). apply guard_ok, negb_true_iff, orb_false_iff in G2 as [G2 G3].
  apply Z.ltb_ge in G2. apply Z.leb_gt in G3.
  apply rbind_ok in H as ([] & G4 & H). apply guard_ok, Z.eqb_eq in G4.
  apply rbind_ok in H as (ids & Eids & H). apply rbind_ok in H as (ids' & Ec & H). apply rewrap_ok in Ec.
  assert (ids' = ids) as -> by (unfold CheckIndexes in Ec; apply rbind_ok in Ec as (? & _ & Ec); now injection Ec).
  apply (CheckIndexes_ok (L := L)) in Ec as [_ Dist].
  apply rbind_ok in H as ([[[cm sh] rng1] sys1] & Ed & H).
  destruct (deal_run t ids _ rng sys _ Fr Fs Ed) as (ps & [D1 D2 D3 D4 D5 D6]). cbn [fst snd] in *. subst cm sh. rewrite length_seq in D1.
  apply rbind_ok in H as (xj & Ex & H). apply rbind_ok in H as (pub & Ep & H).
  assert (Hps : ps <> []) by (destruct ps; [cbn in D1; lia|discriminate]).
  apply (joint_key_run (Z.to_nat t)) in Ep as ->; [|assumption|assumption].
  apply rbind_ok in H as (BigXj & _ & H). cbn [deref rbind] in H. apply rbind_ok in H as (pre & _ & H).
  apply rbind_ok in H as ([[ot rng2] sys2] & Eo & H). apply rewrap_ok in Eo.
  destruct (setupPairs_run (L := L) (CT := CT) Hneg _ _ _ _ _ _ _ D5 D6 Eo) as [W _].
  apply rbind_ok in H as (chain & _ & H). apply rbind_ok in H as ([out0 sys3] & Eout & H). injection H as -> <- <-.
  apply assemble_run in Eout as ->.
  assert (Lx : length xj = Z.to_nat n) by (apply mapM_inv, Forall2_length in Ex; now rewrite length_seq in Ex).
  assert (Lp : length (psum ps) = S (Z.to_nat t)) by now apply psum_length.
  exists ids, (psum ps). split; [lia|]. split; [rewrite length_map; unfold enum; rewrite length_combine, length_seq; lia|].
  split; [exact Lp|]. split; [|split; [|split; [assumption|apply keys_common]]].
  - apply keys_consistent; try assumption; [lia|]. intros i Hi.
    destruct (mapM_nth _ _ _ i i Ex) as (x & Er & Ex'); [apply nth_error_seq_0; lia|].
    apply (receive_run (Z.to_nat n) t ids ps i x (nth i ids 0) D1) in Er as [_ Cx].
    + now rewrite (nth_error_nth _ _ 0 Ex').
    + apply nth_error_nth_lt. apply mapM_inv, Forall2_length in Eids. lia.
  - apply List.Forall_forall. intros k Hk. now apply in_map_iff in Hk as (? & <- & _).
Qed.
End Correct.

(** ** Properties *)
Section Properties.
Context `{HS : Hash} `{AL : AesLaws} `{SH : Sha256} `{CS : Curves} `{SL : Secp256k1Lib} `{EL : Ed25519Lib}.
Context {pt : Z -> Z * Z} {L : CurveLaws S256 pt false} {CT : CtCurve S256 pt false}.
Abbreviation q := (cN S256).
Abbreviation pnt := (mkpt S256 pt).

Lemma Keygen_Sign_run h n t partyIDs rng sys keys rng' sys'
  (Hneg : forall a, pt (- a) = (fst (pt a), (- snd (pt a)) mod cP S256))
  (Hne : curve_eqb S256 Edwards = false) (Q2 : 2 < q) (Hodd : Z.odd (cP S256) = true)
  (Fr : Forall is_byte rng) (Fs : Forall is_byte sys)
  (HK : Keygen h n t partyIDs rng sys = Ok (keys, rng', sys')) :
  exists x, Forall (fun k => kECDSAPub k = Some (pnt x)) keys /\
  forall signerIdx tweak (hash : bytes) (rd sysS nonce rd1 : reader) draws rd2,
    Z.of_nat (length signerIdx) = t + 1 -> Forall (fun i => 0 <= i < n) signerIdx -> NoDup signerIdx ->
    hash <> [] -> Forall is_byte hash -> Forall is_byte rd -> Forall is_byte sysS -> ct_healthy sysS ->
    ReadFull 16 rd = Ok (nonce, rd1) -> rmapM (fun _ => draw_nonce) signerIdx rd1 = Ok (draws, rd2) ->
    exists prs, draws = map (nonce_of (pt := pt)) prs /\
    ((exists sg sysS', SignWithTweak h (map Some keys) signerIdx tweak hash (Some rd) sysS = Ok (sg, Some rd2, sysS') /\
       good_signature (pt := pt) (x + tweak_of tweak) hash sg) \/
    (exists e, SignWithTweak h (map Some keys) signerIdx tweak hash (Some rd) sysS = Err e /\
       degenerate (pt := pt) sign_texts prs (x + tweak_of tweak) hash e)).
Proof.
  destruct (Keygen_run (L := L) (CT := CT) Hneg Hne h n t partyIDs rng sys keys rng' sys' Fr Fs HK)
    as (ids & cs & Ht & Lk & Lc & CK & Fp & _). exists (peval cs 0). split; [assumption|].
  intros signerIdx tweak hash rd sysS nonce rd1 draws rd2 Hl Fi Nd Hh Hb Frd Fss Hhe En Ed.
  apply (signCore_run (L := L) (CT := CT) Hneg h (map Some keys) ids cs signerIdx tweak hash rd sysS nonce rd1 draws rd2);
    try assumption.
  - destruct keys; [cbn in Lk; lia|discriminate].
  - destruct cs; discriminate.
  - lia.
  - eapply List.Forall_impl; [|exact Fi]. rewrite length_map, Lk. intros i Hi. cbn in *. lia.
Qed.

(** Key generation and signing, end to end.  The keys of a successful [Keygen]
    share one public key [x G]; for any [t + 1] distinct signers, any non-empty
    digest and any tweak, a signing run whose reader serves its draws returns an
    ECDSA signature under [x + tweak] that [crypto/ecdsa] accepts, in low form and
    with the right recovery bit, unless a sum of the drawn scalars is degenerate
    ([degenerate]): then it returns the error for that event.  It never panics and
    never fails its self-verification. *)
Theorem Keygen_Sign_correct h n t partyIDs rng sys keys rng' sys'
  (Hneg : forall a, pt (- a) = (fst (pt a), (- snd (pt a)) mod cP S256))
  (Hne : curve_eqb S256 Edwards = false) (Q2 : 2 < q) (Hodd : Z.odd (cP S256) = true)
  (Fr : Forall is_byte rng) (Fs : Forall is_byte sys)
  (HK : Keygen h n t partyIDs rng sys = Ok (keys, rng', sys')) :
  exists x, Forall (fun k => kECDSAPub k = Some (pnt x)) keys /\
  forall signerIdx tweak (hash : bytes) (rd sysS nonce rd1 : reader) draws rd2,
    Z.of_nat (length signerIdx) = t + 1 -> Forall (fun i => 0 <= i < n) signerIdx -> NoDup signerIdx ->
    hash <> [] -> Forall is_byte hash -> Forall is_byte rd -> Forall is_byte sysS -> ct_healthy sysS ->
    ReadFull 16 rd = Ok (nonce, rd1) -> rmapM (fun _ => draw_nonce) signerIdx rd1 = Ok (draws, rd2) ->
    exists prs, draws = map (nonce_of (pt := pt)) prs /\
    ((exists sg sysS', SignWithTweak h (map Some keys) signerIdx tweak hash (Some rd) sysS = Ok (sg, Some rd2, sysS') /\
       good_signature (pt := pt) (x + tweak_of tweak) hash sg) \/
    (exists e, SignWithTweak h (map Some keys) signerIdx tweak hash (Some rd) sysS = Err e /\
       degenerate (pt := pt) sign_texts prs (x + tweak_of tweak) hash e)).
Proof. exact (Keygen_Sign_run h n t partyIDs rng sys keys rng' sys' Hneg Hne Q2 Hodd Fr Fs HK). Qed.

(** C8. Whatever the keys and the peers' states are, a signature that [SignWithTweak]
    returns verifies under the first key's public key plus the tweak, and is in
    low form: the gate lets no other signature out. *)
Theorem Sign_sound h keys signerIdx tweak hash rng sys sg rng' sys'
  (Hq : 0 < q) (HR : SignWithTweak h keys signerIdx tweak hash rng sys = Ok (sg, rng', sys')) :
  0 < sigR sg < q /\ 0 < sigS sg <= q / 2 /\
  exists k0 sys1 vpub X Y, nth_error keys 0 = Some (Some k0) /\
    effectiveVerifyPub (kECDSAPub k0) tweak sys1 = Ok (vpub, sys') /\
    ECPoint_X vpub = Ok X /\ ECPoint_Y vpub = Ok Y /\
    ecdsa_Verify (curve vpub) X Y hash (sigR sg) (sigS sg) = Ok true.
Proof.
  unfold SignWithTweak, signCore in HR. apply rbind_ok in HR as ([st rd'] & E1 & HR).
  destruct (start_sound Hq _ _ _ _ _ _ _ _ _ E1) as (Rr & k0 & Ek & Ep).
  destruct (match rng with Some _ => (Some rd', sys) | None => (None, rd') end) as [rng2 sys2].
  apply rbind_ok in HR as ([kR xR] & _ & HR). apply rbind_ok in HR as ([sg' sys3] & E2 & HR). injection HR as <- <- <-.
  destruct (finish_sound Hq _ _ _ _ _ _ _ _ _ _ _ _ _ Rr E2) as (Er & Rs & vpub & X & Y & V). rewrite Er. split; [exact Rr|]. split; [exact Rs|].
  exists k0, sys2, vpub, X, Y. rewrite Ep, <- Er. auto.
Qed.
End Properties.

(** ** Evaluation on a concrete input *)
Definition w_kheap : Heap := <[0%nat := w_party 1]> (<[1%nat := w_party 2]> empty).
Definition w_krng : reader := [5; 7; 3; 2] ++ w_seg ++ w_seg.
Definition w_ksys : reader := repeat 1 (Z.to_nat 31040).
Abbreviation toy_healthy_m := (@ct_healthy_n _ _ _ toy256 toy256_pt false toy256_ct).
Abbreviation tpnt := (mkpt toy256 toy256_pt).

Lemma one_byte x tl : 0 <= x < 256 -> Forall is_byte tl -> Forall is_byte (x :: tl).
Proof. intros H F. constructor; [exact H|exact F]. Qed.

(** One dealing of the two-party run: the secret and one coefficient. *)
Lemma w_deal i u a (tl sys : reader) cm sh rest : 1 <= u < 31 -> Forall is_byte (a :: tl) -> Forall is_byte sys ->
  GetRandomPositiveInt (Some 31) (u :: a :: tl) = Ok (Some u, a :: tl) ->
  @samplePolynomial toy256 1 (Some u) (a :: tl) = Ok ([Some u; Some a], tl) ->
  toy_healthy_m (2 + rest)%nat sys ->
  exists sys', @deal toy_curves toy_secp toy_ed 1 [1; 2] (cm, sh, (u :: a :: tl : reader), sys) i =
    Ok (cm ++ [map (fun a => Some (tpnt a)) [u; a]], sh ++ [shares_of (C := toy256) 1 [u; a] [1; 2]], tl, sys') /\
    Forall is_byte sys' /\ toy_healthy_m rest sys'.
Proof.
  intros Hu Fa Fs E1 E2 Hh. unfold deal. change (cN S256) with 31. rewrite E1. cbn [rbind].
  destruct (Create_run (L := toy256_laws) (CT := toy256_ct) eq_refl 1 u [1; 2] sys (a :: tl) [Some u; Some a] tl rest)
    as (cs & sys' & Ep & F' & Hr & _ & _ & E); try assumption; try reflexivity; try (cbn; lia).
  destruct cs as [|c [|]]; try discriminate Ep. injection Ep as <-. change (@S256 toy_curves) with toy256. rewrite E. cbn [rewrap rbind]. eauto.
Qed.

(** A key that passes its checks consumes one blinded multiplication. *)
Lemma w_validate k xi X (sys : reader) : kCurve k = Some toy256 -> kXi k = Some xi -> 0 < xi < 31 ->
  negb ((kN k <=? 0) || (kT k <? 0) || (kN k <=? kT k)) = true -> negb ((kIdx k <? 0) || (kN k <=? kIdx k)) = true ->
  Z.of_nat (length (kPartyIDs k)) =? kN k = true -> Z.of_nat (length (kBigXj k)) =? kN k = true ->
  (exists x, kECDSAPub k = Some (tpnt x) /\ x mod 31 <> 0) -> Z.of_nat (length (kOT k)) =? kN k = true -> check_OT k = Ok tt ->
  length (kChainCode k) = 32%nat -> idxZ (kBigXj k) (kIdx k) = Ok (Some X) ->
  ECPoint_Equals (Some (tpnt xi)) (Some X) = Ok true ->
  Forall is_byte sys -> toy_healthy_m 1%nat sys ->
  @Key_ValidateBasic toy_curves toy_secp toy_ed (Some k) sys = Ok (skipn 40 sys).
Proof.
  intros Ec Ex Rx G1 G2 G3 G4 (x & Ep & Hx) G5 G6 G7 G8 G9 Fs [Hh _]. unfold Key_ValidateBasic.
  rewrite Ec, Ex, Ep, G1, G2, G3, G4, G5, G6, G7, G8. cbn [is_some guard rbind deref andb].
  assert (G10 : negb ((Z.sgn xi <=? 0) || (0 <=? Cmp xi (cN toy256))) = true).
  { rewrite Cmp_ge. change (cN toy256) with 31. rewrite (proj2 (Z.leb_gt 31 xi)), (proj2 (Z.leb_gt (Z.sgn xi) 0)) by lia. reflexivity. }
  rewrite G10. rewrite (mkpt_valid (L := toy256_laws)), on_c_nonzero by exact Hx. cbn [guard rbind Nat.eqb is_some].
  unfold ctmul_ScalarBaseMult. rewrite (ct_base_total (CtCurve := toy256_ct)) by (assumption || lia). cbn [rbind].
  rewrite G9. reflexivity.
Qed.

Definition w_cm : list (list (option ECPoint)) := [map (fun a => Some (tpnt a)) [5; 7]; map (fun a => Some (tpnt a)) [3; 2]].
Definition w_sh : list (list Share) := [shares_of (C := toy256) 1 [5; 7] [1; 2]; shares_of (C := toy256) 1 [3; 2] [1; 2]].

Lemma w_joint : joint_key w_cm = Ok (Some (tpnt 8)).
Proof. reflexivity. Qed.
Lemma w_share1 : @public_share toy_curves w_cm 1 17 = Ok (Some (tpnt 17)).
Proof. reflexivity. Qed.
Lemma w_share2 : @public_share toy_curves w_cm 2 26 = Ok (Some (tpnt 26)).
Proof. reflexivity. Qed.

Definition w_pre : bytes := Eval vm_compute in match otsetup_prefix (tpnt 8) with Ok b => b | _ => [] end.
Definition w_chain : bytes := Eval vm_compute in match @deriveChainCode toy_sha (tpnt 8) with Ok b => b | _ => [] end.

Definition w_draws : reader := [11; 6] ++ repeat 1 40 ++ [13; 9] ++ repeat 1 40.
Lemma w_draws_byte : Forall is_byte w_draws.
Proof. repeat (apply one_byte; [lia|]). constructor. Qed.

(** The assembly of two keys consumes one blinded multiplication for each. *)
Lemma w_assemble msg a b x pub chain BigXj rA sA rB sB (sys : reader) rest : 0 < a < 31 -> 0 < b < 31 -> x mod 31 <> 0 ->
  pub = Some (tpnt x) -> length chain = 32%nat -> BigXj = [Some (tpnt a); Some (tpnt b)] ->
  ECPoint_Equals (Some (tpnt a)) (Some (tpnt a)) = Ok true -> ECPoint_Equals (Some (tpnt b)) (Some (tpnt b)) = Ok true ->
  Forall is_byte sys -> toy_healthy_m (2 + rest)%nat sys ->
  exists sys', foldM (fun '(out, sys) '(i, x) =>
    let! row := idx (w_matrix rA sA rB sB) i in
    let k := {| kCurve := Some (@S256 toy_curves); kN := 2; kT := 1; kIdx := Z.of_nat i; kPartyIDs := [0%nat; 1%nat]; kXi := Some x;
                kBigXj := BigXj; kECDSAPub := pub; kOT := row; kChainCode := chain |} in
    let! sys := rewrap msg (@Key_ValidateBasic toy_curves toy_secp toy_ed (Some k) sys) in
    Ok (out ++ [k], sys)) ([], sys) (enum [a; b]) =
    Ok (map (@key_of toy_curves 2 1 [0%nat; 1%nat] BigXj pub (w_matrix rA sA rB sB) chain) (enum [a; b]), sys') /\
    Forall is_byte sys' /\ toy_healthy_m rest sys'.
Proof.
  intros Ra Rb Hx -> Hc -> Ea Eb Fs [Ha [Hb Hr]]. cbn [enum length seq combine foldM idx nth_error w_matrix rbind].
  pose proof (ct_rest_byte (CtCurve := toy256_ct) _ Fs) as F1. pose proof (ct_rest_byte (CtCurve := toy256_ct) _ F1) as F2.
  rewrite (w_validate _ a (tpnt a)); try reflexivity; try assumption; [|now exists x|split; [exact Ha|exact I]].
  cbn [rewrap rbind app idx nth_error w_matrix]. rewrite (w_validate _ b (tpnt b)); try reflexivity; try assumption; [|now exists x|split; [exact Hb|exact I]].
  cbn [rewrap rbind app]. eexists. split; [reflexivity|]. split; [exact F2|exact Hr].
Qed.

(** The keys of two parties. *)
Definition w_pair (a b x : Z) (ot : matrix) (chain : bytes) : list Key :=
  map (@key_of toy_curves 2 1 [0%nat; 1%nat] [Some (tpnt a); Some (tpnt b)] (Some (tpnt x)) ot chain) (enum [a; b]).

(** The whole run: the dealings, one pair of transfers and two checked keys. *)
Lemma w_keygen_pair (tl sys : reader) rest : Forall is_byte tl -> Forall is_byte sys ->
  toy_healthy_m (2 + (2 + w_setup_cost (2 + rest)))%nat sys ->
  exists rA sA rB sB sys', @Keygen toy_hash toy_sha toy_curves toy_secp toy_ed w_kheap 2 1 [0%nat; 1%nat]
      ([5; 7; 3; 2] ++ w_seg ++ w_seg ++ tl) sys = Ok (w_pair 17 26 8 (w_matrix rA sA rB sB) w_chain, tl, sys') /\
    Forall is_byte sys' /\ toy_healthy_m rest sys'.
Proof.
  intros Ft G0 H0. pose proof (w_seg_byte _ (w_seg_byte _ Ft)) as F1. cbn [app].
  destruct (w_deal 0 5 7 (3 :: 2 :: w_seg ++ w_seg ++ tl) sys [] [] (2 + w_setup_cost (2 + rest))) as (sys1 & E1 & G1 & H1);
    [lia|do 3 (apply one_byte; [lia|]); exact F1|exact G0|reflexivity|reflexivity|exact H0|].
  destruct (w_deal 1 3 2 (w_seg ++ w_seg ++ tl) sys1 [map (fun a => Some (tpnt a)) [5; 7]] [shares_of (C := toy256) 1 [5; 7] [1; 2]]
    (w_setup_cost (2 + rest))) as (sys2 & E2 & G2 & H2);
    [lia|apply one_byte; [lia|exact F1]|exact G1|reflexivity|reflexivity|exact H1|].
  destruct (w_setup w_pre tl sys2 (2 + rest)) as (rA & sA & rB & sB & sys3 & Es & G3 & H3); [exact Ft|exact G2|vm_compute; reflexivity|exact H2|].
  exists rA, sA, rB, sB. unfold Keygen.
  change (mapM (KeyInt w_kheap) [0%nat; 1%nat]) with (@Ok (list Z) [1; 2]).
  change (Z.to_nat 2) with 2%nat. cbn [length seq].
  change (negb (2 <=? 0)) with true. change (negb ((1 <? 1) || (2 <=? 1))) with true.
  change (Z.of_nat 2 =? 2) with true. cbn [guard rbind].
  change (CheckIndexes S256 [1; 2]) with (@Ok (list Z) [1; 2]). cbn [rewrap rbind foldM].
  rewrite E1. cbn [rbind app]. rewrite E2. cbn [rbind app]. fold w_cm w_sh.
  assert (Ex : mapM (@receive toy_curves 2 1 w_cm w_sh) [0%nat; 1%nat] = Ok [17; 26]) by (vm_compute; reflexivity).
  rewrite Ex. cbn [rbind]. rewrite w_joint. cbn [rbind combine mapM]. rewrite w_share1. cbn [rbind]. rewrite w_share2. cbn [rbind deref].
  assert (Ep : otsetup_prefix (tpnt 8) = Ok w_pre) by (vm_compute; reflexivity). rewrite Ep. cbn [rbind].
  rewrite Es. cbn [rewrap rbind].
  assert (Ec : @deriveChainCode toy_sha (tpnt 8) = Ok w_chain) by (vm_compute; reflexivity). rewrite Ec. cbn [rbind].
  destruct (w_assemble "dklstss: Keygen produced invalid key for party %d" 17 26 8 (Some (tpnt 8)) w_chain
    [Some (tpnt 17); Some (tpnt 26)] rA sA rB sB sys3 rest) as (sys4 & Ea & G4 & H4);
    [lia|lia|discriminate|reflexivity|reflexivity|reflexivity|reflexivity|reflexivity|exact G3|exact H3|].
  cbv zeta in Ea. rewrite Ea. cbn [rbind]. exists sys4. auto.
Qed.

Lemma w_keygen (sys : reader) : Forall is_byte sys ->
  toy_healthy_m (2 + (2 + w_setup_cost 2))%nat sys ->
  exists keys rng' sys',
  @Keygen toy_hash toy_sha toy_curves toy_secp toy_ed w_kheap 2 1 [0%nat; 1%nat] w_krng sys = Ok (keys, rng', sys') /\
  exists k ks, keys = k :: ks /\ kECDSAPub k = Some (tpnt 8).
Proof.
  intros Fs Hh. destruct (w_keygen_pair [] sys 0 (List.Forall_nil _) Fs Hh) as (rA & sA & rB & sB & sys' & E & _).
  rewrite app_nil_r in E. do 3 eexists. split; [exact E|]. do 2 eexists. split; reflexivity.
Qed.

(** The side conditions of the run below. *)
Lemma w_krng_byte : Forall is_byte w_krng.
Proof. do 4 (apply one_byte; [lia|]). apply w_seg_byte. rewrite <- (app_nil_r w_seg). apply w_seg_byte. constructor. Qed.
Lemma w_signers_range : Forall (fun i => 0 <= i < 2) [1; 0].
Proof. repeat constructor; lia. Qed.
Lemma w_signers_nodup : NoDup [1; 0].
Proof. repeat (apply List.NoDup_cons; [cbn; intros D; repeat destruct D as [D|D]; lia|]). apply List.NoDup_nil. Qed.
Lemma w_hash_nonempty : [201; 3] <> [].
Proof. discriminate. Qed.
Lemma w_hash_byte : Forall is_byte [201; 3].
Proof. repeat (apply one_byte; [lia|]). constructor. Qed.
Lemma w_sign_byte : Forall is_byte (repeat 9 16 ++ w_draws).
Proof. do 16 (apply one_byte; [lia|]). exact w_draws_byte. Qed.
Lemma w_draws_run : @rmapM Z _ (fun _ => @draw_nonce toy_curves toy_secp toy_ed) [1; 0] w_draws =
  Ok (fst (get_ok (@rmapM Z _ (fun _ => @draw_nonce toy_curves toy_secp toy_ed) [1; 0] w_draws) ([], [])), []).
Proof.
  assert (E : snd (get_ok (@rmapM Z _ (fun _ => @draw_nonce toy_curves toy_secp toy_ed) [1; 0] w_draws) ([], [])) = [])
    by (vm_compute; reflexivity).
  rewrite <- E at 2. rewrite <- surjective_pairing. apply get_ok_eq. vm_compute. reflexivity.
Qed.

(** The scalars of the two signers below are not degenerate. *)
Lemma w_not_degenerate tx x e : cong 31 x 8 ->
  ~ @degenerate toy_curves toy256_pt tx [(11, 6); (13, 9)] (x + 4) [201; 3] e.
Proof.
  intros Hx. assert (Hx4 : cong 31 (x + 4) 12) by (rewrite Hx; reflexivity).
  intros [(_ & l1 & l2 & E & Hne & Z0)|[[_ Z0]|[[_ Z0]|[[_ Z0]|[_ Z0]]]]].
  - cbn [map fst] in E. change (cN S256) with 31 in Z0.
    destruct l1 as [|a [|b [|c l1]]]; [contradiction| | |discriminate E].
    + injection E as <- _. discriminate Z0.
    + injection E as <- <- _. discriminate Z0.
  - vm_compute in Z0. discriminate Z0.
  - vm_compute in Z0. discriminate Z0.
  - assert (K : cong 31 (hashToInt 31 [201; 3] + fst (toy256_pt 24) mod 31 * (x + 4)) (hashToInt 31 [201; 3] + fst (toy256_pt 24) mod 31 * 12))
      by now rewrite Hx4. apply cong_iff in K.
    assert (Z1 : (hashToInt 31 [201; 3] + fst (toy256_pt 24) mod 31 * (x + 4)) mod 31 = 0) by exact Z0.
    rewrite K in Z1. vm_compute in Z1. discriminate Z1.
  - apply cong_iff in Hx4. assert (Z1 : (x + 4) mod 31 = 0) by exact Z0. rewrite Hx4 in Z1. discriminate Z1.
Qed.

Lemma w_prs (prs : list (Z * Z)) :
  fst (get_ok (@rmapM Z _ (fun _ => @draw_nonce toy_curves toy_secp toy_ed) [1; 0] w_draws) ([], [])) =
    map (@nonce_of toy_curves toy256_pt) prs -> prs = [(11, 6); (13, 9)].
Proof.
  intros E. apply (f_equal (map (fun d => (default 0 (fst (fst d)), default 0 (snd (fst d)))))) in E.
  rewrite map_map in E. cbn [nonce_of fst snd default] in E. rewrite (map_ext _ (fun p => p)), map_id in E by now intros [].
  rewrite <- E. vm_compute. reflexivity.
Qed.

(** The run, for keys that key generation made. *)
Lemma w_signed : exists keys sg sysS' x, cong 31 x 8 /\
  @SignWithTweak toy_hash toy_aes toy_curves toy_secp toy_ed w_kheap (map Some keys) [1; 0] (Some 4) [201; 3]
    (Some (repeat 9 16 ++ w_draws)) (repeat 1 40) = Ok (sg, Some [], sysS').
Proof.
  destruct (w_keygen w_ksys (ones_byte _)) as (keys & rng' & sys' & E & k & ks & Ek & Ep); [apply toy_healthy_n; unfold w_setup_cost, Kappa; lia|].
  destruct (@Keygen_Sign_run toy_hash toy_aes toy_aes_laws toy_sha toy_curves toy_secp toy_ed toy256_pt toy256_laws toy256_ct
    w_kheap 2 1 [0%nat; 1%nat] w_krng w_ksys keys rng' sys' toy_neg eq_refl eq_refl eq_refl w_krng_byte (ones_byte _) E) as (x & Fp & K).
  assert (Hx : cong 31 x 8).
  { rewrite Ek in Fp. apply Forall_inv in Fp. rewrite Ep in Fp. injection Fp as Fx Fy.
    symmetry. apply (cl_eq (CurveLaws := toy256_laws)). apply injective_projections; assumption. }
  destruct (K [1; 0] (Some 4) [201; 3] (repeat 9 16 ++ w_draws) (repeat 1 40) (repeat 9 16) w_draws
    (fst (get_ok (@rmapM Z _ (fun _ => @draw_nonce toy_curves toy_secp toy_ed) [1; 0] w_draws) ([], []))) []
    eq_refl w_signers_range w_signers_nodup w_hash_nonempty w_hash_byte w_sign_byte (ones_byte _) (toy_healthy 40 (le_n 40)) eq_refl w_draws_run)
    as (prs & Ed & [(sg & sysS' & ES & G)|(e & _ & D)]).
  - exists keys, sg, sysS', x. auto.
  - apply w_prs in Ed. subst prs. destruct (w_not_degenerate _ x e Hx D).
Qed.

Lemma Keygen_Sign_correct_witness : exists keys rng' sys',
  @Keygen toy_hash toy_sha toy_curves toy_secp toy_ed w_kheap 2 1 [0%nat; 1%nat] w_krng w_ksys = Ok (keys, rng', sys') /\
  exists x sg sysS', cong 31 x 8 /\
    @SignWithTweak toy_hash toy_aes toy_curves toy_secp toy_ed w_kheap (map Some keys) [1; 0] (Some 4) [201; 3]
      (Some (repeat 9 16 ++ w_draws)) (repeat 1 40) = Ok (sg, Some [], sysS') /\
    @good_signature toy_curves toy256_pt (x + 4) [201; 3] sg.
Proof.
  destruct (w_keygen w_ksys (ones_byte _)) as (keys & rng' & sys' & E & k & ks & Ek & Ep); [apply toy_healthy_n; unfold w_setup_cost, Kappa; lia|].
  exists keys, rng', sys'. split; [exact E|].
  destruct (@Keygen_Sign_correct toy_hash toy_aes toy_aes_laws toy_sha toy_curves toy_secp toy_ed toy256_pt toy256_laws toy256_ct
    w_kheap 2 1 [0%nat; 1%nat] w_krng w_ksys keys rng' sys' toy_neg eq_refl eq_refl eq_refl w_krng_byte (ones_byte _) E) as (x & Fp & K).
  assert (Hx : cong 31 x 8).
  { rewrite Ek in Fp. apply Forall_inv in Fp. rewrite Ep in Fp. injection Fp as Fx Fy.
    symmetry. apply (cl_eq (CurveLaws := toy256_laws)). apply injective_projections; assumption. }
  destruct (K [1; 0] (Some 4) [201; 3] (repeat 9 16 ++ w_draws) (repeat 1 40) (repeat 9 16) w_draws
    (fst (get_ok (@rmapM Z _ (fun _ => @draw_nonce toy_curves toy_secp toy_ed) [1; 0] w_draws) ([], []))) []
    eq_refl w_signers_range w_signers_nodup w_hash_nonempty w_hash_byte w_sign_byte (ones_byte _) (toy_healthy 40 (le_n 40)) eq_refl w_draws_run)
    as (prs & Ed & [(sg & sysS' & ES & G)|(e & _ & D)]).
  - exists x, sg, sysS'. auto.
  - apply w_prs in Ed. subst prs. destruct (w_not_degenerate _ x e Hx D).
Defined.

Lemma Sign_sound_witness : exists keys sg sysS',
  @SignWithTweak toy_hash toy_aes toy_curves toy_secp toy_ed w_kheap (map Some keys) [1; 0] (Some 4) [201; 3]
    (Some (repeat 9 16 ++ w_draws)) (repeat 1 40) = Ok (sg, Some [], sysS') /\
  0 < sigR sg < 31 /\ 0 < sigS sg <= 15.
Proof.
  destruct w_signed as (keys & sg & sysS' & x & _ & E). exists keys, sg, sysS'. split; [exact E|].
  destruct (@Sign_sound toy_hash toy_aes toy_curves toy_secp toy_ed w_kheap (map Some keys) [1; 0] (Some 4) [201; 3]
    (Some (repeat 9 16 ++ w_draws)) (repeat 1 40) sg (Some []) sysS' eq_refl E) as (Hr & Hs & _).
  split; [exact Hr|exact Hs].
Defined.

(** Keys that key generation made, for the runs below. *)
Lemma w_consistent : exists keys ids cs, @consistent toy_curves toy256_pt w_kheap keys ids cs /\
  keys <> [] /\ cs <> [] /\ length cs = 2%nat /\ length keys = 2%nat /\ cong 31 (peval cs 0) 8.
Proof.
  destruct (w_keygen w_ksys (ones_byte _)) as (out & rng' & sys0 & E & k & ks & Ek & Ep); [apply toy_healthy_n; unfold w_setup_cost, Kappa; lia|].
  destruct (@Keygen_run toy_hash toy_sha toy_curves toy_secp toy_ed toy256_pt toy256_laws toy256_ct toy_neg eq_refl
    _ _ _ _ _ _ _ _ _ w_krng_byte (ones_byte _) E) as (ids & cs & _ & Hn & Lc & CK & Fp & _).
  exists (map Some out), ids, cs. split; [exact CK|]. split; [rewrite Ek; discriminate|]. split; [intros ->; discriminate Lc|]. split; [exact Lc|].
  split; [rewrite length_map; exact Hn|]. rewrite Ek in Fp. apply Forall_inv in Fp. rewrite Ep in Fp. injection Fp as Fx Fy.
  symmetry. apply (cl_eq (CurveLaws := toy256_laws)). apply injective_projections; assumption.
Qed.

(** The randomness of two signers over such keys. *)
Definition w_sign_rng : reader := repeat 9 16 ++ w_draws.
Abbreviation w_ndraws := (fst (get_ok (@rmapM Z _ (fun _ => @draw_nonce toy_curves toy_secp toy_ed) [1; 0] w_draws) ([], []))).
