(* ===== verification/DklsPresign.v ===== *)
(** * Package [dklstss]: presigning

    [presign.go]: the offline phase, the signature from its output, and the two
    guards of its single use: the flag of the output, claimed by an atomic
    compare-and-swap, and the caller's store of the nonces used.  An output is a
    shared object; a call returns the object it leaves behind, on its error paths
    too.  The steps that the scheduler may interleave are the definitions
    [durable_record], [claim] and [finish]. *)
From stdpp Require Import base gmap list countable.
From Stdlib Require Import ZArith String List Lia Bool Arith.
From S2P Require Import Prelude GoBig Common Curve CtMul Field Schnorr Bits OtExt OtExtCorrect Ole Party.
From S2P Require Import BaseOt Dkls DklsSetup DklsSign DklsSignCorrect DklsKeygen.
Import ListNotations.
Open Scope string_scope.
Open Scope Z_scope.
Open Scope list_scope.

Record partyPresign := { pp_rho : Z; pp_sigma : Z; pp_kRhoShare : Z }.
Record PresignOutput := {
  po_Pub : option ECPoint; po_R : ECPoint; po_r : Z; po_signerIdx : list Z; po_keys : list (option Key);
  po_parties : list partyPresign; po_aggregated : bool; po_consumed : bool
}.
Definition consume (p : PresignOutput) : PresignOutput :=
  {| po_Pub := po_Pub p; po_R := po_R p; po_r := po_r p; po_signerIdx := po_signerIdx p; po_keys := po_keys p;
     po_parties := po_parties p; po_aggregated := po_aggregated p; po_consumed := true |}.

Definition ErrPresignAlreadyConsumed : string :=
  "dklstss: presign output already consumed — reuse equals nonce reuse equals key extraction".

(** The texts of [Presign] and of [SignWithPresign]. *)
Definition presign_texts : Texts := {|
  t_keys := "dklstss: Presign requires at least one key";
  t_count := "dklstss: Presign requires T+1=%d signers, got %d";
  t_range := "dklstss: Presign signerIdx %d out of range";
  t_dup := "dklstss: Presign duplicate signerIdx %d";
  t_hash := "";
  t_key := "dklstss: Presign key %d inconsistent";
  t_lagrange := "dklstss: Presign lagrange";
  t_ssid := "dklstss: Presign ssid";
  t_agg := "dklstss: Presign R aggregation";
  t_r0 := "dklstss: Presign R.X mod q is 0; retry";
  t_ot := "dklstss: Presign missing OT state (%d,%d)";
  t_phi := "dklstss: SignWithPresign φ is 0; presign was malformed";
  t_inv := "dklstss: SignWithPresign φ has no inverse";
  t_s0 := "dklstss: SignWithPresign produced s=0"
|}.

Section Defs.
Context `{HS : Hash} `{AE : Aes} `{CS : Curves} `{SL : Secp256k1Lib} `{EL : Ed25519Lib}.

Definition presign_mul (kind : string) (ssid : bytes) : pair_mul := fun aliceKey bobKey alicePair bobPair alpha beta =>
  run_mul ("dklstss: Presign ΠMul-" ++ kind ++ "1") ("dklstss: Presign ΠMul-" ++ kind ++ "B") ("dklstss: Presign ΠMul-" ++ kind ++ "A")
    (makeSid ssid ("presign-" ++ kind ++ "xrho") (kIdx aliceKey) (kIdx bobKey)) (AsAlice alicePair) (AsBob bobPair) alpha beta.

Definition Presign (h : Heap) (keys : list (option Key)) (signerIdx : list Z) (rd : reader) : res (PresignOutput * reader) :=
  let! (st, rd) := start_signing presign_texts h keys signerIdx None None rd in
  let ssid := str "DKLS23-presign-v1-" ++ st_nonce st in
  let! (kRho, xRho) := cross_terms presign_texts (presign_mul "k" ssid) (presign_mul "x" ssid) (cN S256) (st_signers st)
    (st_k st) (st_rho st) (st_sx st) in
  Ok ({| po_Pub := st_pub st; po_R := st_R st; po_r := st_r st; po_signerIdx := signerIdx; po_keys := keys;
         po_parties := map (fun '(rho, (sigma, kr)) => {| pp_rho := rho; pp_sigma := sigma; pp_kRhoShare := kr |})
           (combine (st_rho st) (combine xRho kRho));
         po_aggregated := true; po_consumed := false |}, rd).

(** The checks of [SignWithPresign] and its compare-and-swap. *)
Definition claim (p : PresignOutput) (hash : bytes) : PresignOutput * res unit :=
  if (length hash =? 0)%nat then (p, Err "dklstss: SignWithPresign hash must be non-empty")
  else if negb (po_aggregated p) then
    (p, Err "dklstss: SignWithPresign requires an aggregated PresignOutput; the per-party output from PresignParty must be composed by an online sign protocol")
  else if po_consumed p then (p, Err ErrPresignAlreadyConsumed)
  else (consume p, Ok tt).

(** The rest of it, on the fields that never change. *)
Definition late_tweak (tweak : option Z) (rho sigma : Z) : res Z :=
  match tweak with
  | None => Ok sigma
  | Some tweak => let! t := Mod tweak (cN S256) in CTScalarMulAddModN S256 t rho sigma
  end.
Definition finish (p : PresignOutput) (hash : bytes) (tweak : option Z) (sys : reader) : res (Signature * reader) :=
  finish_signing presign_texts (late_tweak tweak) (po_Pub p) tweak hash (po_R p) (po_r p)
    (map pp_rho (po_parties p)) (map pp_kRhoShare (po_parties p)) (map pp_sigma (po_parties p)) sys.

Definition SignWithPresign (p : option PresignOutput) (hash : bytes) (tweak : option Z) (sys : reader)
  : option PresignOutput * res (Signature * reader) :=
  match p with
  | None => (None, Err "dklstss: SignWithPresign nil presign")
  | Some p => let '(p, r) := claim p hash in (Some p, r ;! finish p hash tweak sys)
  end.

Definition RHash (p : PresignOutput) : res bytes :=
  let! x := ECPoint_X (po_R p) in
  let! y := ECPoint_Y (po_R p) in
  let! h := deref (SHA512_256i_TAGGED (str "DKLS23-presign-rhash-v1") [Some x; Some y]) in
  FillBytes 32 h.
Definition Consumed (p : PresignOutput) : bool := po_consumed p.

(** [UsedPresignStore]: the caller's store, whose state is of any type.  A call may
    fail, and changes the state in either case. *)
Class UsedPresignStore (S : Type) := { CheckAndRecord : S -> bytes -> S * res bool }.

(** The store of the package, for tests: the set of the hashes seen.  Its mutex makes a call
    one step. *)
Definition InMemoryPresignStore : Type := gset bytes.
Definition NewInMemoryPresignStore : InMemoryPresignStore := ∅.
Definition InMemory_CheckAndRecord (s : InMemoryPresignStore) (rHash : bytes) : InMemoryPresignStore * res bool :=
  if bool_decide (rHash ∈ s) then (s, Ok false) else ({[rHash]} ∪ s, Ok true).
#[export] Instance InMemory_store : UsedPresignStore InMemoryPresignStore := {| CheckAndRecord := InMemory_CheckAndRecord |}.

Section Store.
Context {S : Type} `{UsedPresignStore S}.

(** The checks of [SignWithPresignDurable] and its call of the store. *)
Definition durable_record (p : PresignOutput) (hash : bytes) (store : option S) : option S * res unit :=
  if negb (po_aggregated p) then
    (store, Err "dklstss: SignWithPresignDurable requires an aggregated PresignOutput; the per-party output from PresignParty must be composed by an online sign protocol")
  else
    match store with
    | None => (None, Err "dklstss: SignWithPresignDurable nil store; use SignWithPresign for in-memory-only")
    | Some s =>
      if (length hash =? 0)%nat then (store, Err "dklstss: SignWithPresignDurable empty hash")
      else
        match RHash p with
        | Ok rHash =>
          let '(s, recorded) := CheckAndRecord s rHash in
          (Some s,
            let! recorded := rewrap "dklstss: SignWithPresignDurable store error" recorded in
            guard recorded ErrPresignAlreadyConsumed)
        | Err m => (store, Err m)
        | Panic w => (store, Panic w)
        end
    end.

Definition SignWithPresignDurable (p : option PresignOutput) (hash : bytes) (tweak : option Z) (store : option S) (sys : reader)
  : option PresignOutput * option S * res (Signature * reader) :=
  match p with
  | None => (None, store, Err "dklstss: SignWithPresignDurable nil presign")
  | Some p' =>
    let '(store, r) := durable_record p' hash store in
    match r with
    | Ok _ => let '(p, r) := SignWithPresign p hash tweak sys in (p, store, r)
    | Err m => (p, store, Err m)
    | Panic w => (p, store, Panic w)
    end
  end.

(** ** Concurrent calls *)
(** Several goroutines use presign outputs, which they share, and one store.  A call
    is at one of its interleaving points; a finished call has its result. *)
Inductive position := Begun | Recorded | Claimed | Done (r : res (Signature * reader)).
Record Call := { c_presign : ref; c_durable : bool; c_hash : bytes; c_tweak : option Z; c_sys : reader; c_at : position }.
Record World := { w_presigns : gmap ref PresignOutput; w_store : option S; w_calls : list Call }.

Definition at_position (c : Call) (a : position) : Call :=
  {| c_presign := c_presign c; c_durable := c_durable c; c_hash := c_hash c; c_tweak := c_tweak c; c_sys := c_sys c; c_at := a |}.

(** The next atomic step of a call: the outputs and the store it leaves, and where
    the call stands. *)
Definition call_step (ps : gmap ref PresignOutput) (store : option S) (c : Call) : option (gmap ref PresignOutput * option S * position) :=
  match ps !! c_presign c with
  | None => None
  | Some p =>
    match c_at c, c_durable c with
    | Begun, true =>
      let '(store, r) := durable_record p (c_hash c) store in
      Some (ps, store, match r with Ok _ => Recorded | Err m => Done (Err m) | Panic w => Done (Panic w) end)
    | Begun, false | Recorded, _ =>
      let '(p, r) := claim p (c_hash c) in
      Some (<[c_presign c := p]> ps, store, match r with Ok _ => Claimed | Err m => Done (Err m) | Panic w => Done (Panic w) end)
    | Claimed, _ => Some (ps, store, Done (finish p (c_hash c) (c_tweak c) (c_sys c)))
    | Done _, _ => None
    end
  end.

Inductive world_step : World -> World -> Prop :=
| world_call i c ps' store' a w : w_calls w !! i = Some c -> call_step (w_presigns w) (w_store w) c = Some (ps', store', a) ->
    world_step w {| w_presigns := ps'; w_store := store'; w_calls := <[i := at_position c a]> (w_calls w) |}.

(** A run from a world in which no call has begun. *)
Inductive reaches (w0 : World) : World -> Prop :=
| reaches_refl : reaches w0 w0
| reaches_step w w' : reaches w0 w -> world_step w w' -> reaches w0 w'.
Definition fresh_calls (w : World) : Prop := Forall (fun c => c_at c = Begun) (w_calls w).
Definition signed (c : Call) : bool := match c_at c with Done (Ok _) => true | _ => false end.
End Store.
End Defs.

(** ** Counting calls *)
Definition b2n (b : bool) : nat := if b then 1%nat else 0%nat.
Definition count {A} (f : A -> bool) (l : list A) : nat := length (List.filter f l).

Lemma count_insert {A} (f : A -> bool) l i (a b : A) : l !! i = Some a ->
  (count f (<[i := b]> l) + b2n (f a) = count f l + b2n (f b))%nat.
Proof.
  revert i. induction l as [|x l IH]; intros [|i] E; try discriminate E; unfold count in *; cbn.
  - injection E as ->. destruct (f a), (f b); cbn; lia.
  - specialize (IH i E). destruct (f x); cbn; [f_equal|]; exact IH.
Qed.

Lemma count_none {A} (f : A -> bool) l : Forall (fun a => f a = false) l -> count f l = 0%nat.
Proof. unfold count. induction 1 as [|a l Ha F IH]; [reflexivity|]. cbn. now rewrite Ha. Qed.

Lemma count_le {A} (f g : A -> bool) l : (forall a, f a = true -> g a = true) -> (count f l <= count g l)%nat.
Proof.
  intros Hfg. unfold count. induction l as [|a l IH]; cbn; [lia|]. specialize (Hfg a).
  destruct (f a); [rewrite (Hfg eq_refl); cbn; lia|]. destruct (g a); cbn; lia.
Qed.

Section Single.
Context `{HS : Hash} `{AE : Aes} `{CS : Curves} `{SL : Secp256k1Lib} `{EL : Ed25519Lib}.

(** A claim flips the flag of an output that was free, and nothing else. *)
Lemma claim_cases p hash p' r : claim p hash = (p', r) ->
  (r = Ok tt /\ p' = consume p /\ po_consumed p = false) \/ (p' = p /\ forall u, r <> Ok u).
Proof.
  unfold claim. destruct (length hash =? 0)%nat; [intros [= <- <-]; right; split; [reflexivity|discriminate]|].
  destruct (po_aggregated p); cbn [negb]; [|intros [= <- <-]; right; split; [reflexivity|discriminate]].
  destruct (po_consumed p) eqn:E; intros [= <- <-]; [right; split; [reflexivity|discriminate]|left; auto].
Qed.

Section World.
Context {S : Type} `{UsedPresignStore S}.

(** A call that has claimed its output and may still sign, or has signed. *)
Definition live (c : Call) : bool := match c_at c with Claimed | Done (Ok _) => true | _ => false end.
Definition live_on (r : ref) (c : Call) : bool := (c_presign c =? r)%nat && live c.
Definition flag (ps : gmap ref PresignOutput) (r : ref) : bool := match ps !! r with Some p => po_consumed p | None => false end.

Definition claimed_once (w0 w : World (S := S)) : Prop := forall r,
  (count (live_on r) (w_calls w) + b2n (flag (w_presigns w0) r) <= b2n (flag (w_presigns w) r))%nat.

Lemma flag_insert ps r p r' : flag (<[r := p]> ps) r' = if (r =? r')%nat then po_consumed p else flag ps r'.
Proof.
  unfold flag. destruct (Nat.eqb_spec r r') as [<-|Hr]; [now rewrite lookup_insert_eq|now rewrite lookup_insert_ne].
Qed.

(** What a step does to the calls on one output. *)
Lemma call_step_flag ps store c ps' store' a r : call_step ps store c = Some (ps', store', a) ->
  (b2n (live_on r (at_position c a)) + b2n (flag ps r) <= b2n (live_on r c) + b2n (flag ps' r))%nat.
Proof.
  unfold call_step. destruct (ps !! c_presign c) as [p|] eqn:Ep; [|discriminate].
  assert (K : forall r0, claim p (c_hash c) = r0 ->
    Some (<[c_presign c := fst r0]> ps, store, match snd r0 with Ok _ => Claimed | Err m => Done (Err m) | Panic w => Done (Panic w) end) =
      Some (ps', store', a) -> live c = false ->
    (b2n (live_on r (at_position c a)) + b2n (flag ps r) <= b2n (live_on r c) + b2n (flag ps' r))%nat).
  { intros [p' r0] Ec [= <- <- <-] Hl. unfold live_on. rewrite Hl, andb_false_r. cbn [fst snd at_position c_presign b2n].
    rewrite flag_insert. apply claim_cases in Ec as [(-> & -> & Hc)|[-> Hr]].
    - cbn [live at_position c_at]. destruct (Nat.eqb_spec (c_presign c) r) as [<-|]; cbn; [|lia].
      unfold flag. rewrite Ep, Hc. cbn. lia.
    - assert (E : flag ps (c_presign c) = po_consumed p) by (unfold flag; now rewrite Ep).
      replace (live _) with false by (destruct r0 as [u| |]; [now destruct (Hr u)|reflexivity|reflexivity]).
      rewrite andb_false_r. cbn. destruct (Nat.eqb_spec (c_presign c) r) as [<-|]; [rewrite E|]; lia. }
  unfold live_on in *. destruct (c_at c) eqn:Ea; [destruct (c_durable c)| | |discriminate].
  - destruct (durable_record p (c_hash c) store) as [s0 [u|m|w]]; intros [= <- <- <-]; cbn; rewrite andb_false_r; cbn; lia.
  - intros E. eapply (K _ eq_refl); [destruct (claim p (c_hash c)); exact E|]. unfold live. now rewrite Ea.
  - intros E. eapply (K _ eq_refl); [destruct (claim p (c_hash c)); exact E|]. unfold live. now rewrite Ea.
  - intros [= <- <- <-]. replace (live c) with true by (unfold live; now rewrite Ea).
    cbn [at_position c_presign]. rewrite andb_true_r. generalize (flag ps r). intros fl. destruct (c_presign c =? r)%nat; [|cbn [andb b2n]; lia].
    apply Nat.add_le_mono_r. cbn. destruct (finish _ _ _ _); cbn; auto.
Qed.

Lemma reaches_claimed_once w0 w : fresh_calls w0 -> reaches w0 w -> claimed_once w0 w.
Proof.
  intros F. induction 1 as [|w w' _ IH ST]; intros r.
  - rewrite count_none; [cbn; lia|]. unfold fresh_calls in F. eapply List.Forall_impl; [|exact F]. intros c E.
    unfold live_on, live. cbv beta in E. rewrite E. apply andb_false_r.
  - destruct ST as [i c ps' store' a w Ei E]. cbn [w_calls w_presigns]. specialize (IH r).
    pose proof (count_insert (live_on r) (w_calls w) i c (at_position c a) Ei). pose proof (call_step_flag _ _ _ _ _ _ r E). lia.
Qed.

(** ** The store *)
(** What the documentation asks of a store: a hash that it reports as recorded was
    not there before and is there now, and no hash is ever forgotten. *)
Class StoreLaws (seen : S -> bytes -> Prop) : Prop := {
  store_new : forall s g s', CheckAndRecord s g = (s', Ok true) -> ~ seen s g /\ seen s' g;
  store_keep : forall s g s' r g', CheckAndRecord s g = (s', r) -> seen s g' -> seen s' g'
}.

(** A durable call that has recorded its hash and may still sign, or has signed. *)
Definition holding (c : Call) : bool := match c_at c with Recorded | Claimed | Done (Ok _) => true | _ => false end.

Section Hashes.
Context (seen : S -> bytes -> Prop) {SLaws : StoreLaws seen}.
(** The hash of each output of the initial world. *)
Variable w0 : World (S := S).
Definition hash_at (ps : gmap ref PresignOutput) (r : ref) : option (res bytes) := RHash <$> ps !! r.
Definition has_hash (g : bytes) (c : Call) : bool :=
  match hash_at (w_presigns w0) (c_presign c) with Some (Ok g') => bool_decide (g' = g) | _ => false end.
Definition holding_hash (g : bytes) (c : Call) : bool := has_hash g c && holding c.
Definition in_store (st : option S) (g : bytes) : Prop := match st with Some s => seen s g | None => False end.

Record stored (w : World (S := S)) : Prop := {
  sd_hash : forall r, hash_at (w_presigns w) r = hash_at (w_presigns w0) r;
  sd_durable : Forall (fun c => c_durable c = true) (w_calls w);
  sd_kept : forall g, in_store (w_store w0) g -> in_store (w_store w) g;
  sd_once : forall g, (count (holding_hash g) (w_calls w) <= 1)%nat /\
    (~ in_store (w_store w) g \/ in_store (w_store w0) g -> count (holding_hash g) (w_calls w) = 0%nat)
}.

Lemma RHash_consume p : RHash (consume p) = RHash p.
Proof. reflexivity. Qed.

Lemma claim_hash p hash : RHash (fst (claim p hash)) = RHash p.
Proof. destruct (claim p hash) as [p' r] eqn:E. cbn [fst]. now apply claim_cases in E as [(_ & -> & _)|[-> _]]. Qed.

(** Recording: either the store keeps its hashes and the call fails, or the call now
    holds a hash that was not in the store. *)
Lemma durable_record_cases p hash st st' r : durable_record p hash st = (st', r) ->
  (forall g, in_store st g -> in_store st' g) /\
  (r = Ok tt -> exists g, RHash p = Ok g /\ ~ in_store st g /\ in_store st' g).
Proof.
  unfold durable_record. destruct (po_aggregated p); cbn [negb]; [|intros [= <- <-]; split; [auto|discriminate]].
  destruct st as [s|]; [|intros [= <- <-]; split; [auto|discriminate]].
  destruct (length hash =? 0)%nat; [intros [= <- <-]; split; [auto|discriminate]|].
  destruct (RHash p) as [g| |] eqn:Eg; [|intros [= <- <-]; split; [auto|discriminate]..].
  destruct (CheckAndRecord s g) as [s' [[]|m|w]] eqn:Ec; cbn [rewrap rbind guard]; intros [= <- <-];
    (split; [intros g' Hg; exact (store_keep _ _ _ _ _ Ec Hg)|]); [|discriminate..].
  intros _. exists g. destruct (store_new _ _ _ Ec). auto.
Qed.

Lemma hash_at_insert ps r p p' r' : ps !! r = Some p -> RHash p' = RHash p -> hash_at (<[r := p']> ps) r' = hash_at ps r'.
Proof.
  intros E Eh. unfold hash_at. destruct (decide (r = r')) as [<-|Hr]; [|now rewrite lookup_insert_ne].
  rewrite lookup_insert_eq, E. cbn. now rewrite Eh.
Qed.

(** What a step of a durable call does to the calls that hold a hash. *)
Lemma call_step_hash ps store c ps' store' a g : call_step ps store c = Some (ps', store', a) -> c_durable c = true ->
  (forall r, hash_at ps r = hash_at (w_presigns w0) r) ->
  (forall r, hash_at ps' r = hash_at ps r) /\ (in_store store g -> in_store store' g) /\
  ((holding_hash g c = false /\ holding_hash g (at_position c a) = true /\ ~ in_store store g /\ in_store store' g) \/
   (holding_hash g (at_position c a) = true -> holding_hash g c = true)).
Proof.
  unfold call_step. destruct (ps !! c_presign c) as [p|] eqn:Ep; [|discriminate]. intros E Hd Hw.
  assert (Hh : has_hash g c = match RHash p with Ok g' => bool_decide (g' = g) | _ => false end).
  { unfold has_hash. rewrite <- Hw. unfold hash_at. rewrite Ep. reflexivity. }
  assert (Hp : forall b, holding_hash g (at_position c b) = has_hash g c && holding (at_position c b)) by reflexivity.
  destruct (c_at c) eqn:Ea; rewrite ?Hd in E; [| | |discriminate].
  - destruct (durable_record p (c_hash c) store) as [st r] eqn:Er. injection E as <- <- <-.
    destruct (durable_record_cases _ _ _ _ _ Er) as [Hk Hn]. split; [reflexivity|]. split; [apply Hk|]. rewrite Hp.
    destruct r as [[]|m|w]; [|right; cbn; rewrite andb_false_r; discriminate..]. destruct (Hn eq_refl) as (g' & Eg & N1 & N2).
    rewrite Hh, Eg. destruct (bool_decide_reflect (g' = g)) as [->|Hg]; [left|right; discriminate].
    unfold holding_hash, holding. rewrite Ea, andb_false_r. auto.
  - pose proof (claim_hash p (c_hash c)) as Hc. destruct (claim p (c_hash c)) as [p' r]. cbn [fst] in Hc. injection E as <- <- <-.
    split; [intros r'; now apply (hash_at_insert _ _ p)|]. split; [auto|]. right. rewrite Hp. unfold holding_hash, holding at 2. rewrite Ea.
    now destruct (has_hash g c).
  - injection E as <- <- <-. split; [reflexivity|]. split; [auto|]. right. rewrite Hp. unfold holding_hash, holding at 2. rewrite Ea.
    now destruct (has_hash g c).
Qed.

Lemma reaches_stored w : fresh_calls w0 -> Forall (fun c => c_durable c = true) (w_calls w0) -> reaches w0 w -> stored w.
Proof.
  intros F D. induction 1 as [|w w' _ [I1 I2 I4 I3] ST].
  - assert (Z0 : forall g, count (holding_hash g) (w_calls w0) = 0%nat).
    { intros g. apply count_none. eapply List.Forall_impl; [|exact F]. intros c E. unfold holding_hash, holding. cbv beta in E.
      rewrite E. apply andb_false_r. }
    constructor; [reflexivity|assumption|auto|]. intros g. rewrite Z0. auto.
  - destruct ST as [i c ps' store' a w Ei E]. assert (Hd : c_durable c = true) by exact (Forall_lookup_1 _ _ _ _ I2 Ei).
    constructor; cbn [w_calls w_presigns w_store].
    + intros r. destruct (call_step_hash _ _ _ _ _ _ [] E Hd I1) as [K _]. now rewrite K.
    + apply Forall_insert; [exact I2|exact Hd].
    + intros g Hg. destruct (call_step_hash _ _ _ _ _ _ g E Hd I1) as (_ & Hk & _). auto.
    + intros g. destruct (call_step_hash _ _ _ _ _ _ g E Hd I1) as (_ & Hk & Hc). destruct (I3 g) as [J1 J2].
      pose proof (count_insert (holding_hash g) (w_calls w) i c (at_position c a) Ei) as CI.
      destruct Hc as [(E1 & E2 & N1 & N2)|Hc].
      * rewrite E1, E2 in CI. specialize (J2 (or_introl N1)). cbn [b2n] in CI. split; [lia|]. intros [N|N]; [now destruct (N N2)|].
        now destruct (N1 (I4 g N)).
      * assert (b2n (holding_hash g (at_position c a)) <= b2n (holding_hash g c))%nat
          by (destruct (holding_hash g (at_position c a)); [rewrite (Hc eq_refl); auto|cbn; lia]).
        split; [lia|]. intros N. assert (N0 : ~ in_store (w_store w) g \/ in_store (w_store w0) g) by (destruct N; auto). specialize (J2 N0). lia.
Qed.
End Hashes.

(** ** Calls that run alone *)
(** What a call returns when nothing interrupts it. *)
Definition call_result (c : Call) (p : PresignOutput) (st : option S) : option PresignOutput * option S * res (Signature * reader) :=
  if c_durable c then SignWithPresignDurable (Some p) (c_hash c) (c_tweak c) st (c_sys c)
  else let '(p, r) := SignWithPresign (Some p) (c_hash c) (c_tweak c) (c_sys c) in (p, st, r).

Lemma step_to w i c ps' st' a : w_calls w !! i = Some c -> call_step (w_presigns w) (w_store w) c = Some (ps', st', a) ->
  reaches w {| w_presigns := ps'; w_store := st'; w_calls := <[i := at_position c a]> (w_calls w) |}.
Proof. intros Ei E. eapply reaches_step; [apply reaches_refl|]. now apply world_call. Qed.

Lemma reaches_trans (w1 w2 w3 : World (S := S)) : reaches w1 w2 -> reaches w2 w3 -> reaches w1 w3.
Proof. intros R1. induction 1 as [|w w' _ IH ST]; [assumption|]. eapply reaches_step; eassumption. Qed.

(** From the claim on, both kinds of call do the same. *)
Lemma claim_run w i c p a : w_calls w !! i = Some c -> w_presigns w !! c_presign c = Some p ->
  c_at c = a -> (a = Begun /\ c_durable c = false \/ a = Recorded) ->
  exists p' r, SignWithPresign (Some p) (c_hash c) (c_tweak c) (c_sys c) = (Some p', r) /\
    reaches w {| w_presigns := <[c_presign c := p']> (w_presigns w); w_store := w_store w; w_calls := <[i := at_position c (Done r)]> (w_calls w) |}.
Proof.
  intros Ei Ep Ea Ha. unfold SignWithPresign. destruct (claim p (c_hash c)) as [p' r] eqn:Ec.
  assert (E : call_step (w_presigns w) (w_store w) c = Some (<[c_presign c := p']> (w_presigns w), w_store w,
    match r with Ok _ => Claimed | Err m => Done (Err m) | Panic v => Done (Panic v) end)).
  { unfold call_step. rewrite Ep, Ea, Ec. destruct Ha as [[-> ->]| ->]; reflexivity. }
  exists p'. destruct r as [u|m|v]; cbn [rbind]; eexists; (split; [reflexivity|]); [|exact (step_to w i c _ _ _ Ei E)..].
  eapply reaches_trans; [exact (step_to w i c _ _ _ Ei E)|].
  apply claim_cases in Ec as [(_ & -> & _)|[_ Hr]]; [|now destruct (Hr u)].
  pose proof (step_to {| w_presigns := <[c_presign c := consume p]> (w_presigns w); w_store := w_store w;
    w_calls := <[i := at_position c Claimed]> (w_calls w) |} i (at_position c Claimed) (<[c_presign c := consume p]> (w_presigns w)) (w_store w)
    (Done (finish p (c_hash c) (c_tweak c) (c_sys c)))) as K. cbn [w_calls w_presigns w_store] in K.
  rewrite list_insert_insert_eq in K. apply K.
  - apply list_lookup_insert_eq. eapply lookup_lt_Some. exact Ei.
  - unfold call_step. cbn [at_position c_presign c_at]. rewrite lookup_insert_eq. reflexivity.
Qed.

Lemma call_run w i c p : w_calls w !! i = Some c -> c_at c = Begun -> w_presigns w !! c_presign c = Some p ->
  exists p' st' r, call_result c p (w_store w) = (Some p', st', r) /\
    reaches w {| w_presigns := <[c_presign c := p']> (w_presigns w); w_store := st'; w_calls := <[i := at_position c (Done r)]> (w_calls w) |}.
Proof.
  intros Ei Ea Ep. unfold call_result. destruct (c_durable c) eqn:Ed.
  2: { destruct (claim_run w i c p Begun Ei Ep Ea (or_introl (conj eq_refl Ed))) as (p' & r & -> & R). eauto 6. }
  unfold SignWithPresignDurable. destruct (durable_record p (c_hash c) (w_store w)) as [st r] eqn:Er.
  assert (E : call_step (w_presigns w) (w_store w) c = Some (w_presigns w, st,
    match r with Ok _ => Recorded | Err m => Done (Err m) | Panic v => Done (Panic v) end)).
  { unfold call_step. rewrite Ep, Ea, Ed, Er. reflexivity. }
  destruct r as [[]|m|v].
  2,3: do 3 eexists; (split; [reflexivity|]); rewrite (insert_id (w_presigns w)) by exact Ep; exact (step_to w i c _ _ _ Ei E).
  set (w1 := {| w_presigns := w_presigns w; w_store := st; w_calls := <[i := at_position c Recorded]> (w_calls w) |}).
  destruct (claim_run w1 i (at_position c Recorded) p Recorded) as (p' & r & E2 & R); [|exact Ep|reflexivity|now right|].
  - apply list_lookup_insert_eq. eapply lookup_lt_Some. exact Ei.
  - cbn [at_position c_hash c_tweak c_sys c_presign w1 w_presigns w_store w_calls] in E2, R. rewrite E2. do 3 eexists. split; [reflexivity|].
    eapply reaches_trans; [exact (step_to w i c _ _ _ Ei E)|]. rewrite list_insert_insert_eq in R. exact R.
Qed.
End World.

#[export] Instance InMemory_laws : StoreLaws (S := InMemoryPresignStore) (fun s g => g ∈ s).
Proof.
  constructor; cbn; unfold InMemory_CheckAndRecord; intros s g s' *.
  - destruct (bool_decide_reflect (g ∈ s)); intros [= <-]. split; [assumption|]. apply elem_of_union_l, elem_of_singleton. reflexivity.
  - destruct (bool_decide_reflect (g ∈ s)); intros [= <- _] Hg; [assumption|]. now apply elem_of_union_r.
Qed.
End Single.

(** ** What an output is worth *)
Section Functional.
Context `{HS : Hash} `{AL : AesLaws} `{CS : Curves} `{SL : Secp256k1Lib} `{EL : Ed25519Lib}.
Context {pt : Z -> Z * Z} {L : CurveLaws S256 pt false} {CT : CtCurve S256 pt false}.
Hypothesis Hneg : forall a, pt (- a) = (fst (pt a), (- snd (pt a)) mod cP S256).
Abbreviation q := (cN S256).
Abbreviation pnt := (mkpt S256 pt).

Lemma presign_mul_good kind ssid : good_mul (presign_mul kind ssid).
Proof. intros ka kb pa pb r s alpha beta EA EB M. unfold presign_mul. rewrite EA, EB. now apply run_mul_ok. Qed.

(** Every party adds the tweak times its own mask. *)
Lemma late_tweak_adjusts tweak : adjusts (late_tweak tweak)
  (fun rho x => match tweak with Some t => (t mod q * rho + x) mod q | None => x end) (tweak_of tweak).
Proof.
  pose proof (prime_gt_1 q cl_prime) as Q1. intros rho x. destruct tweak as [t|]; cbn [late_tweak tweak_of].
  - rewrite Mod_ok by lia. cbn [rbind]. rewrite ct_muladd. split; [reflexivity|]. rewrite cong_mod.
    rewrite (cong_mod q t). apply cong_eq. ring.
  - split; [reflexivity|]. apply cong_eq. ring.
Qed.

(** An output of signers that drew [prs], under the secret [x]. *)
Record presigned (x : Z) (prs : list (Z * Z)) (p : PresignOutput) : Prop := {
  pr_pub : po_Pub p = Some (pnt x);
  pr_R : po_R p = pnt (zsum (map fst prs));
  pr_r : po_r p = fst (pt (zsum (map fst prs))) mod q;
  pr_r_range : 0 < po_r p < q;
  pr_K : zsum (map fst prs) mod q <> 0;
  pr_rho : map pp_rho (po_parties p) = map snd prs;
  pr_phi : cong q (zsum (map pp_kRhoShare (po_parties p))) (zsum (map fst prs) * zsum (map snd prs));
  pr_sigma : cong q (zsum (map pp_sigma (po_parties p))) (x * zsum (map snd prs));
  pr_fresh : po_aggregated p = true /\ po_consumed p = false
}.

Lemma presigned_parties (rho xR kR : list Z) : length xR = length rho -> length kR = length rho ->
  let ps := map (fun '(rho, (sigma, kr)) => {| pp_rho := rho; pp_sigma := sigma; pp_kRhoShare := kr |}) (combine rho (combine xR kR)) in
  map pp_rho ps = rho /\ map pp_sigma ps = xR /\ map pp_kRhoShare ps = kR.
Proof.
  revert xR kR. induction rho as [|r rho IH]; intros [|x xR] [|k kR] Hx Hk; try discriminate; [auto|].
  cbn in Hx, Hk. destruct (IH xR kR) as (E1 & E2 & E3); [lia|lia|]. cbn [combine map pp_rho pp_sigma pp_kRhoShare].
  repeat split; f_equal; assumption.
Qed.

Lemma Presign_run h keys ids cs signerIdx (rd nonce rd1 : reader) draws rd2 : consistent (pt := pt) h keys ids cs ->
  keys <> [] -> cs <> [] -> length signerIdx = length cs -> Forall (fun i => 0 <= i < Z.of_nat (length keys)) signerIdx ->
  NoDup signerIdx -> Forall is_byte rd -> ReadFull 16 rd = Ok (nonce, rd1) -> rmapM (fun _ => draw_nonce) signerIdx rd1 = Ok (draws, rd2) ->
  exists prs, draws = map (nonce_of (pt := pt)) prs /\
  ((exists p, Presign h keys signerIdx rd = Ok (p, rd2) /\ presigned (peval cs 0) prs p) \/
   (exists e, Presign h keys signerIdx rd = Err e /\ forall x hash, degenerate (pt := pt) presign_texts prs x hash e)).
Proof.
  intros CK Hk Hc Hl Fi Nd Frd En Ed.
  destruct (start_ok (L := L) (CT := CT) Hneg presign_texts h keys ids cs signerIdx CK Hk Hc Hl Fi Nd None None rd nonce rd1 draws rd2
    ltac:(discriminate) Frd En Ed) as (prs & Edr & [(st & ES & S & Cx)|(e & ES & D)]); exists prs; (split; [exact Edr|]);
    unfold Presign; rewrite ES; cbn [rbind]; [left|right; eauto]. cbv zeta.
  set (ssid := str _ ++ st_nonce st). assert (Ln : length prs = length (st_rho st)) by now rewrite (so_rho _ _ _ _ S), length_map.
  destruct (started_cross (L := L) (CT := CT) presign_texts (presign_mul "k" ssid) (presign_mul "x" ssid) _ _ _ _ S (presign_mul_good _ _) (presign_mul_good _ _))
    as (kR & xR & -> & L1 & L2 & C1 & C2). cbn [rbind]. eexists. split; [reflexivity|].
  destruct (presigned_parties (st_rho st) xR kR ltac:(lia) ltac:(lia)) as (E1 & E2 & E3).
  destruct S as [Ep _ ER Er Rr HK _ Erho _ _ _].
  constructor; cbn [po_Pub po_R po_r po_parties po_aggregated po_consumed]; rewrite ?E1, ?E2, ?E3; auto.
  rewrite C2, Cx. apply cong_eq. cbn [tweak_of]. ring.
Qed.

Lemma finish_run x prs p (hash : bytes) tweak (sys : reader) : 2 < q -> Z.odd (cP S256) = true -> presigned x prs p ->
  Forall is_byte hash -> Forall is_byte sys -> ct_healthy sys ->
  (exists sg sys', finish p hash tweak sys = Ok (sg, sys') /\ good_signature (pt := pt) (x + tweak_of tweak) hash sg) \/
  (exists e, finish p hash tweak sys = Err e /\ degenerate (pt := pt) presign_texts prs (x + tweak_of tweak) hash e).
Proof.
  intros Q2 Hodd [Ep ER Er Rr HK Erho Cphi Csig _] Hb Fs Hh. unfold finish. rewrite Ep, ER, Erho. rewrite Er in *.
  apply (finish_ok (L := L) (CT := CT) Hneg presign_texts (late_tweak tweak) _ (tweak_of tweak) x prs tweak hash _ _ x sys Q2 Hodd Rr HK (late_tweak_adjusts tweak));
    try assumption; [|reflexivity].
  apply (f_equal (length (A := Z))) in Erho. rewrite !length_map in *. assumption.
Qed.
End Functional.

(** ** Properties *)
Section Properties.
Context `{HS : Hash} `{AL : AesLaws} `{CS : Curves} `{SL : Secp256k1Lib} `{EL : Ed25519Lib}.
Context {pt : Z -> Z * Z} {L : CurveLaws S256 pt false} {CT : CtCurve S256 pt false}.
Abbreviation q := (cN S256).

(** C5. Single use in memory.  Any number of goroutines call [SignWithPresign] and
    [SignWithPresignDurable] on shared outputs, with any digests and tweaks, and
    the scheduler interleaves their steps in any order: at most one call per output
    returns a signature, and none if the output was consumed before. *)
Theorem presign_once {S : Type} `{Store : UsedPresignStore S} (w0 w : World (S := S)) r
  (F : fresh_calls w0) (R : reaches w0 w) :
  (count (fun c => (c_presign c =? r)%nat && signed c) (w_calls w) + b2n (flag (w_presigns w0) r) <= 1)%nat.
Proof.
  pose proof (reaches_claimed_once w0 w F R r) as K.
  assert (K' : (count (fun c => (c_presign c =? r)%nat && signed c) (w_calls w) <= count (live_on r) (w_calls w))%nat).
  { apply count_le. intros c. unfold live_on, live, signed. destruct (c_presign c =? r)%nat; [|discriminate]. now destruct (c_at c). }
  destruct (flag (w_presigns w) r); cbn [b2n] in K; lia.
Qed.

(** C6. Single use across restarts.  The store answers [true] for a hash once, and
    never forgets one.  Calls of [SignWithPresignDurable], on outputs of which some
    may be copies of others with their flags reset, return in any interleaving at
    most one signature per nonce hash, and none for a hash stored before. *)
Theorem presign_store_once {S : Type} `{Store : UsedPresignStore S} (seen : S -> bytes -> Prop) {SLaws : StoreLaws seen}
  (w0 w : World (S := S)) g (F : fresh_calls w0) (D : Forall (fun c => c_durable c = true) (w_calls w0)) (R : reaches w0 w) :
  let n := count (fun c => has_hash w0 g c && signed c) (w_calls w) in
  (n <= 1)%nat /\ (in_store seen (w_store w0) g -> n = 0%nat).
Proof.
  destruct (reaches_stored seen w0 w F D R) as [_ _ _ I]. destruct (I g) as [I1 I2]. cbv zeta.
  assert (K : (count (fun c => has_hash w0 g c && signed c) (w_calls w) <= count (holding_hash w0 g) (w_calls w))%nat).
  { apply count_le. intros c. unfold holding_hash, holding, signed. destruct (has_hash w0 g c); [|discriminate]. now destruct (c_at c). }
  split; [lia|]. intros Hg. specialize (I2 (or_intror Hg)). lia.
Qed.


(** C9. Presigning.  Over consistent keys, [Presign] returns an unused output or asks
    for fresh randomness, and the output then signs any non-empty digest under any
    tweak with the outcome described by [good_signature] and [degenerate]; signing
    leaves it consumed, and a consumed output is refused. *)
Theorem Presign_Sign_correct h keys ids cs signerIdx (rd nonce rd1 : reader) draws rd2
  (Hneg : forall a, pt (- a) = (fst (pt a), (- snd (pt a)) mod cP S256)) (Q2 : 2 < q) (Hodd : Z.odd (cP S256) = true)
  (CK : consistent (pt := pt) h keys ids cs) (Hk : keys <> []) (Hc : cs <> []) (Hl : length signerIdx = length cs)
  (Fi : Forall (fun i => 0 <= i < Z.of_nat (length keys)) signerIdx) (Nd : NoDup signerIdx) (Frd : Forall is_byte rd)
  (En : ReadFull 16 rd = Ok (nonce, rd1)) (Ed : rmapM (fun _ => draw_nonce) signerIdx rd1 = Ok (draws, rd2)) :
  exists prs, draws = map (nonce_of (pt := pt)) prs /\
  ((exists p, Presign h keys signerIdx rd = Ok (p, rd2) /\ Consumed p = false /\
      forall (hash : bytes) tweak (sys : reader), hash <> [] -> Forall is_byte hash -> Forall is_byte sys -> ct_healthy sys ->
      exists r, SignWithPresign (Some p) hash tweak sys = (Some (consume p), r) /\
        ((exists sg sys', r = Ok (sg, sys') /\ good_signature (pt := pt) (peval cs 0 + tweak_of tweak) hash sg) \/
         (exists e, r = Err e /\ degenerate (pt := pt) presign_texts prs (peval cs 0 + tweak_of tweak) hash e)) /\
        forall (hash' : bytes) tweak' sys', hash' <> [] ->
          SignWithPresign (Some (consume p)) hash' tweak' sys' = (Some (consume p), Err ErrPresignAlreadyConsumed)) \/
   (exists e, Presign h keys signerIdx rd = Err e /\ forall x hash, degenerate (pt := pt) presign_texts prs x hash e)).
Proof.
  destruct (Presign_run (L := L) (CT := CT) Hneg h keys ids cs signerIdx rd nonce rd1 draws rd2 CK Hk Hc Hl Fi Nd Frd En Ed)
    as (prs & Edr & [(p & EP & Pp)|E]); exists prs; (split; [exact Edr|]); [left|right; exact E].
  destruct (pr_fresh _ _ _ Pp) as [Pa Pc]. exists p. split; [exact EP|]. split; [exact Pc|]. intros hash tweak sys Hh Hb Fs Hhe.
  assert (Z1 : forall b : bytes, b <> [] -> (length b =? 0)%nat = false) by (intros [|]; [contradiction|reflexivity]).
  exists (finish (consume p) hash tweak sys). split; [|split].
  - unfold SignWithPresign, claim. now rewrite (Z1 hash Hh), Pa, Pc.
  - exact (finish_run (L := L) (CT := CT) Hneg _ prs p hash tweak sys Q2 Hodd Pp Hb Fs Hhe).
  - intros hash' tweak' sys' Hh'. unfold SignWithPresign, claim. rewrite (Z1 hash' Hh'). cbn [consume po_aggregated po_consumed]. now rewrite Pa.
Qed.
End Properties.


(** An output of two signers over such keys, and a signature from it. *)
Lemma w_presigned : exists x p sg sys', @presigned toy_curves toy256_pt x [(11, 6); (13, 9)] p /\
  @finish toy_curves toy_secp toy_ed p [201; 3] (Some 4) (repeat 1 40) = Ok (sg, sys').
Proof.
  destruct w_consistent as (keys & ids & cs & CK & Hk & Hc & Lc & Lk & Cx).
  destruct (@Presign_run toy_hash toy_aes toy_aes_laws toy_curves toy_secp toy_ed toy256_pt toy256_laws toy256_ct toy_neg w_kheap keys ids cs [1; 0]
    w_sign_rng (repeat 9 16) w_draws w_ndraws [] CK Hk Hc (eq_sym Lc) ltac:(rewrite Lk; exact w_signers_range) w_signers_nodup w_sign_byte eq_refl w_draws_run)
    as (prs & Ed & [(p & EP & Pp)|(e & _ & D)]); apply w_prs in Ed; subst prs.
  2: destruct (w_not_degenerate _ 8 e ltac:(reflexivity) (D (8 + 4) [201; 3])).
  destruct (@finish_run toy_curves toy_secp toy_ed toy256_pt toy256_laws toy256_ct toy_neg _ _ p [201; 3] (Some 4) (repeat 1 40)
    eq_refl eq_refl Pp w_hash_byte (ones_byte _) (toy_healthy 40 (le_n 40))) as [(sg & sys' & E & _)|(e & _ & D)].
  - exists (peval cs 0), p, sg, sys'. split; [exact Pp|exact E].
  - destruct (w_not_degenerate _ _ e Cx D).
Qed.

Lemma Presign_Sign_correct_witness : exists keys p sg sys' x, cong 31 x 8 /\
  @Presign toy_hash toy_aes toy_curves toy_secp toy_ed w_kheap keys [1; 0] w_sign_rng = Ok (p, []) /\
  @SignWithPresign toy_curves toy_secp toy_ed (Some p) [201; 3] (Some 4) (repeat 1 40) = (Some (consume p), Ok (sg, sys')) /\
  @good_signature toy_curves toy256_pt (x + 4) [201; 3] sg /\
  @SignWithPresign toy_curves toy_secp toy_ed (Some (consume p)) [201; 4] None (repeat 1 40) = (Some (consume p), Err ErrPresignAlreadyConsumed).
Proof.
  destruct w_consistent as (keys & ids & cs & CK & Hk & Hc & Lc & Lk & Cx).
  destruct (@Presign_Sign_correct toy_hash toy_aes toy_aes_laws toy_curves toy_secp toy_ed toy256_pt toy256_laws toy256_ct w_kheap keys ids cs [1; 0]
    w_sign_rng (repeat 9 16) w_draws w_ndraws [] toy_neg eq_refl eq_refl CK Hk Hc (eq_sym Lc) ltac:(rewrite Lk; exact w_signers_range) w_signers_nodup w_sign_byte eq_refl w_draws_run)
    as (prs & Ed & [(p & EP & _ & K)|(e & _ & D)]); apply w_prs in Ed; subst prs.
  2: destruct (w_not_degenerate _ 8 e ltac:(reflexivity) (D (8 + 4) [201; 3])).
  destruct (K [201; 3] (Some 4) (repeat 1 40) w_hash_nonempty w_hash_byte (ones_byte _) (toy_healthy 40 (le_n 40)))
    as (r & ES & [(sg & sys' & -> & G)|(e & _ & D)] & KC).
  - exists keys, p, sg, sys', (peval cs 0). split; [exact Cx|]. split; [exact EP|]. split; [exact ES|]. split; [exact G|].
    apply KC. discriminate.
  - destruct (w_not_degenerate _ _ e Cx D).
Defined.

(** Two calls that race for one output: the second claim comes between the two steps
    of the first call. *)
Definition w_call (r : ref) (durable : bool) (a : position) : Call :=
  {| c_presign := r; c_durable := durable; c_hash := [201; 3]; c_tweak := Some 4; c_sys := repeat 1 40; c_at := a |}.
Abbreviation store0 := (Some NewInMemoryPresignStore).
Definition w_world (ps : gmap ref PresignOutput) (st : option InMemoryPresignStore) (calls : list Call) : World :=
  {| w_presigns := ps; w_store := st; w_calls := calls |}.
Abbreviation w_reaches := (@reaches toy_hash toy_curves toy_secp toy_ed InMemoryPresignStore InMemory_store).

Lemma w_step w0 w i c ps st a : w_reaches w0 w -> w_calls w !! i = Some c ->
  @call_step toy_hash toy_curves toy_secp toy_ed _ InMemory_store (w_presigns w) (w_store w) c = Some (ps, st, a) ->
  w_reaches w0 (w_world ps st (<[i := at_position c a]> (w_calls w))).
Proof. intros R Ei E. eapply reaches_step; [exact R|]. eapply world_call; eassumption. Qed.

Lemma w_claim p : po_aggregated p = true -> po_consumed p = false -> claim p [201; 3] = (consume p, Ok tt).
Proof. intros Pa Pc. unfold claim. now rewrite Pa, Pc. Qed.
Lemma w_claim_again p : po_aggregated p = true -> claim (consume p) [201; 3] = (consume p, Err ErrPresignAlreadyConsumed).
Proof. intros Pa. unfold claim. cbn [consume po_aggregated po_consumed]. now rewrite Pa. Qed.

Ltac run_call := unfold call_step; cbn [w_presigns w_store w_world c_presign c_at c_durable c_hash c_tweak c_sys w_call at_position].

Lemma presign_once_witness : exists p sg sys', po_consumed p = false /\
  let w0 := w_world {[0%nat := p]} store0 [w_call 0 false Begun; w_call 0 false Begun] in
  let w := w_world {[0%nat := consume p]} store0 [w_call 0 false (Done (Ok (sg, sys'))); w_call 0 false (Done (Err ErrPresignAlreadyConsumed))] in
  w_reaches w0 w /\ (count (fun c => (c_presign c =? 0)%nat && signed c) (w_calls w) + b2n (flag (w_presigns w0) 0%nat) <= 1)%nat.
Proof.
  destruct w_presigned as (x & p & sg & sys' & Pp & EF). destruct (pr_fresh _ _ _ Pp) as [Pa Pc]. exists p, sg, sys'. split; [exact Pc|]. cbv zeta.
  set (w0 := w_world {[0%nat := p]} store0 [w_call 0 false Begun; w_call 0 false Begun]). assert (R0 : w_reaches w0 w0) by apply reaches_refl.
  assert (R1 : w_reaches w0 (w_world {[0%nat := consume p]} store0 [w_call 0 false Claimed; w_call 0 false Begun])).
  { refine (w_step w0 w0 0 (w_call 0 false Begun) _ _ _ R0 eq_refl _). unfold w0. run_call.
    now rewrite lookup_singleton_eq, (w_claim p Pa Pc), insert_singleton_eq. }
  assert (R2 : w_reaches w0 (w_world {[0%nat := consume p]} store0 [w_call 0 false Claimed; w_call 0 false (Done (Err ErrPresignAlreadyConsumed))])).
  { refine (w_step w0 _ 1 (w_call 0 false Begun) _ _ _ R1 eq_refl _). run_call.
    now rewrite lookup_singleton_eq, (w_claim_again p Pa), insert_singleton_eq. }
  match goal with |- w_reaches w0 ?w /\ _ => assert (R3 : w_reaches w0 w) end.
  { refine (w_step w0 _ 0 (w_call 0 false Claimed) _ _ _ R2 eq_refl _). run_call. rewrite lookup_singleton_eq.
    change (finish (consume p)) with (finish p). now rewrite EF. }
  split; [exact R3|]. apply (presign_once w0 _ 0%nat); [|exact R3]. repeat constructor.
Defined.

Lemma w_hash x p : @presigned toy_curves toy256_pt x [(11, 6); (13, 9)] p -> exists g, @RHash toy_hash p = Ok g.
Proof. intros Pp. unfold RHash. rewrite (pr_R _ _ _ Pp). eexists. vm_compute. reflexivity. Qed.

(** Two copies of one output, the second restored after a restart. *)
Lemma presign_store_once_witness : exists p g sg sys', po_consumed p = false /\ @RHash toy_hash p = Ok g /\
  let w0 := w_world (<[1%nat := p]> {[0%nat := p]}) store0 [w_call 0 true Begun; w_call 1 true Begun] in
  let w := w_world (<[0%nat := consume p]> (<[1%nat := p]> {[0%nat := p]})) (Some ({[g]} ∪ NewInMemoryPresignStore))
    [w_call 0 true (Done (Ok (sg, sys'))); w_call 1 true (Done (Err ErrPresignAlreadyConsumed))] in
  w_reaches w0 w /\ (count (fun c => @has_hash toy_hash _ w0 g c && signed c) (w_calls w) <= 1)%nat.
Proof.
  destruct w_presigned as (x & p & sg & sys' & Pp & EF). destruct (pr_fresh _ _ _ Pp) as [Pa Pc]. destruct (w_hash x p Pp) as [g Eg].
  exists p, g, sg, sys'. split; [exact Pc|]. split; [exact Eg|]. cbv zeta.
  set (ps := <[1%nat := p]> {[0%nat := p]} : gmap ref PresignOutput). set (st := {[g]} ∪ NewInMemoryPresignStore).
  set (w0 := w_world ps store0 [w_call 0 true Begun; w_call 1 true Begun]). assert (R0 : w_reaches w0 w0) by apply reaches_refl.
  assert (E0 : ps !! 0%nat = Some p) by reflexivity. assert (E1 : ps !! 1%nat = Some p) by reflexivity.
  assert (R1 : w_reaches w0 (w_world ps (Some st) [w_call 0 true Recorded; w_call 1 true Begun])).
  { refine (w_step w0 w0 0 (w_call 0 true Begun) _ _ _ R0 eq_refl _). unfold w0. run_call. rewrite E0. unfold durable_record. rewrite Pa, Eg.
    cbn [CheckAndRecord InMemory_store negb length Nat.eqb]. unfold InMemory_CheckAndRecord.
    rewrite bool_decide_eq_false_2 by apply not_elem_of_empty. reflexivity. }
  assert (R2 : w_reaches w0 (w_world ps (Some st) [w_call 0 true Recorded; w_call 1 true (Done (Err ErrPresignAlreadyConsumed))])).
  { refine (w_step w0 _ 1 (w_call 1 true Begun) _ _ _ R1 eq_refl _). run_call. rewrite E1. unfold durable_record. rewrite Pa, Eg.
    cbn [CheckAndRecord InMemory_store negb length Nat.eqb]. unfold InMemory_CheckAndRecord.
    rewrite bool_decide_eq_true_2 by (apply elem_of_union_l, elem_of_singleton; reflexivity). reflexivity. }
  assert (R3 : w_reaches w0 (w_world (<[0%nat := consume p]> ps) (Some st) [w_call 0 true Claimed; w_call 1 true (Done (Err ErrPresignAlreadyConsumed))])).
  { refine (w_step w0 _ 0 (w_call 0 true Recorded) _ _ _ R2 eq_refl _). run_call. now rewrite E0, (w_claim p Pa Pc). }
  match goal with |- w_reaches w0 ?w /\ _ => assert (R4 : w_reaches w0 w) end.
  { refine (w_step w0 _ 0 (w_call 0 true Claimed) _ _ _ R3 eq_refl _). run_call. rewrite lookup_insert_eq.
    change (finish (consume p)) with (finish p). now rewrite EF. }
  split; [exact R4|]. apply (presign_store_once (fun s g => g ∈ s) w0 _ g); [repeat constructor|repeat constructor|exact R4].
Defined.

