(* ===== verification/DklsChecked.v ===== *)
(** * Package [dklstss]: signing with checked multiplications

    [signing_checked.go]: [SignChecked] and [SignCheckedWithTweak] over
    [signCheckedCore].  The rounds are those of [signing.go] with every
    multiplication run twice and compared; a comparison that fails is returned as a
    [tss.Error] that names the party on the other side, so the outcome of a step is
    a sum of such an error and of a value, under the plain errors. *)
From stdpp Require Import base gmap list.
From Stdlib Require Import ZArith String List Lia Bool Arith.
From S2P Require Import Prelude GoBig Common Curve CtMul Field Schnorr Bits OtExt OtExtCorrect Ole Party.
From S2P Require Import BaseOt Dkls DklsSetup DklsSign DklsSignCorrect DklsKeygen.
Import ListNotations.
Open Scope string_scope.
Open Scope Z_scope.
Open Scope list_scope.

Definition checked_texts : Texts := {|
  t_keys := "dklstss: SignChecked requires at least one key";
  t_count := "dklstss: SignChecked requires T+1=%d signers, got %d";
  t_range := "dklstss: SignChecked signerIdx %d out of range";
  t_dup := "dklstss: SignChecked duplicate signerIdx %d";
  t_hash := "dklstss: SignChecked hash must be non-empty";
  t_key := "dklstss: SignChecked key %d inconsistent";
  t_lagrange := "dklstss: SignChecked lagrange";
  t_ssid := "dklstss: SignChecked ssid";
  t_agg := "dklstss: SignChecked R aggregation";
  t_r0 := "dklstss: SignChecked R.X is 0 mod q; retry";
  t_ot := "dklstss: SignChecked missing OT state between %d and %d";
  t_phi := "dklstss: SignChecked φ is 0; retry";
  t_inv := "dklstss: SignChecked φ has no inverse";
  t_s0 := "dklstss: SignChecked produced s=0; retry"
|}.

Section Defs.
Context `{HS : Hash} `{AE : Aes} `{CS : Curves} `{SL : Secp256k1Lib} `{EL : Ed25519Lib}.

Definition runCheckedMul (sid : bytes) (aliceReceiver : option ExtReceiver) (bobSender : option ExtSender) (alpha beta : Z)
    (shares : list Z) (ai bj : nat) (bobPartyID : ref) : res (Error + list Z) :=
  let! (msg1, msg2, state) := rewrap "dklstss: SignChecked ΠMul Alice1" (CheckedAliceStep1 sid aliceReceiver (Some alpha)) in
  let! (bMsg, uB) := rewrap "dklstss: SignChecked ΠMul Bob" (CheckedBobStep1 sid bobSender (Some beta) (Some msg1) (Some msg2)) in
  match CheckedAliceStep2 (Some state) (Some bMsg) with
  | Ok uA => let! shares := add_shares (cN S256) shares ai bj uA uB in Ok (inr shares)
  | Err err => Ok (inl (NewError err "dklstss-sign-checked" 0 None [bobPartyID]))
  | Panic w => Panic w
  end.

(** The early return of a step that blames. *)
Definition or_blame {A B} (r : res (Error + A)) (f : A -> res (Error + B)) : res (Error + B) :=
  let! r := r in match r with inl e => Ok (inl e) | inr a => f a end.

(** Both multiplications of the ordered pair [(ai, bj)]. *)
Definition checked_pair (ssid : bytes) (signers : list Key) (k rho sx : list Z) (st : list Z * list Z) (ab : nat * nat)
  : res (Error + (list Z * list Z)) :=
  let '(kRho, xRho) := st in
  let '(ai, bj) := ab in
  if (ai =? bj)%nat then Ok (inr st)
  else
    let! aliceKey := idx signers ai in
    let! bobKey := idx signers bj in
    let! alicePair := idxZ (kOT aliceKey) (kIdx bobKey) in
    let! bobPair := idxZ (kOT bobKey) (kIdx aliceKey) in
    match alicePair, bobPair with
    | Some alicePair, Some bobPair =>
      let! bobPID := idxZ (kPartyIDs bobKey) (kIdx bobKey) in
      let! ka := idx k ai in
      let! rb := idx rho bj in
      let! xa := idx sx ai in
      or_blame (runCheckedMul (makeSid ssid "signchecked-kxrho" (kIdx aliceKey) (kIdx bobKey)) (AsAlice alicePair) (AsBob bobPair)
        ka rb kRho ai bj bobPID) (fun kRho =>
      or_blame (runCheckedMul (makeSid ssid "signchecked-xxrho" (kIdx aliceKey) (kIdx bobKey)) (AsAlice alicePair) (AsBob bobPair)
        xa rb xRho ai bj bobPID) (fun xRho =>
      Ok (inr (kRho, xRho))))
    | _, _ => Err (t_ot checked_texts)
    end.

(** A loop over a list whose steps may blame. *)
Fixpoint foldE {A B} (f : A -> B -> res (Error + A)) (a : A) (l : list B) : res (Error + A) :=
  match l with
  | [] => Ok (inr a)
  | b :: l => or_blame (f a b) (fun a => foldE f a l)
  end.

Definition checked_cross_terms (ssid : bytes) (signers : list Key) (k rho sx : list Z) : res (Error + (list Z * list Z)) :=
  let sgn := length signers in
  let! kRho := mapM (fun '(a, b) => CTScalarMulAddModN S256 a b 0) (combine k rho) in
  let! xRho := mapM (fun '(a, b) => CTScalarMulAddModN S256 a b 0) (combine sx rho) in
  foldE (fun st ai => foldE (fun st bj => checked_pair ssid signers k rho sx st (ai, bj)) st (seq 0 sgn)) (kRho, xRho) (seq 0 sgn).

Definition checked_ssid (nonce hash : bytes) : bytes := str "DKLS23-signchecked-v1-" ++ nonce ++ [124] ++ hash.

Definition signCheckedCore (h : Heap) (keys : list (option Key)) (signerIdx : list Z) (tweak : option Z) (hash : bytes)
    (rng : option reader) (sys : reader) : res (Error + (Signature * option reader * reader)) :=
  let rd := match rng with Some r => r | None => sys end in
  let! (st, rd) := start_signing checked_texts h keys signerIdx tweak (Some hash) rd in
  let (rng, sys) := match rng with Some _ => (Some rd, sys) | None => (None, rd) end in
  or_blame (checked_cross_terms (checked_ssid (st_nonce st) hash) (st_signers st) (st_k st) (st_rho st) (st_sx st)) (fun '(kRho, xRho) =>
  let! (sg, sys) := finish_signing checked_texts (fun _ x => Ok x) (st_pub st) tweak hash (st_R st) (st_r st) (st_rho st) kRho xRho sys in
  Ok (inr (sg, rng, sys))).

Definition SignChecked (h : Heap) (keys : list (option Key)) (signerIdx : list Z) (hash : bytes) (rng : option reader) (sys : reader) :=
  signCheckedCore h keys signerIdx None hash rng sys.
Definition SignCheckedWithTweak (h : Heap) (keys : list (option Key)) (signerIdx : list Z) (tweak : option Z) (hash : bytes)
    (rng : option reader) (sys : reader) :=
  signCheckedCore h keys signerIdx tweak hash rng sys.
End Defs.

(** ** Loops *)
Lemma or_blame_ok {A B} (r : res (Error + A)) (f : A -> res (Error + B)) x : or_blame r f = Ok x ->
  (exists e, r = Ok (inl e) /\ x = inl e) \/ (exists a, r = Ok (inr a) /\ f a = Ok x).
Proof. unfold or_blame. intros E. apply rbind_ok in E as ([e|a] & -> & E); [left|right; eauto]. injection E as <-. eauto. Qed.

Lemma foldE_sim {A B} (f : A -> B -> res A) g l : (forall a b a', f a b = Ok a' -> g a b = Ok (inr a')) ->
  forall a a', foldM f a l = Ok a' -> foldE g a l = Ok (inr a').
Proof.
  intros Hfg. induction l as [|b l IH]; intros a a' E; cbn [foldM foldE] in *; [now injection E as <-|].
  apply rbind_ok in E as (a1 & E1 & E). unfold or_blame. rewrite (Hfg _ _ _ E1). cbn [rbind]. auto.
Qed.

Lemma foldE_blame {A B} (f : A -> B -> res (Error + A)) l e : forall a, foldE f a l = Ok (inl e) ->
  exists a' b, In b l /\ f a' b = Ok (inl e).
Proof.
  induction l as [|b l IH]; intros a E; cbn [foldE] in E; [discriminate|].
  apply or_blame_ok in E as [(e' & E & [= <-])|(a' & _ & E)]; [exists a, b; cbn; auto|].
  destruct (IH a' E) as (a2 & b2 & Hb & E2). exists a2, b2. cbn. auto.
Qed.

Section Checked.
Context `{HS : Hash} `{AL : AesLaws} `{CS : Curves} `{SL : Secp256k1Lib} `{EL : Ed25519Lib}.
Context {pt : Z -> Z * Z} {L : CurveLaws S256 pt false} {CT : CtCurve S256 pt false}.
Hypothesis Hneg : forall a, pt (- a) = (fst (pt a), (- snd (pt a)) mod cP S256).
Abbreviation q := (cN S256).
Abbreviation pnt := (mkpt S256 pt).

(** ** Honest runs *)
(** The checked multiplication as one that cannot blame, and that it is right on
    matching states. *)
Definition honest_mul (kind : string) (ssid : bytes) : pair_mul := fun aliceKey bobKey alicePair bobPair alpha beta =>
  let! (msg1, msg2, state) := CheckedAliceStep1 (makeSid ssid kind (kIdx aliceKey) (kIdx bobKey)) (AsAlice alicePair) (Some alpha) in
  let! (bMsg, uB) := CheckedBobStep1 (makeSid ssid kind (kIdx aliceKey) (kIdx bobKey)) (AsBob bobPair) (Some beta) (Some msg1) (Some msg2) in
  let! uA := CheckedAliceStep2 (Some state) (Some bMsg) in
  Ok (uA, uB).

Lemma order_256 : 0 < q < 2 ^ 256.
Proof. pose proof (prime_gt_1 q cl_prime). pose proof cl_N. split; [lia|]. apply cl_N. Qed.

Lemma honest_mul_good kind ssid : good_mul (honest_mul kind ssid).
Proof.
  intros ka kb pa pb r s alpha beta EA EB M. unfold honest_mul. rewrite EA, EB.
  destruct (checked_run order_256 r s (makeSid ssid kind (kIdx ka) (kIdx kb)) alpha beta M) as (m1 & m2 & st & bm & uA & uB & -> & E2 & E3 & C).
  cbn [rbind]. rewrite E2. cbn [rbind]. rewrite E3. cbn [rbind]. eauto.
Qed.

Lemma runCheckedMul_sim kind ssid ka kb pa pb alpha beta uA uB shares ai bj pid shares' :
  honest_mul kind ssid ka kb pa pb alpha beta = Ok (uA, uB) -> add_shares q shares ai bj uA uB = Ok shares' ->
  runCheckedMul (makeSid ssid kind (kIdx ka) (kIdx kb)) (AsAlice pa) (AsBob pb) alpha beta shares ai bj pid = Ok (inr shares').
Proof.
  unfold honest_mul, runCheckedMul. intros E Es. apply rbind_ok in E as ([[m1 m2] st] & -> & E). cbn [rewrap rbind].
  apply rbind_ok in E as ([bm u] & -> & E). cbn [rewrap rbind]. apply rbind_ok in E as (u' & -> & E). injection E as -> ->.
  now rewrite Es.
Qed.

(** A pair on which the multiplications are honest. *)
Lemma checked_pair_sim tx ssid signers k rho sx st ab st' :
  Forall (fun k => exists pid, idxZ (kPartyIDs k) (kIdx k) = Ok pid) signers ->
  mul_pair tx (honest_mul "signchecked-kxrho" ssid) (honest_mul "signchecked-xxrho" ssid) q signers k rho sx st ab = Ok st' ->
  checked_pair ssid signers k rho sx st ab = Ok (inr st').
Proof.
  destruct st as [kR xR], ab as [ai bj]. intros F E. unfold mul_pair in E. unfold checked_pair.
  destruct (ai =? bj)%nat; [now injection E as <-|].
  apply rbind_ok in E as (ka & -> & E). apply rbind_ok in E as (kb & Eb & E). rewrite Eb. cbn [rbind].
  apply rbind_ok in E as (pa & -> & E). apply rbind_ok in E as (pb & -> & E). cbn [rbind]. destruct pa as [pa|], pb as [pb|]; try discriminate.
  apply rbind_ok in E as (a & -> & E). apply rbind_ok in E as (b & -> & E). apply rbind_ok in E as (xa & -> & E).
  apply rbind_ok in E as ([uA uB] & Em & E). apply rbind_ok in E as (kR' & Ea & E).
  apply rbind_ok in E as ([vA vB] & Emx & E). apply rbind_ok in E as (xR' & Eax & E). injection E as <-.
  apply idx_ok, nth_error_In in Eb. rewrite List.Forall_forall in F. destruct (F kb Eb) as (pid & ->). cbn [rbind].
  rewrite (runCheckedMul_sim _ _ _ _ _ _ _ _ _ _ _ _ _ pid _ Em Ea). cbn [or_blame rbind].
  rewrite (runCheckedMul_sim _ _ _ _ _ _ _ _ _ _ _ _ _ pid _ Emx Eax). reflexivity.
Qed.

Lemma checked_cross_sim tx ssid signers k rho sx st' :
  Forall (fun k => exists pid, idxZ (kPartyIDs k) (kIdx k) = Ok pid) signers ->
  cross_terms tx (honest_mul "signchecked-kxrho" ssid) (honest_mul "signchecked-xxrho" ssid) q signers k rho sx = Ok st' ->
  checked_cross_terms ssid signers k rho sx = Ok (inr st').
Proof.
  intros F E. unfold cross_terms in E. unfold checked_cross_terms. apply rbind_ok in E as (dk & -> & E).
  apply rbind_ok in E as (dx & -> & E). cbn [rbind]. revert E. apply foldE_sim. intros st ai st1. apply foldE_sim.
  intros st2 bj st3. now apply checked_pair_sim.
Qed.

(** ** The signers of a run *)
Lemma insert_signer_inv h k l : forall l', insert_signer h k l = Ok l' -> forall x, In x l' -> x = k \/ In x l.
Proof.
  induction l as [|y l IH]; intros l' E x Hx; cbn [insert_signer] in E; [injection E as <-; destruct Hx as [<-|[]]; auto|].
  apply rbind_ok in E as (a & _ & E). apply rbind_ok in E as (b & _ & E). destruct (Cmp a b =? -1).
  - injection E as <-. destruct Hx as [<-|Hx]; auto.
  - apply rbind_ok in E as (l2 & E2 & E). injection E as <-. destruct Hx as [<-|Hx]; [right; now left|].
    destruct (IH _ E2 x Hx); [auto|right; now right].
Qed.

Lemma sortSignersByID_inv h l l' : sortSignersByID h l = Ok l' -> forall x, In x l' -> In x l.
Proof.
  unfold sortSignersByID. intros E x Hx.
  assert (K : forall acc, foldM (fun sorted k => insert_signer h k sorted) acc l = Ok l' -> In x l \/ In x acc).
  { clear E. induction l as [|k l IH]; intros acc E; cbn [foldM] in E; [injection E as <-; auto|].
    apply rbind_ok in E as (acc' & E1 & E). destruct (IH _ E) as [|Ha]; [left; now right|].
    destruct (insert_signer_inv _ _ _ _ E1 x Ha) as [->|]; [left; now left|auto]. }
  destruct (K [] E) as [|[]]. assumption.
Qed.

(** The signers are among the keys that the indices select, and have identities. *)
Lemma start_signers tx h keys signerIdx tweak (hash : option bytes) (rd : reader) st rd' :
  start_signing tx h keys signerIdx tweak hash rd = Ok (st, rd') ->
  Forall (fun k => exists pid, idxZ (kPartyIDs k) (kIdx k) = Ok pid) (st_signers st) /\
  Forall (fun k => exists i, In i signerIdx /\ idxZ keys i = Ok (Some k)) (st_signers st).
Proof.
  unfold start_signing. intros HR. apply rbind_ok in HR as ([signers pub] & E1 & HR). cbv zeta in HR.
  apply rbind_ok in HR as (ids & Eids & HR). apply rbind_ok in HR as (sx & _ & HR). apply rbind_ok in HR as ([nonce rd1] & _ & HR).
  apply rbind_ok in HR as ([draws rd2] & _ & HR). do 6 (apply rbind_ok in HR as (? & _ & HR)).
  injection HR as <- _. cbn [st_signers]. split.
  - apply List.Forall_forall. intros k Hk. apply In_nth_error in Hk as [i Ei]. destruct (mapM_nth _ _ _ i k Eids Ei) as (id & E & _).
    unfold own_id in E. apply rbind_ok in E as (pid & -> & _). eauto.
  - unfold resolve_signers in E1. do 6 (apply rbind_ok in E1 as (? & _ & E1)). apply rbind_ok in E1 as (ks & Em & E1).
    apply rbind_ok in E1 as (ks' & Eo & E1). injection E1 as <- _. apply List.Forall_forall. intros k Hk.
    apply (sortSignersByID_inv _ _ _ Eo) in Hk. apply mapM_inv in Em. destruct (Forall2_In_r _ _ _ Em k Hk) as (i & Hi & E).
    unfold resolve_signer in E. apply rbind_ok in E as (o & Eo' & E). apply rbind_ok in E as (k' & Ed & E). apply deref_ok in Ed. subst o.
    apply rbind_ok in E as (? & _ & E). apply rbind_ok in E as (? & _ & E). injection E as <-. eauto.
Qed.

(** ** A run over consistent keys *)
Lemma signChecked_run h keys ids cs signerIdx tweak (hash : bytes) (rd sys nonce rd1 : reader) draws rd2 :
  2 < q -> Z.odd (cP S256) = true -> consistent (pt := pt) h keys ids cs -> keys <> [] -> cs <> [] -> hash <> [] -> Forall is_byte hash ->
  length signerIdx = length cs -> Forall (fun i => 0 <= i < Z.of_nat (length keys)) signerIdx -> NoDup signerIdx ->
  Forall is_byte rd -> Forall is_byte sys -> ct_healthy sys ->
  ReadFull 16 rd = Ok (nonce, rd1) -> rmapM (fun _ => draw_nonce) signerIdx rd1 = Ok (draws, rd2) ->
  exists prs, draws = map (nonce_of (pt := pt)) prs /\
  ((exists sg sys', signCheckedCore h keys signerIdx tweak hash (Some rd) sys = Ok (inr (sg, Some rd2, sys')) /\
    good_signature (pt := pt) (peval cs 0 + tweak_of tweak) hash sg) \/
  (exists e, signCheckedCore h keys signerIdx tweak hash (Some rd) sys = Err e /\
    degenerate (pt := pt) checked_texts prs (peval cs 0 + tweak_of tweak) hash e)).
Proof.
  intros Q2 Hodd CK Hk Hc Hh Hhb Hl Fi Nd Frd Fs Hhe En Ed.
  destruct (start_ok (L := L) (CT := CT) Hneg checked_texts h keys ids cs signerIdx CK Hk Hc Hl Fi Nd tweak (Some hash) rd nonce rd1 draws rd2
    ltac:(congruence) Frd En Ed) as (prs & Edr & [(st & ES & S & Cx)|(e & ES & D)]); exists prs; (split; [exact Edr|]);
    unfold signCheckedCore; rewrite ES; cbn [rbind]; [|right; eauto].
  set (ssid := checked_ssid (st_nonce st) hash). apply start_signers in ES as [Fp _].
  destruct (started_cross (L := L) (CT := CT) checked_texts (honest_mul "signchecked-kxrho" ssid) (honest_mul "signchecked-xxrho" ssid)
    _ _ _ _ S (honest_mul_good _ _) (honest_mul_good _ _)) as (kR & xR & E & L1 & L2 & C1 & C2).
  rewrite (checked_cross_sim _ _ _ _ _ _ _ Fp E). cbn [or_blame rbind]. clear E.
  destruct S as [-> _ -> Er Rr HK _ -> _ _ _]. rewrite Er in *.
  destruct (finish_ok (L := L) (CT := CT) Hneg checked_texts _ _ 0 (peval cs 0) prs tweak hash kR xR (zsum (st_sx st)) sys Q2 Hodd Rr HK
    adjusts_none L2 Hhb Fs Hhe C1 C2) as [(sg & sys' & -> & G)|(e & -> & D)]; cbn [rbind]; [now rewrite Z.add_0_r|left; eauto|right; eauto].
Qed.

(** ** Blame *)
(** The party [pid] is blamed for the states that [kb] and [ka] share. *)
Definition blamed (signers : list Key) (e : Error) : Prop := exists ka kb pa pb r s pid cause,
  In ka signers /\ In kb signers /\ idxZ (kOT ka) (kIdx kb) = Ok (Some pa) /\ idxZ (kOT kb) (kIdx ka) = Ok (Some pb) /\
  AsAlice pa = Some r /\ AsBob pb = Some s /\ ~ matched r s /\ idxZ (kPartyIDs kb) (kIdx kb) = Ok pid /\
  e = NewError cause "dklstss-sign-checked" 0 None [pid].

Lemma runCheckedMul_blame sid alice bob alpha beta shares ai bj pid e :
  runCheckedMul sid alice bob alpha beta shares ai bj pid = Ok (inl e) ->
  exists r s cause, alice = Some r /\ bob = Some s /\ ~ matched r s /\ e = NewError cause "dklstss-sign-checked" 0 None [pid].
Proof.
  unfold runCheckedMul. intros E. apply rbind_ok in E as ([[m1 m2] st] & E1 & E). apply rewrap_ok in E1.
  apply rbind_ok in E as ([bm uB] & E2 & E). apply rewrap_ok in E2.
  destruct alice as [r|]; [|discriminate E1]. destruct bob as [s|]; [|discriminate E2].
  destruct (CheckedAliceStep2 (Some st) (Some bm)) as [uA|cause|w] eqn:E3; [now apply rbind_ok in E as (? & _ & E)| |discriminate].
  injection E as <-. exists r, s, cause. repeat (split; [reflexivity|]). split; [|reflexivity]. intros M.
  destruct (checked_run order_256 r s sid alpha beta M) as (m1' & m2' & st' & bm' & uA & uB' & E1' & E2' & E3' & _).
  rewrite E1 in E1'. injection E1' as <- <- <-. rewrite E2 in E2'. injection E2' as <- <-. rewrite E3 in E3'. discriminate.
Qed.

Lemma checked_pair_blame ssid signers k rho sx st ab e : checked_pair ssid signers k rho sx st ab = Ok (inl e) -> blamed signers e.
Proof.
  destruct st as [kR xR], ab as [ai bj]. unfold checked_pair. destruct (ai =? bj)%nat; [discriminate|]. intros E.
  apply rbind_ok in E as (ka & Ea & E). apply rbind_ok in E as (kb & Eb & E). apply idx_ok, nth_error_In in Ea. apply idx_ok, nth_error_In in Eb.
  apply rbind_ok in E as (pa & Epa & E). apply rbind_ok in E as (pb & Epb & E). destruct pa as [pa|], pb as [pb|]; try discriminate.
  apply rbind_ok in E as (pid & Epid & E). do 3 (apply rbind_ok in E as (? & _ & E)).
  apply or_blame_ok in E as [(e' & E & [= <-])|(kR' & _ & E)].
  2: apply or_blame_ok in E as [(e' & E & [= <-])|(xR' & _ & E)]; [|discriminate].
  all: apply runCheckedMul_blame in E as (r & s & cause & Er & Es & M & ->); exists ka, kb, pa, pb, r, s, pid, cause; auto 10.
Qed.

Lemma signChecked_blame h keys signerIdx tweak (hash : bytes) rng sys e :
  signCheckedCore h keys signerIdx tweak hash rng sys = Ok (inl e) ->
  exists signers, Forall (fun k => exists i, In i signerIdx /\ idxZ keys i = Ok (Some k)) signers /\ blamed signers e.
Proof.
  unfold signCheckedCore. intros E. cbv zeta in E. apply rbind_ok in E as ([st rd] & Es & E). apply start_signers in Es as [_ F].
  destruct rng; (apply or_blame_ok in E as [(e' & E & [= <-])|([kR xR] & _ & E)]; [|now apply rbind_ok in E as ([? ?] & _ & E)]);
    exists (st_signers st); (split; [exact F|]); unfold checked_cross_terms in E; do 2 (apply rbind_ok in E as (? & _ & E));
    apply foldE_blame in E as (st1 & ai & _ & E); apply foldE_blame in E as (st2 & bj & _ & E); eapply checked_pair_blame; exact E.
Qed.
End Checked.

(** ** Properties *)
Section Properties.
Context `{HS : Hash} `{AL : AesLaws} `{CS : Curves} `{SL : Secp256k1Lib} `{EL : Ed25519Lib}.
Context {pt : Z -> Z * Z} {L : CurveLaws S256 pt false} {CT : CtCurve S256 pt false}.
Abbreviation q := (cN S256).

(** C10. Checked signing over consistent keys never blames a signer: it returns a
    signature described by [good_signature], or one of the errors that ask for
    fresh randomness with the event of [degenerate] that causes it. *)
Theorem SignChecked_correct h keys ids cs signerIdx tweak (hash : bytes) (rd sys nonce rd1 : reader) draws rd2
  (Hneg : forall a, pt (- a) = (fst (pt a), (- snd (pt a)) mod cP S256)) (Q2 : 2 < q) (Hodd : Z.odd (cP S256) = true)
  (CK : consistent (pt := pt) h keys ids cs) (Hk : keys <> []) (Hc : cs <> []) (Hh : hash <> []) (Hhb : Forall is_byte hash)
  (Hl : length signerIdx = length cs) (Fi : Forall (fun i => 0 <= i < Z.of_nat (length keys)) signerIdx) (Nd : NoDup signerIdx)
  (Frd : Forall is_byte rd) (Fs : Forall is_byte sys) (Hhe : ct_healthy sys)
  (En : ReadFull 16 rd = Ok (nonce, rd1)) (Ed : rmapM (fun _ => draw_nonce) signerIdx rd1 = Ok (draws, rd2)) :
  exists prs, draws = map (nonce_of (pt := pt)) prs /\
  ((exists sg sys', SignCheckedWithTweak h keys signerIdx tweak hash (Some rd) sys = Ok (inr (sg, Some rd2, sys')) /\
    good_signature (pt := pt) (peval cs 0 + tweak_of tweak) hash sg) \/
  (exists e, SignCheckedWithTweak h keys signerIdx tweak hash (Some rd) sys = Err e /\
    degenerate (pt := pt) checked_texts prs (peval cs 0 + tweak_of tweak) hash e)).
Proof. now apply (signChecked_run (L := L) (CT := CT) Hneg h keys ids cs signerIdx tweak hash rd sys nonce rd1 draws rd2). Qed.

(** C11. Whatever the keys hold, a signature that checked signing returns is in low
    form and verifies under the first key's public key plus the tweak, and an
    error with a culprit names one signer, whose transfer state does not match the
    one of another signer. *)
Theorem SignChecked_sound h keys signerIdx tweak (hash : bytes) rng sys out
  (HR : SignCheckedWithTweak h keys signerIdx tweak hash rng sys = Ok out) :
  match out with
  | inr (sg, _, sys') => 0 < sigR sg < q /\ 0 < sigS sg <= q / 2 /\
    exists k0 sys1 vpub X Y, nth_error keys 0 = Some (Some k0) /\ effectiveVerifyPub (kECDSAPub k0) tweak sys1 = Ok (vpub, sys') /\
      ECPoint_X vpub = Ok X /\ ECPoint_Y vpub = Ok Y /\ ecdsa_Verify (curve vpub) X Y hash (sigR sg) (sigS sg) = Ok true
  | inl e => exists ka kb i j pa pb r s pid cause,
    In i signerIdx /\ idxZ keys i = Ok (Some ka) /\ In j signerIdx /\ idxZ keys j = Ok (Some kb) /\
    idxZ (kOT ka) (kIdx kb) = Ok (Some pa) /\ idxZ (kOT kb) (kIdx ka) = Ok (Some pb) /\
    AsAlice pa = Some r /\ AsBob pb = Some s /\ ~ matched r s /\
    idxZ (kPartyIDs kb) (kIdx kb) = Ok pid /\ e = NewError cause "dklstss-sign-checked" 0 None [pid]
  end.
Proof.
  unfold SignCheckedWithTweak in HR. destruct out as [e|[[sg rng'] sys']].
  - apply (signChecked_blame (L := L)) in HR as (signers & F & ka & kb & pa & pb & r & s & pid & cause & Ia & Ib & K).
    rewrite List.Forall_forall in F. destruct (F ka Ia) as (i & Hi & Ei), (F kb Ib) as (j & Hj & Ej).
    exists ka, kb, i, j, pa, pb, r, s, pid, cause. repeat (split; [assumption|]). exact K.
  - pose proof (Z.lt_trans _ _ _ Z.lt_0_1 (prime_gt_1 q cl_prime)) as Hq.
    unfold signCheckedCore in HR. apply rbind_ok in HR as ([st rd'] & E1 & HR).
    destruct (start_sound Hq _ _ _ _ _ _ _ _ _ E1) as (Rr & k0 & Ek & Ep).
    destruct (match rng with Some _ => (Some rd', sys) | None => (None, rd') end) as [rng2 sys2].
    apply or_blame_ok in HR as [(e & _ & [=])|([kR xR] & _ & HR)]. apply rbind_ok in HR as ([sg' sys3] & E2 & HR). injection HR as <- <- <-.
    destruct (finish_sound Hq _ _ _ _ _ _ _ _ _ _ _ _ _ Rr E2) as (Er & Rs & vpub & X & Y & V). rewrite Er. split; [exact Rr|]. split; [exact Rs|].
    exists k0, sys2, vpub, X, Y. rewrite Ep, <- Er. auto.
Qed.
End Properties.

Lemma SignChecked_correct_witness : exists keys sg sys' x, cong 31 x 8 /\
  @SignCheckedWithTweak toy_hash toy_aes toy_curves toy_secp toy_ed w_kheap keys [1; 0] (Some 4) [201; 3] (Some w_sign_rng) (repeat 1 40) =
    Ok (inr (sg, Some [], sys')) /\
  @good_signature toy_curves toy256_pt (x + 4) [201; 3] sg.
Proof.
  destruct w_consistent as (keys & ids & cs & CK & Hk & Hc & Lc & Lk & Cx).
  destruct (@SignChecked_correct toy_hash toy_aes toy_aes_laws toy_curves toy_secp toy_ed toy256_pt toy256_laws toy256_ct w_kheap keys ids cs [1; 0]
    (Some 4) [201; 3] w_sign_rng (repeat 1 40) (repeat 9 16) w_draws w_ndraws [] toy_neg eq_refl eq_refl CK Hk Hc w_hash_nonempty w_hash_byte (eq_sym Lc)
    ltac:(rewrite Lk; exact w_signers_range) w_signers_nodup w_sign_byte (ones_byte _) (toy_healthy 40 (le_n 40)) eq_refl w_draws_run)
    as (prs & Ed & [(sg & sys' & E & G)|(e & _ & D)]); apply w_prs in Ed; subst prs.
  - exists keys, sg, sys', (peval cs 0). split; [exact Cx|]. split; [exact E|exact G].
  - destruct (w_not_degenerate _ _ e Cx D).
Defined.

Lemma SignChecked_sound_witness : exists keys sg sys',
  @SignCheckedWithTweak toy_hash toy_aes toy_curves toy_secp toy_ed w_kheap keys [1; 0] (Some 4) [201; 3] (Some w_sign_rng) (repeat 1 40) =
    Ok (inr (sg, Some [], sys')) /\ 0 < sigR sg < 31 /\ 0 < sigS sg <= 15.
Proof.
  destruct w_consistent as (keys & ids & cs & CK & Hk & Hc & Lc & Lk & Cx).
  destruct (@signChecked_run toy_hash toy_aes toy_aes_laws toy_curves toy_secp toy_ed toy256_pt toy256_laws toy256_ct toy_neg w_kheap keys ids cs [1; 0]
    (Some 4) [201; 3] w_sign_rng (repeat 1 40) (repeat 9 16) w_draws w_ndraws [] eq_refl eq_refl CK Hk Hc w_hash_nonempty w_hash_byte (eq_sym Lc)
    ltac:(rewrite Lk; exact w_signers_range) w_signers_nodup w_sign_byte (ones_byte _) (toy_healthy 40 (le_n 40)) eq_refl w_draws_run)
    as (prs & Ed & [(sg & sys' & E & _)|(e & _ & D)]); apply w_prs in Ed; subst prs.
  - exists keys, sg, sys'. split; [exact E|].
    destruct (@SignChecked_sound toy_hash toy_aes toy_aes_laws toy_curves toy_secp toy_ed toy256_pt toy256_laws w_kheap keys [1; 0] (Some 4) [201; 3]
      (Some w_sign_rng) (repeat 1 40) (inr (sg, Some [], sys')) E) as (Hr & Hs & _). split; [exact Hr|exact Hs].
  - destruct (w_not_degenerate _ _ e Cx D).
Defined.
