(* ===== verification/DklsReshare.v ===== *)
(** * Package [dklstss]: refresh, resharing and import, in process

    [refresh.go], [resharing.go] and [import.go]: the operations that replace the
    keys of a committee and keep its public key.  As in [DklsKeygen], [rng] is
    the caller's reader (or the one that stands for the system's generator when
    the caller passes nil) and [sys] serves the blinded multiplications. *)
From stdpp Require Import base gmap list.
From Stdlib Require Import ZArith String List Lia Bool Arith.
From S2P Require Import Prelude GoBig Common Curve CtMul Vss Bits OtExt Party Dkls DklsSetup DklsKeygen.
Import ListNotations.
Open Scope string_scope.
Open Scope Z_scope.
Open Scope list_scope.

Section Defs.
Context `{HS : Hash} `{SH : Sha256} `{CS : Curves} `{SL : Secp256k1Lib} `{EL : Ed25519Lib}.

(** ** refresh.go *)
(** [f(id)] for [f(x) = coeffs[0] x + coeffs[1] x^2 + ...]; a nil identity or
    coefficient is dereferenced. *)
Definition evalZeroConstPoly (coeffs : list (option Z)) (id : option Z) (q : Z) : res Z :=
  let! result := foldM (fun result a =>
    let! id := deref id in let! a := deref a in Mod (result * id + a) q) 0 (rev coeffs) in
  let! id := deref id in
  Mod (result * id) q.

(** [share G = Σ id^k V_k]; a commitment that is nil or off the curve and a sum
    that is no point are rejected. *)
Definition verifyZeroConstShare (Vs : list (option ECPoint)) (id : option Z) (share : Z) : res bool :=
  if (length Vs =? 0)%nat then Ok false
  else
    let! V0 := idx Vs 0 in
    let! V0 := deref V0 in
    let c := curve V0 in
    let q := cN c in
    let! id := deref id in
    let! idPow := Mod id q in
    if Z.sgn idPow =? 0 then Ok false
    else
      or_false (
        let! (rhs, _) := foldM (fun '(rhs, idPow) V =>
          guard (ECPoint_ValidateBasic V) "invalid" ;!
          let! V := deref V in
          let! term := ECPoint_ScalarMult V idPow in
          let! rhs := match rhs with None => Ok term | Some rhs => ECPoint_Add rhs term end in
          let! idPow := Mod (idPow * id) q in
          Ok (Some rhs, idPow)) (None, idPow) Vs in
        match rhs with
        | None => Ok false
        | Some rhs => let! lhs := ScalarBaseMult c share in ECPoint_Equals (Some lhs) (Some rhs)
        end).

(** The keys: complete, in order and consistent with the first. *)
Definition refresh_check (n t : Z) (pub : option ECPoint) (keys : list (option Key)) : res unit :=
  foldM (fun _ '(i, k) =>
    let! k := deref k in
    let! same := (if negb (kN k =? n) || negb (kT k =? t) then Ok false else ECPoint_Equals (kECDSAPub k) pub) in
    guard same "dklstss: Refresh key[%d] is inconsistent with keys[0]" ;!
    guard (kIdx k =? Z.of_nat i) "dklstss: Refresh key[%d].Idx = %d, expected %d") tt (enum keys).

(** [ids], of length [n]: an identity beyond it is out of range, one that is not
    written stays nil. *)
Definition refresh_ids (h : Heap) (n : Z) (partyIDs : list ref) : res (list (option Z)) :=
  let! l := mapM (fun '(i, pid) =>
    let! id := KeyInt h pid in
    if Z.of_nat i <? n then Ok (Some id) else Panic "index out of range") (enum partyIDs) in
  Ok (l ++ repeat None (Z.to_nat n - length l)).

(** Phase 1, one party: a polynomial without constant term, its commitments and
    its values. *)
Definition zero_deal (c : Curve) (t : Z) (ids : list (option Z)) : rnd (list (option ECPoint) * list Z) :=
  let q := cN c in
  let~ _ := rlift (if t <? 0 then Panic "makeslice: len out of range" else Ok tt) in
  let~ coeffs := rmapM (fun _ => GetRandomPositiveInt (Some q)) (seq 0 (Z.to_nat t)) in
  let~ Vs := rlift (mapM (fun a => let! a := deref a in let! V := ScalarBaseMult c a in Ok (Some V)) coeffs) in
  let~ row := rlift (mapM (fun id => evalZeroConstPoly coeffs id q) ids) in
  rret (Vs, row).

(** Phase 2, one party: the verified values summed up. *)
Definition refresh_delta (q : Z) (n : nat) (ids : list (option Z)) (deals : list (list (option ECPoint) * list Z)) (j : nat) : res Z :=
  foldM (fun sum i =>
    let! (Vs, row) := idx deals i in
    let! id := idx ids j in
    let! s := idx row j in
    let! ok := verifyZeroConstShare Vs id s in
    guard ok "dklstss: Refresh VSS verify party %d→%d failed" ;!
    Mod (sum + s) q) 0 (seq 0 n).

(** Phase 3, one party: the new share and its public point. *)
Definition refresh_share (c : Curve) (k0 : Key) (keys : list (option Key)) (jd : nat * Z) : res (Z * option ECPoint) :=
  let '(j, delta) := jd in
  let! k := idx keys j in
  let! k := deref k in
  let! xi := deref (kXi k) in
  let! x := Mod (xi + delta) (cN c) in
  let! deltaG := ScalarBaseMult c delta in
  let! X := idx (kBigXj k0) j in
  let! X := deref X in
  let! X := rewrap "dklstss: Refresh BigXj[%d] aggregate" (ECPoint_Add X deltaG) in
  let! expect := ScalarBaseMult c x in
  let! eq := ECPoint_Equals (Some expect) (Some X) in
  guard eq "dklstss: Refresh consistency check failed at party %d" ;!
  Ok (x, Some X).

Definition Refresh (h : Heap) (keys : list (option Key)) (rng sys : reader) : res (list Key * reader * reader) :=
  guard (negb (length keys =? 0)%nat) "dklstss: Refresh requires at least one key" ;!
  let! k0 := idx keys 0 in
  let! k0 := deref k0 in
  let n := kN k0 in
  let t := kT k0 in
  let pub := kECDSAPub k0 in
  let partyIDs := kPartyIDs k0 in
  let! c := deref (kCurve k0) in
  guard (Z.of_nat (length keys) =? n) "dklstss: Refresh got %d keys, expected %d" ;!
  refresh_check n t pub keys ;!
  let! ids := refresh_ids h n partyIDs in
  let! (deals, rng) := rmapM (fun _ => zero_deal c t ids) (seq 0 (Z.to_nat n)) rng in
  let! deltas := mapM (refresh_delta (cN c) (Z.to_nat n) ids deals) (seq 0 (Z.to_nat n)) in
  let! new := mapM (refresh_share c k0 keys) (enum deltas) in
  let! (nonce, rng) := rewrap "dklstss: Refresh nonce" (ReadFull 16 rng) in
  let! pub' := deref pub in
  let! x := ECPoint_X pub' in
  let sidPrefix := str "DKLS23-refresh-otsetup-v1-" ++ Bytes x ++ [124] ++ nonce in
  let! (ot, rng, sys) := rewrap "dklstss: Refresh OT re-setup" (setupPairs n sidPrefix rng sys) in
  let! (out, sys) := foldM (fun '(out, sys) '(i, x) =>
    let! row := idx ot i in
    let k := {| kCurve := Some c; kN := n; kT := t; kIdx := Z.of_nat i; kPartyIDs := partyIDs; kXi := Some x;
                kBigXj := map snd new; kECDSAPub := pub; kOT := row; kChainCode := kChainCode k0 |} in
    let! sys := rewrap "dklstss: Refresh produced invalid key for party %d" (Key_ValidateBasic (Some k) sys) in
    Ok (out ++ [k], sys)) ([], sys) (enum (map fst new)) in
  Ok (out, rng, sys).

(** ** resharing.go *)
(** The old participants: in range, distinct, present and of one public key. *)
Definition old_participants (oldKeys : list (option Key)) (pub : option ECPoint) (oldSubsetIdx : list Z) : res (list Key) :=
  let! st := foldM (fun '(seen, ks) i =>
    guard (negb ((i <? 0) || (Z.of_nat (length oldKeys) <=? i))) "dklstss: Reshare oldSubsetIdx %d out of range" ;!
    guard (negb (bool_decide (i ∈ seen))) "dklstss: Reshare duplicate oldSubsetIdx %d" ;!
    let! k := idxZ oldKeys i in
    match k with
    | None => Err "dklstss: Reshare oldKeys[%d] is nil"
    | Some k =>
      let! same := ECPoint_Equals (kECDSAPub k) pub in
      guard same "dklstss: Reshare oldKeys[%d] has inconsistent public key" ;!
      Ok ({[i]} ∪ seen, ks ++ [k])
    end) ((∅ : gset Z), []) oldSubsetIdx in
  Ok (snd st).

(** Phase 1, one old participant: its scaled share, dealt to the new committee. *)
Definition reshare_deal (c : Curve) (tNew : Z) (newIDs : list Z) (st : dealing) (lk : Z * Key) : res dealing :=
  let '(commitments, shares, rng, sys) := st in
  let '(lam, k) := lk in
  let! xi := deref (kXi k) in
  let! scaled := Mod (lam * xi) (cN c) in
  guard (negb (Z.sgn scaled =? 0)) "dklstss: Reshare old participant %d has λ·x_i ≡ 0 mod q (key material likely corrupted)" ;!
  let! (d, rng) := rewrap "dklstss: Reshare VSS create old party %d" (Create c tNew (Some scaled) (Some newIDs) sys rng) in
  let '(Vs, Sh, sys) := d in
  Ok (commitments ++ [Vs], shares ++ [Sh], rng, sys).

(** Phase 2, one new party: the verified shares summed up. *)
Definition reshare_receive (c : Curve) (tNew : Z) (commitments : list (list (option ECPoint))) (shares : list (list Share)) (j : nat) : res Z :=
  foldM (fun sum i =>
    let! row := idx shares i in
    let! sh := idx row j in
    let! Vs := idx commitments i in
    let! ok := Share_Verify sh c tNew (Some Vs) in
    guard ok "dklstss: Reshare share from old party %d to new party %d failed VSS verify" ;!
    Mod (sum + share sh) (cN c)) 0 (seq 0 (length shares)).

(** Phase 3, one new party: its public point, checked against the commitments. *)
Definition reshare_public (c : Curve) (commitments : list (list (option ECPoint))) (id x : Z) : res (option ECPoint) :=
  let! X := ScalarBaseMult c x in
  let! Xj := rewrap "dklstss: Reshare BigXj[%d] check" (evaluateCommitmentSum c commitments id) in
  let! eq := ECPoint_Equals Xj (Some X) in
  guard eq "dklstss: Reshare BigXj[%d] inconsistent with VSS commitments" ;!
  Ok (Some X).

(** Phase 4: the public key the commitments add up to. *)
Definition reshare_pub (commitments : list (list (option ECPoint))) : res (option ECPoint) :=
  let! V0 := idx commitments 0 in
  let! r := idx V0 0 in
  foldM (fun r Vs =>
    let! v := idx Vs 0 in
    let! r := deref r in
    let! v := deref v in
    let! r := rewrap "dklstss: Reshare pubkey check add" (ECPoint_Add r v) in
    Ok (Some r)) r (tl commitments).

Definition Reshare (h : Heap) (oldKeys : list (option Key)) (oldSubsetIdx : list Z) (newPartyIDs : list ref) (newThreshold : Z)
    (rng sys : reader) : res (list Key * reader * reader) :=
  guard (negb (length oldKeys =? 0)%nat) "dklstss: Reshare requires at least one old key" ;!
  let! k0 := idx oldKeys 0 in
  let! k0 := deref k0 in
  let tOld := kT k0 in
  let nNew := Z.of_nat (length newPartyIDs) in
  let tNew := newThreshold in
  guard (negb (Z.of_nat (length oldSubsetIdx) <? tOld + 1)) "dklstss: Reshare needs at least %d old participants, got %d" ;!
  guard (negb (nNew =? 0)) "dklstss: Reshare needs non-empty new committee" ;!
  guard (negb ((tNew <? 1) || (nNew <=? tNew))) "dklstss: Reshare requires 1 ≤ T_new < N_new, got T=%d N=%d" ;!
  let! i0 := idx oldSubsetIdx 0 in
  let! kf := idxZ oldKeys i0 in
  let! kf := deref kf in
  let pub := kECDSAPub kf in
  let! c := deref (kCurve kf) in
  let q := cN c in
  let! oldParticipants := old_participants oldKeys pub oldSubsetIdx in
  let! newIDs := mapM (KeyInt h) newPartyIDs in
  let! _ := rewrap "dklstss: Reshare invalid new party IDs" (CheckIndexes c newIDs) in
  let! oldIDs := mapM (own_id h) oldParticipants in
  let! oldLambdas := mapM (fun i => rewrap "dklstss: Reshare lagrange" (lagrangeCoefficient q oldIDs (Z.of_nat i)))
    (seq 0 (length oldParticipants)) in
  let! (commitments, shares, rng, sys) :=
    foldM (reshare_deal c tNew newIDs) ([], [], rng, sys) (combine oldLambdas oldParticipants) in
  let! newXj := mapM (reshare_receive c tNew commitments shares) (seq 0 (length newPartyIDs)) in
  let! newBigXj := mapM (fun '(id, x) => reshare_public c commitments id x) (combine newIDs newXj) in
  let! reconstructed := reshare_pub commitments in
  let! same := ECPoint_Equals reconstructed pub in
  guard same "dklstss: Reshare reconstructed public key does not match original — protocol error" ;!
  let! (nonce, rng) := rewrap "dklstss: Reshare OT nonce" (ReadFull 16 rng) in
  let! pub' := deref pub in
  let! x := ECPoint_X pub' in
  let sidPrefix := str "DKLS23-reshare-otsetup-v1-" ++ Bytes x ++ [124] ++ nonce in
  let! (ot, rng, sys) := rewrap "dklstss: Reshare OT setup" (setupPairs nNew sidPrefix rng sys) in
  let! (out, sys) := foldM (fun '(out, sys) '(i, x) =>
    let! row := idx ot i in
    let k := {| kCurve := Some c; kN := nNew; kT := tNew; kIdx := Z.of_nat i; kPartyIDs := newPartyIDs; kXi := Some x;
                kBigXj := newBigXj; kECDSAPub := pub; kOT := row; kChainCode := kChainCode kf |} in
    let! sys := rewrap "dklstss: Reshare produced invalid key for new party %d" (Key_ValidateBasic (Some k) sys) in
    Ok (out ++ [k], sys)) ([], sys) (enum newXj) in
  Ok (out, rng, sys).

(** ** import.go *)
(** The fields of [*ecdsa.PrivateKey] that are read. *)
Record EcdsaPrivateKey := { ekD : option Z; ekCurve : option Curve; ekX : option Z; ekY : option Z }.

Definition ImportKey (reg : CurveState) (h : Heap) (priv : option EcdsaPrivateKey) (partyID : ref) (sys : reader) : res (Key * reader) :=
  match priv with
  | None => Err "dklstss.ImportKey: priv is nil"
  | Some priv =>
    guard (is_some (ekD priv)) "dklstss.ImportKey: priv.D is nil" ;!
    guard (is_some (ekCurve priv)) "dklstss.ImportKey: priv.Curve is nil" ;!
    let! d := deref (ekD priv) in
    let! c := deref (ekCurve priv) in
    guard (SameCurve c S256 reg) "dklstss.ImportKey: requires secp256k1, got %T" ;!
    guard (is_some (h !! partyID)) "dklstss.ImportKey: partyID is nil" ;!
    let! xi := Mod d (cN S256) in
    guard (negb (Z.sgn xi =? 0)) "dklstss.ImportKey: priv.D is zero mod curve order" ;!
    let! (pub, sys) := ctmul_ScalarBaseMult S256 (Some xi) sys in
    match ekX priv, ekY priv with
    | Some X, Some Y =>
      let! declared := rewrap "dklstss.ImportKey: declared public key is not on the curve" (NewECPoint S256 (Some X) (Some Y)) in
      let! eq := ECPoint_Equals (Some declared) pub in
      guard eq "dklstss.ImportKey: priv.PublicKey does not match priv.D · G"
    | _, _ => Ok tt
    end ;!
    let! shareID := KeyInt h partyID in
    guard (negb (Z.sgn shareID =? 0)) "dklstss.ImportKey: partyID has empty KeyInt" ;!
    let! pub' := deref pub in
    let! chain := deriveChainCode pub' in
    let k := {| kCurve := Some S256; kN := 1; kT := 0; kIdx := 0; kPartyIDs := [partyID]; kXi := Some xi;
                kBigXj := [pub]; kECDSAPub := pub; kOT := [None]; kChainCode := chain |} in
    let! sys := rewrap "dklstss.ImportKey: produced invalid Key" (Key_ValidateBasic (Some k) sys) in
    Ok (k, sys)
  end.
End Defs.
