(* ===== verification/DklsLife.v ===== *)
(** * Package [dklstss]: the life of a committee

    Refresh and resharing replace the polynomial under the keys and keep its value
    at 0; import starts a committee of one.  [committee] is what each of these
    operations, and key generation, establishes; [life] closes it under their
    repetition, and any threshold of the keys it reaches signs under the one public
    key. *)
From stdpp Require Import base gmap list.
From Stdlib Require Import ZArith String List Lia Bool Arith.
From S2P Require Import Prelude GoBig Common Curve CtMul Field Vss Schnorr Bits OtExt OtExtCorrect Ole Party BaseOt.
From S2P Require Import Dkls DklsSetup DklsSign DklsSignCorrect DklsKeygen DklsReshare.
Import ListNotations.
Open Scope string_scope.
Open Scope Z_scope.
Open Scope list_scope.

Section Life.
Context `{HS : Hash} `{AL : AesLaws} `{SH : Sha256} `{CS : Curves} `{SL : Secp256k1Lib} `{EL : Ed25519Lib}.
Context {pt : Z -> Z * Z} {L : CurveLaws S256 pt false} {CT : CtCurve S256 pt false}.
Hypothesis Hneg : forall a, pt (- a) = (fst (pt a), (- snd (pt a)) mod cP S256).
Hypothesis Hne : curve_eqb S256 Edwards = false.
Abbreviation q := (cN S256).
Abbreviation pnt := (mkpt S256 pt).

Lemma q_gt_1 : 1 < q.
Proof. exact (prime_gt_1 q cl_prime). Qed.

(** The keys of a committee: consistent, with the identities and the curve in
    common. *)
Record committee (h : Heap) (keys : list Key) (partyIDs : list ref) (ids cs : list Z) : Prop := {
  cm_consistent : consistent (pt := pt) h (map Some keys) ids cs;
  cm_ids : mapM (KeyInt h) partyIDs = Ok ids;
  cm_common : Forall (common_key partyIDs) keys;
  cm_keys : keys <> [];
  cm_poly : cs <> []
}.

Lemma committee_length h keys partyIDs ids cs : committee h keys partyIDs ids cs ->
  length ids = length keys /\ length partyIDs = length keys.
Proof.
  intros [CK Ei _ _ _]. pose proof (co_len _ _ _ _ CK) as Li. rewrite length_map in Li.
  apply mapM_inv, Forall2_length in Ei. lia.
Qed.

(** A member of the committee by its index. *)
Lemma committee_key h keys partyIDs ids cs i k : committee h keys partyIDs ids cs -> nth_error keys i = Some k ->
  kN k = Z.of_nat (length keys) /\ kT k + 1 = Z.of_nat (length cs) /\ kIdx k = Z.of_nat i /\
  kECDSAPub k = Some (pnt (peval cs 0)) /\ kCurve k = Some S256 /\ kPartyIDs k = partyIDs /\
  exists xi, kXi k = Some xi /\ cong q xi (peval cs (nth i ids 0)).
Proof.
  intros C E. assert (Hi : (i < length keys)%nat) by (apply nth_error_Some; congruence).
  destruct (co_key _ _ _ _ (cm_consistent _ _ _ _ _ C) i) as (k' & E' & H1 & H2 & H3 & H4 & _ & H6); [now rewrite length_map|].
  rewrite nth_error_map, E in E'. injection E' as <-. rewrite length_map in H1.
  pose proof (cm_common _ _ _ _ _ C) as F. rewrite List.Forall_forall in F.
  destruct (F k) as [F1 F2]; [eapply nth_error_In; eassumption|]. auto 8.
Qed.

(** ** Refresh *)
Lemma evalZeroConstPoly_ok cs id : evalZeroConstPoly (map Some cs) (Some id) q = Ok (peval (0 :: cs) id mod q).
Proof.
  pose proof q_gt_1 as Q1. unfold evalZeroConstPoly. rewrite <- map_rev.
  assert (K : forall l, foldM (fun result a => let! id := deref (Some id) in let! a := deref a in Mod (result * id + a) q)
    0 (map Some (rev l)) = Ok (peval l id mod q)).
  { induction l as [|a l IH]; [cbn; now rewrite Zmod_0_l|]. cbn [rev]. rewrite map_app, foldM_app, IH.
    cbn [rbind foldM map deref]. rewrite Mod_ok by lia. cbn [rbind peval]. f_equal.
    rewrite <- Z.add_mod_idemp_l, Z.mul_mod_idemp_l, Z.add_mod_idemp_l by lia. f_equal. ring. }
  rewrite K. cbn [rbind deref]. rewrite Mod_ok by lia. f_equal. cbn [peval].
  rewrite Z.mul_mod_idemp_l by lia. f_equal. ring.
Qed.

Lemma refresh_ids_ok h n partyIDs ids : mapM (KeyInt h) partyIDs = Ok ids -> Z.of_nat (length partyIDs) = n ->
  refresh_ids h n partyIDs = Ok (map Some ids).
Proof.
  intros E <-. unfold refresh_ids, enum.
  assert (K : forall k l ids, mapM (KeyInt h) l = Ok ids -> (k + length l <= length partyIDs)%nat ->
    mapM (fun '(i, pid) => let! id := KeyInt h pid in
      if Z.of_nat i <? Z.of_nat (length partyIDs) then Ok (Some id) else Panic "index out of range")
      (combine (seq k (length l)) l) = Ok (map Some ids)).
  { intros k l. revert k. induction l as [|r l IH]; intros k ids' El Hk; cbn [mapM length seq combine] in *; [injection El as <-; reflexivity|].
    apply rbind_ok in El as (id & -> & El). apply rbind_ok in El as (l' & El & Ec). injection Ec as <-. cbn [rbind].
    rewrite (proj2 (Z.ltb_lt _ _)) by lia. cbn [rbind]. rewrite (IH (S k) l' El) by lia. reflexivity. }
  rewrite (K 0%nat _ _ E) by lia. cbn [rbind]. rewrite length_map.
  apply mapM_inv, Forall2_length in E. rewrite Nat2Z.id, E, Nat.sub_diag. cbn [repeat]. now rewrite app_nil_r.
Qed.

(** Phase 1: polynomials without constant term. *)
Definition zero_poly (t : Z) (p : list Z) : Prop := length p = S (Z.to_nat t) /\ hd 0 p = 0.

Lemma zero_deal_run t ids r Vs row r' : Forall is_byte r -> zero_deal S256 t (map Some ids) r = Ok ((Vs, row), r') ->
  Forall is_byte r' /\ exists p, zero_poly t p /\ row = map (fun id => peval p id mod q) ids.
Proof.
  intros Fr HR. unfold zero_deal in HR. apply rnd_bind_ok in HR as ([] & r0 & E0 & HR). apply rlift_ok in E0 as [E0 <-].
  apply rnd_bind_ok in HR as (coeffs & r1 & E1 & HR).
  apply (sample_coeffs (L := L)) in E1 as (cs & -> & Lc & _ & F1); [|assumption].
  apply rnd_bind_ok in HR as (Vs' & r2 & E2 & HR). apply rlift_ok in E2 as [E2 <-].
  apply rnd_bind_ok in HR as (row' & r3 & E3 & HR). apply rlift_ok in E3 as [E3 <-]. injection HR as _ <- <-.
  split; [assumption|]. exists (0 :: cs). split; [split; cbn; congruence|].
  assert (K : mapM (fun id => evalZeroConstPoly (map Some cs) id q) (map Some ids) = Ok (map (fun id => peval (0 :: cs) id mod q) ids)).
  { clear E3. induction ids as [|id ids IH]; [reflexivity|]. cbn [map mapM]. rewrite evalZeroConstPoly_ok. cbn [rbind].
    rewrite IH. reflexivity. }
  cbv zeta in E3. rewrite K in E3. now injection E3 as <-.
Qed.

Lemma zero_deals_run {A} t ids (l : list A) : forall r deals r', Forall is_byte r ->
  rmapM (fun _ => zero_deal S256 t (map Some ids)) l r = Ok (deals, r') ->
  Forall is_byte r' /\ exists ps, length ps = length l /\ Forall (zero_poly t) ps /\
    map snd deals = map (fun p => map (fun id => peval p id mod q) ids) ps.
Proof.
  induction l as [|a l IH]; intros r deals r' Fr HR; cbn [rmapM] in HR.
  - injection HR as <- <-. split; [assumption|]. exists []. repeat constructor.
  - apply rnd_bind_ok in HR as ([Vs row] & r1 & E1 & HR). destruct (zero_deal_run _ _ _ _ _ _ Fr E1) as (F1 & p & Zp & ->).
    apply rnd_bind_ok in HR as (ds & r2 & E2 & HR). injection HR as <- <-.
    destruct (IH _ _ _ F1 E2) as (F2 & ps & Lp & Fp & Ep). split; [assumption|]. exists (p :: ps). cbn. rewrite Ep. auto.
Qed.

(** Phase 2: a value of the sum of the polynomials. *)
Lemma refresh_delta_run n ids deals ps j x : length ps = n -> (j < length ids)%nat ->
  map snd deals = map (fun p => map (fun id => peval p id mod q) ids) ps ->
  refresh_delta q n (map Some ids) deals j = Ok x -> cong q x (peval (psum ps) (nth j ids 0)).
Proof.
  pose proof q_gt_1 as Q1. intros Hn Hj Ed HR. unfold refresh_delta in HR.
  set (P := fun done x => Forall (fun i => (i < n)%nat) done ->
    cong q x (zsum (map (fun i => peval (nth i ps []) (nth j ids 0)) done))).
  assert (K : P ([] ++ seq 0 n) x).
  { eapply (foldM_done P); [| |exact HR]; [|intros _; reflexivity].
    intros done i s s' IH E F. apply Forall_app in F as [Fd Fi]. apply Forall_inv in Fi.
    apply rbind_ok in E as ([Vs row] & Er & E). apply idx_ok in Er. apply (f_equal (option_map snd)) in Er.
    rewrite <- nth_error_map, Ed, nth_error_map, (nth_error_nth_lt ps i []) in Er by lia. injection Er as <-.
    apply rbind_ok in E as (id & _ & E). apply rbind_ok in E as (v & Ev & E). apply idx_ok in Ev.
    rewrite nth_error_map, (nth_error_nth_lt ids j 0) in Ev by assumption. injection Ev as <-.
    apply rbind_ok in E as (ok & _ & E). apply rbind_ok in E as (_ & _ & E). rewrite Mod_ok in E by lia. injection E as <-.
    rewrite map_app, zsum_app. cbn [map]. rewrite zsum_cons, !cong_mod, (IH Fd). apply cong_eq. cbn. ring. }
  cbn [app] in K. unfold P in K.
  rewrite <- (map_map (fun i => nth i ps []) (fun p => peval p (nth j ids 0))), map_nth_seq, <- peval_psum in K by assumption.
  apply K. apply List.Forall_forall. intros i Hi. apply in_seq in Hi. lia.
Qed.

(** Phase 3: the share moves to the refreshed polynomial. *)
Lemma refresh_share_run k0 keys j delta x X : refresh_share S256 k0 (map Some keys) (j, delta) = Ok (x, X) ->
  exists k xi, nth_error keys j = Some k /\ kXi k = Some xi /\ cong q x (xi + delta).
Proof.
  pose proof q_gt_1 as Q1. intros HR. unfold refresh_share in HR. apply rbind_ok in HR as (k & Ek & HR). apply idx_ok in Ek.
  apply rbind_ok in HR as (k' & Ed & HR). apply deref_ok in Ed. subst k. rewrite nth_error_map in Ek.
  destruct (nth_error keys j) as [k|] eqn:E; [|discriminate]. injection Ek as ->.
  apply rbind_ok in HR as (xi & Ex & HR). apply deref_ok in Ex. apply rbind_ok in HR as (x' & Em & HR).
  rewrite Mod_ok in Em by lia. injection Em as <-. exists k', xi. split; [reflexivity|]. split; [assumption|].
  do 6 (apply rbind_ok in HR as (? & _ & HR)). apply rbind_ok in HR as (? & _ & HR). injection HR as <- _. apply cong_mod.
Qed.

Lemma zero_polys_0 t ps : Forall (zero_poly t) ps -> peval (psum ps) 0 = 0.
Proof.
  intros F. rewrite peval_psum. induction F as [|p ps [_ Hp] F IH]; [reflexivity|]. cbn [map]. now rewrite zsum_cons, peval_0, Hp, IH.
Qed.

(** Phases 2 and 3 together: the new shares lie on the refreshed polynomial. *)
Lemma refreshed_shares h keys partyIDs ids cs k0 deals ps deltas new i : committee h keys partyIDs ids cs ->
  length ps = length keys -> map snd deals = map (fun p => map (fun id => peval p id mod q) ids) ps ->
  mapM (refresh_delta q (length keys) (map Some ids) deals) (seq 0 (length keys)) = Ok deltas ->
  mapM (refresh_share S256 k0 (map Some keys)) (enum deltas) = Ok new -> (i < length keys)%nat ->
  cong q (nth i (map fst new) 0) (peval (padd cs (psum ps)) (nth i ids 0)).
Proof.
  intros C Lps Eps Edl En Hi. destruct (committee_length _ _ _ _ _ C) as [Li _].
  destruct (mapM_nth _ _ _ i i Edl) as (d & Ed & Nd); [now apply nth_error_seq_0|].
  apply (refresh_delta_run _ _ _ _ _ _ Lps) in Ed; [|lia|assumption].
  destruct (mapM_nth _ _ _ i (i, d) En) as ([x X] & Es & Nx); [now apply enum_nth|].
  apply refresh_share_run in Es as (k & xi & Ek & Ex & Cx).
  destruct (committee_key _ _ _ _ _ i k C Ek) as (_ & _ & _ & _ & _ & _ & xi' & Ex' & Cxi). rewrite Ex in Ex'. injection Ex' as <-.
  apply (map_nth_error fst) in Nx. rewrite (nth_error_nth _ _ 0 Nx). cbn [fst]. now rewrite peval_padd, Cx, Cxi, Ed.
Qed.

Lemma Refresh_run h keys partyIDs ids cs rng sys out rng' sys' : committee h keys partyIDs ids cs ->
  Forall is_byte rng -> Forall is_byte sys -> Refresh h (map Some keys) rng sys = Ok (out, rng', sys') ->
  exists cs', committee h out partyIDs ids cs' /\ peval cs' 0 = peval cs 0 /\ length cs' = length cs /\ length out = length keys.
Proof.
  intros C Fr Fs HR. unfold Refresh in HR. destruct (committee_length _ _ _ _ _ C) as [Li Lp].
  destruct keys as [|k0 ks] eqn:Ek; [now destruct (cm_keys _ _ _ _ _ C)|]. rewrite <- Ek in *.
  destruct (committee_key _ _ _ _ _ 0 k0 C) as (N0 & T0 & _ & P0 & C0 & I0 & _); [now rewrite Ek|].
  assert (Hn : (0 < length keys)%nat) by (rewrite Ek; cbn; lia).
  assert (Hc : (0 < length cs)%nat) by (pose proof (cm_poly _ _ _ _ _ C); destruct cs; [contradiction|cbn; lia]).
  apply rbind_ok in HR as (_ & _ & HR). apply rbind_ok in HR as (k0' & E0 & HR). rewrite Ek in E0. injection E0 as <-.
  cbn [deref rbind] in HR. cbv zeta in HR. rewrite C0, P0, I0, N0 in HR. cbn [deref rbind] in HR.
  apply rbind_ok in HR as (_ & _ & HR). apply rbind_ok in HR as (_ & _ & HR).
  rewrite (refresh_ids_ok h _ partyIDs ids (cm_ids _ _ _ _ _ C)) in HR by lia. cbn [rbind] in HR. rewrite Nat2Z.id in HR.
  apply rbind_ok in HR as ([deals rng1] & Ed & HR).
  destruct (zero_deals_run _ _ _ _ _ _ Fr Ed) as (F1 & ps & Lps & Fp & Eps). rewrite length_seq in Lps.
  apply rbind_ok in HR as (deltas & Edl & HR). apply rbind_ok in HR as (new & En & HR).
  apply rbind_ok in HR as ([nonce rng2] & E1 & HR). apply rewrap_ok in E1. destruct (ReadFull_byte _ _ _ _ F1 E1) as (_ & _ & F2).
  apply rbind_ok in HR as (x0 & _ & HR). apply rbind_ok in HR as ([[ot rng3] sys1] & Eo & HR). apply rewrap_ok in Eo.
  destruct (setupPairs_run (L := L) (CT := CT) Hneg _ _ _ _ _ _ _ F2 Fs Eo) as [W _]. rewrite Nat2Z.id in W.
  apply rbind_ok in HR as ([out0 sys2] & Eout & HR). injection HR as -> <- <-. apply assemble_run in Eout as ->.
  assert (Ld : length deltas = length keys) by (apply mapM_inv, Forall2_length in Edl; now rewrite length_seq in Edl).
  assert (Ln : length new = length keys)
    by (apply mapM_inv, Forall2_length in En; unfold enum in En; rewrite length_combine, length_seq, Nat.min_id in En; congruence).
  assert (Lc : length (psum ps) = length cs).
  { replace (length cs) with (S (Z.to_nat (kT k0))) by lia. apply psum_length; [destruct ps; [cbn in Lps; lia|discriminate]|].
    eapply List.Forall_impl; [|exact Fp]. now intros p [Hp _]. }
  exists (padd cs (psum ps)).
  assert (E00 : peval (padd cs (psum ps)) 0 = peval cs 0) by (rewrite peval_padd, (zero_polys_0 _ _ Fp); ring).
  split; [|split; [exact E00|split; [rewrite padd_length; lia|rewrite length_map; unfold enum; rewrite length_combine, length_seq, length_map; lia]]].
  constructor; [|apply C|apply keys_common| |].
  - rewrite <- E00. apply keys_consistent; rewrite ?Nat2Z.id; try assumption; [lia|lia| | | | | |].
    + apply C.
    + lia.
    + apply (co_distinct _ _ _ _ (cm_consistent _ _ _ _ _ C)).
    + rewrite padd_length. lia.
    + now rewrite length_map.
    + intros i Hi. eapply refreshed_shares; eassumption.
  - destruct new; [cbn in Ln; lia|discriminate].
  - intros E. apply (f_equal (length (A := Z))) in E. rewrite padd_length in E. cbn in E. lia.
Qed.

(** ** Resharing *)
(** A caller may leave nil the keys of the parties that do not take part. *)
Definition masked (old : list (option Key)) (keys : list Key) : Prop :=
  length old = length keys /\ forall i k, nth_error old i = Some (Some k) -> nth_error keys i = Some k.

Lemma old_participants_run old pub l ks : old_participants old pub l = Ok ks ->
  Forall (fun i => 0 <= i < Z.of_nat (length old)) l /\ NoDup l /\ Forall2 (fun i k => idxZ old i = Ok (Some k)) l ks.
Proof.
  intros HR. unfold old_participants in HR. apply rbind_ok in HR as ([seen ks'] & HR & E). injection E as <-.
  set (P := fun done (st : gset Z * list Key) => (forall i, i ∈ fst st <-> In i done) /\ NoDup done /\
    Forall (fun i => 0 <= i < Z.of_nat (length old)) done /\ Forall2 (fun i k => idxZ old i = Ok (Some k)) done (snd st)).
  assert (K : P ([] ++ l) (seen, ks')).
  { eapply (foldM_done P); [| |exact HR].
    - clear. intros done i [seen ks] st' (S1 & S2 & S3 & S4) E. cbn [fst snd] in *.
      apply rbind_ok in E as ([] & G1 & E). apply guard_ok, negb_true_iff, orb_false_iff in G1 as [G1 G2].
      apply Z.ltb_ge in G1. apply Z.leb_gt in G2.
      apply rbind_ok in E as ([] & G3 & E). apply guard_ok, negb_true_iff, bool_decide_eq_false in G3.
      apply rbind_ok in E as ([k|] & Ek & E); [|discriminate]. apply rbind_ok in E as (? & _ & E).
      apply rbind_ok in E as (_ & _ & E). injection E as <-. unfold P. cbn [fst snd]. rewrite S1 in G3. split; [|split; [|split]].
      + intros j. rewrite elem_of_union, elem_of_singleton, S1, in_app_iff. cbn. intuition congruence.
      + apply List.NoDup_app; [assumption|repeat constructor; auto|]. intros y Hy [<-|[]]. contradiction.
      + apply Forall_app. split; [assumption|]. repeat constructor; lia.
      + apply List.Forall2_app; [assumption|]. now repeat constructor.
    - unfold P. cbn. split; [intros i; split; [intros E; now apply elem_of_empty in E|intros []]|]. repeat constructor. }
  destruct K as (_ & K2 & K3 & K4). auto.
Qed.

(** The participants are distinct members. *)
Lemma participants_members h keys partyIDs ids cs old l ks : committee h keys partyIDs ids cs -> masked old keys ->
  Forall2 (fun i k => idxZ old i = Ok (Some k)) l ks -> Forall (fun i => 0 <= i < Z.of_nat (length old)) l -> NoDup l ->
  Forall (member (map Some keys)) ks /\ NoDup (map kIdx ks).
Proof.
  intros C [Lo M] F2 Fr Nd.
  assert (K : Forall2 (fun i k => member (map Some keys) k /\ kIdx k = i) l ks).
  { clear Nd. induction F2 as [|i k l ks E F2 IH]; [constructor|]. pose proof (Forall_inv Fr) as Ri. cbv beta in Ri.
    constructor; [|apply IH; exact (Forall_inv_tail Fr)].
    unfold idxZ in E. rewrite (proj2 (Z.ltb_ge _ _)) in E by lia. apply idx_ok, M in E.
    destruct (committee_key _ _ _ _ _ _ _ C E) as (_ & _ & Ik & _). split; [|rewrite Ik; lia].
    exists (Z.to_nat i). rewrite length_map. split; [lia|]. split; [now apply map_nth_error|assumption]. }
  split.
  - apply List.Forall_forall. intros k Hk. now destruct (Forall2_In_r _ _ _ K k Hk) as (i & _ & Mk & _).
  - replace (map kIdx ks) with l; [assumption|]. clear - K. induction K as [|i k l ks [_ <-] K IH]; cbn; [reflexivity|now rewrite IH at 1].
Qed.

(** Phase 1: one polynomial of the new degree per participant, whose constant
    term is the participant's weighted share. *)
Record redealt (t : Z) (ids : list Z) (done : list (Z * Key)) (st : dealing) (ps : list (list Z)) : Prop := {
  rd_hd : Forall2 (fun lk p => exists xi, kXi (snd lk) = Some xi /\ cong q (hd 0 p) (fst lk * xi)) done ps;
  rd_degree : Forall (fun p => length p = S (Z.to_nat t)) ps;
  rd_commit : fst (fst (fst st)) = map (commit_to (pt := pt)) ps;
  rd_shares : snd (fst (fst st)) = map (fun p => shares_of (C := S256) t p ids) ps;
  rd_rng : Forall is_byte (snd (fst st));
  rd_sys : Forall is_byte (snd st)
}.

Lemma reshare_deal_run t ids l rng sys st : Forall is_byte rng -> Forall is_byte sys ->
  foldM (reshare_deal S256 t ids) ([], [], rng, sys) l = Ok st -> exists ps, redealt t ids l st ps.
Proof.
  pose proof q_gt_1 as Q1. intros Fr Fs HR.
  change (exists ps, redealt t ids ([] ++ l) st ps).
  eapply (foldM_done (fun done st => exists ps, redealt t ids done st ps)); [| |exact HR].
  - intros done [lam k] [[[cm sh] rg] sy] st' (ps & [D1 D2 D3 D4 D5 D6]) E. cbn [fst snd] in *. subst cm sh. unfold reshare_deal in E.
    apply rbind_ok in E as (xi & Ex & E). apply deref_ok in Ex. apply rbind_ok in E as (sc & Em & E).
    rewrite Mod_ok in Em by lia. injection Em as Em. pose proof (Z.mod_pos_bound (lam * xi) q) as Rs. rewrite Em in Rs.
    apply rbind_ok in E as (_ & _ & E). apply rbind_ok in E as ([[[Vs Sh] sy1] rg1] & E2 & E). apply rewrap_ok in E2. injection E as <-.
    destruct (Create_inv (L := L) (CT := CT) Hne t sc ids sy rg _ _ _ _ ltac:(lia) D5 D6 E2) as (_ & cs & Lc & -> & -> & F2 & F3).
    exists (ps ++ [sc :: cs]). constructor; cbn [fst snd]; rewrite ?map_app; try assumption; try reflexivity.
    + apply List.Forall2_app; [assumption|]. constructor; [|constructor]. exists xi. cbn. split; [assumption|].
      rewrite <- Em. apply cong_mod.
    + apply Forall_app. split; [assumption|]. constructor; [cbn; now rewrite Lc|constructor].
  - exists []. constructor; cbn; auto.
Qed.

(** The constant terms add up to the secret. *)
Lemma redealt_secret h keys partyIDs ids cs t newIDs lams ks st ps : committee h keys partyIDs ids cs ->
  Forall (member (map Some keys)) ks -> NoDup (map kIdx ks) -> ks <> [] -> (length cs <= length ks)%nat ->
  Forall2 (fun l k => cong q l (lam q (map (fun y => y mod q) (map (id_of ids) ks)) (id_of ids k mod q))) lams ks ->
  redealt t newIDs (combine lams ks) st ps -> cong q (peval (psum ps) 0) (peval cs 0).
Proof.
  intros C Fm Nd Hk Hl F2 D. pose proof (cm_consistent _ _ _ _ _ C) as CK.
  rewrite <- (interpolate_members h (map Some keys) ids cs CK ks Fm Nd Hk Hl), peval_psum.
  set (g := fun k => lam q (map (fun y => y mod q) (map (id_of ids) ks)) (id_of ids k mod q)) in *.
  pose proof (rd_hd _ _ _ _ _ D) as HH. clear D Nd Hk Hl. unfold g in F2. fold g in F2.
  change (cong q (zsum (map (fun p => peval p 0) ps)) (zsum (map (fun k => peval cs (id_of ids k) * g k) ks))).
  change (Forall2 (fun l k => cong q l (g k)) lams ks) in F2. generalize dependent g. intros g F2. revert ps HH.
  induction F2 as [|l k lams ks Cl F2 IH]; intros ps HH; cbn [combine] in HH; inversion HH as [|? p ? ps' (xi & Ex & Cx) HH']; subst; [reflexivity|].
  cbn [map fst snd] in *. rewrite !zsum_cons, peval_0, (IH (Forall_inv_tail Fm) _ HH'), Cx, Cl.
  destruct (member_facts h (map Some keys) ids cs CK k (Forall_inv Fm)) as (_ & _ & _ & _ & xi' & Ex' & Cx'). rewrite Ex in Ex'. injection Ex' as <-.
  rewrite Cx'. apply cong_eq. ring.
Qed.

(** The first participant's public key is the committee's, and its curve. *)
Lemma old_key h keys partyIDs ids cs old i k : committee h keys partyIDs ids cs -> masked old keys ->
  idxZ old i = Ok (Some k) -> kECDSAPub k = Some (pnt (peval cs 0)) /\ kCurve k = Some S256 /\ kT k + 1 = Z.of_nat (length cs).
Proof.
  intros C [Lo M] E. unfold idxZ in E. destruct (Z.ltb_spec i 0); [discriminate|]. apply idx_ok, M in E.
  destruct (committee_key _ _ _ _ _ _ _ C E) as (_ & Tk & _ & Pk & Ck & _). auto.
Qed.

Lemma Reshare_run h keys partyIDs ids cs old l newPartyIDs tNew rng sys out rng' sys' : committee h keys partyIDs ids cs ->
  masked old keys -> Forall is_byte rng -> Forall is_byte sys ->
  Reshare h old l newPartyIDs tNew rng sys = Ok (out, rng', sys') ->
  exists ids' cs', committee h out newPartyIDs ids' cs' /\ cong q (peval cs' 0) (peval cs 0) /\
    Z.of_nat (length cs') = tNew + 1 /\ length out = length newPartyIDs.
Proof.
  pose proof q_gt_1 as Q1. intros C M Fr Fs HR. unfold Reshare in HR.
  apply rbind_ok in HR as (_ & _ & HR). apply rbind_ok in HR as (k0 & E0 & HR). apply rbind_ok in HR as (k0' & Ed0 & HR).
  apply deref_ok in Ed0. subst k0. change (idx old 0) with (idxZ old 0) in E0.
  destruct (old_key _ _ _ _ _ _ _ _ C M E0) as (_ & _ & T0). cbv zeta in HR.
  apply rbind_ok in HR as ([] & G1 & HR). apply guard_ok, negb_true_iff, Z.ltb_ge in G1.
  apply rbind_ok in HR as (_ & _ & HR). apply rbind_ok in HR as ([] & G2 & HR).
  apply guard_ok, negb_true_iff, orb_false_iff in G2 as [G2 G3]. apply Z.ltb_ge in G2. apply Z.leb_gt in G3.
  apply rbind_ok in HR as (i0 & _ & HR). apply rbind_ok in HR as (kf & Ef & HR). apply rbind_ok in HR as (kf' & Edf & HR).
  apply deref_ok in Edf. subst kf. destruct (old_key _ _ _ _ _ _ _ _ C M Ef) as (Pf & Cf & _). rewrite Pf, Cf in HR.
  cbn [deref rbind] in HR. apply rbind_ok in HR as (ks & Ek & HR). apply old_participants_run in Ek as (Fl & Ndl & F2).
  destruct (participants_members _ _ _ _ _ _ _ _ C M F2 Fl Ndl) as [Fm Nd]. apply Forall2_length in F2.
  apply rbind_ok in HR as (newIDs & En & HR). apply rbind_ok in HR as (ids' & Ec & HR). apply rewrap_ok in Ec.
  assert (ids' = newIDs) as -> by (unfold CheckIndexes in Ec; apply rbind_ok in Ec as (? & _ & Ec); now injection Ec).
  apply (CheckIndexes_ok (L := L)) in Ec as [_ Dist]. pose proof (cm_consistent _ _ _ _ _ C) as CK.
  rewrite (mapM_ok _ (id_of ids)) in HR by (intros k Hk; rewrite List.Forall_forall in Fm; now apply (member_facts h (map Some keys) ids cs CK), Fm).
  cbn [rbind] in HR. pose proof (ids_distinct h (map Some keys) ids cs CK ks Fm Nd) as D.
  destruct (lambdas_ok ids "dklstss: Reshare lagrange" ks [] D) as (lams & El & FL). cbn [app length] in El, FL.
  rewrite El in HR. cbn [rbind] in HR.
  apply rbind_ok in HR as ([[[cm sh] rng1] sys1] & Edl & HR).
  destruct (reshare_deal_run _ _ _ _ _ _ Fr Fs Edl) as (ps & RD). pose proof RD as [Hh Fp Ecm Esh F1 F3]. cbn [fst snd] in *. subst cm sh.
  assert (Hks : ks <> []) by (intros ->; cbn in F2; pose proof (cm_poly _ _ _ _ _ C); destruct cs; [contradiction|cbn in T0; lia]).
  assert (Hps : ps <> []).
  { intros ->. inversion Hh as [E|]; subst. apply Forall2_length in FL. destruct lams, ks; discriminate || contradiction. }
  assert (S0 : cong q (peval (psum ps) 0) (peval cs 0)) by (eapply redealt_secret; try eassumption; lia).
  apply rbind_ok in HR as (xj & Ex & HR). apply rbind_ok in HR as (BigXj & _ & HR). apply rbind_ok in HR as (rp & _ & HR).
  apply rbind_ok in HR as (sm & _ & HR). apply rbind_ok in HR as ([] & _ & HR).
  apply rbind_ok in HR as ([nonce rng2] & E1 & HR). apply rewrap_ok in E1. destruct (ReadFull_byte _ _ _ _ F1 E1) as (_ & _ & F4).
  apply rbind_ok in HR as (x0 & _ & HR). apply rbind_ok in HR as ([[ot rng3] sys2] & Eo & HR). apply rewrap_ok in Eo.
  destruct (setupPairs_run (L := L) (CT := CT) Hneg _ _ _ _ _ _ _ F4 F3 Eo) as [W _].
  apply rbind_ok in HR as ([out0 sys3] & Eout & HR). injection HR as -> <- <-. apply assemble_run in Eout as ->.
  assert (Lx : length xj = length newPartyIDs) by (apply mapM_inv, Forall2_length in Ex; now rewrite length_seq in Ex).
  assert (Ln : length newIDs = length newPartyIDs) by (apply mapM_inv, Forall2_length in En; lia).
  assert (Lc : length (psum ps) = S (Z.to_nat tNew)) by now apply psum_length.
  exists newIDs, (psum ps). rewrite <- (mkpt_cong (L := L) _ _ S0).
  split; [|split; [exact S0|split; [lia|rewrite length_map; unfold enum; rewrite length_combine, length_seq, Nat.min_id; exact Lx]]].
  constructor; [|assumption|apply keys_common| |].
  - apply keys_consistent; try assumption; [lia|lia|reflexivity|lia|]. rewrite Nat2Z.id. intros i Hi.
    destruct (mapM_nth _ _ _ i i Ex) as (x & Er & Ex'); [now apply nth_error_seq_0|]. rewrite (nth_error_nth _ _ 0 Ex').
    unfold reshare_receive in Er. rewrite length_map in Er.
    apply (collect_run _ _ tNew newIDs ps i x (nth i newIDs 0) eq_refl) in Er as [_ Cx]; [assumption|].
    apply nth_error_nth_lt. lia.
  - destruct xj; [cbn in Lx; lia|discriminate].
  - destruct (psum ps); discriminate.
Qed.

(** ** Import *)
Lemma ImportKey_run reg h priv partyID sys k sys' : Forall is_byte sys -> ImportKey reg h priv partyID sys = Ok (k, sys') ->
  exists d id, option_map ekD priv = Some (Some d) /\ d mod q <> 0 /\ committee h [k] [partyID] [id] [d mod q].
Proof.
  pose proof q_gt_1 as Q1. intros Fs HR. unfold ImportKey in HR. destruct priv as [priv|]; [|discriminate].
  apply rbind_ok in HR as (_ & _ & HR). apply rbind_ok in HR as (_ & _ & HR). apply rbind_ok in HR as (d & Ed & HR).
  apply deref_ok in Ed. apply rbind_ok in HR as (c & _ & HR). apply rbind_ok in HR as (_ & _ & HR). apply rbind_ok in HR as (_ & _ & HR).
  rewrite Mod_ok in HR by lia. cbn [rbind] in HR. apply rbind_ok in HR as ([] & G & HR). apply guard_ok, negb_true_iff, Z.eqb_neq in G.
  pose proof (Z.mod_pos_bound d q (Z.lt_trans _ _ _ Z.lt_0_1 Q1)) as Rd.
  apply rbind_ok in HR as ([pub sys1] & Ep & HR). destruct (ct_base (CtCurve := CT) _ _ _ _ (proj1 Rd) Fs Ep) as [-> F1].
  apply rbind_ok in HR as (_ & _ & HR). apply rbind_ok in HR as (id & Eid & HR). apply rbind_ok in HR as (_ & _ & HR).
  cbn [deref rbind] in HR. apply rbind_ok in HR as (chain & _ & HR). apply rbind_ok in HR as (sys2 & _ & HR). injection HR as <- <-.
  exists d, id. split; [cbn; now rewrite Ed|]. split; [lia|]. constructor; [|cbn; now rewrite Eid|repeat constructor|discriminate|discriminate].
  constructor; [reflexivity| | |].
  - unfold distinct. cbn. repeat constructor. intros [].
  - intros [|i] Hi; [|cbn in Hi; lia]. eexists. split; [reflexivity|]. cbn. repeat (split; [reflexivity|]).
    split; [do 3 f_equal; lia|]. split; [unfold own_id; cbn; exact Eid|]. eexists. split; [reflexivity|]. apply cong_eq. ring.
  - intros i j ki kj Hij Ei Ej. destruct i as [|[|]], j as [|[|]]; cbn in Ei, Ej; discriminate || lia.
Qed.

(** ** The life of a committee *)
(** How a set of keys comes into being, and how it is replaced. *)
Inductive started (h : Heap) : list Key -> Prop :=
| started_keygen n t partyIDs rng sys keys rng' sys' : Forall is_byte rng -> Forall is_byte sys ->
    Keygen h n t partyIDs rng sys = Ok (keys, rng', sys') -> started h keys
| started_import reg priv partyID sys k sys' : Forall is_byte sys ->
    ImportKey reg h priv partyID sys = Ok (k, sys') -> started h [k].

Inductive replaced (h : Heap) (keys : list Key) : list Key -> Prop :=
| replaced_refresh rng sys keys' rng' sys' : Forall is_byte rng -> Forall is_byte sys ->
    Refresh h (map Some keys) rng sys = Ok (keys', rng', sys') -> replaced h keys keys'
| replaced_reshare old l newPartyIDs tNew rng sys keys' rng' sys' : masked old keys -> Forall is_byte rng -> Forall is_byte sys ->
    Reshare h old l newPartyIDs tNew rng sys = Ok (keys', rng', sys') -> replaced h keys keys'.

Inductive life (h : Heap) (keys0 : list Key) : list Key -> Prop :=
| life_start : started h keys0 -> life h keys0 keys0
| life_next keys keys' : life h keys0 keys -> replaced h keys keys' -> life h keys0 keys'.

Lemma committee_pub h keys partyIDs ids cs : committee h keys partyIDs ids cs ->
  Forall (fun k => kECDSAPub k = Some (pnt (peval cs 0))) keys.
Proof.
  intros C. apply List.Forall_forall. intros k Hk. apply In_nth_error in Hk as [i E].
  now destruct (committee_key _ _ _ _ _ _ _ C E) as (_ & _ & _ & P & _).
Qed.

Lemma started_committee h keys : started h keys -> exists partyIDs ids cs, committee h keys partyIDs ids cs.
Proof.
  intros [n t partyIDs rng sys keys' rng' sys' Fr Fs HK|reg priv partyID sys k sys' Fs HK].
  - destruct (Keygen_run (L := L) (CT := CT) Hneg Hne _ _ _ _ _ _ _ _ _ Fr Fs HK) as (ids & cs & Ht & Lk & Lc & CK & _ & Ei & Fc).
    exists partyIDs, ids, cs. constructor; try assumption; [destruct keys'|destruct cs]; cbn in *; try discriminate; lia.
  - destruct (ImportKey_run _ _ _ _ _ _ _ Fs HK) as (d & id & _ & _ & C). eauto.
Qed.

(** Every replacement is a committee over the same secret. *)
Lemma replaced_committee h keys keys' partyIDs ids cs : committee h keys partyIDs ids cs -> replaced h keys keys' ->
  exists partyIDs' ids' cs', committee h keys' partyIDs' ids' cs' /\ cong q (peval cs' 0) (peval cs 0).
Proof.
  intros C [rng sys out rng' sys' Fr Fs HR|old l new tNew rng sys out rng' sys' M Fr Fs HR].
  - destruct (Refresh_run _ _ _ _ _ _ _ _ _ _ C Fr Fs HR) as (cs' & C' & E & _).
    exists partyIDs, ids, cs'. split; [assumption|]. now rewrite E.
  - destruct (Reshare_run _ _ _ _ _ _ _ _ _ _ _ _ _ _ C M Fr Fs HR) as (ids' & cs' & C' & E & _). eauto 6.
Qed.

Lemma life_committee h keys0 keys : life h keys0 keys ->
  exists partyIDs ids cs, committee h keys partyIDs ids cs /\ Forall (fun k => kECDSAPub k = Some (pnt (peval cs 0))) keys0.
Proof.
  induction 1 as [ST|keys keys' _ (partyIDs & ids & cs & C & F) HR].
  - destruct (started_committee _ _ ST) as (partyIDs & ids & cs & C). exists partyIDs, ids, cs. split; [assumption|].
    eapply committee_pub. eassumption.
  - destruct (replaced_committee _ _ _ _ _ _ C HR) as (partyIDs' & ids' & cs' & C' & E). exists partyIDs', ids', cs'.
    split; [assumption|]. now rewrite (mkpt_cong (L := L) _ _ E).
Qed.

(** Any threshold of a committee's keys signs. *)
Lemma committee_signs h keys partyIDs ids cs signerIdx tweak (hash : bytes) (rd sysS nonce rd1 : reader) draws rd2 :
  2 < q -> Z.odd (cP S256) = true -> committee h keys partyIDs ids cs ->
  Z.of_nat (length signerIdx) = Z.of_nat (length cs) -> Forall (fun i => 0 <= i < Z.of_nat (length keys)) signerIdx -> NoDup signerIdx ->
  hash <> [] -> Forall is_byte hash -> Forall is_byte rd -> Forall is_byte sysS -> ct_healthy sysS ->
  ReadFull 16 rd = Ok (nonce, rd1) -> rmapM (fun _ => draw_nonce) signerIdx rd1 = Ok (draws, rd2) ->
  exists prs, draws = map (nonce_of (pt := pt)) prs /\
  ((exists sg sysS', SignWithTweak h (map Some keys) signerIdx tweak hash (Some rd) sysS = Ok (sg, Some rd2, sysS') /\
     good_signature (pt := pt) (peval cs 0 + tweak_of tweak) hash sg) \/
  (exists e, SignWithTweak h (map Some keys) signerIdx tweak hash (Some rd) sysS = Err e /\
     degenerate (pt := pt) sign_texts prs (peval cs 0 + tweak_of tweak) hash e)).
Proof.
  intros Q2 Hodd C Hl Fi Nd Hh Hb Frd Fss Hhe En Ed.
  apply (signCore_run (L := L) (CT := CT) Hneg h (map Some keys) ids cs signerIdx tweak hash rd sysS nonce rd1 draws rd2);
    try assumption.
  - apply C.
  - pose proof (cm_keys _ _ _ _ _ C). now destruct keys.
  - apply C.
  - lia.
  - now rewrite length_map.
Qed.
End Life.

(** ** Evaluation on a concrete input *)
(** A refresh of the two keys that [w_keygen_pair] makes: polynomials [4 x] and [6 x]. *)
Definition w_nonce : bytes := repeat 3 16.
Definition w_refresh_pre : bytes := Eval vm_compute in
  match ECPoint_X (tpnt 8) with Ok x => str "DKLS23-refresh-otsetup-v1-" ++ Bytes x ++ [124] ++ w_nonce | _ => [] end.
Definition w_reshare_pre : bytes := Eval vm_compute in
  match ECPoint_X (tpnt 8) with Ok x => str "DKLS23-reshare-otsetup-v1-" ++ Bytes x ++ [124] ++ w_nonce | _ => [] end.
Definition w_deals : list (list (option ECPoint) * list Z) :=
  [([Some (tpnt 4)], [4; 8]); ([Some (tpnt 6)], [6; 12])].

Lemma w_deals_run (r : reader) : rmapM (fun _ => zero_deal toy256 1 [Some 1; Some 2]) [0%nat; 1%nat] (4 :: 6 :: r) = Ok (w_deals, r).
Proof. reflexivity. Qed.
Lemma w_deltas : mapM (refresh_delta 31 2 [Some 1; Some 2] w_deals) [0%nat; 1%nat] = Ok [10; 20].
Proof. vm_compute. reflexivity. Qed.
Lemma w_new k0 ot chain : kBigXj k0 = [Some (tpnt 17); Some (tpnt 26)] ->
  mapM (refresh_share toy256 k0 (map Some (w_pair 17 26 8 ot chain))) (enum [10; 20]) =
  Ok [(27, Some (tpnt 27)); (15, Some (tpnt 15))].
Proof. intros E. cbn [enum length seq combine mapM]. unfold refresh_share. rewrite E. reflexivity. Qed.

Lemma w_refresh ot chain (tl sys : reader) rest : length chain = 32%nat -> Forall is_byte tl -> Forall is_byte sys ->
  toy_healthy_m (w_setup_cost (2 + rest)) sys ->
  exists rA sA rB sB sys', @Refresh toy_hash toy_curves toy_secp toy_ed w_kheap (map Some (w_pair 17 26 8 ot chain))
      (4 :: 6 :: w_nonce ++ w_seg ++ w_seg ++ tl) sys = Ok (w_pair 27 15 8 (w_matrix rA sA rB sB) chain, tl, sys') /\
    Forall is_byte sys' /\ toy_healthy_m rest sys'.
Proof.
  intros Hc Ft Fs Hh.
  destruct (w_setup w_refresh_pre tl sys (2 + rest)) as (rA & sA & rB & sB & sys1 & Es & G1 & H1); [exact Ft|exact Fs|vm_compute; reflexivity|exact Hh|].
  destruct (w_assemble "dklstss: Refresh produced invalid key for party %d" 27 15 8 (Some (tpnt 8)) chain
    [Some (tpnt 27); Some (tpnt 15)] rA sA rB sB sys1 rest) as (sys2 & Ea & G2 & H2);
    [lia|lia|discriminate|reflexivity|exact Hc|reflexivity|reflexivity|reflexivity|exact G1|exact H1|].
  exists rA, sA, rB, sB, sys2. split; [|auto]. unfold Refresh.
  change (length (map Some (w_pair 17 26 8 ot chain)) =? 0)%nat with false. cbn [negb guard rbind].
  set (k0 := key_of 2 1 [0%nat; 1%nat] [Some (tpnt 17); Some (tpnt 26)] (Some (tpnt 8)) ot chain (0%nat, 17)).
  change (idx (map Some (w_pair 17 26 8 ot chain)) 0) with (Ok (Some k0)). cbn [rbind deref].
  change (kCurve k0) with (Some toy256). change (kN k0) with 2. change (kT k0) with 1. change (kECDSAPub k0) with (Some (tpnt 8)).
  change (kPartyIDs k0) with [0%nat; 1%nat]. change (kChainCode k0) with chain. cbn [rbind deref].
  change (Z.of_nat (length (map Some (w_pair 17 26 8 ot chain))) =? 2) with true. cbn [guard rbind].
  change (refresh_check 2 1 (Some (tpnt 8)) (map Some (w_pair 17 26 8 ot chain))) with (Ok tt). cbn [rbind].
  change (refresh_ids w_kheap 2 [0%nat; 1%nat]) with (Ok [Some 1; Some 2]). cbn [rbind].
  change (Z.to_nat 2) with 2%nat. cbn [seq]. rewrite w_deals_run. cbn [rbind]. change (cN toy256) with 31. rewrite w_deltas. cbn [rbind].
  rewrite w_new by reflexivity. cbn [rbind map fst snd].
  change (ReadFull 16 (w_nonce ++ w_seg ++ w_seg ++ tl)) with (@Ok (bytes * reader) (w_nonce, w_seg ++ w_seg ++ tl)). cbn [rewrap rbind].
  change (ECPoint_X (tpnt 8)) with (Ok (fst (toy256_pt 8))). cbn [rbind].
  assert (Epre : str "DKLS23-refresh-otsetup-v1-" ++ Bytes (fst (toy256_pt 8)) ++ [124] ++ w_nonce = w_refresh_pre) by (vm_compute; reflexivity).
  rewrite Epre. clear Epre.
  rewrite Es. cbn [rewrap rbind]. cbv zeta in Ea. change (@S256 toy_curves) with toy256 in Ea. rewrite Ea. reflexivity.
Qed.

(** A resharing of the refreshed keys to the same parties: [23 + 2 x] and [16 + 5 x]. *)
Lemma w_redeal lam k xi u a (tl sys : reader) cm sh rest : kXi k = Some xi -> (lam * xi) mod 31 = u -> 1 <= u < 31 ->
  Forall is_byte (a :: tl) -> Forall is_byte sys ->
  @samplePolynomial toy256 1 (Some u) (a :: tl) = Ok ([Some u; Some a], tl) -> toy_healthy_m (2 + rest)%nat sys ->
  exists sys', @reshare_deal toy_curves toy_secp toy_ed toy256 1 [1; 2] (cm, sh, (a :: tl : reader), sys) (lam, k) =
    Ok (cm ++ [map (fun a => Some (tpnt a)) [u; a]], sh ++ [shares_of (C := toy256) 1 [u; a] [1; 2]], tl, sys') /\
    Forall is_byte sys' /\ toy_healthy_m rest sys'.
Proof.
  intros Ex Eu Hu Fa Fs E2 Hh. unfold reshare_deal. rewrite Ex. cbn [deref rbind]. change (cN toy256) with 31.
  rewrite Mod_ok, Eu by lia. cbn [rbind]. rewrite (proj2 (Z.eqb_neq _ _)) by lia. cbn [negb guard rbind].
  destruct (Create_run (L := toy256_laws) (CT := toy256_ct) eq_refl 1 u [1; 2] sys (a :: tl) [Some u; Some a] tl rest)
    as (cs & sys' & Ep & F' & Hr & _ & _ & E); try assumption; try reflexivity; try (cbn; lia).
  destruct cs as [|c [|]]; try discriminate Ep. injection Ep as <-. rewrite E. cbn [rewrap rbind]. eauto.
Qed.

Definition w_recm : list (list (option ECPoint)) := [map (fun a => Some (tpnt a)) [23; 2]; map (fun a => Some (tpnt a)) [16; 5]].
Definition w_resh : list (list Share) := [shares_of (C := toy256) 1 [23; 2] [1; 2]; shares_of (C := toy256) 1 [16; 5] [1; 2]].

Lemma w_reshare ot chain (tl sys : reader) rest : length chain = 32%nat -> Forall is_byte tl -> Forall is_byte sys ->
  toy_healthy_m (2 + (2 + w_setup_cost (2 + rest)))%nat sys ->
  exists rA sA rB sB sys', @Reshare toy_hash toy_curves toy_secp toy_ed w_kheap (map Some (w_pair 27 15 8 ot chain)) [0; 1]
      [0%nat; 1%nat] 1 (2 :: 5 :: w_nonce ++ w_seg ++ w_seg ++ tl) sys =
      Ok (w_pair 15 22 8 (w_matrix rA sA rB sB) chain, tl, sys') /\
    Forall is_byte sys' /\ toy_healthy_m rest sys'.
Proof.
  intros Hc Ft Fs Hh. pose proof (w_seg_byte _ (w_seg_byte _ Ft)) as F1.
  assert (F0 : Forall is_byte (w_nonce ++ w_seg ++ w_seg ++ tl)) by (unfold w_nonce; cbn [repeat app]; do 16 (apply one_byte; [lia|]); exact F1).
  set (k0 := key_of 2 1 [0%nat; 1%nat] [Some (tpnt 27); Some (tpnt 15)] (Some (tpnt 8)) ot chain (0%nat, 27)).
  set (k1 := key_of 2 1 [0%nat; 1%nat] [Some (tpnt 27); Some (tpnt 15)] (Some (tpnt 8)) ot chain (1%nat, 15)).
  destruct (w_redeal 2 k0 27 23 2 (5 :: w_nonce ++ w_seg ++ w_seg ++ tl) sys [] [] (2 + w_setup_cost (2 + rest))) as (sys1 & E1 & G1 & H1);
    [reflexivity|reflexivity|lia|do 2 (apply one_byte; [lia|]); exact F0|exact Fs|reflexivity|exact Hh|].
  destruct (w_redeal 30 k1 15 16 5 (w_nonce ++ w_seg ++ w_seg ++ tl) sys1 [map (fun a => Some (tpnt a)) [23; 2]]
    [shares_of (C := toy256) 1 [23; 2] [1; 2]] (w_setup_cost (2 + rest))) as (sys2 & E2 & G2 & H2);
    [reflexivity|reflexivity|lia|apply one_byte; [lia|exact F0]|exact G1|reflexivity|exact H1|].
  destruct (w_setup w_reshare_pre tl sys2 (2 + rest)) as (rA & sA & rB & sB & sys3 & Es & G3 & H3); [exact Ft|exact G2|vm_compute; reflexivity|exact H2|].
  destruct (w_assemble "dklstss: Reshare produced invalid key for new party %d" 15 22 8 (Some (tpnt 8)) chain
    [Some (tpnt 15); Some (tpnt 22)] rA sA rB sB sys3 rest) as (sys4 & Ea & G4 & H4);
    [lia|lia|discriminate|reflexivity|exact Hc|reflexivity|reflexivity|reflexivity|exact G3|exact H3|].
  exists rA, sA, rB, sB, sys4. split; [|auto]. unfold Reshare.
  change (map Some (w_pair 27 15 8 ot chain)) with [Some k0; Some k1]. cbn [length Nat.eqb negb guard rbind idx nth_error deref].
  change (kT k0) with 1. change (Z.of_nat 2) with 2. change (2 <? 1 + 1) with false. change (2 =? 0) with false.
  change ((1 <? 1) || (2 <=? 1)) with false. cbn [negb guard rbind].
  change (idxZ [Some k0; Some k1] 0) with (Ok (Some k0)). cbn [rbind deref].
  change (kECDSAPub k0) with (Some (tpnt 8)). change (kCurve k0) with (Some toy256). change (kChainCode k0) with chain. cbn [rbind deref].
  assert (Eo : old_participants [Some k0; Some k1] (Some (tpnt 8)) [0; 1] = Ok [k0; k1]) by reflexivity. rewrite Eo. cbn [rbind].
  change (mapM (KeyInt w_kheap) [0%nat; 1%nat]) with (@Ok (list Z) [1; 2]). cbn [rbind].
  change (CheckIndexes toy256 [1; 2]) with (@Ok (list Z) [1; 2]). cbn [rewrap rbind].
  change (mapM (own_id w_kheap) [k0; k1]) with (@Ok (list Z) [1; 2]). cbn [rbind length seq mapM]. change (cN toy256) with 31.
  change (lagrangeCoefficient 31 [1; 2] (Z.of_nat 0)) with (Ok 2). change (lagrangeCoefficient 31 [1; 2] (Z.of_nat 1)) with (Ok 30).
  cbn [rewrap rbind combine foldM]. rewrite E1. cbn [rbind app]. rewrite E2. cbn [rbind app]. fold w_recm w_resh.
  assert (E15 : reshare_receive toy256 1 w_recm w_resh 0 = Ok 15) by (vm_compute; reflexivity). rewrite E15. cbn [rbind].
  assert (E22 : reshare_receive toy256 1 w_recm w_resh 1 = Ok 22) by (vm_compute; reflexivity). rewrite E22. cbn [rbind combine mapM].
  assert (P15 : reshare_public toy256 w_recm 1 15 = Ok (Some (tpnt 15))) by reflexivity. rewrite P15. cbn [rbind].
  assert (P22 : reshare_public toy256 w_recm 2 22 = Ok (Some (tpnt 22))) by reflexivity. rewrite P22. cbn [rbind].
  assert (P8 : reshare_pub w_recm = Ok (Some (tpnt 8))) by reflexivity. rewrite P8. cbn [rbind].
  change (ECPoint_Equals (Some (tpnt 8)) (Some (tpnt 8))) with (Ok true). cbn [rbind guard].
  change (ReadFull 16 (w_nonce ++ w_seg ++ w_seg ++ tl)) with (@Ok (bytes * reader) (w_nonce, w_seg ++ w_seg ++ tl)). cbn [rewrap rbind deref].
  change (ECPoint_X (tpnt 8)) with (Ok (fst (toy256_pt 8))). cbn [rbind].
  assert (Epre : str "DKLS23-reshare-otsetup-v1-" ++ Bytes (fst (toy256_pt 8)) ++ 124 :: w_nonce = w_reshare_pre) by (vm_compute; reflexivity).
  rewrite Epre. clear Epre.
  rewrite Es. cbn [rewrap rbind]. cbv zeta in Ea. change (@S256 toy_curves) with toy256 in Ea. rewrite Ea. reflexivity.
Qed.

(** ** Properties *)
Section Properties.
Context `{HS : Hash} `{AL : AesLaws} `{SH : Sha256} `{CS : Curves} `{SL : Secp256k1Lib} `{EL : Ed25519Lib}.
Context {pt : Z -> Z * Z} {L : CurveLaws S256 pt false} {CT : CtCurve S256 pt false}.
Abbreviation q := (cN S256).
Abbreviation pnt := (mkpt S256 pt).

(** C1. The life of a committee.  Start from key generation or from an imported key
    and apply any sequence of refreshes and resharings, to any committees: each set
    of keys reached has the public key of the first, and any threshold of its keys
    signs every digest under it, with the outcome described by [good_signature] and
    [degenerate]. *)
Theorem life_Sign_correct h keys0 keys
  (Hneg : forall a, pt (- a) = (fst (pt a), (- snd (pt a)) mod cP S256))
  (Hne : curve_eqb S256 Edwards = false) (Q2 : 2 < q) (Hodd : Z.odd (cP S256) = true)
  (HL : life h keys0 keys) :
  exists x t, Forall (fun k => kECDSAPub k = Some (pnt x)) keys0 /\
    Forall (fun k => kECDSAPub k = Some (pnt x) /\ kT k = t /\ kN k = Z.of_nat (length keys)) keys /\
  forall signerIdx tweak (hash : bytes) (rd sysS nonce rd1 : reader) draws rd2,
    Z.of_nat (length signerIdx) = t + 1 -> Forall (fun i => 0 <= i < Z.of_nat (length keys)) signerIdx -> NoDup signerIdx ->
    hash <> [] -> Forall is_byte hash -> Forall is_byte rd -> Forall is_byte sysS -> ct_healthy sysS ->
    ReadFull 16 rd = Ok (nonce, rd1) -> rmapM (fun _ => draw_nonce) signerIdx rd1 = Ok (draws, rd2) ->
    exists prs, draws = map (nonce_of (pt := pt)) prs /\
    ((exists sg sysS', SignWithTweak h (map Some keys) signerIdx tweak hash (Some rd) sysS = Ok (sg, Some rd2, sysS') /\
       good_signature (pt := pt) (x + tweak_of tweak) hash sg) \/
    (exists e, SignWithTweak h (map Some keys) signerIdx tweak hash (Some rd) sysS = Err e /\
       degenerate (pt := pt) sign_texts prs (x + tweak_of tweak) hash e)).
Proof.
  destruct (life_committee (L := L) (CT := CT) Hneg Hne h keys0 keys HL) as (partyIDs & ids & cs & C & F0).
  exists (peval cs 0), (Z.of_nat (length cs) - 1). split; [exact F0|]. split.
  - apply List.Forall_forall. intros k Hk. apply In_nth_error in Hk as [i E].
    destruct (committee_key _ _ _ _ _ _ _ C E) as (Nk & Tk & _ & Pk & _). repeat split; [exact Pk|lia|exact Nk].
  - intros signerIdx tweak hash rd sysS nonce rd1 draws rd2 Hl Fi Nd Hh Hb Frd Fss Hhe En Ed.
    apply (committee_signs (L := L) (CT := CT) Hneg h keys partyIDs ids cs signerIdx tweak hash rd sysS nonce rd1 draws rd2); try assumption. lia.
Qed.

(** C13. Refresh.  On the keys of a committee, a refresh that succeeds returns keys of
    the same parties and threshold whose shares lie on another polynomial with the
    same value at 0: the same secret and public key. *)
Theorem Refresh_correct h keys partyIDs ids cs rng sys out rng' sys'
  (Hneg : forall a, pt (- a) = (fst (pt a), (- snd (pt a)) mod cP S256))
  (C : committee (pt := pt) h keys partyIDs ids cs) (Fr : Forall is_byte rng) (Fs : Forall is_byte sys)
  (HR : Refresh h (map Some keys) rng sys = Ok (out, rng', sys')) :
  exists cs', committee (pt := pt) h out partyIDs ids cs' /\ peval cs' 0 = peval cs 0 /\
    length cs' = length cs /\ length out = length keys.
Proof. exact (Refresh_run (L := L) (CT := CT) Hneg h keys partyIDs ids cs rng sys out rng' sys' C Fr Fs HR). Qed.

(** C12. Resharing.  From the keys of a committee, with or without those of the parties
    that do not take part, a resharing that succeeds returns keys of the new
    parties and of the new threshold over a polynomial with the same secret. *)
Theorem Reshare_correct h keys partyIDs ids cs old l newPartyIDs tNew rng sys out rng' sys'
  (Hneg : forall a, pt (- a) = (fst (pt a), (- snd (pt a)) mod cP S256))
  (Hne : curve_eqb S256 Edwards = false)
  (C : committee (pt := pt) h keys partyIDs ids cs) (M : masked old keys) (Fr : Forall is_byte rng) (Fs : Forall is_byte sys)
  (HR : Reshare h old l newPartyIDs tNew rng sys = Ok (out, rng', sys')) :
  exists ids' cs', committee (pt := pt) h out newPartyIDs ids' cs' /\ cong q (peval cs' 0) (peval cs 0) /\
    Z.of_nat (length cs') = tNew + 1 /\ length out = length newPartyIDs.
Proof. exact (Reshare_run (L := L) (CT := CT) Hneg Hne h keys partyIDs ids cs old l newPartyIDs tNew rng sys out rng' sys' C M Fr Fs HR). Qed.

(** The keys of the parties that do not take part may be nil placeholders, says
    [Reshare]; when the first of them is one, it panics, whoever takes part. *)
Theorem Reshare_nil_first_panics h ks l newPartyIDs tNew rng sys :
  Reshare h (None :: ks) l newPartyIDs tNew rng sys = Panic "nil pointer dereference".
Proof. reflexivity. Qed.
End Properties.

Lemma masked_all keys : masked (map Some keys) keys.
Proof.
  split; [apply length_map|]. intros i k E. rewrite nth_error_map in E. destruct (nth_error keys i); [|discriminate]. now injection E as ->.
Qed.

(** The sizes of the system readers of the runs below. *)
Definition w_lsys : reader := repeat 1 (Z.to_nat 31040).
Lemma w_lsys_healthy n : (n <= 776)%nat -> toy_healthy_m n w_lsys.
Proof. intros Hn. apply toy_healthy_n. lia. Qed.

Lemma w_pair_keys : exists rA sA rB sB rng' sys',
  @Keygen toy_hash toy_sha toy_curves toy_secp toy_ed w_kheap 2 1 [0%nat; 1%nat] w_krng w_lsys =
    Ok (w_pair 17 26 8 (w_matrix rA sA rB sB) w_chain, rng', sys').
Proof.
  destruct (w_keygen_pair [] w_lsys 0 (List.Forall_nil _) (ones_byte _)) as (rA & sA & rB & sB & sys' & E & _);
    [apply w_lsys_healthy; unfold w_setup_cost, Kappa; lia|]. rewrite app_nil_r in E. eauto 8.
Qed.

Lemma w_committee rA sA rB sB rng' sys' :
  @Keygen toy_hash toy_sha toy_curves toy_secp toy_ed w_kheap 2 1 [0%nat; 1%nat] w_krng w_lsys =
    Ok (w_pair 17 26 8 (w_matrix rA sA rB sB) w_chain, rng', sys') ->
  exists ids cs, @committee toy_curves toy256_pt w_kheap (w_pair 17 26 8 (w_matrix rA sA rB sB) w_chain) [0%nat; 1%nat] ids cs.
Proof.
  intros E. destruct (@Keygen_run toy_hash toy_sha toy_curves toy_secp toy_ed toy256_pt toy256_laws toy256_ct toy_neg eq_refl
    _ _ _ _ _ _ _ _ _ w_krng_byte (ones_byte _) E) as (ids & cs & Ht & _ & Lc & CK & _ & Ei & Fc).
  exists ids, cs. constructor; try assumption; [discriminate|]. intros ->. discriminate Lc.
Qed.

Definition w_rrng (a b : Z) : reader := a :: b :: w_nonce ++ w_seg ++ w_seg ++ [].
Lemma w_rrng_byte a b : 0 <= a < 256 -> 0 <= b < 256 -> Forall is_byte (w_rrng a b).
Proof.
  intros Ha Hb. unfold w_rrng, w_nonce. cbn [repeat app]. do 18 (apply one_byte; [lia|]).
  apply w_seg_byte, w_seg_byte. constructor.
Qed.

Lemma Refresh_correct_witness : exists ot ot' rng' sys' ids cs cs',
  @Refresh toy_hash toy_curves toy_secp toy_ed w_kheap (map Some (w_pair 17 26 8 ot w_chain)) (w_rrng 4 6) w_lsys =
    Ok (w_pair 27 15 8 ot' w_chain, rng', sys') /\
  @committee toy_curves toy256_pt w_kheap (w_pair 17 26 8 ot w_chain) [0%nat; 1%nat] ids cs /\
  @committee toy_curves toy256_pt w_kheap (w_pair 27 15 8 ot' w_chain) [0%nat; 1%nat] ids cs' /\ peval cs' 0 = peval cs 0.
Proof.
  destruct w_pair_keys as (rA & sA & rB & sB & rng0 & sys0 & E0). destruct (w_committee _ _ _ _ _ _ E0) as (ids & cs & C).
  destruct (w_refresh (w_matrix rA sA rB sB) w_chain [] w_lsys 0 eq_refl (List.Forall_nil _) (ones_byte _))
    as (rA' & sA' & rB' & sB' & sys' & E & _); [apply w_lsys_healthy; unfold w_setup_cost, Kappa; lia|].
  destruct (@Refresh_correct toy_hash toy_curves toy_secp toy_ed toy256_pt toy256_laws toy256_ct _ _ _ _ _ _ _ _ _ _
    toy_neg C (w_rrng_byte 4 6 ltac:(lia) ltac:(lia)) (ones_byte _) E) as (cs' & C' & E' & _).
  exists (w_matrix rA sA rB sB), (w_matrix rA' sA' rB' sB'), [], sys', ids, cs, cs'. auto.
Defined.

Lemma Reshare_correct_witness : exists keys ot rng' sys' ids cs ids' cs',
  @committee toy_curves toy256_pt w_kheap keys [0%nat; 1%nat] ids cs /\
  @Reshare toy_hash toy_curves toy_secp toy_ed w_kheap (map Some keys) [0; 1] [0%nat; 1%nat] 1 (w_rrng 2 5) w_lsys =
    Ok (w_pair 15 22 8 ot w_chain, rng', sys') /\
  @committee toy_curves toy256_pt w_kheap (w_pair 15 22 8 ot w_chain) [0%nat; 1%nat] ids' cs' /\ cong 31 (peval cs' 0) (peval cs 0).
Proof.
  destruct w_pair_keys as (rA & sA & rB & sB & rng0 & sys0 & E0). destruct (w_committee _ _ _ _ _ _ E0) as (ids0 & cs0 & C0).
  destruct (w_refresh (w_matrix rA sA rB sB) w_chain [] w_lsys 0 eq_refl (List.Forall_nil _) (ones_byte _))
    as (rA1 & sA1 & rB1 & sB1 & sys1 & E1 & _); [apply w_lsys_healthy; unfold w_setup_cost, Kappa; lia|].
  destruct (@Refresh_run toy_hash toy_curves toy_secp toy_ed toy256_pt toy256_laws toy256_ct toy_neg _ _ _ _ _ _ _ _ _ _
    C0 (w_rrng_byte 4 6 ltac:(lia) ltac:(lia)) (ones_byte _) E1) as (cs & C & _).
  destruct (w_reshare (w_matrix rA1 sA1 rB1 sB1) w_chain [] w_lsys 0 eq_refl (List.Forall_nil _) (ones_byte _))
    as (rA2 & sA2 & rB2 & sB2 & sys2 & E2 & _); [apply w_lsys_healthy; unfold w_setup_cost, Kappa; lia|].
  destruct (@Reshare_correct toy_hash toy_curves toy_secp toy_ed toy256_pt toy256_laws toy256_ct _ _ _ _ _ _ _ _ _ _ _ _ _ _
    toy_neg eq_refl C (masked_all _) (w_rrng_byte 2 5 ltac:(lia) ltac:(lia)) (ones_byte _) E2) as (ids' & cs' & C' & E' & _).
  do 8 eexists. split; [exact C|]. split; [exact E2|]. split; [exact C'|exact E'].
Defined.

(** Key generation, a refresh and a resharing, then a signature. *)
Lemma life_Sign_correct_witness : exists keys0 keys x sg sysS',
  @life toy_hash toy_sha toy_curves toy_secp toy_ed w_kheap keys0 keys /\ Forall (fun k => kECDSAPub k = Some (tpnt 8)) keys0 /\ cong 31 x 8 /\
  @SignWithTweak toy_hash toy_aes toy_curves toy_secp toy_ed w_kheap (map Some keys) [1; 0] (Some 4) [201; 3]
    (Some (repeat 9 16 ++ w_draws)) (repeat 1 40) = Ok (sg, Some [], sysS') /\
  @good_signature toy_curves toy256_pt (x + 4) [201; 3] sg.
Proof.
  destruct w_pair_keys as (rA & sA & rB & sB & rng0 & sys0 & E0).
  destruct (w_refresh (w_matrix rA sA rB sB) w_chain [] w_lsys 0 eq_refl (List.Forall_nil _) (ones_byte _))
    as (rA1 & sA1 & rB1 & sB1 & sys1 & E1 & _); [apply w_lsys_healthy; unfold w_setup_cost, Kappa; lia|].
  destruct (w_reshare (w_matrix rA1 sA1 rB1 sB1) w_chain [] w_lsys 0 eq_refl (List.Forall_nil _) (ones_byte _))
    as (rA2 & sA2 & rB2 & sB2 & sys2 & E2 & _); [apply w_lsys_healthy; unfold w_setup_cost, Kappa; lia|].
  assert (HL : @life toy_hash toy_sha toy_curves toy_secp toy_ed w_kheap
    (w_pair 17 26 8 (w_matrix rA sA rB sB) w_chain) (w_pair 15 22 8 (w_matrix rA2 sA2 rB2 sB2) w_chain)).
  { eapply life_next; [eapply life_next; [apply life_start|]|].
    - exact (started_keygen _ _ _ _ _ _ _ _ _ w_krng_byte (ones_byte _) E0).
    - exact (replaced_refresh _ _ _ _ _ _ _ (w_rrng_byte 4 6 ltac:(lia) ltac:(lia)) (ones_byte _) E1).
    - exact (replaced_reshare _ _ _ _ _ _ _ _ _ _ _ (masked_all _) (w_rrng_byte 2 5 ltac:(lia) ltac:(lia)) (ones_byte _) E2). }
  destruct (@life_Sign_correct toy_hash toy_aes toy_aes_laws toy_sha toy_curves toy_secp toy_ed toy256_pt toy256_laws toy256_ct
    _ _ _ toy_neg eq_refl eq_refl eq_refl HL) as (x & t & F0 & F1 & K).
  assert (Hx : cong 31 x 8).
  { apply Forall_inv in F0. cbn [kECDSAPub key_of] in F0. injection F0 as Fx Fy.
    symmetry. apply (cl_eq (CurveLaws := toy256_laws)). apply injective_projections; assumption. }
  assert (Ht : t = 1) by (apply Forall_inv in F1; symmetry; exact (proj1 (proj2 F1))).
  destruct (K [1; 0] (Some 4) [201; 3] (repeat 9 16 ++ w_draws) (repeat 1 40) (repeat 9 16) w_draws
    (fst (get_ok (@rmapM Z _ (fun _ => @draw_nonce toy_curves toy_secp toy_ed) [1; 0] w_draws) ([], []))) []
    ltac:(now rewrite Ht) w_signers_range w_signers_nodup w_hash_nonempty w_hash_byte w_sign_byte (ones_byte _) (toy_healthy 40 (le_n 40)) eq_refl w_draws_run)
    as (prs & Ed & [(sg & sysS' & ES & G)|(e & _ & D)]).
  - do 5 eexists. split; [exact HL|]. split; [repeat constructor|]. split; [exact Hx|]. split; [exact ES|exact G].
  - apply w_prs in Ed. subst prs. destruct (w_not_degenerate _ x e Hx D).
Defined.
