(* ===== verification/DklsHd.v ===== *)
(** * Package [dklstss]: hierarchical derivation

    [hd.go]: [DeriveChild] and [DeriveAndSign].  The keys of a committee share a
    chain code, which refresh and resharing keep with the public key; so a child
    derived from the first keys is the child that any later committee signs for. *)
From stdpp Require Import base gmap list.
From Stdlib Require Import ZArith String List Lia Bool Arith.
From S2P Require Import Prelude GoBig Common Curve Ckd CtMul Field Vss Schnorr Bits OtExt OtExtCorrect Ole Party BaseOt.
From S2P Require Import Dkls DklsSetup DklsSign DklsSignCorrect DklsKeygen DklsReshare DklsLife.
Import ListNotations.
Open Scope string_scope.
Open Scope Z_scope.
Open Scope list_scope.

Definition ErrHardenedNotSupported : string :=
  "dklstss: hardened BIP32 derivation requires the raw private key and is not supported in threshold signing".

Section Defs.
Context `{HS : Hash} `{AE : Aes} `{SH : Sha256} `{CK : CkdLib} `{CS : Curves} `{SL : Secp256k1Lib} `{EL : Ed25519Lib}.

Definition DeriveChild (key : option Key) (path : list Z) : res (Z * option ECPoint) :=
  match key with
  | None => Err "dklstss: DeriveChild nil key"
  | Some key =>
    guard (forallb (fun idx => negb (HardenedKeyStart <=? idx)) path) ErrHardenedNotSupported ;!
    if (length path =? 0)%nat then Ok (0, kECDSAPub key)
    else
      let! c := deref (kCurve key) in
      let q := cN c in
      let! pub := deref (kECDSAPub key) in
      let! X := ECPoint_X pub in
      let! Y := ECPoint_Y pub in
      let master := {| xkCurve := c; xkX := Some X; xkY := Some Y; xkDepth := 0; xkChildIndex := 0; xkChainCode := kChainCode key;
                       xkParentFP := [0; 0; 0; 0]; xkVersion := BitcoinMainnetPublic |} in
      let! (ilNum, childExt) := rewrap "dklstss: DeriveChild" (DeriveChildKeyFromHierarchy path master q c) in
      let! childPub := rewrap "dklstss: DeriveChild child point" (NewECPoint c (xkX childExt) (xkY childExt)) in
      let! tweak := Mod ilNum q in
      Ok (tweak, Some childPub)
  end.

Definition DeriveAndSign (h : Heap) (keys : list (option Key)) (signerIdx path : list Z) (hash : bytes) (rng : option reader) (sys : reader)
  : res (Signature * option ECPoint * option reader * reader) :=
  guard (negb (length keys =? 0)%nat) "dklstss: DeriveAndSign requires at least one key" ;!
  let! k0 := idx keys 0 in
  let! (tweak, childPub) := DeriveChild k0 path in
  let! (sig, rng, sys) := SignWithTweak h keys signerIdx (Some tweak) hash rng sys in
  Ok (sig, childPub, rng, sys).
End Defs.

(** ** Chain codes *)
Section Chain.
Context `{HS : Hash} `{SH : Sha256} `{CS : Curves} `{SL : Secp256k1Lib} `{EL : Ed25519Lib}.

Definition chained (chain : bytes) (k : Key) : Prop := kChainCode k = chain.

(** The last loop of each operation gives every key one chain code. *)
Lemma assemble_chain msg c n t partyIDs BigXj pub ot chain l sys out sys' :
  foldM (fun '(out, sys) '(i, x) =>
    let! row := idx ot i in
    let k := {| kCurve := Some c; kN := n; kT := t; kIdx := Z.of_nat i; kPartyIDs := partyIDs; kXi := Some x;
                kBigXj := BigXj; kECDSAPub := pub; kOT := row; kChainCode := chain |} in
    let! sys := rewrap msg (Key_ValidateBasic (Some k) sys) in
    Ok (out ++ [k], sys)) ([], sys) l = Ok (out, sys') ->
  Forall (chained chain) out.
Proof.
  intros HR. apply (foldM_done (fun _ st => Forall (chained chain) (fst st))) with (done := []) in HR; [exact HR| |constructor].
  intros done [i x] [out0 sys0] st' F E. apply rbind_ok in E as (row & _ & E). cbv zeta in E. apply rbind_ok in E as (sys1 & _ & E).
  injection E as <-. cbn [fst] in *. apply Forall_app. split; [exact F|]. constructor; [reflexivity|constructor].
Qed.

(** Unwinds a run to its last loop. *)
Ltac unwind H :=
  repeat (let E := fresh "E" in apply rbind_ok in H as (? & E & H);
          repeat match goal with p : prod _ _ |- _ => destruct p end; cbv beta iota zeta in H).

Lemma Keygen_chain h n t partyIDs rng sys out rng' sys' : Keygen h n t partyIDs rng sys = Ok (out, rng', sys') ->
  exists chain, Forall (chained chain) out.
Proof.
  unfold Keygen. intros HR. unwind HR. injection HR as -> _ _. eexists. eapply assemble_chain. eassumption.
Qed.

Lemma Refresh_chain h keys rng sys out rng' sys' chain : Refresh h (map Some keys) rng sys = Ok (out, rng', sys') ->
  Forall (chained chain) keys -> Forall (chained chain) out.
Proof.
  unfold Refresh. intros HR F. apply rbind_ok in HR as (_ & _ & HR). apply rbind_ok in HR as (k0 & E0 & HR).
  apply rbind_ok in HR as (k0' & Ed & HR). apply deref_ok in Ed. subst k0.
  assert (E1 : kChainCode k0' = chain).
  { apply idx_ok in E0. rewrite nth_error_map in E0. destruct (nth_error keys 0) as [k|] eqn:E; [|discriminate]. injection E0 as <-.
    rewrite List.Forall_forall in F. apply F. eapply nth_error_In. exact E. }
  cbv zeta in HR. rewrite E1 in HR. unwind HR. injection HR as -> _ _. eapply assemble_chain. eassumption.
Qed.

Lemma Reshare_chain h keys old l newPartyIDs tNew rng sys out rng' sys' chain : masked old keys ->
  Reshare h old l newPartyIDs tNew rng sys = Ok (out, rng', sys') -> Forall (chained chain) keys -> Forall (chained chain) out.
Proof.
  intros [_ M]. unfold Reshare. intros HR F. do 3 (apply rbind_ok in HR as (? & _ & HR)). cbv zeta in HR.
  do 3 (apply rbind_ok in HR as (? & _ & HR)). apply rbind_ok in HR as (i0 & _ & HR). apply rbind_ok in HR as (kf & Ef & HR).
  apply rbind_ok in HR as (kf' & Ed & HR). apply deref_ok in Ed. subst kf.
  assert (E1 : kChainCode kf' = chain).
  { unfold idxZ in Ef. destruct (i0 <? 0); [discriminate|]. apply idx_ok, M, nth_error_In in Ef. rewrite List.Forall_forall in F. now apply F. }
  rewrite E1 in HR. unwind HR. injection HR as -> _ _. eapply assemble_chain. eassumption.
Qed.

Lemma life_chain h keys0 keys : life h keys0 keys -> exists chain, Forall (chained chain) keys0 /\ Forall (chained chain) keys.
Proof.
  induction 1 as [ST|keys keys' _ (chain & F0 & F) HR].
  - destruct ST as [n t partyIDs rng sys keys rng' sys' _ _ HK|reg priv partyID sys k sys' _ _].
    + destruct (Keygen_chain _ _ _ _ _ _ _ _ _ HK) as (chain & F). eauto.
    + exists (kChainCode k). repeat constructor.
  - exists chain. split; [assumption|]. destruct HR as [rng sys keys' rng' sys' _ _ HR|old l newPartyIDs tNew rng sys keys' rng' sys' M _ _ HR].
    + exact (Refresh_chain _ _ _ _ _ _ _ _ HR F).
    + exact (Reshare_chain _ _ _ _ _ _ _ _ _ _ _ _ M HR F).
Qed.

Lemma life_started h keys0 keys : life h keys0 keys -> started h keys0.
Proof. induction 1; assumption. Qed.
End Chain.

(** ** Children *)
Section Child.
Context `{HS : Hash} `{AL : AesLaws} `{SH : Sha256} `{CK : CkdLib} `{CS : Curves} `{SL : Secp256k1Lib} `{EL : Ed25519Lib}.
Context {pt : Z -> Z * Z} {L : CurveLaws S256 pt false} {CT : CtCurve S256 pt false} {KL : CkdLaws pt}.
Abbreviation q := (cN S256).
Abbreviation pnt := (mkpt S256 pt).

(** [DeriveChild] reads three fields of the key. *)
Lemma DeriveChild_ext k k' path : kCurve k = kCurve k' -> kECDSAPub k = kECDSAPub k' -> kChainCode k = kChainCode k' ->
  DeriveChild (Some k) path = DeriveChild (Some k') path.
Proof. intros E1 E2 E3. unfold DeriveChild. now rewrite E1, E2, E3. Qed.

(** The child's point is the parent's, moved by the tweak. *)
Lemma DeriveChild_run k x path tweak childPub : kCurve k = Some S256 -> kECDSAPub k = Some (pnt x) ->
  DeriveChild (Some k) path = Ok (tweak, childPub) ->
  childPub = Some (pnt (x + tweak)) /\ 0 <= tweak < q /\ Forall (fun idx => idx < HardenedKeyStart) path /\ (length path <= 255)%nat.
Proof.
  pose proof (prime_gt_1 q cl_prime) as Q1. intros EC EP HR. unfold DeriveChild in HR. rewrite EC, EP in HR.
  apply rbind_ok in HR as ([] & _ & HR). destruct path as [|index path].
  - injection HR as <- <-. rewrite Z.add_0_r. repeat split; [lia|lia|constructor|cbn; lia].
  - cbn [length Nat.eqb deref rbind] in HR. cbv zeta in HR.
    change (ECPoint_X (pnt x)) with (Ok (fst (pt x))) in HR. change (ECPoint_Y (pnt x)) with (Ok (snd (pt x))) in HR. cbn [rbind] in HR.
    set (master := {| xkCurve := S256 |}) in HR. apply rbind_ok in HR as ([il child] & E & HR). apply rewrap_ok in E.
    assert (HK : key_at (pt := pt) (x + 0) master).
    { rewrite Z.add_0_r. split; [reflexivity|]. split; [reflexivity|]. intros Z0.
      change (walk (0, master) (index :: path) = Ok (il, child)) in E. rewrite (walk_cons (L := L)) in E. apply rbind_ok in E as ([i k1] & E & _).
      unfold DeriveChildKey in E. do 2 (apply rbind_ok in E as (? & _ & E)). apply rbind_ok in E as (p & Ep & _).
      cbn [xkX xkY master] in Ep. rewrite (NewECPoint_pt (L := L)) in Ep. unfold on_c in Ep. rewrite Z0 in Ep. discriminate Ep. }
    destruct (walk_inv (L := L) (index :: path) 0 x master il child HK ltac:(cbn; unfold maxDepth; lia) E) as ((EX & EY & Hx) & D & Dm & F & _).
    assert (Rl : 0 <= il < q) by (eapply (walk_range (L := L)); [|exact E]; lia).
    rewrite EX, EY, (NewECPoint_pt (L := L)) in HR. unfold on_c in HR. cbn [orb] in HR. rewrite (proj2 (Z.eqb_neq _ _) Hx) in HR.
    cbn [negb rewrap rbind] in HR. rewrite Mod_ok, Z.mod_small in HR by lia. injection HR as <- <-. split; [reflexivity|]. split; [lia|]. split; [exact F|].
    cbn [xkDepth master] in D. unfold maxDepth in Dm. lia.
Qed.

(** C4. Threshold hierarchical signing.  Derive a child from any key of a first
    committee.  Every later committee of its life, at any of its thresholds, signs
    every digest for that child: [DeriveAndSign] returns the same child key, the
    parent's point moved by the tweak, and a signature under its secret, or an
    error that asks for fresh randomness. *)
Theorem life_DeriveAndSign_correct h keys0 keys k0 path tweak childPub
  (Hneg : forall a, pt (- a) = (fst (pt a), (- snd (pt a)) mod cP S256))
  (Hne : curve_eqb S256 Edwards = false) (Q2 : 2 < q) (Hodd : Z.odd (cP S256) = true)
  (HL : life h keys0 keys) (Hk : In k0 keys0) (HD : DeriveChild (Some k0) path = Ok (tweak, childPub)) :
  exists x t, kECDSAPub k0 = Some (pnt x) /\ childPub = Some (pnt (x + tweak)) /\ Forall (fun k => kT k = t) keys /\
  forall signerIdx (hash : bytes) (rd sysS nonce rd1 : reader) draws rd2,
    Z.of_nat (length signerIdx) = t + 1 -> Forall (fun i => 0 <= i < Z.of_nat (length keys)) signerIdx -> NoDup signerIdx ->
    hash <> [] -> Forall is_byte hash -> Forall is_byte rd -> Forall is_byte sysS -> ct_healthy sysS ->
    ReadFull 16 rd = Ok (nonce, rd1) -> rmapM (fun _ => draw_nonce) signerIdx rd1 = Ok (draws, rd2) ->
    exists prs, draws = map (nonce_of (pt := pt)) prs /\
    ((exists sg sysS', DeriveAndSign h (map Some keys) signerIdx path hash (Some rd) sysS = Ok (sg, childPub, Some rd2, sysS') /\
       good_signature (pt := pt) (x + tweak) hash sg) \/
    (exists e, DeriveAndSign h (map Some keys) signerIdx path hash (Some rd) sysS = Err e /\
       degenerate (pt := pt) sign_texts prs (x + tweak) hash e)).
Proof.
  destruct (life_committee (L := L) (CT := CT) Hneg Hne h keys0 keys HL) as (partyIDs & ids & cs & C & F0).
  destruct (started_committee (L := L) (CT := CT) Hneg Hne h keys0 (life_started _ _ _ HL)) as (partyIDs0 & ids0 & cs0 & C0).
  destruct (life_chain _ _ _ HL) as (chain & G0 & G). rewrite List.Forall_forall in F0, G0. specialize (F0 k0 Hk). specialize (G0 k0 Hk).
  assert (K0 : kCurve k0 = Some S256) by (pose proof (cm_common _ _ _ _ _ C0) as FC; rewrite List.Forall_forall in FC; now apply FC).
  exists (peval cs 0), (Z.of_nat (length cs) - 1). split; [exact F0|]. destruct (DeriveChild_run _ _ _ _ _ K0 F0 HD) as (-> & _).
  split; [reflexivity|]. split.
  { apply List.Forall_forall. intros k Hin. apply In_nth_error in Hin as [i E]. destruct (committee_key _ _ _ _ _ _ _ C E) as (_ & Tk & _). lia. }
  intros signerIdx hash rd sysS nonce rd1 draws rd2 Hl Fi Nd Hh Hb Frd Fss Hhe En Ed.
  destruct (committee_signs (L := L) (CT := CT) Hneg h keys partyIDs ids cs signerIdx (Some tweak) hash rd sysS nonce rd1 draws rd2
    Q2 Hodd C ltac:(lia) Fi Nd Hh Hb Frd Fss Hhe En Ed) as (prs & Edr & HS'). exists prs. split; [exact Edr|].
  destruct keys as [|k ks] eqn:Ek; [now destruct (cm_keys _ _ _ _ _ C)|]. rewrite <- Ek in *.
  destruct (committee_key _ _ _ _ _ 0 k C) as (_ & _ & _ & P & CC & _); [now rewrite Ek|].
  assert (ED : DeriveChild (Some k) path = Ok (tweak, Some (pnt (peval cs 0 + tweak)))).
  { rewrite <- HD. apply DeriveChild_ext; [congruence|congruence|]. rewrite List.Forall_forall in G. rewrite G0. apply G. rewrite Ek. now left. }
  assert (E0 : DeriveAndSign h (map Some keys) signerIdx path hash (Some rd) sysS =
    let! (sig, rng, sys) := SignWithTweak h (map Some keys) signerIdx (Some tweak) hash (Some rd) sysS in
    Ok (sig, Some (pnt (peval cs 0 + tweak)), rng, sys)).
  { unfold DeriveAndSign. replace (length (map Some keys) =? 0)%nat with false by (rewrite Ek; reflexivity).
    replace (idx (map Some keys) 0) with (Ok (Some k)) by (rewrite Ek; reflexivity). cbn [negb guard rbind]. rewrite ED. reflexivity. }
  rewrite E0. destruct HS' as [(sg & sysS' & -> & Gs)|(e & -> & D)]; cbn [rbind]; [left|right]; eauto.
Qed.
End Child.

(** The child at a path of two steps from any key that the run of [DklsKeygen] makes. *)
Lemma w_child i a ot : @DeriveChild toy_sha toy_ckd (Some (@key_of toy_curves 2 1 [0%nat; 1%nat] [Some (tpnt 17); Some (tpnt 26)] (Some (tpnt 8)) ot w_chain (i, a)))
  [44; 5] = Ok (4, Some (tpnt 12)).
Proof.
  match goal with |- ?d = _ => assert (X : match d with Ok (t, _) => t =? 4 | _ => false end = true) by (vm_compute; reflexivity) end.
  destruct (DeriveChild _ _) as [[t p]| |] eqn:E; [|discriminate X..]. apply Z.eqb_eq in X. subst t.
  apply (@DeriveChild_run toy_sha toy_ckd toy_curves toy256_pt toy256_laws toy_ckd_laws _ 8) in E as (-> & _); reflexivity.
Qed.

(** A child of generated keys, and a signature for it by the committee that a refresh
    and a resharing leave. *)
Lemma life_DeriveAndSign_correct_witness : exists keys0 keys k0 x sg sysS',
  @life toy_hash toy_sha toy_curves toy_secp toy_ed w_kheap keys0 keys /\ In k0 keys0 /\ cong 31 x 8 /\
  @DeriveChild toy_sha toy_ckd (Some k0) [44; 5] = Ok (4, Some (tpnt 12)) /\
  @DeriveAndSign toy_hash toy_aes toy_sha toy_ckd toy_curves toy_secp toy_ed w_kheap (map Some keys) [1; 0] [44; 5] [201; 3]
    (Some w_sign_rng) (repeat 1 40) = Ok (sg, Some (tpnt 12), Some [], sysS') /\
  @good_signature toy_curves toy256_pt (x + 4) [201; 3] sg.
Proof.
  destruct w_pair_keys as (rA & sA & rB & sB & rng0 & sys0 & E0).
  destruct (w_refresh (w_matrix rA sA rB sB) w_chain [] w_lsys 0 eq_refl (List.Forall_nil _) (ones_byte _))
    as (rA1 & sA1 & rB1 & sB1 & sys1 & E1 & _); [apply w_lsys_healthy; unfold w_setup_cost, Kappa; lia|].
  set (keys0 := w_pair 17 26 8 (w_matrix rA sA rB sB) w_chain) in *. set (keys := w_pair 27 15 8 (w_matrix rA1 sA1 rB1 sB1) w_chain) in *.
  assert (HL : @life toy_hash toy_sha toy_curves toy_secp toy_ed w_kheap keys0 keys).
  { eapply life_next; [apply life_start|].
    - exact (started_keygen _ _ _ _ _ _ _ _ _ w_krng_byte (ones_byte _) E0).
    - exact (replaced_refresh _ _ _ _ _ _ _ (w_rrng_byte 4 6 ltac:(lia) ltac:(lia)) (ones_byte _) E1). }
  assert (HD := w_child 0 17 (w_matrix rA sA rB sB)).
  destruct (@life_DeriveAndSign_correct toy_hash toy_aes toy_aes_laws toy_sha toy_ckd toy_curves toy_secp toy_ed toy256_pt toy256_laws toy256_ct toy_ckd_laws
    w_kheap keys0 keys _ [44; 5] _ _ toy_neg eq_refl eq_refl eq_refl HL (or_introl eq_refl) HD) as (x & t & Ex & _ & F1 & K).
  assert (Hx : cong 31 x 8).
  { cbn [kECDSAPub key_of] in Ex. injection Ex as Fx Fy.
    symmetry. apply (cl_eq (CurveLaws := toy256_laws)). apply injective_projections; assumption. }
  assert (Ht : t = 1) by (apply Forall_inv in F1; symmetry; exact F1).
  destruct (K [1; 0] [201; 3] w_sign_rng (repeat 1 40) (repeat 9 16) w_draws w_ndraws []
    ltac:(now rewrite Ht) w_signers_range w_signers_nodup w_hash_nonempty w_hash_byte w_sign_byte (ones_byte _) (toy_healthy 40 (le_n 40)) eq_refl w_draws_run)
    as (prs & Ed & [(sg & sysS' & ES & G)|(e & _ & D)]).
  - do 6 eexists. split; [exact HL|]. split; [left; reflexivity|]. split; [exact Hx|]. split; [exact HD|]. split; [exact ES|exact G].
  - apply w_prs in Ed. subst prs. destruct (w_not_degenerate _ x e Hx D).
Defined.
