(* ===== verification/DklsEcho.v ===== *)
(** * Package [dklstss]: the echo broadcast

    [echo.go].  Every party of a brokered protocol reports to the others a digest of
    each dealer's commitments; the reports are compared with the recipient's own
    view.  [range] is the order in which Go's [range] visits a map, which the
    language leaves open: it may change from one loop to the next. *)
From stdpp Require Import base gmap list strings pretty.
From Stdlib Require Import ZArith String List Lia Bool Permutation.
From S2P Require Import Prelude GoBig Common Curve Bits Party Handler.
Import ListNotations.
Open Scope string_scope.
Open Scope Z_scope.
Open Scope list_scope.

Class MapRange := { range : forall {V}, nat -> gmap string V -> list (string * V) }.
Class MapRangeLaws `{MapRange} := { range_perm : forall V (n : nat) (m : gmap string V), range n m ≡ₚ map_to_list m }.

(** [p.KeyInt().String()] *)
Definition peerKeyStr (h : Heap) (p : ref) : res string := let! k := KeyInt h p in Ok (pretty k).

(** [binary.LittleEndian.PutUint64] of a length. *)
Definition le64 (n : nat) : bytes := le_bytes 8 (Z.of_nat n).

(** What is written to the hash. *)
Definition commitInput (tag : string) (dealer : bytes) (vsBytes : list bytes) : bytes :=
  str tag ++ [124] ++ dealer ++ [124] ++ le64 (length vsBytes) ++ flat_map (fun c => le64 (length c) ++ c) vsBytes.

Record echoMsg := { Digests : option (gmap string bytes) }.

Section Defs.
Context `{SH : Sha256} `{MR : MapRange}.

Definition commitDigest (h : Heap) (tag : string) (dealer : option ref) (vsBytes : list bytes) : res bytes :=
  let! d := match dealer with None => Ok [] | Some p => let! k := KeyInt h p in Ok (Bytes k) end in
  Ok (sha256 (commitInput tag d vsBytes)).

(** A loop that returns its first error. *)
Fixpoint first_err {A} (f : A -> res (option GoErr)) (l : list A) : res (option GoErr) :=
  match l with
  | [] => Ok None
  | a :: l => let! e := f a in match e with Some e => Ok (Some e) | None => first_err f l end
  end.

(** A map keyed by the parties' key strings. *)
Definition key_map {V} (h : Heap) (f : ref -> V) (ps : list ref) : res (gmap string V) :=
  foldM (fun m p => let! k := peerKeyStr h p in Ok (<[k := f p]> m)) empty ps.

(** [allParties] without the echoer. *)
Definition expectedDealers (h : Heap) (echoerKey : string) (allParties : list ref) : res (gmap string unit) :=
  foldM (fun m p => let! k := peerKeyStr h p in Ok (if String.eqb k echoerKey then m else <[k := tt]> m)) empty allParties.

(** The loop over the entries of one echo. *)
Definition echo_entry (source : string) (myDigests : gmap string bytes) (byKey : gmap string ref) (selfKey echoerKey : string) (echoer : ref)
    (e : string * bytes) : res (option GoErr) :=
  let '(dealerKey, theirDigest) := e in
  if String.eqb dealerKey echoerKey then
    Ok (Some (TssErr (NewError "echo from %s contains a self-entry (protocol violation)" source 0 None [echoer])))
  else
    match myDigests !! dealerKey with
    | None => Ok (Some (TssErr (NewError "echo from %s mentions unknown dealer %s (key=%s)" source 0 None [echoer])))
    | Some mine =>
      if list_eq_dec Z.eq_dec mine theirDigest then Ok None
      else if String.eqb dealerKey selfKey then
        Ok (Some (TssErr (NewError "echo from %s disagrees with my canonical commitments" source 0 None [echoer])))
      else
        match byKey !! dealerKey with
        | None => Ok (Some (PlainErr "dklstss: %s echo from %s disagrees on unmapped dealer %s"))
        | Some dealer =>
          Ok (Some (TssErr (NewError "echo from %s reports a different commitment for %s than I received" source 0 None [dealer])))
        end
    end.

(** One turn of the loop over the echoers. *)
Definition check_echo (h : Heap) (myDigests : gmap string bytes) (selfKey : string) (msgs : list (option echoMsg)) (allParties : list ref)
    (byKey : gmap string ref) (source : string) (ne : nat * ref) : res (option GoErr) :=
  let '(n, echoer) := ne in
  let! ec := idx msgs n in
  match ec with
  | Some {| Digests := Some D |} =>
    if (length allParties <? size D)%nat then
      Ok (Some (TssErr (NewError "dklstss: %s echo from %s has %d digests (max %d)" source 0 None [echoer])))
    else
      let! echoerKey := peerKeyStr h echoer in
      let! expected := expectedDealers h echoerKey allParties in
      let! e := first_err (fun '(dealerKey, _) =>
        Ok (match D !! dealerKey with
            | None => Some (TssErr (NewError "echo from %s omitted dealer %s - would enable an equivocation cover-up" source 0 None [echoer]))
            | Some _ => None
            end)) (range (2 * n) expected) in
      match e with
      | Some e => Ok (Some e)
      | None => first_err (echo_entry source myDigests byKey selfKey echoerKey echoer) (range (2 * n + 1) D)
      end
  | _ => Ok (Some (TssErr (NewError "dklstss: %s echo from %s is empty" source 0 None [echoer])))
  end.

Definition verifyEchoes (h : Heap) (myDigests : gmap string bytes) (selfKey : string) (echoers : list ref) (msgs : list (option echoMsg))
    (allParties : list ref) (source : string) : res (option GoErr) :=
  let! byKey := key_map h (fun p => p) allParties in
  first_err (check_echo h myDigests selfKey msgs allParties byKey source) (enum echoers).
End Defs.

(** ** The encoding *)
Lemma blocks_inj : forall v1 v2 : list bytes, Forall (fun c => fits64 (length c)) v1 -> Forall (fun c => fits64 (length c)) v2 ->
  length v1 = length v2 ->
  flat_map (fun c => le64 (length c) ++ c) v1 = flat_map (fun c => le64 (length c) ++ c) v2 -> v1 = v2.
Proof.
  induction v1 as [|a v1 IH]; intros [|b v2] F1 F2 Hl E; try discriminate; [reflexivity|].
  apply Forall_cons_iff in F1 as [Fa F1]. apply Forall_cons_iff in F2 as [Fb F2]. cbn [flat_map] in E. rewrite <- !app_assoc in E.
  apply app_inj_len_l in E as [El E]; [|reflexivity]. apply le8_inj in El; [|assumption..].
  apply app_inj_len_l in E as [-> E]; [|assumption]. f_equal. apply IH; auto.
Qed.

(** For one protocol and one dealer the encoding has one list of commitments. *)
Lemma commitInput_inj tag d v1 v2 : fits64 (length v1) -> fits64 (length v2) ->
  Forall (fun c => fits64 (length c)) v1 -> Forall (fun c => fits64 (length c)) v2 ->
  commitInput tag d v1 = commitInput tag d v2 -> v1 = v2.
Proof.
  intros L1 L2 F1 F2 E. unfold commitInput in E. apply app_inv_head in E. apply (app_inv_head [124]) in E.
  apply app_inv_head in E. apply (app_inv_head [124]) in E. apply app_inj_len_l in E as [El E]; [|reflexivity].
  apply le8_inj in El; [|assumption..]. now apply blocks_inj.
Qed.

(** ** Keys *)
Definition kstr (h : Heap) (p : ref) : string := pretty (key_of h p).

Lemma peerKeyStr_valid h p : valid_ref h p -> peerKeyStr h p = Ok (kstr h p).
Proof. intros V. unfold peerKeyStr. now rewrite KeyInt_valid. Qed.

Lemma kstr_inj h p p' : kstr h p = kstr h p' -> key_of h p = key_of h p'.
Proof. apply (inj pretty). Qed.

Lemma key_map_run {V} h (f : ref -> V) ps : Forall (valid_ref h) ps -> NoDup (kstr h <$> ps) ->
  exists m, key_map h f ps = Ok m /\ forall k v, m !! k = Some v <-> exists p, p ∈ ps /\ kstr h p = k /\ f p = v.
Proof.
  intros F N. unfold key_map.
  enough (G : forall m0 : gmap string V, (forall p, p ∈ ps -> m0 !! kstr h p = None) ->
    exists m, foldM (fun m p => let! k := peerKeyStr h p in Ok (<[k := f p]> m)) m0 ps = Ok m /\
      forall k v, m !! k = Some v <-> m0 !! k = Some v \/ exists p, p ∈ ps /\ kstr h p = k /\ f p = v).
  { destruct (G empty) as (m & E & S); [intros; apply lookup_empty|]. exists m. split; [exact E|]. intros k v. rewrite S, lookup_empty.
    split; [intros [|]; [discriminate|assumption]|auto]. }
  induction F as [|p ps V' F IH]; intros m0 H0; cbn [foldM].
  - exists m0. split; [reflexivity|]. intros k v. split; [auto|]. intros [|(p & Hp & _)]; [assumption|]. now apply elem_of_nil in Hp.
  - rewrite peerKeyStr_valid by assumption. cbn [rbind fmap list_fmap] in *. apply List.NoDup_cons_iff in N as [Np N].
    destruct (IH N (<[kstr h p := f p]> m0)) as (m & E & S).
    { intros p' Hp'. rewrite lookup_insert_ne; [apply H0; now right|]. intros Ek. apply Np. rewrite Ek. apply list_elem_of_In. now apply list_elem_of_fmap_2. }
    exists m. split; [exact E|]. intros k v. rewrite S. split.
    + intros [Hk|(p' & Hp & Ek & Ev)]; [|right; exists p'; repeat split; [now right|assumption..]].
      destruct (decide (kstr h p = k)) as [<-|Hne]; [|rewrite lookup_insert_ne in Hk by assumption; now left].
      rewrite lookup_insert_eq in Hk. right. exists p. repeat split; [now left|congruence].
    + intros [Hk|(p' & Hp & Ek & Ev)].
      * left. rewrite lookup_insert_ne; [assumption|]. intros Ek. rewrite <- Ek, H0 in Hk by now left. discriminate.
      * apply elem_of_cons in Hp as [->|Hp]; [|right; eauto]. left. rewrite <- Ek, lookup_insert_eq. congruence.
Qed.

Lemma expectedDealers_run h ek ps : Forall (valid_ref h) ps ->
  exists m, expectedDealers h ek ps = Ok m /\ forall k, is_Some (m !! k) <-> k ∈ kstr h <$> ps /\ k <> ek.
Proof.
  intros F. unfold expectedDealers.
  enough (G : forall m0 : gmap string unit,
    exists m, foldM (fun m p => let! k := peerKeyStr h p in Ok (if String.eqb k ek then m else <[k := tt]> m)) m0 ps = Ok m /\
      forall k, is_Some (m !! k) <-> is_Some (m0 !! k) \/ k ∈ kstr h <$> ps /\ k <> ek).
  { destruct (G empty) as (m & E & S). exists m. split; [exact E|]. intros k. rewrite S, lookup_empty.
    split; [intros [Hk|]; [now apply is_Some_None in Hk|assumption]|auto]. }
  induction F as [|p ps V' F IH]; intros m0; cbn [foldM].
  - exists m0. split; [reflexivity|]. intros k. split; [auto|]. intros [|[Hp _]]; [assumption|]. now apply elem_of_nil in Hp.
  - rewrite peerKeyStr_valid by assumption. cbn [rbind fmap list_fmap].
    destruct (IH (if String.eqb (kstr h p) ek then m0 else <[kstr h p := tt]> m0)) as (m & E & S).
    exists m. split; [exact E|]. intros k. rewrite S, elem_of_cons. destruct (String.eqb_spec (kstr h p) ek) as [Ee|Ee].
    + split; [intros [|[? ?]]; [auto|auto]|]. intros [|[[->|?] ?]]; [auto|congruence|auto].
    + destruct (decide (kstr h p = k)) as [<-|Hne].
      * rewrite lookup_insert_eq. split; [intros _; right; auto|intros _; left; eauto].
      * rewrite lookup_insert_ne by assumption. split; [intros [|[? ?]]; auto|]. intros [|[[->|?] ?]]; [auto|congruence|auto].
Qed.

(** ** Loops that return their first error *)
Lemma first_err_none {A} (f : A -> res (option GoErr)) l : first_err f l = Ok None <-> Forall (fun a => f a = Ok None) l.
Proof.
  induction l as [|a l IH]; cbn [first_err]; [split; [constructor|reflexivity]|]. rewrite Forall_cons_iff, <- IH.
  destruct (f a) as [[e|]| |]; cbn [rbind]; split; try (intros; discriminate); try tauto; intros [H _]; discriminate.
Qed.
Lemma first_err_some {A} (f : A -> res (option GoErr)) l e : first_err f l = Ok (Some e) -> exists a, a ∈ l /\ f a = Ok (Some e).
Proof.
  induction l as [|a l IH]; cbn [first_err]; intros H; [discriminate|]. apply rbind_ok in H as ([e'|] & Ea & H).
  - injection H as <-. exists a. split; [now left|assumption].
  - destruct (IH H) as (b & Hb & Eb). exists b. split; [now right|assumption].
Qed.
Lemma first_err_total {A} (f : A -> res (option GoErr)) l : (forall a, a ∈ l -> exists r, f a = Ok r) -> exists r, first_err f l = Ok r.
Proof.
  induction l as [|a l IH]; intros H; cbn [first_err]; [eauto|]. destruct (H a) as (r & ->); [now left|]. cbn [rbind].
  destruct r; [eauto|]. apply IH. intros b Hb. apply H. now right.
Qed.

(** ** The comparison *)
(** The culprits that an error names. *)
Definition blames (e : GoErr) (c : ref) : Prop := match e with TssErr e => e_culprits e = [c] | PlainErr _ => False end.

(** The echo of a party with this view: every entry but its own. *)
Definition echo_of (key : string) (view : gmap string bytes) : option echoMsg := Some {| Digests := Some (delete key view) |}.

Section Verify.
Context `{SH : Sha256} `{ML : MapRangeLaws}.
Context {h : Heap} {all : list ref} {my : gmap string bytes}.
Hypothesis Hall : Forall (valid_ref h) all.
Hypothesis Hdistinct : NoDup (kstr h <$> all).
Hypothesis Hview : forall k, is_Some (my !! k) <-> k ∈ kstr h <$> all.

Lemma keys_size (D : gmap string bytes) : (forall k, is_Some (D !! k) -> k ∈ kstr h <$> all) -> (size D <= length all)%nat.
Proof.
  intros HD. rewrite <- (length_fmap (kstr h) all), <- size_dom.
  transitivity (size (list_to_set (kstr h <$> all) : gset string)); [apply subseteq_size|].
  - intros k Hk. apply elem_of_dom, HD in Hk. now apply elem_of_list_to_set.
  - clear. induction (kstr h <$> all) as [|k l IH]; [reflexivity|]. cbn [list_to_set length].
    rewrite size_union_alt, size_singleton. pose proof (subseteq_size (list_to_set l ∖ {[k]}) (list_to_set l : gset string)). set_solver by lia.
Qed.

(** The last loop accepts exactly the entries that agree. *)
Lemma echo_entry_none source byKey self ek echoer k v :
  echo_entry source my byKey self ek echoer (k, v) = Ok None <-> k <> ek /\ my !! k = Some v.
Proof.
  unfold echo_entry. destruct (String.eqb_spec k ek) as [->|Hk]; [split; [discriminate|now intros [? _]]|].
  destruct (my !! k) as [mine|]; [|split; [discriminate|now intros [_ ?]]].
  destruct (list_eq_dec Z.eq_dec mine v) as [->|Hv]; [split; auto|].
  split; [|intros [_ E]; congruence]. destruct (String.eqb k self); [discriminate|]. destruct (byKey !! k); discriminate.
Qed.

Lemma check_echo_none self msgs byKey source n echoer : valid_ref h echoer ->
  check_echo h my self msgs all byKey source (n, echoer) = Ok None <-> nth_error msgs n = Some (echo_of (kstr h echoer) my).
Proof.
  intros Ve. unfold check_echo. destruct (idx msgs n) as [ec| |] eqn:Ei; cbn [rbind].
  2,3: split; [discriminate|]; intros E; apply idx_ok in E; congruence.
  apply idx_ok in Ei. rewrite Ei. destruct ec as [[[D|]]|]; [|split; discriminate..].
  rewrite peerKeyStr_valid by assumption. cbn [rbind]. set (ek := kstr h echoer).
  destruct (expectedDealers_run h ek all Hall) as (m & -> & Hm). cbn [rbind]. unfold echo_of. split.
  - destruct (Nat.ltb_spec (length all) (size D)); [discriminate|].
    intros H'. apply rbind_ok in H' as ([e|] & E1 & H'); [discriminate|]. cbn beta iota in H'.
    apply first_err_none in E1, H'. rewrite List.Forall_forall in E1, H'. enough (D = delete ek my) as -> by reflexivity. apply map_eq. intros k.
    assert (K : forall v, D !! k = Some v -> k <> ek /\ my !! k = Some v).
    { intros v Hv. eapply echo_entry_none, H'. apply list_elem_of_In. rewrite range_perm. now apply elem_of_map_to_list. }
    destruct (D !! k) as [v|] eqn:Ek; [destruct (K v eq_refl) as [Hk E]; now rewrite lookup_delete_ne|].
    destruct (decide (k = ek)) as [->|Hk]; [now rewrite lookup_delete_eq|]. rewrite lookup_delete_ne by congruence.
    destruct (my !! k) as [v|] eqn:Em; [|reflexivity]. exfalso.
    assert (X : is_Some (m !! k)) by (apply Hm; split; [apply Hview; eauto|assumption]). destruct X as [[] X].
    specialize (E1 (k, tt)). cbn beta iota in E1. rewrite Ek in E1. discriminate E1. apply list_elem_of_In. rewrite range_perm. now apply elem_of_map_to_list.
  - intros E. injection E as ->. pose proof (keys_size my (fun k => proj1 (Hview k))) as Hs. assert (Hd : (size (delete ek my) <= size my)%nat) by (rewrite map_size_delete; destruct (my !! ek); cbn; lia).
    replace (length all <? size (delete ek my))%nat with false
      by (symmetry; apply Nat.ltb_ge; lia).
    erewrite (proj2 (first_err_none _ _)); [cbn [rbind]; apply first_err_none|]; apply List.Forall_forall; intros [k v] Hk;
      apply list_elem_of_In in Hk; rewrite range_perm in Hk; apply elem_of_map_to_list in Hk.
    + apply echo_entry_none. apply lookup_delete_Some in Hk as [? ?]. auto.
    + assert (X : is_Some (m !! k)) by eauto. apply Hm in X as [Xa Xb]. apply Hview in Xa as [w Xa].
      now rewrite lookup_delete_ne, Xa by congruence.
Qed.

(** A report that no honest echoer makes: not one digest for every dealer but the
    echoer, or another digest for the recipient than the recipient's own. *)
Definition bad_echo (self ek : string) (m : option (option echoMsg)) : Prop :=
  match m with
  | Some (Some {| Digests := Some D |}) =>
    ~ (forall k, is_Some (D !! k) <-> k ∈ kstr h <$> all /\ k <> ek) \/ exists v, D !! self = Some v /\ my !! self <> Some v
  | _ => True
  end.

(** An error at an echo blames the echoer, for such a report, or a dealer other than
    the recipient and the echoer, for which the two digests differ. *)
Definition blamed (self : string) (msgs : list (option echoMsg)) (n : nat) (echoer c : ref) : Prop :=
  (c = echoer /\ bad_echo self (kstr h echoer) (nth_error msgs n)) \/
  (c ∈ all /\ kstr h c <> self /\ kstr h c <> kstr h echoer /\
   exists D v v', nth_error msgs n = Some (Some {| Digests := Some D |}) /\ D !! kstr h c = Some v /\ my !! kstr h c = Some v' /\ v <> v').

Lemma check_echo_some self msgs byKey source n echoer e : valid_ref h echoer ->
  (forall k p, byKey !! k = Some p <-> exists p', p' ∈ all /\ kstr h p' = k /\ p' = p) ->
  check_echo h my self msgs all byKey source (n, echoer) = Ok (Some e) -> exists c, blames e c /\ blamed self msgs n echoer c.
Proof.
  intros Ve Hb HE. unfold check_echo in HE. apply rbind_ok in HE as (ec & Ei & HE). apply idx_ok in Ei.
  assert (B : forall msg, Ok (Some (TssErr (NewError msg source 0 None [echoer]))) = Ok (Some e) ->
    bad_echo self (kstr h echoer) (Some ec) -> exists c, blames e c /\ blamed self msgs n echoer c).
  { intros msg Em Hx. exists echoer. split; [injection Em as <-; reflexivity|]. left. now rewrite Ei. }
  destruct ec as [[[D|]]|]; [|exact (B _ HE I)..].
  destruct (Nat.ltb_spec (length all) (size D)) as [Hs|_].
  { apply (B _ HE). left. intros K. pose proof (keys_size D (fun k Hk => proj1 (proj1 (K k) Hk))). lia. }
  rewrite peerKeyStr_valid in HE by assumption. cbn [rbind] in HE.
  destruct (expectedDealers_run h (kstr h echoer) all Hall) as (m & Em & Hm). rewrite Em in HE. cbn [rbind] in HE.
  apply rbind_ok in HE as ([e'|] & E1 & HE).
  - injection HE as ->. apply first_err_some in E1 as ([k []] & Hk & E1). rewrite range_perm in Hk. apply elem_of_map_to_list in Hk.
    destruct (D !! k) eqn:Ek; [discriminate|]. apply (B _ E1). left. intros K.
    assert (X : is_Some (D !! k)) by (apply K, Hm; eauto). rewrite Ek in X. now apply is_Some_None in X.
  - apply first_err_some in HE as ([k v] & Hk & HE). rewrite range_perm in Hk. apply elem_of_map_to_list in Hk. unfold echo_entry in HE.
    destruct (String.eqb_spec k (kstr h echoer)) as [->|Hk1].
    { apply (B _ HE). left. intros K. destruct (proj1 (K (kstr h echoer))) as [_ X]; [eauto|congruence]. }
    destruct (my !! k) as [mine|] eqn:Emy.
    2: { apply (B _ HE). left. intros K. destruct (proj1 (K k)) as [X _]; [eauto|]. apply (proj2 (Hview k)) in X as [w X]. change (list Z) with bytes in Emy. congruence. }
    destruct (list_eq_dec Z.eq_dec mine v) as [->|Hv]; [discriminate|].
    destruct (String.eqb_spec k self) as [->|Hk2]; [apply (B _ HE); right; exists v; split; [assumption|change (list Z) with bytes in Emy; congruence]|].
    assert (X : k ∈ kstr h <$> all) by (apply Hview; eauto). apply list_elem_of_fmap in X as (p & -> & Hp).
    rewrite (proj2 (Hb _ p)) in HE by eauto. injection HE as <-. exists p. split; [reflexivity|]. right.
    repeat split; try assumption. exists D, v, mine. auto.
Qed.

Lemma verifyEchoes_run self echoers msgs source : exists byKey, (forall k p, byKey !! k = Some p <-> exists p', p' ∈ all /\ kstr h p' = k /\ p' = p) /\
    verifyEchoes h my self echoers msgs all source = first_err (check_echo h my self msgs all byKey source) (enum echoers).
Proof.
  destruct (key_map_run h (fun p => p) all Hall Hdistinct) as (m & E & Hm). exists m. split; [exact Hm|].
  unfold verifyEchoes. now rewrite E.
Qed.

Lemma verifyEchoes_none self echoers msgs source : Forall (valid_ref h) echoers ->
  verifyEchoes h my self echoers msgs all source = Ok None <->
  forall n e, nth_error echoers n = Some e -> nth_error msgs n = Some (echo_of (kstr h e) my).
Proof.
  intros Ve. destruct (verifyEchoes_run self echoers msgs source) as (byKey & _ & ->). rewrite first_err_none, List.Forall_forall.
  assert (V : forall n e, nth_error echoers n = Some e -> valid_ref h e).
  { intros n e E. rewrite List.Forall_forall in Ve. apply Ve. now apply nth_error_In in E. }
  split.
  - intros K n e E. eapply check_echo_none; [exact (V n e E)|]. apply K. now apply enum_In.
  - intros K [n e] E. apply enum_In in E. apply check_echo_none; [exact (V n e E)|]. now apply K.
Qed.

Lemma verifyEchoes_some self echoers msgs source e : Forall (valid_ref h) echoers ->
  verifyEchoes h my self echoers msgs all source = Ok (Some e) ->
  exists n echoer c, nth_error echoers n = Some echoer /\ blames e c /\ blamed self msgs n echoer c.
Proof.
  intros Ve HE. destruct (verifyEchoes_run self echoers msgs source) as (byKey & Hb & E). rewrite E in HE. clear E.
  apply first_err_some in HE as ([n echoer] & Hn & HE). apply list_elem_of_In, enum_In in Hn.
  assert (V : valid_ref h echoer) by (rewrite List.Forall_forall in Ve; apply Ve; now apply nth_error_In in Hn).
  destruct (check_echo_some self msgs byKey source n echoer e V Hb HE) as (c & B1 & B2). eauto 6.
Qed.
End Verify.

(** ** Properties *)
Section Properties.
Context `{SH : Sha256} `{ML : MapRangeLaws}.

(** C20. Whatever the order in which the maps are visited, the echoes are accepted
    exactly when each of them is the recipient's own view without the echoer's
    entry: nothing omitted, nothing added, no other digest. *)
Theorem verifyEchoes_accepts h all my self echoers msgs source (Hall : Forall (valid_ref h) all) (Hdistinct : NoDup (kstr h <$> all))
  (Hview : forall k, is_Some (my !! k) <-> k ∈ kstr h <$> all) (Ve : Forall (valid_ref h) echoers) :
  verifyEchoes h my self echoers msgs all source = Ok None <->
  forall n e, nth_error echoers n = Some e -> nth_error msgs n = Some (echo_of (kstr h e) my).
Proof. now apply verifyEchoes_none. Qed.

(** C21. When every echoer reports its own view, and all agree on what the recipient
    dealt, an error names one culprit, a dealer that equivocated: some echoer holds
    another digest for it than the recipient. *)
Theorem verifyEchoes_blames h all my self echoers msgs source (views : nat -> gmap string bytes) e
  (Hall : Forall (valid_ref h) all) (Hdistinct : NoDup (kstr h <$> all))
  (Hview : forall k, is_Some (my !! k) <-> k ∈ kstr h <$> all) (Ve : Forall (valid_ref h) echoers)
  (Hviews : forall n k, is_Some (views n !! k) <-> k ∈ kstr h <$> all) (Hself : forall n, views n !! self = my !! self)
  (Hmsgs : forall n e, nth_error echoers n = Some e -> nth_error msgs n = Some (echo_of (kstr h e) (views n)))
  (HE : verifyEchoes h my self echoers msgs all source = Ok (Some e)) :
  exists n c, blames e c /\ c ∈ all /\ views n !! kstr h c <> my !! kstr h c.
Proof.
  apply (verifyEchoes_some Hall Hdistinct Hview) in HE as (n & echoer & c & En & B & [[-> Hx]|(Hc & _ & He & D & v & v' & Em & Ed & Ey & Hv)]);
    [exfalso| |assumption]; pose proof (Hmsgs _ _ En) as Em'.
  - rewrite Em' in Hx. destruct Hx as [Hx|(v & Ev & Hv)].
    + apply Hx. intros k. rewrite lookup_delete_is_Some, Hviews. intuition congruence.
    + apply lookup_delete_Some in Ev as [_ Ev]. rewrite Hself in Ev. congruence.
  - exists n, c. split; [assumption|]. split; [assumption|]. rewrite Em in Em'. injection Em' as ->.
    rewrite lookup_delete_ne in Ed by congruence. rewrite Ed, Ey. congruence.
Qed.
End Properties.

(** ** Evaluation on a concrete input *)
#[export] Instance toy_range : MapRange := { range := fun V _ m => map_to_list m }.
#[export] Instance toy_range_laws : @MapRangeLaws toy_range.
Proof. constructor. intros V n m. reflexivity. Qed.

Definition w_all : list ref := [5%nat; 6%nat; 7%nat].
Definition w_view (d20 : Z) : gmap string bytes := <["30" := [1]]> (<["10" := [2]]> (<["20" := [d20]]> empty)).

Lemma w_all_valid : Forall (valid_ref w_heap) w_all.
Proof. repeat constructor; eexists _, _; split; reflexivity. Qed.
Lemma w_keys : kstr w_heap <$> w_all = ["30"; "10"; "20"].
Proof. vm_compute. reflexivity. Qed.
Lemma w_distinct : NoDup (kstr w_heap <$> w_all).
Proof. rewrite w_keys. repeat constructor; cbn; intuition discriminate. Qed.
Lemma w_view_dom d k : is_Some (w_view d !! k) <-> k ∈ kstr w_heap <$> w_all.
Proof.
  rewrite w_keys, !elem_of_cons. unfold w_view. rewrite !lookup_insert_is_Some, lookup_empty.
  split; [intros [?|[_ [?|[_ [?|[_ []%is_Some_None]]]]]]; subst; auto|].
  intros [->|[->|[->|[]%elem_of_nil]]]; [left; reflexivity|right|right]; (split; [discriminate|]); [left; reflexivity|right].
  split; [discriminate|]. left. reflexivity.
Qed.

Lemma verifyEchoes_accepts_witness :
  @verifyEchoes toy_range w_heap (w_view 3) "30" [6%nat; 7%nat] [echo_of "10" (w_view 3); echo_of "20" (w_view 3)] w_all "keygen" = Ok None.
Proof.
  apply (@verifyEchoes_accepts toy_range toy_range_laws w_heap w_all (w_view 3) "30" [6%nat; 7%nat] _ "keygen"
    w_all_valid w_distinct (w_view_dom 3) (Forall_inv_tail w_all_valid)).
  intros [|[|[|n]]] e E; try discriminate E; injection E as <-; vm_compute; reflexivity.
Defined.

(** The dealer with key 20 has sent another commitment to the party with key 10. *)
Lemma verifyEchoes_blames_witness : exists e,
  @verifyEchoes toy_range w_heap (w_view 3) "30" [6%nat; 7%nat] [echo_of "10" (w_view 4); echo_of "20" (w_view 3)] w_all "keygen" = Ok (Some e) /\
  exists n c, blames e c /\ c ∈ w_all /\ [w_view 4; w_view 3] !! n ≫= lookup (kstr w_heap c) <> w_view 3 !! kstr w_heap c.
Proof.
  eexists. split; [vm_compute; reflexivity|].
  destruct (@verifyEchoes_blames toy_range toy_range_laws w_heap w_all (w_view 3) "30" [6%nat; 7%nat]
    [echo_of "10" (w_view 4); echo_of "20" (w_view 3)] "keygen" (fun n => match n with O => w_view 4 | _ => w_view 3 end) _
    w_all_valid w_distinct (w_view_dom 3) (Forall_inv_tail w_all_valid)
    (fun n => match n with O => w_view_dom 4 | _ => w_view_dom 3 end) ltac:(intros [|n]; reflexivity)
    ltac:(intros [|[|[|n]]] e E; try discriminate E; injection E as <-; vm_compute; reflexivity) ltac:(vm_compute; reflexivity))
    as (n & c & B & Hc & Hn).
  destruct n as [|n]; [exists 0%nat, c; auto|now destruct Hn].
Defined.

(** The attribution trusts the echoers: one that lies about a dealer has the dealer
    blamed. *)
Example lying_echoer_frames_dealer :
  match @verifyEchoes toy_range w_heap (w_view 3) "30" [6%nat; 7%nat] [echo_of "10" (w_view 9); echo_of "20" (w_view 3)] w_all "keygen" with
  | Ok (Some (TssErr e)) => e_culprits e = [7%nat]
  | _ => False
  end.
Proof. vm_compute. reflexivity. Qed.
