(* ===== verification/DklsRoster.v ===== *)
(** * The parties of a brokered protocol of [dklstss]

    A list of identities with distinct keys, the keys by position and the others of a
    party, as every brokered protocol of the package uses them. *)
From stdpp Require Import base gmap list strings pretty.
From Stdlib Require Import ZArith String List Lia Bool.
From S2P Require Import Prelude GoBig Bits Party DklsEcho.
Import ListNotations.
Open Scope Z_scope.
Open Scope list_scope.

Section Roster.
Context (h : Heap) (refs : list ref).

(** Everyone's identity: distinct keys. *)
Record roster : Prop := {
  cm_valid : Forall (valid_ref h) refs;
  cm_distinct : List.NoDup (map (Party.key_of h) refs)
}.
(** Moreover the index of each is its position. *)
Record committee : Prop := {
  cm_roster :> roster;
  cm_index : forall d r, nth_error refs d = Some r -> exists p, h !! r = Some p /\ Index p = Z.of_nat d
}.
Hypothesis CM : roster.

(** The key of the party at a position. *)
Definition id_at (d : nat) : Z := nth d (map (Party.key_of h) refs) 0.
Definition others (i : nat) : list ref := List.filter (fun r => negb (Party.key_of h r =? id_at i)) refs.

Lemma at_valid d r : nth_error refs d = Some r -> valid_ref h r.
Proof. intros E. pose proof (cm_valid CM) as F. rewrite List.Forall_forall in F. apply F. now apply nth_error_In in E. Qed.
Lemma at_key d r : nth_error refs d = Some r -> Party.key_of h r = id_at d.
Proof. intros E. unfold id_at. symmetry. apply nth_error_nth. now rewrite nth_error_map, E. Qed.
Lemma key_pos d e r r' : nth_error refs d = Some r -> nth_error refs e = Some r' -> Party.key_of h r = Party.key_of h r' -> d = e.
Proof.
  intros Ed Ee K. apply (proj1 (List.NoDup_nth_error _) (cm_distinct CM)).
  - rewrite length_map. apply nth_error_Some. congruence.
  - rewrite !nth_error_map, Ed, Ee. cbn. now rewrite K.
Qed.
Lemma KeyInt_at d r : nth_error refs d = Some r -> KeyInt h r = Ok (id_at d).
Proof. intros E. rewrite (KeyInt_valid h r (at_valid d r E)), (at_key d r E). reflexivity. Qed.

Lemma others_In i r : (i < length refs)%nat -> In r (others i) <-> exists d, d <> i /\ nth_error refs d = Some r.
Proof.
  intros Hi. unfold others. rewrite filter_In. destruct (nth_error refs i) as [ri|] eqn:Ei; [|apply nth_error_None in Ei; lia]. split.
  - intros [Hr Hk]. apply In_nth_error in Hr as (d & Ed). exists d. split; [|assumption]. intros ->.
    rewrite (at_key i r Ed), Z.eqb_refl in Hk. discriminate.
  - intros (d & Hd & Ed). split; [now apply nth_error_In in Ed|]. apply negb_true_iff, Z.eqb_neq. intros K.
    rewrite <- (at_key i ri Ei) in K. apply Hd. eapply key_pos; eassumption.
Qed.
Lemma others_valid i : Forall (valid_ref h) (others i).
Proof. apply List.Forall_forall. intros r Hr. apply filter_In in Hr as [Hr _]. pose proof (cm_valid CM) as F. rewrite List.Forall_forall in F. auto. Qed.
Lemma others_keys i : List.NoDup (map (Party.key_of h) (others i)).
Proof.
  unfold others. pose proof (cm_distinct CM) as N. induction refs as [|r l IH]; cbn [List.filter]; [constructor|].
  cbn [map] in N. apply List.NoDup_cons_iff in N as [Nr N].
  destruct (negb _); cbn [map]; [|exact (IH N)]. constructor; [|exact (IH N)]. intros X. apply Nr.
  apply in_map_iff in X as (r' & E & Hr'). apply filter_In in Hr' as [Hr' _]. apply in_map_iff. eauto.
Qed.
Lemma nodup_kstr l : List.NoDup (map (Party.key_of h) l) -> List.NoDup (kstr h <$> l).
Proof.
  induction l as [|r l IH]; intros N; [constructor|]. cbn [map] in N. apply List.NoDup_cons_iff in N as [Nr N]. cbn.
  constructor; [|exact (IH N)]. intros X. apply Nr. apply in_map_iff in X as (r' & E & Hr'). apply in_map_iff. exists r'. split; [|assumption].
  now apply kstr_inj.
Qed.


(** *** Positions *)
Definition ref_at (j : nat) : ref := nth j refs 0%nat.
Definition others_at (i : nat) : list nat := List.filter (fun j => negb (j =? i)%nat) (seq 0 (length refs)).
(** The key of a position in a map. *)
Definition kat (j : nat) : string := kstr h (ref_at j).

Lemma ref_at_ok j : (j < length refs)%nat -> nth_error refs j = Some (ref_at j).
Proof. intros Hj. apply nth_error_nth'. exact Hj. Qed.
Lemma ref_at_valid j : (j < length refs)%nat -> valid_ref h (ref_at j).
Proof. intros Hj. exact (at_valid j _ (ref_at_ok j Hj)). Qed.
Lemma ref_at_key j : (j < length refs)%nat -> Party.key_of h (ref_at j) = id_at j.
Proof. intros Hj. exact (at_key j _ (ref_at_ok j Hj)). Qed.
Lemma id_at_inj j k : (j < length refs)%nat -> (k < length refs)%nat -> id_at j = id_at k -> j = k.
Proof. intros Hj Hk E. rewrite <- !ref_at_key in E by assumption. eapply key_pos; eauto using ref_at_ok. Qed.
Lemma kat_inj j k : (j < length refs)%nat -> (k < length refs)%nat -> kat j = kat k -> j = k.
Proof. intros Hj Hk E. apply kstr_inj in E. eapply key_pos; eauto using ref_at_ok. Qed.
Lemma KeyInt_ref_at j : (j < length refs)%nat -> KeyInt h (ref_at j) = Ok (id_at j).
Proof. intros Hj. exact (KeyInt_at j _ (ref_at_ok j Hj)). Qed.
Lemma peerKey_ref_at j : (j < length refs)%nat -> peerKeyStr h (ref_at j) = Ok (kat j).
Proof. intros Hj. apply peerKeyStr_valid, ref_at_valid, Hj. Qed.
Lemma others_at_In i j : In j (others_at i) <-> (j < length refs)%nat /\ j <> i.
Proof. unfold others_at. rewrite filter_In, in_seq, negb_true_iff, Nat.eqb_neq. lia. Qed.
Lemma others_at_NoDup i : List.NoDup (others_at i).
Proof. apply List.NoDup_filter, seq_NoDup. Qed.
Lemma refs_at : refs = map ref_at (seq 0 (length refs)).
Proof. symmetry. now apply map_nth_seq. Qed.
Lemma others_ref_at i : (i < length refs)%nat -> others i = map ref_at (others_at i).
Proof.
  intros Hi. unfold others, others_at. rewrite refs_at at 1.
  enough (G : forall l, (forall j, In j l -> (j < length refs)%nat) ->
    List.filter (fun r => negb (Party.key_of h r =? id_at i)) (map ref_at l) = map ref_at (List.filter (fun j => negb (j =? i)%nat) l))
    by (apply G; intros j Hj; apply in_seq in Hj; lia).
  induction l as [|j l IH]; intros Hl; cbn [map List.filter]; [reflexivity|].
  rewrite ref_at_key by (apply Hl; now left). rewrite IH by (intros; apply Hl; now right).
  destruct (Z.eqb_spec (id_at j) (id_at i)) as [E|E]; destruct (Nat.eqb_spec j i) as [E'|E']; cbn [negb map]; try reflexivity.
  - exfalso. apply E'. apply id_at_inj; [apply Hl; now left|exact Hi|exact E].
  - exfalso. apply E. now subst.
Qed.

(** *** Tables by position *)
Definition tab {V} (g : nat -> V) (js : list nat) : gmap string V := fold_left (fun m j => <[kat j := g j]> m) js empty.
Lemma tab_snoc {V} (g : nat -> V) js j : tab g (js ++ [j]) = <[kat j := g j]> (tab g js).
Proof. unfold tab. now rewrite fold_left_app. Qed.
Lemma tab_lookup {V} (g : nat -> V) js : Forall (fun j => (j < length refs)%nat) js -> forall k v, tab g js !! k = Some v <-> exists j, In j js /\ k = kat j /\ v = g j.
Proof.
  intros F k v. induction js as [|j js IH] using rev_ind; [split; [discriminate|now intros (j & [] & _)]|].
  apply Forall_app in F as [F Fj]. apply Forall_inv in Fj. rewrite tab_snoc. destruct (decide (kat j = k)) as [<-|Hk].
  - rewrite lookup_insert_eq. split; [intros [= <-]; exists j; rewrite in_app_iff; cbn; auto|].
    intros (l & Hl & E & ->). apply kat_inj in E as ->; [reflexivity|exact Fj|].
    apply in_app_iff in Hl as [Hl|[->|[]]]; [|exact Fj]. rewrite List.Forall_forall in F. now apply F.
  - rewrite lookup_insert_ne by exact Hk. rewrite (IH F). split.
    + intros (l & Hl & E). exists l. rewrite in_app_iff. auto.
    + intros (l & Hl & E & Ev). apply in_app_iff in Hl as [Hl|[->|[]]]; [eauto|congruence].
Qed.
Lemma tab_at {V} (g : nat -> V) js j : Forall (fun j => (j < length refs)%nat) js -> In j js -> tab g js !! kat j = Some (g j).
Proof. intros F Hj. apply tab_lookup; eauto. Qed.
Lemma others_at_lt i : Forall (fun j => (j < length refs)%nat) (others_at i).
Proof. apply List.Forall_forall. intros j Hj. now apply others_at_In in Hj. Qed.
Lemma all_lt : Forall (fun j => (j < length refs)%nat) (seq 0 (length refs)).
Proof. apply List.Forall_forall. intros j Hj. apply in_seq in Hj. lia. Qed.

(** The table of the others with the own entry is the whole one. *)
Lemma tab_own {V} (g : nat -> V) i : (i < length refs)%nat -> <[kat i := g i]> (tab g (others_at i)) = tab g (seq 0 (length refs)).
Proof.
  intros Hi. rewrite <- tab_snoc. assert (F : Forall (fun j => (j < length refs)%nat) (others_at i ++ [i])) by (apply Forall_app; split; [apply others_at_lt|auto]).
  apply map_eq. intros k. apply option_eq. intros v. rewrite !tab_lookup by (exact F || apply all_lt).
  split; intros (j & Hj & E); exists j; (split; [|exact E]).
  - apply in_seq. apply in_app_iff in Hj as [Hj|[->|[]]]; [apply others_at_In in Hj|]; lia.
  - apply in_seq in Hj. apply in_app_iff. destruct (Nat.eq_dec j i) as [->|]; [right; now left|left; apply others_at_In; lia].
Qed.
Lemma tab_others {V} (g : nat -> V) i : (i < length refs)%nat -> tab g (others_at i) = delete (kat i) (tab g (seq 0 (length refs))).
Proof.
  intros Hi. rewrite <- (tab_own g i) by exact Hi. rewrite delete_insert_id; [reflexivity|].
  destruct (tab g (others_at i) !! kat i) eqn:E; [|reflexivity]. apply tab_lookup in E as (j & Hj & E & _); [|apply others_at_lt].
  apply others_at_In in Hj as [Hj Hne]. symmetry in E. now apply kat_inj in E.
Qed.
Lemma tab_dom {V} (g : nat -> V) k : is_Some (tab g (seq 0 (length refs)) !! k) <-> k ∈ kstr h <$> refs.
Proof.
  split.
  - intros [v E]. apply tab_lookup in E as (j & Hj & -> & _); [|apply all_lt]. apply in_seq in Hj. apply list_elem_of_In. apply (in_map (kstr h) refs (ref_at j)).
    apply (nth_error_In _ j). apply ref_at_ok. lia.
  - intros Hk. apply list_elem_of_In, in_map_iff in Hk as (r & <- & Hr). apply In_nth_error in Hr as (j & Ej). exists (g j).
    apply tab_lookup; [apply all_lt|]. exists j. split; [apply in_seq; pose proof (proj1 (nth_error_Some refs j) ltac:(congruence)); lia|].
    split; [|reflexivity]. unfold kat, ref_at. now rewrite (nth_error_nth _ _ _ Ej).
Qed.
End Roster.

