(* ===== verification/DklsSigningParty.v ===== *)
(** * Package [dklstss]: a party of the brokered signing

    [signing_party.go]: one signer's state machine.  Round 1 when it is created, then
    one callback per collected round: the nonces' points and their echo, the two
    messages of the multiplications, the partial signatures and their echo.  The
    machine, the broker and the contexts are those of [Handler]. *)
From stdpp Require Import base gmap list strings pretty.
From Stdlib Require Import ZArith String List Lia Bool.
From S2P Require Import Prelude GoBig Common Curve CtMul Field Vss Schnorr Bits OtExt BaseOt Ole Party Handler Json.
From S2P Require Import Dkls DklsSetup DklsSign DklsEcho.
Import ListNotations.
Open Scope string_scope.
Open Scope Z_scope.
Open Scope list_scope.

(** ** Wire types *)
Record encodedExtendMsg := { ee_L : Z; ee_U : list bytes; ee_X : bytes; ee_T : list bytes }.
Record signR1 := { KiX : bytes; KiY : bytes }.
Record signR2 := { AliceK : option encodedExtendMsg; AliceX : option encodedExtendMsg }.
Record signR3 := { BobK : list bytes; BobX : list bytes }.
Record signR4 := { Phi : bytes; Shat : bytes }.

Definition signTypeR1 : string := "dkls:sign:r1".
Definition signTypeR1Echo : string := "dkls:sign:r1echo".
Definition signTypeR2 : string := "dkls:sign:r2".
Definition signTypeR3 : string := "dkls:sign:r3".
Definition signTypeR4 : string := "dkls:sign:r4".
Definition signTypeR4Echo : string := "dkls:sign:r4echo".
Definition echoTagSign : string := "DKLS23-echo-sign-v1".
Definition echoTagSignR4 : string := "DKLS23-echo-sign-r4-v1".
Definition echoSourceSign : string := "dklstss-sign".

(** What [encoding/json] does with the five types. *)
Class SignJson := {
  #[global] json_sr1 :: Json signR1;
  #[global] json_secho :: Json echoMsg;
  #[global] json_sr2 :: Json signR2;
  #[global] json_sr3 :: Json signR3;
  #[global] json_sr4 :: Json signR4
}.

(** A message of the protocol. *)
Inductive SMsg `{SignJson} :=
| SR1 (m : JsonMessage signR1 (Raw (T := signR1)))
| SR1Echo (m : JsonMessage echoMsg (Raw (T := echoMsg)))
| SR2 (m : JsonMessage signR2 (Raw (T := signR2)))
| SR3 (m : JsonMessage signR3 (Raw (T := signR3)))
| SR4 (m : JsonMessage signR4 (Raw (T := signR4)))
| SR4Echo (m : JsonMessage echoMsg (Raw (T := echoMsg))).

(** ** The party *)
(** The fields that [NewSigning] fills and nothing writes afterwards. *)
Record SigningJob := {
  sj_params : Parameters; sj_key : Key; sj_hash : bytes; sj_tweak : option Z;
  sj_subset : list ref; sj_myPos : nat; sj_otherSubset : list ref; sj_subsetIDs : list Z; sj_lambdas : list Z; sj_sx : Z
}.
Record SigningParty := {
  sp_job : SigningJob; sp_ssid : bytes;
  sp_k_i : option Z; sp_rho_i : option Z; sp_K_i : option ECPoint; sp_r : option Z;
  sp_aliceStateK : gmap string AliceState; sp_aliceStateX : gmap string AliceState; sp_peerK : gmap string ECPoint;
  sp_kRhoShare : list Z; sp_xRhoShare : list Z; sp_phi_i : option Z; sp_shat_i : option Z;
  sp_r4msgs : gmap string (option signR4); sp_Done : option Signature; sp_Err : option GoErr
}.

(** *** Assignments *)
Definition with_round1 (k rho : option Z) (K : option ECPoint) (kRho xRho : list Z) (s : SigningParty) : SigningParty :=
  {| sp_job := sp_job s; sp_ssid := sp_ssid s; sp_k_i := k; sp_rho_i := rho; sp_K_i := K; sp_r := sp_r s;
     sp_aliceStateK := sp_aliceStateK s; sp_aliceStateX := sp_aliceStateX s; sp_peerK := sp_peerK s; sp_kRhoShare := kRho;
     sp_xRhoShare := xRho; sp_phi_i := sp_phi_i s; sp_shat_i := sp_shat_i s; sp_r4msgs := sp_r4msgs s; sp_Done := sp_Done s; sp_Err := sp_Err s |}.
Definition with_peerK (key : string) (K : ECPoint) (s : SigningParty) : SigningParty :=
  {| sp_job := sp_job s; sp_ssid := sp_ssid s; sp_k_i := sp_k_i s; sp_rho_i := sp_rho_i s; sp_K_i := sp_K_i s; sp_r := sp_r s;
     sp_aliceStateK := sp_aliceStateK s; sp_aliceStateX := sp_aliceStateX s; sp_peerK := <[key := K]> (sp_peerK s); sp_kRhoShare := sp_kRhoShare s;
     sp_xRhoShare := sp_xRhoShare s; sp_phi_i := sp_phi_i s; sp_shat_i := sp_shat_i s; sp_r4msgs := sp_r4msgs s; sp_Done := sp_Done s; sp_Err := sp_Err s |}.
Definition with_r (r : Z) (s : SigningParty) : SigningParty :=
  {| sp_job := sp_job s; sp_ssid := sp_ssid s; sp_k_i := sp_k_i s; sp_rho_i := sp_rho_i s; sp_K_i := sp_K_i s; sp_r := Some r;
     sp_aliceStateK := sp_aliceStateK s; sp_aliceStateX := sp_aliceStateX s; sp_peerK := sp_peerK s; sp_kRhoShare := sp_kRhoShare s;
     sp_xRhoShare := sp_xRhoShare s; sp_phi_i := sp_phi_i s; sp_shat_i := sp_shat_i s; sp_r4msgs := sp_r4msgs s; sp_Done := sp_Done s; sp_Err := sp_Err s |}.
Definition with_ssid (ssid : bytes) (s : SigningParty) : SigningParty :=
  {| sp_job := sp_job s; sp_ssid := ssid; sp_k_i := sp_k_i s; sp_rho_i := sp_rho_i s; sp_K_i := sp_K_i s; sp_r := sp_r s;
     sp_aliceStateK := sp_aliceStateK s; sp_aliceStateX := sp_aliceStateX s; sp_peerK := sp_peerK s; sp_kRhoShare := sp_kRhoShare s;
     sp_xRhoShare := sp_xRhoShare s; sp_phi_i := sp_phi_i s; sp_shat_i := sp_shat_i s; sp_r4msgs := sp_r4msgs s; sp_Done := sp_Done s; sp_Err := sp_Err s |}.
Definition with_alice (key : string) (stK stX : AliceState) (s : SigningParty) : SigningParty :=
  {| sp_job := sp_job s; sp_ssid := sp_ssid s; sp_k_i := sp_k_i s; sp_rho_i := sp_rho_i s; sp_K_i := sp_K_i s; sp_r := sp_r s;
     sp_aliceStateK := <[key := stK]> (sp_aliceStateK s); sp_aliceStateX := <[key := stX]> (sp_aliceStateX s); sp_peerK := sp_peerK s;
     sp_kRhoShare := sp_kRhoShare s; sp_xRhoShare := sp_xRhoShare s; sp_phi_i := sp_phi_i s; sp_shat_i := sp_shat_i s; sp_r4msgs := sp_r4msgs s;
     sp_Done := sp_Done s; sp_Err := sp_Err s |}.
Definition with_shares (kRho xRho : list Z) (s : SigningParty) : SigningParty :=
  {| sp_job := sp_job s; sp_ssid := sp_ssid s; sp_k_i := sp_k_i s; sp_rho_i := sp_rho_i s; sp_K_i := sp_K_i s; sp_r := sp_r s;
     sp_aliceStateK := sp_aliceStateK s; sp_aliceStateX := sp_aliceStateX s; sp_peerK := sp_peerK s; sp_kRhoShare := kRho;
     sp_xRhoShare := xRho; sp_phi_i := sp_phi_i s; sp_shat_i := sp_shat_i s; sp_r4msgs := sp_r4msgs s; sp_Done := sp_Done s; sp_Err := sp_Err s |}.
Definition with_partial (phi shat : Z) (s : SigningParty) : SigningParty :=
  {| sp_job := sp_job s; sp_ssid := sp_ssid s; sp_k_i := sp_k_i s; sp_rho_i := sp_rho_i s; sp_K_i := sp_K_i s; sp_r := sp_r s;
     sp_aliceStateK := sp_aliceStateK s; sp_aliceStateX := sp_aliceStateX s; sp_peerK := sp_peerK s; sp_kRhoShare := sp_kRhoShare s;
     sp_xRhoShare := sp_xRhoShare s; sp_phi_i := Some phi; sp_shat_i := Some shat; sp_r4msgs := sp_r4msgs s; sp_Done := sp_Done s; sp_Err := sp_Err s |}.
Definition with_r4msg (key : string) (m : option signR4) (s : SigningParty) : SigningParty :=
  {| sp_job := sp_job s; sp_ssid := sp_ssid s; sp_k_i := sp_k_i s; sp_rho_i := sp_rho_i s; sp_K_i := sp_K_i s; sp_r := sp_r s;
     sp_aliceStateK := sp_aliceStateK s; sp_aliceStateX := sp_aliceStateX s; sp_peerK := sp_peerK s; sp_kRhoShare := sp_kRhoShare s;
     sp_xRhoShare := sp_xRhoShare s; sp_phi_i := sp_phi_i s; sp_shat_i := sp_shat_i s; sp_r4msgs := <[key := m]> (sp_r4msgs s);
     sp_Done := sp_Done s; sp_Err := sp_Err s |}.
Definition sp_out (done : option Signature) (err : option GoErr) (s : SigningParty) : SigningParty :=
  {| sp_job := sp_job s; sp_ssid := sp_ssid s; sp_k_i := sp_k_i s; sp_rho_i := sp_rho_i s; sp_K_i := sp_K_i s; sp_r := sp_r s;
     sp_aliceStateK := sp_aliceStateK s; sp_aliceStateX := sp_aliceStateX s; sp_peerK := sp_peerK s; sp_kRhoShare := sp_kRhoShare s;
     sp_xRhoShare := sp_xRhoShare s; sp_phi_i := sp_phi_i s; sp_shat_i := sp_shat_i s; sp_r4msgs := sp_r4msgs s; sp_Done := done; sp_Err := err |}.
Definition sp_send_Done (sg : Signature) (s : SigningParty) : SigningParty := sp_out (sendOnce (sp_Done s) sg) (sp_Err s) s.
Definition sp_send_Err (e : GoErr) (s : SigningParty) : SigningParty := sp_out (sp_Done s) (sendOnce (sp_Err s) e) s.

(** ** Encodings *)
Section Encodings.
Context `{SH : Sha256}.

Definition encodeExtendMsg (m : ExtendMsg1) : encodedExtendMsg := {| ee_L := emL m; ee_U := emU m; ee_X := emX m; ee_T := emT m |}.
(** The arrays of the decoded message have the lengths that are checked. *)
Definition decodeExtendMsg (e : option encodedExtendMsg) : res ExtendMsg1 :=
  match e with
  | None => Err "nil encodedExtendMsg"
  | Some e =>
    guard (length (ee_X e) =? SigmaBytes)%nat "X length %d, expected %d" ;!
    guard (length (ee_T e) =? Sigma)%nat "T length %d, expected %d" ;!
    guard (forallb (fun row => (length row =? DeltaBytes)%nat) (ee_T e)) "T[%d] length %d, expected %d" ;!
    Ok {| emL := ee_L e; emU := ee_U e; emX := ee_X e; emT := ee_T e |}
  end.
Definition encodeBobMsg (b : BobMsg) : res (list bytes) := mapM (fun c => let! c := deref c in Ok (Bytes c)) (Corrections b).
Definition decodeBobMsg (l : list bytes) : BobMsg := {| Corrections := map (fun b => Some (SetBytes b)) l |}.

Definition r4Digest (h : Heap) (dealer : ref) (r4 : option signR4) : res bytes :=
  let! r4 := deref r4 in commitDigest h echoTagSignR4 (Some dealer) [Phi r4; Shat r4].
Definition kIDigest (h : Heap) (dealer : ref) (K : option ECPoint) : res bytes :=
  let! K := deref K in
  let! x := ECPoint_X K in
  let! y := ECPoint_Y K in
  commitDigest h echoTagSign (Some dealer) [Bytes x; Bytes y].

(** ** Sessions *)
Definition signSession (h : Heap) (key : Key) (hash : bytes) (subset : list ref) : res bytes :=
  let! pub := deref (kECDSAPub key) in
  let! x := ECPoint_X pub in
  let! y := ECPoint_Y pub in
  let! ids := mapM (KeyInt h) subset in
  Ok (sha256 (str "DKLS23-sign-party-v1-" ++ Bytes x ++ Bytes y ++ hash ++ flat_map (fun k => Bytes k ++ [0]) ids)).
Definition signMulSid (ssid : bytes) (kind : string) (alice bob : Z) : bytes :=
  sha256 (ssid ++ [124] ++ str kind ++ [124] ++ Bytes alice ++ [124] ++ Bytes bob).

(** The insertion sort by identity: the prefix is sorted, the new entry moves past
    the larger ones. *)
Fixpoint insert_idK (e : Z * ECPoint) (l : list (Z * ECPoint)) : list (Z * ECPoint) :=
  match l with
  | [] => [e]
  | x :: l => if 0 <? Cmp (fst x) (fst e) then e :: x :: l else x :: insert_idK e l
  end.
Definition sort_idK (l : list (Z * ECPoint)) : list (Z * ECPoint) := fold_left (fun acc e => insert_idK e acc) l [].

Definition mixRoundOneSsid (h : Heap) (baseSsid : bytes) (selfID : ref) (selfK : option ECPoint) (peerIDs : list ref)
    (peerK : gmap string ECPoint) : res bytes :=
  let! me := KeyInt h selfID in
  let! all := foldM (fun all pid =>
    let! k := peerKeyStr h pid in
    match peerK !! k with
    | None => Ok all
    | Some K => let! id := KeyInt h pid in Ok (all ++ [(id, Some K)])
    end) [(me, selfK)] peerIDs in
  let! all := mapM (fun '(id, K) => let! K := deref K in Ok (id, K)) all in
  let! parts := mapM (fun '(id, K) =>
    let! x := ECPoint_X K in
    let! y := ECPoint_Y K in
    Ok ([124] ++ Bytes id ++ [124] ++ Bytes x ++ [124] ++ Bytes y)) (sort_idK all) in
  Ok (sha256 (str "DKLS23-sign-ssid-mix-v1" ++ [124] ++ baseSsid ++ concat parts)).

(** The position in the whole committee, [-1] outside of it. *)
Fixpoint index_from (h : Heap) (i : Z) (ids : list ref) (k : Z) : res Z :=
  match ids with
  | [] => Ok (-1)
  | q :: ids => let! kq := KeyInt h q in if Cmp kq k =? 0 then Ok i else index_from h (i + 1) ids k
  end.
Definition indexInFullCommittee (h : Heap) (key : Key) (p : ref) : res Z :=
  match kPartyIDs key with [] => Ok (-1) | ids => let! k := KeyInt h p in index_from h 0 ids k end.
End Encodings.

(** ** The rounds *)
Section Defs.
Context `{HS : Hash} `{SH : Sha256} `{AE : Aes} `{CS : Curves} `{SL : Secp256k1Lib} `{EL : Ed25519Lib} `{MR : MapRange}.
Context `{SJ : SignJson} `{BR : !Broker SMsg}.
Abbreviation Core := (Machine SigningParty SMsg).
Abbreviation job s := (sp_job (self s)).
Abbreviation me s := (p_partyID (sj_params (sp_job (self s)))).
Abbreviation crv s := (p_ec (sj_params (sp_job (self s)))).

Definition sign_round1 : hnd Core unit :=
  let^ s := hget in
  let ec := crv s in
  let^ k := draw_rand (GetRandomPositiveInt (Some (cN ec))) in
  let^ rho := draw_rand (GetRandomPositiveInt (Some (cN ec))) in
  let^ K := draw_rand (ScalarBaseMultWithRand ec k) in
  let^ a := hlift (deref k) in
  let^ b := hlift (deref rho) in
  let^ kr := hlift (CTScalarMulAddModN ec a b 0) in
  let^ kRho := hlift (set_at (sp_kRhoShare (self s)) (sj_myPos (job s)) (fun _ => Ok kr)) in
  let^ xr := hlift (CTScalarMulAddModN ec (sj_sx (job s)) b 0) in
  let^ xRho := hlift (set_at (sp_xRhoShare (self s)) (sj_myPos (job s)) (fun _ => Ok xr)) in
  upd (with_round1 k rho K kRho xRho) ;^
  let^ K := hlift (deref K) in
  let^ x := hlift (ECPoint_X K) in
  let^ y := hlift (ECPoint_Y K) in
  send "broker r1 bcast" (SR1 (JsonWrap signTypeR1 (Some {| KiX := Bytes x; KiY := Bytes y |}) (Some (me s)) None)) ;^
  connect signTypeR1 (sj_otherSubset (job s)).

(** The position of the own key in the subset. *)
Fixpoint find_self (h : Heap) (i : nat) (subset : list ref) (k : Z) : res (option nat) :=
  match subset with
  | [] => Ok None
  | p :: subset => let! kp := KeyInt h p in if Cmp kp k =? 0 then Ok (Some i) else find_self h (S i) subset k
  end.

(** [NewSigning] up to its first round. *)
Definition new_job (h : Heap) (reg : CurveState) (params : Parameters) (key : Key) (hash : bytes) (subset : list ref) (tweak : option Z)
    (sys : reader) : res (SigningParty * reader) :=
  guard (negb (length hash =? 0)%nat) "dklstss: NewSigning empty hash" ;!
  let! sys := rewrap "dklstss: NewSigning invalid key" (Key_ValidateBasic (Some key) sys) in
  guard (SameCurve (p_ec params) S256 reg) "dklstss: NewSigning requires secp256k1" ;!
  guard (Z.of_nat (length subset) =? kT key + 1) "dklstss: NewSigning subset size %d, expected T+1=%d" ;!
  rewrap "dklstss: NewSigning" (validateSortedSubset h subset) ;!
  let! own := KeyInt h (p_partyID params) in
  let! pos := find_self h 0 subset own in
  match pos with
  | None => Err "dklstss: NewSigning self not in subset"
  | Some myPos =>
    let q := cN (p_ec params) in
    let! subsetIDs := mapM (KeyInt h) subset in
    let! lambdas := mapM (fun i => rewrap "dklstss: NewSigning lagrange" (lagrangeCoefficient q subsetIDs (Z.of_nat i))) (seq 0 (length subset)) in
    let! lam := idx lambdas myPos in
    let! xi := deref (kXi key) in
    let! sx := Mod (lam * xi) q in
    let! sx := match tweak with
               | Some tweak => if (myPos =? 0)%nat then let! t := Mod tweak q in Mod (sx + t) q else Ok sx
               | None => Ok sx
               end in
    let! others := foldM (fun out p => let! k := KeyInt h p in Ok (if negb (Cmp k own =? 0) then out ++ [p] else out)) [] subset in
    let! ssid := signSession h key hash subset in
    Ok ({| sp_job := {| sj_params := params; sj_key := key; sj_hash := hash; sj_tweak := tweak; sj_subset := subset; sj_myPos := myPos;
                        sj_otherSubset := others; sj_subsetIDs := subsetIDs; sj_lambdas := lambdas; sj_sx := sx |};
           sp_ssid := ssid; sp_k_i := None; sp_rho_i := None; sp_K_i := None; sp_r := None;
           sp_aliceStateK := empty; sp_aliceStateX := empty; sp_peerK := empty;
           sp_kRhoShare := repeat 0 (length subset); sp_xRhoShare := repeat 0 (length subset);
           sp_phi_i := None; sp_shat_i := None; sp_r4msgs := empty; sp_Done := None; sp_Err := None |}, sys)
  end.

(** [NewSigning]: the party, or the error; what was sent stays sent. *)
Definition NewSigning (h : Heap) (reg : CurveState) (ctx_nil : bool) (params : option Parameters) (key : option Key) (hash : bytes)
    (subset : list ref) (tweak : option Z) (rand sys : reader) : res (option Core * option GoErr) :=
  match ctx_nil, params, key with
  | false, Some params, Some key =>
    match new_job h reg params key hash subset tweak sys with
    | Panic w => Panic w
    | Err m => Ok (None, Some (PlainErr m))
    | Ok (p, sys) =>
      let! (s, r) := sign_round1 {| self := p; rPartial := []; rRand := rand; rSys := sys; sent := []; connected := [] |} in
      Ok (Some s, match r with inl _ => None | inr _ => Some (PlainErr "dklstss: NewSigning round1") end)
    end
  | _, _, _ => Ok (None, Some (PlainErr "dklstss: NewSigning nil argument"))
  end.

(** [sp.key.OT[sp.indexInFullCommittee(p)]] *)
Definition pair_of (h : Heap) (p : ref) : hnd Core PairOTState :=
  let^ s := hget in
  let^ i := hlift (indexInFullCommittee h (sj_key (job s)) p) in
  let^ pr := hlift (idxZ (kOT (sj_key (job s))) i) in
  match pr with Some pr => hret pr | None => herr (PlainErr "missing OT state with peer %s") end.

(** The digests of the received points, added to [m]. *)
Definition kI_digests (h : Heap) (peerK : gmap string ECPoint) (otherIds : list ref) (m : gmap string bytes) : res (gmap string bytes) :=
  foldM (fun m pid =>
    let! k := peerKeyStr h pid in
    let! d := kIDigest h pid (peerK !! k) in
    Ok (<[k := d]> m)) m otherIds.

Definition collect_K (h : Heap) (msgs : list (option signR1)) (R : ECPoint) (np : nat * ref) : hnd Core ECPoint :=
  let '(n, pid) := np in
  let^ s := hget in
  let^ m := hlift (let! m := idx msgs n in deref m) in
  match NewECPoint (crv s) (Some (SetBytes (KiX m))) (Some (SetBytes (KiY m))) with
  | Panic w => hlift (Panic w)
  | Err _ => herr (TssErr (NewError "party %s sent invalid K_j" echoSourceSign 0 None [pid]))
  | Ok Kj =>
    let^ key := hlift (peerKeyStr h pid) in
    upd (with_peerK key Kj) ;^
    hlift (rewrap "R aggregation" (ECPoint_Add R Kj))
  end.

Definition round2KCollect (h : Heap) (ctx : option string) (otherIds : list ref) (msgs : list (option signR1)) : hnd Core unit :=
  ctx_alive ctx ;^
  let^ s := hget in
  let Pi := me s in
  let^ K := hlift (deref (sp_K_i (self s))) in
  let^ R := hfold (collect_K h msgs) K (enum otherIds) in
  let^ Rx := hlift (ECPoint_X R) in
  let^ r := hlift (Mod Rx (cN (crv s))) in
  hguard (negb (Z.sgn r =? 0)) "R.X mod q == 0, retry with fresh randomness" ;^
  upd (with_r r) ;^
  let^ s := hget in
  let^ digests := hlift (kI_digests h (sp_peerK (self s)) otherIds empty) in
  send "broker r1echo bcast" (SR1Echo (JsonWrap signTypeR1Echo (Some {| Digests := Some digests |}) (Some Pi) None)) ;^
  connect signTypeR1Echo (sj_otherSubset (job s)).

(** The two messages of the multiplications to one peer. *)
Definition alice_peer (h : Heap) (Pj : ref) : hnd Core unit :=
  let^ s := hget in
  let Pi := me s in
  let^ pr := pair_of h Pj in
  let^ ki := hlift (KeyInt h Pi) in
  let^ kj := hlift (KeyInt h Pj) in
  let sidK := signMulSid (sp_ssid (self s)) "kxrho" ki kj in
  let sidX := signMulSid (sp_ssid (self s)) "xxrho" ki kj in
  let^ (msgK, stK) := hlift (rewrap "ΠMul-k Alice1 to %s" (AliceStep1 sidK (AsAlice pr) (sp_k_i (self s)))) in
  let^ (msgX, stX) := hlift (rewrap "ΠMul-x Alice1 to %s" (AliceStep1 sidX (AsAlice pr) (Some (sj_sx (job s))))) in
  let^ key := hlift (peerKeyStr h Pj) in
  upd (with_alice key stK stX) ;^
  send "broker r2→%s" (SR2 (JsonWrap signTypeR2 (Some {| AliceK := Some (encodeExtendMsg msgK); AliceX := Some (encodeExtendMsg msgX) |})
    (Some Pi) (Some Pj))).

Definition round2Echo (h : Heap) (ctx : option string) (otherIds echoers : list ref) (msgs : list (option echoMsg)) : hnd Core unit :=
  ctx_alive ctx ;^
  let^ s := hget in
  let Pi := me s in
  let^ myDigests := hlift (kI_digests h (sp_peerK (self s)) otherIds empty) in
  let^ selfKey := hlift (peerKeyStr h Pi) in
  let^ mine := hlift (kIDigest h Pi (sp_K_i (self s))) in
  let^ err := hlift (verifyEchoes h (<[selfKey := mine]> myDigests) selfKey echoers msgs (Pi :: otherIds) echoSourceSign) in
  match err with
  | Some e => herr e
  | None =>
    let^ ssid := hlift (mixRoundOneSsid h (sp_ssid (self s)) Pi (sp_K_i (self s)) otherIds (sp_peerK (self s))) in
    upd (with_ssid ssid) ;^
    hfor (alice_peer h) (sj_otherSubset (job s)) ;^
    connect signTypeR2 (sj_otherSubset (job s))
  end.

(** [sp.kRhoShare[sp.myPos] = addMod(q, sp.kRhoShare[sp.myPos], a)], and [b] to the other. *)
Definition accumulate (a b : Z) : hnd Core unit :=
  let^ s := hget in
  let q := cN (crv s) in
  let^ kRho := hlift (set_at (sp_kRhoShare (self s)) (sj_myPos (job s)) (fun v => addMod q v a)) in
  let^ xRho := hlift (set_at (sp_xRhoShare (self s)) (sj_myPos (job s)) (fun v => addMod q v b)) in
  upd (with_shares kRho xRho).

(** The answer to one peer's two messages. *)
Definition bob_peer (h : Heap) (msgs : list (option signR2)) (np : nat * ref) : hnd Core unit :=
  let '(n, pid) := np in
  let^ s := hget in
  let Pi := me s in
  let^ r2 := hlift (idx msgs n) in
  let^ pr := pair_of h pid in
  let^ r2 := hlift (deref r2) in
  let^ extK := hlift (rewrap "decode Alice k-envelope from %s" (decodeExtendMsg (AliceK r2))) in
  let^ extX := hlift (rewrap "decode Alice x-envelope from %s" (decodeExtendMsg (AliceX r2))) in
  let^ kp := hlift (KeyInt h pid) in
  let^ ki := hlift (KeyInt h Pi) in
  let sidK := signMulSid (sp_ssid (self s)) "kxrho" kp ki in
  let sidX := signMulSid (sp_ssid (self s)) "xxrho" kp ki in
  let^ (bMsgK, uBK) := hlift (rewrap "ΠMul-k Bob1 with %s" (BobStep1 sidK (AsBob pr) (sp_rho_i (self s)) (Some extK))) in
  let^ (bMsgX, uBX) := hlift (rewrap "ΠMul-x Bob1 with %s" (BobStep1 sidX (AsBob pr) (sp_rho_i (self s)) (Some extX))) in
  accumulate uBK uBX ;^
  let^ outK := hlift (encodeBobMsg bMsgK) in
  let^ outX := hlift (encodeBobMsg bMsgX) in
  send "broker r3→%s" (SR3 (JsonWrap signTypeR3 (Some {| BobK := outK; BobX := outX |}) (Some Pi) (Some pid))).

Definition round3 (h : Heap) (ctx : option string) (otherIds : list ref) (msgs : list (option signR2)) : hnd Core unit :=
  ctx_alive ctx ;^
  hfor (bob_peer h msgs) (enum otherIds) ;^
  let^ s := hget in
  connect signTypeR3 (sj_otherSubset (job s)).

(** The own shares of one peer's two products. *)
Definition close_peer (h : Heap) (msgs : list (option signR3)) (np : nat * ref) : hnd Core unit :=
  let '(n, pid) := np in
  let^ s := hget in
  let^ r3 := hlift (idx msgs n) in
  let^ key := hlift (peerKeyStr h pid) in
  match sp_aliceStateK (self s) !! key, sp_aliceStateX (self s) !! key with
  | Some stK, Some stX =>
    let^ r3 := hlift (deref r3) in
    let^ uAK := hlift (rewrap "ΠMul-k Alice2 with %s" (AliceStep2 (Some stK) (Some (decodeBobMsg (BobK r3))))) in
    let^ uAX := hlift (rewrap "ΠMul-x Alice2 with %s" (AliceStep2 (Some stX) (Some (decodeBobMsg (BobX r3))))) in
    accumulate uAK uAX
  | _, _ => herr (PlainErr "missing Alice state for peer %s")
  end.

Definition round4 (h : Heap) (ctx : option string) (otherIds : list ref) (msgs : list (option signR3)) : hnd Core unit :=
  ctx_alive ctx ;^
  hfor (close_peer h msgs) (enum otherIds) ;^
  let^ s := hget in
  let ec := crv s in
  let^ hashI := hlift (hashToScalar (cN ec) (sj_hash (job s))) in
  let^ phi := hlift (idx (sp_kRhoShare (self s)) (sj_myPos (job s))) in
  let^ rho := hlift (deref (sp_rho_i (self s))) in
  let^ t1 := hlift (CTScalarMulAddModN ec rho hashI 0) in
  let^ r := hlift (deref (sp_r (self s))) in
  let^ x := hlift (idx (sp_xRhoShare (self s)) (sj_myPos (job s))) in
  let^ shat := hlift (CTScalarMulAddModN ec r x t1) in
  upd (with_partial phi shat) ;^
  send "broker r4 bcast" (SR4 (JsonWrap signTypeR4 (Some {| Phi := Bytes phi; Shat := Bytes shat |}) (Some (me s)) None)) ;^
  connect signTypeR4 (sj_otherSubset (job s)).

(** A peer's partial signature is kept, its digest added. *)
Definition stash_r4 (h : Heap) (msgs : list (option signR4)) (digests : gmap string bytes) (np : nat * ref) : hnd Core (gmap string bytes) :=
  let '(n, pid) := np in
  let^ m := hlift (idx msgs n) in
  let^ key := hlift (peerKeyStr h pid) in
  upd (with_r4msg key m) ;^
  let^ d := hlift (r4Digest h pid m) in
  hret (<[key := d]> digests).

Definition round5Echo (h : Heap) (ctx : option string) (otherIds : list ref) (msgs : list (option signR4)) : hnd Core unit :=
  ctx_alive ctx ;^
  let^ digests := hfold (stash_r4 h msgs) empty (enum otherIds) in
  let^ s := hget in
  send "broker r4echo bcast" (SR4Echo (JsonWrap signTypeR4Echo (Some {| Digests := Some digests |}) (Some (me s)) None)) ;^
  connect signTypeR4Echo (sj_otherSubset (job s)).

(** The received partial signature of a party; a missing entry is a nil pointer. *)
Definition r4_of (h : Heap) (s : SigningParty) (pid : ref) : res (option signR4) :=
  let! k := peerKeyStr h pid in Ok (default None (sp_r4msgs s !! k)).
Definition r4_digests (h : Heap) (s : SigningParty) (otherIds : list ref) : res (gmap string bytes) :=
  foldM (fun m pid =>
    let! k := peerKeyStr h pid in
    let! r4 := r4_of h s pid in
    let! d := r4Digest h pid r4 in
    Ok (<[k := d]> m)) empty otherIds.
Definition sum_partials (h : Heap) (s : SigningParty) (q : Z) (otherIds : list ref) (phi shat : Z) : res (Z * Z) :=
  foldM (fun '(phi, shat) pid =>
    let! m := r4_of h s pid in
    let! m := deref m in
    let! phi := Mod (phi + SetBytes (Phi m)) q in
    let! shat := Mod (shat + SetBytes (Shat m)) q in
    Ok (phi, shat)) (phi, shat) otherIds.
(** The nonce point again, for the parity of its ordinate. *)
Definition rebuild_R (h : Heap) (s : SigningParty) : res ECPoint :=
  let! K := deref (sp_K_i s) in
  foldM (fun R pid =>
    let! k := peerKeyStr h pid in
    let! Kp := deref (sp_peerK s !! k) in
    rewrap "R reconstruct" (ECPoint_Add R Kp)) K (sj_otherSubset (sp_job s)).

(** From the partial signatures to the signature. *)
Definition combine_partials (h : Heap) (s : SigningParty) (otherIds : list ref) (sys : reader) : res (Signature * reader) :=
  let q := cN (p_ec (sj_params (sp_job s))) in
  let! phi := deref (sp_phi_i s) in
  let! shat := deref (sp_shat_i s) in
  let! (phi, shat) := sum_partials h s q otherIds phi shat in
  guard (negb (Z.sgn phi =? 0)) "φ aggregated to 0; retry signing with fresh randomness" ;!
  let! phiInv := modInt_ModInverse q phi in
  match phiInv with
  | None => Err "φ has no inverse"
  | Some phiInv =>
    let! sg := Mod (shat * phiInv) q in
    guard (negb (Z.sgn sg =? 0)) "s = 0; retry signing" ;!
    let! R := rebuild_R h s in
    let! Ry := ECPoint_Y R in
    let (sg, v) := low_s q sg (Bit Ry 0) in
    let! r := deref (sp_r s) in
    let! sys := verifyFinalSignature (kECDSAPub (sj_key (sp_job s))) (sj_tweak (sp_job s)) (sj_hash (sp_job s)) r sg sys in
    Ok ({| sigR := r; sigS := sg; sigV := v |}, sys)
  end.

Definition sign_finalize (h : Heap) (ctx : option string) (otherIds echoers : list ref) (echoes : list (option echoMsg)) : hnd Core unit :=
  ctx_alive ctx ;^
  let^ s := hget in
  let Pi := me s in
  let^ myDigests := hlift (r4_digests h (self s) otherIds) in
  let^ selfKey := hlift (peerKeyStr h Pi) in
  let^ phi := hlift (deref (sp_phi_i (self s))) in
  let^ shat := hlift (deref (sp_shat_i (self s))) in
  let^ mine := hlift (r4Digest h Pi (Some {| Phi := Bytes phi; Shat := Bytes shat |})) in
  let^ err := hlift (verifyEchoes h (<[selfKey := mine]> myDigests) selfKey echoers echoes (Pi :: otherIds) echoSourceSign) in
  match err with
  | Some e => herr e
  | None =>
    let^ sg := draw_sys (combine_partials h (self s) otherIds) in
    upd (sp_send_Done sg)
  end.
End Defs.
