(* ===== verification/DklsSigningSafe.v ===== *)
(** * The brokered signing of [dklstss]: what leaves a party

    Whatever the broker delivers and in whatever order, a signature on [Done] has
    passed the gate, and [Done] holds one signature for ever.  The invariant of
    the party is kept by each callback ([Handler.inv_run]). *)
From stdpp Require Import base gmap list strings pretty.
From Stdlib Require Import ZArith String List Lia Bool.
From S2P Require Import Prelude GoBig Common Curve CtMul Field Vss Schnorr Bits OtExt BaseOt Ole Party Handler Json.
From S2P Require Import Dkls DklsSetup DklsSign DklsSignCorrect DklsEcho DklsSigningParty.
Import ListNotations.
Open Scope string_scope.
Open Scope Z_scope.
Open Scope list_scope.

(** ** Safety *)
(** A callback, with the context's error and the arguments of the collector. *)
Inductive SCall :=
| OnR1 (ctx : option string) (otherIds : list ref) (msgs : list (option signR1))
| OnR1Echo (ctx : option string) (otherIds echoers : list ref) (msgs : list (option echoMsg))
| OnR2 (ctx : option string) (otherIds : list ref) (msgs : list (option signR2))
| OnR3 (ctx : option string) (otherIds : list ref) (msgs : list (option signR3))
| OnR4 (ctx : option string) (otherIds : list ref) (msgs : list (option signR4))
| OnR4Echo (ctx : option string) (otherIds echoers : list ref) (msgs : list (option echoMsg)).

Section Safety.
Context `{HS : Hash} `{SH : Sha256} `{AE : Aes} `{CS : Curves} `{SL : Secp256k1Lib} `{EL : Ed25519Lib} `{MR : MapRange}.
Context `{SJ : SignJson} `{BR : !Broker SMsg}.
Abbreviation Core := (Machine SigningParty SMsg).

Definition callback (h : Heap) (c : SCall) : hnd Core unit :=
  match c with
  | OnR1 ctx ids msgs => round2KCollect h ctx ids msgs
  | OnR1Echo ctx ids es msgs => round2Echo h ctx ids es msgs
  | OnR2 ctx ids msgs => round3 h ctx ids msgs
  | OnR3 ctx ids msgs => round4 h ctx ids msgs
  | OnR4 ctx ids msgs => round5Echo h ctx ids msgs
  | OnR4Echo ctx ids es msgs => sign_finalize h ctx ids es msgs
  end.
Definition run_calls (h : Heap) (calls : list SCall) (s : Core) : res Core :=
  foldM (fun s c => handle sp_send_Err (callback h c) s) s calls.

(** What a signature that leaves the party satisfies. *)
Definition released (j : SigningJob) (sg : Signature) : Prop :=
  let q := cN (p_ec (sj_params j)) in
  0 < sigR sg < q /\ 0 < sigS sg <= q / 2 /\
  exists sys sys' vpub X Y, effectiveVerifyPub (kECDSAPub (sj_key j)) (sj_tweak j) sys = Ok (vpub, sys') /\
    ECPoint_X vpub = Ok X /\ ECPoint_Y vpub = Ok Y /\ ecdsa_Verify (curve vpub) X Y (sj_hash j) (sigR sg) (sigS sg) = Ok true.

Section Invariant.
Variable j : SigningJob.
Hypothesis Hq : 0 < cN (p_ec (sj_params j)).

(** The job, the range of [r], and what [Done] holds. *)
Definition sound (k : SigningParty) : Prop :=
  sp_job k = j /\ (forall r, sp_r k = Some r -> 0 < r < cN (p_ec (sj_params j))) /\ match sp_Done k with Some sg => released j sg | None => True end.

Lemma sound_err e k : sound k -> sound (sp_send_Err e k).
Proof. exact id. Qed.

Ltac calm := repeat inv_step; try (match goal with H : sound ?k |- _ => exact H end).

Lemma round2KCollect_sound h ctx ids msgs : inv_run sound (round2KCollect h ctx ids msgs).
Proof.
  unfold round2KCollect. calm.
  - unfold collect_K. calm.
  - match goal with H : Mod _ _ = Ok ?r, G : guard _ _ = Ok _, S : sound (self ?s), K : sound ?k |- sound (with_r ?r ?k) =>
      destruct K as (Ej & Er & Ed), S as (Es & _); apply guard_ok, negb_true_iff, Z.eqb_neq in G; rewrite Es in H; rewrite Mod_ok in H by lia;
      injection H as <- end.
    split; [assumption|]. split; [|exact Ed]. cbn. intros r [= <-].
    match goal with |- _ < ?a mod ?b < _ => pose proof (Z.mod_pos_bound a b Hq) end. lia.
Qed.

Lemma alice_peer_sound h p : inv_run sound (alice_peer h p).
Proof. unfold alice_peer, pair_of. calm. Qed.
Lemma accumulate_sound a b : inv_run sound (accumulate a b).
Proof. unfold accumulate. calm. Qed.
Lemma round2Echo_sound h ctx ids es msgs : inv_run sound (round2Echo h ctx ids es msgs).
Proof. unfold round2Echo. calm. apply alice_peer_sound. Qed.
Lemma round3_sound h ctx ids msgs : inv_run sound (round3 h ctx ids msgs).
Proof. unfold round3, bob_peer, pair_of. calm. apply accumulate_sound. Qed.
Lemma round4_sound h ctx ids msgs : inv_run sound (round4 h ctx ids msgs).
Proof. unfold round4, close_peer. calm. apply accumulate_sound. Qed.
Lemma round5Echo_sound h ctx ids msgs : inv_run sound (round5Echo h ctx ids msgs).
Proof. unfold round5Echo, stash_r4. calm. Qed.

Lemma combine_partials_sound h k ids sys sg sys' : sound k -> combine_partials h k ids sys = Ok (sg, sys') -> released j sg.
Proof.
  intros (Ej & Er & _) HR. unfold combine_partials in HR. rewrite Ej in HR. cbv zeta in HR.
  apply rbind_ok in HR as (phi & _ & HR). apply rbind_ok in HR as (shat & _ & HR). apply rbind_ok in HR as ([phi' shat'] & _ & HR).
  apply rbind_ok in HR as (_ & _ & HR). apply rbind_ok in HR as ([inv|] & _ & HR); [|discriminate].
  apply rbind_ok in HR as (s & Es & HR). apply rbind_ok in HR as ([] & Gs & HR). apply guard_ok, negb_true_iff, Z.eqb_neq in Gs.
  rewrite Mod_ok in Es by lia. apply rbind_ok in HR as (R & _ & HR). apply rbind_ok in HR as (Ry & _ & HR).
  pose proof (low_s_range (cN (p_ec (sj_params j))) s (Bit Ry 0)) as Rl. destruct (low_s _ s (Bit Ry 0)) as [s' v'] eqn:El. cbn [fst] in Rl.
  apply rbind_ok in HR as (r & Hr & HR). apply deref_ok in Hr. apply rbind_ok in HR as (sys3 & Ev & HR). injection HR as <- <-.
  split; [exact (Er r Hr)|]. cbn [sigR sigS]. split.
  - apply Rl. injection Es as <-. pose proof (Z.mod_pos_bound (shat' * inv) _ Hq). lia.
  - apply verifyFinalSignature_ok in Ev as (vpub & X & Y & Ev). eauto 10.
Qed.

Lemma finalize_sound h ctx ids es msgs : inv_run sound (sign_finalize h ctx ids es msgs).
Proof.
  unfold sign_finalize. calm.
  match goal with H : rbind _ _ = Ok (?g, _, _), S : sound (self _), K : sound ?k |- sound (sp_send_Done ?g ?k) =>
    apply rbind_ok in H as ([sg y''] & Ec & [= <- _ _]); pose proof (combine_partials_sound _ _ _ _ _ _ S Ec) as Rel; destruct K as (Ej & Er & Ed) end.
  split; [exact Ej|]. split; [exact Er|]. cbn. unfold sendOnce. destruct (sp_Done _) eqn:E; [exact Ed|exact Rel].
Qed.

Lemma calls_sound h calls : forall s s', sound (self s) -> run_calls h calls s = Ok s' -> sound (self s').
Proof.
  unfold run_calls. induction calls as [|c calls IH]; intros s s' Hs HR; cbn [foldM] in HR; [now injection HR as <-|].
  apply rbind_ok in HR as (s1 & E & HR). refine (IH _ _ _ HR). refine (inv_handle sound _ _ _ _ sound_err _ Hs E).
  destruct c; [apply round2KCollect_sound|apply round2Echo_sound|apply round3_sound|apply round4_sound|apply round5Echo_sound|apply finalize_sound].
Qed.
End Invariant.

(** [Done] is written once. *)
Lemma calls_once h sg calls : forall s s', sp_Done (self s) = Some sg -> run_calls h calls s = Ok s' -> sp_Done (self s') = Some sg.
Proof.
  unfold run_calls. induction calls as [|c calls IH]; intros s s' Hs HR; cbn [foldM] in HR; [now injection HR as <-|].
  apply rbind_ok in HR as (s1 & E & HR). refine (IH _ _ _ HR).
  refine (inv_handle (fun k => sp_Done k = Some sg) sp_send_Err _ _ _ (fun _ _ D => D) _ Hs E). clear.
  destruct c; cbn [callback].
  - unfold round2KCollect, collect_K. repeat inv_step; assumption.
  - unfold round2Echo, alice_peer, pair_of. repeat inv_step; assumption.
  - unfold round3, bob_peer, accumulate, pair_of. repeat inv_step; assumption.
  - unfold round4, close_peer, accumulate. repeat inv_step; assumption.
  - unfold round5Echo, stash_r4. repeat inv_step; assumption.
  - unfold sign_finalize. repeat inv_step; [..|cbn; unfold sendOnce; match goal with D : sp_Done ?k = _ |- context [sp_Done ?k] => now rewrite D end].
Qed.

(** [NewSigning] starts a sound party. *)
Lemma NewSigning_sound h reg ctx_nil params key hash subset tweak rand sys s e
  (HN : NewSigning h reg ctx_nil params key hash subset tweak rand sys = Ok (Some s, e)) :
  exists P k, params = Some P /\ key = Some k /\ sj_params (sp_job (self s)) = P /\ sj_key (sp_job (self s)) = k /\
    sj_hash (sp_job (self s)) = hash /\ sj_tweak (sp_job (self s)) = tweak /\ sound (sp_job (self s)) (self s).
Proof.
  unfold NewSigning in HN. destruct ctx_nil; [discriminate|]. destruct params as [P|]; [|discriminate]. destruct key as [k|]; [|discriminate].
  destruct (new_job _ _ _ _ _ _ _ _) as [[p sys1]|m|w] eqn:En; try discriminate. apply rbind_ok in HN as ([s1 r] & E1 & HN). injection HN as <- _.
  assert (J : sj_params (sp_job p) = P /\ sj_key (sp_job p) = k /\ sj_hash (sp_job p) = hash /\ sj_tweak (sp_job p) = tweak /\ sound (sp_job p) p).
  { clear E1. unfold new_job in En. repeat (apply rbind_ok in En as (? & _ & En); cbv beta iota in En).
    match type of En with match ?o with _ => _ end = _ => destruct o; [|discriminate] end.
    repeat (apply rbind_ok in En as (? & _ & En); cbv beta iota in En). injection En as <- _. do 4 (split; [reflexivity|]). split; [reflexivity|]. split; [discriminate|exact I]. }
  destruct J as (J1 & J2 & J3 & J4 & J5).
  assert (S1 : sound (sp_job p) (self s1)).
  { assert (R1 : inv_run (sound (sp_job p)) sign_round1) by (unfold sign_round1; repeat inv_step; assumption). refine (R1 _ _ _ _ E1). exact J5. }
  destruct (S1) as (Ej & _). exists P, k. rewrite Ej. auto 8.
Qed.
End Safety.
