(* ===== verification/DklsSigningRun.v ===== *)
(** * A run of the brokered signing of [dklstss]

    The signers of one session in lockstep, with brokers that deliver what was sent:
    every collector hands its callback the messages of the others.  On consistent keys
    all of them end with one signature, which is good, unless their random values are
    degenerate. *)
From stdpp Require Import base gmap list strings pretty sorting.
From Stdlib Require Import ZArith String List Lia Bool Permutation.
From S2P Require Import Prelude GoBig Common Curve CtMul Field Vss Schnorr Bits OtExt OtExtCorrect BaseOt Ole Party Handler Json.
From S2P Require Import Dkls DklsSetup DklsSign DklsSignCorrect DklsEcho DklsRoster DklsSigningParty DklsSigningSafe.
Import ListNotations.
Open Scope string_scope.
Open Scope Z_scope.
Open Scope list_scope.

(** ** Round trips of the multiplication's messages *)
Lemma mapM_len {A B} (f : A -> res B) l l' : mapM f l = Ok l' -> length l' = length l.
Proof. intros E. apply mapM_inv in E. symmetry. exact (Forall2_length E). Qed.

Lemma foldM_keeps {A B} (P : B -> Prop) (f : B -> A -> res B) l : (forall b a b', P b -> f b a = Ok b' -> P b') ->
  forall b b', P b -> foldM f b l = Ok b' -> P b'.
Proof.
  intros Hf. induction l as [|a l IH]; intros b b' Hb E; cbn [foldM] in E; [now injection E as <-|].
  apply rbind_ok in E as (b1 & E1 & E). eauto.
Qed.

Lemma set_at_len {A} (l : list A) i f l' : set_at l i f = Ok l' -> length l' = length l.
Proof.
  revert i l'. induction l as [|a l IH]; intros [|i] l' E; cbn [set_at] in E; try discriminate; apply rbind_ok in E as (x & E1 & E);
    injection E as <-; cbn; [reflexivity|]. f_equal. eauto.
Qed.

Section Wire.
Context `{HS : Hash} `{AE : Aes} `{CS : Curves}.

Lemma receiver_check_len chi c v l lb p : receiver_check chi c v l lb = Ok p -> length (snd p) = DeltaBytes.
Proof.
  unfold receiver_check. apply (foldM_keeps (fun p : Z * bytes => length (snd p) = DeltaBytes)); [|apply repeat_length].
  intros [x t] i p' Ht E. cbn [snd] in Ht. apply rbind_ok in E as (a & _ & E). apply rbind_ok in E as (b & _ & E).
  destruct (a =? 0); [injection E as <-; exact Ht|]. apply rbind_ok in E as (t' & Et & E). injection E as <-. cbn [snd].
  revert Et. unfold sum_bits. apply (foldM_keeps (fun t : bytes => length t = DeltaBytes)); [|exact Ht].
  intros t1 bit t2 H1 E2. destruct (_ =? 1); [|now injection E2 as <-]. destruct (_ <=? _)%nat; [now injection E2 as <-|].
  apply rbind_ok in E2 as (row & _ & E2). apply mapM_len in E2. now rewrite E2, length_seq.
Qed.

(** What Alice sends decodes to what it was. *)
Lemma AliceStep1_wire sid r alpha msg st : AliceStep1 sid r alpha = Ok (msg, st) -> decodeExtendMsg (Some (encodeExtendMsg msg)) = Ok msg.
Proof.
  intros E. unfold AliceStep1 in E. destruct r as [r|]; [|discriminate]. destruct alpha as [a|]; [|discriminate].
  apply rbind_ok in E as (x & _ & E). apply rbind_ok in E as (c & _ & E). apply rbind_ok in E as ([em keys] & Em & E). apply rewrap_ok in Em.
  apply rbind_ok in E as (u & _ & E). injection E as -> _.
  unfold ExtReceiver_Extend in Em. cbv zeta in Em. do 7 (apply rbind_ok in Em as (? & _ & Em)).
  apply rbind_ok in Em as (checks & Ec & Em). apply rbind_ok in Em as (X & EX & Em). apply rbind_ok in Em as (ks & _ & Em). injection Em as <- _.
  unfold decodeExtendMsg, encodeExtendMsg. cbn [ee_L ee_U ee_X ee_T emL emU emX emT].
  assert (LX : length X = SigmaBytes).
  { revert EX. unfold pack_checks. apply (foldM_keeps (fun x : bytes => length x = SigmaBytes)); [|apply repeat_length].
    intros b [h' z] b' Hb E'. destruct (z =? 1); [apply set_at_len in E'; now rewrite E'|now injection E' as <-]. }
  pose proof (mapM_len _ _ _ Ec) as Lc. rewrite length_seq in Lc.
  rewrite LX, length_map, Lc, !Nat.eqb_refl. cbn [guard rbind].
  replace (forallb _ (map snd checks)) with true; [reflexivity|]. symmetry. apply forallb_forall. intros row Hr. apply Nat.eqb_eq.
  apply in_map_iff in Hr as (p & <- & Hp). apply mapM_inv in Ec. destruct (Forall2_In_r _ _ _ Ec p Hp) as (i & _ & Ei).
  apply rbind_ok in Ei as (chih & _ & Ei). exact (receiver_check_len _ _ _ _ _ _ Ei).
Qed.

Lemma encodeBobMsg_ok l : Forall (fun c => exists z, c = Some z /\ 0 <= z) l ->
  exists enc, encodeBobMsg {| Corrections := l |} = Ok enc /\ decodeBobMsg enc = {| Corrections := l |}.
Proof.
  unfold encodeBobMsg, decodeBobMsg. cbn [Corrections]. induction 1 as [|c l (z & -> & Hz) F (enc & IH & ID)]; [exists []; auto|].
  cbn [mapM deref rbind]. rewrite IH. cbn [rbind]. eexists. split; [reflexivity|]. cbn [map]. injection ID as ->. now rewrite SetBytes_Bytes_pos.
Qed.

(** What Bob sends decodes to what it was. *)
Lemma BobStep1_wire sid s beta m bm u : 0 < cN S256 -> BobStep1 sid s beta m = Ok (bm, u) ->
  exists enc, encodeBobMsg bm = Ok enc /\ decodeBobMsg enc = bm.
Proof.
  intros Hq E. unfold BobStep1 in E. destruct s as [s|]; [|discriminate]. destruct beta as [b|]; [|discriminate]. destruct m as [m|]; [|discriminate].
  apply rbind_ok in E as (_ & _ & E). cbv zeta in E. apply rbind_ok in E as (b' & _ & E). apply rbind_ok in E as (mm & _ & E).
  apply rbind_ok in E as ([[cs uB] t] & Ef & E). apply rbind_ok in E as (uB' & _ & E). injection E as <- _. apply encodeBobMsg_ok.
  change cs with (fst (fst (cs, uB, t))). revert Ef.
  apply (foldM_keeps (fun st : list (option Z) * Z * Z => Forall (fun c => exists z, c = Some z /\ 0 <= z) (fst (fst st)))); [|constructor].
  intros [[l x] y] i st' Hl Er. cbn [fst] in Hl. unfold bob_row in Er. do 4 (apply rbind_ok in Er as (? & _ & Er)).
  apply rbind_ok in Er as (ct & _ & Er). apply rbind_ok in Er as (ci & Ei & Er). rewrite Mod_ok in Ei by lia. injection Ei as <-. injection Er as <-.
  cbn [fst]. apply Forall_app. split; [exact Hl|]. constructor; [|constructor]. eexists. split; [reflexivity|]. apply Z.mod_pos_bound. exact Hq.
Qed.
End Wire.

(** ** The session *)
Section Session.
Context `{HS : Hash} `{SH : Sha256} `{AE : Aes} `{CS : Curves} `{SL : Secp256k1Lib} `{EL : Ed25519Lib} `{MR : MapRange}.
Context `{SJ : SignJson} `{BR : !Broker SMsg}.
Abbreviation Core := (Machine SigningParty SMsg).

(** The messages of one kind, among what a party sent, that reach [to]: sent to it,
    or to all. *)
Definition addressed (to : ref) (o : option ref) : bool := match o with None => true | Some t => (t =? to)%nat end.
Definition deliveries {V} `{JV : Json V} (sel : SMsg -> option (JsonMessage V Raw)) (to : ref) (l : list SMsg) : list (option V) :=
  flat_map (fun m => match sel m with
    | Some j => if addressed to (jm_To j) then match JsonGet j with Ok v => [v] | _ => [] end else []
    | None => []
    end) l.
(** What the collector of [to] hands to its callback: one packet for each sender. *)
Definition inbox {V} `{JV : Json V} (sel : SMsg -> option (JsonMessage V Raw)) (net : list Core) (to : ref) (from : list nat) : list (option V) :=
  map (fun j => match nth_error net j with Some s => hd None (deliveries sel to (sent s)) | None => None end) from.

Definition is_r1 (m : SMsg) := match m with SR1 m => Some m | _ => None end.
Definition is_r1e (m : SMsg) := match m with SR1Echo m => Some m | _ => None end.
Definition is_r2 (m : SMsg) := match m with SR2 m => Some m | _ => None end.
Definition is_r3 (m : SMsg) := match m with SR3 m => Some m | _ => None end.
Definition is_r4 (m : SMsg) := match m with SR4 m => Some m | _ => None end.
Definition is_r4e (m : SMsg) := match m with SR4Echo m => Some m | _ => None end.

(** The callbacks of the party at position [i], in order. *)
Definition rounds (subset : list ref) : list (list Core -> nat -> SCall) :=
  let from i := others_at subset i in
  let ids i := map (ref_at subset) (from i) in
  let to i := ref_at subset i in
  [ (fun net i => OnR1 None (ids i) (inbox is_r1 net (to i) (from i)));
    (fun net i => OnR1Echo None (ids i) (ids i) (inbox is_r1e net (to i) (from i)));
    (fun net i => OnR2 None (ids i) (inbox is_r2 net (to i) (from i)));
    (fun net i => OnR3 None (ids i) (inbox is_r3 net (to i) (from i)));
    (fun net i => OnR4 None (ids i) (inbox is_r4 net (to i) (from i)));
    (fun net i => OnR4Echo None (ids i) (ids i) (inbox is_r4e net (to i) (from i))) ].
Definition lockstep (h : Heap) (net : list Core) (call : list Core -> nat -> SCall) : res (list Core) :=
  mapM (fun '(i, s) => handle sp_send_Err (callback h (call net i)) s) (enum net).
Definition signing_session (h : Heap) (subset : list ref) (net : list Core) : res (list Core) := foldM (lockstep h) net (rounds subset).

(** *** Deliveries *)
Lemma deliveries_app {V} `{JV : Json V} sel to l1 l2 : deliveries (V := V) sel to (l1 ++ l2) = deliveries sel to l1 ++ deliveries sel to l2.
Proof. apply flat_map_app. Qed.
(** Messages of another kind. *)
Lemma deliveries_other {V} `{JV : Json V} sel to l : (forall m, In m l -> sel m = None) -> deliveries (V := V) sel to l = [].
Proof. induction l as [|m l IH]; intros H; [reflexivity|]. cbn. rewrite H by now left. apply IH. intros; apply H; now right. Qed.
(** One message to each of some parties. *)
Lemma deliveries_each {V} `{JV : Json V} (sel : SMsg -> option (JsonMessage V Raw)) (mk : nat -> JsonMessage V Raw -> SMsg) (typ : string) (me : ref)
    (f : nat -> V) (rf : nat -> ref) js j :
  (forall x jm, sel (mk x jm) = Some jm) -> In j js -> (forall x y, In x js -> In y js -> rf x = rf y -> x = y) ->
  hd None (deliveries sel (rf j) (map (fun x => mk x (JsonWrap typ (Some (f x)) (Some me) (Some (rf x)))) js)) = Some (f j).
Proof.
  intros Hs Hj Hi. induction js as [|x js IH]; [destruct Hj|]. cbn. rewrite Hs. cbn. destruct (Nat.eqb_spec (rf x) (rf j)) as [E|E].
  - cbn. do 2 f_equal. apply Hi; [now left|exact Hj|exact E].
  - cbn. apply IH; [|intros; apply Hi; [now right..|assumption]]. destruct Hj as [->|Hj]; [congruence|exact Hj].
Qed.

Lemma mapM_enum {A B} (f : nat * A -> res B) (st : nat -> A) (st' : nat -> B) m :
  (forall i, (i < m)%nat -> f (i, st i) = Ok (st' i)) -> mapM f (enum (map st (seq 0 m))) = Ok (map st' (seq 0 m)).
Proof.
  unfold enum. rewrite length_map, length_seq. intros H.
  enough (G : forall k n, (k + n <= m)%nat -> mapM f (combine (seq k n) (map st (seq k n))) = Ok (map st' (seq k n))) by (apply (G 0%nat m); lia).
  intros k n. revert k. induction n as [|n IH]; intros k Hn; cbn; [reflexivity|]. rewrite H by lia. cbn [rbind]. now rewrite IH by lia.
Qed.
Lemma lockstep_run h (st st' : nat -> Core) m call : (forall i, (i < m)%nat -> handle sp_send_Err (callback h (call (map st (seq 0 m)) i)) (st i) = Ok (st' i)) ->
  lockstep h (map st (seq 0 m)) call = Ok (map st' (seq 0 m)).
Proof. intros H. exact (mapM_enum (fun '(i, s) => handle sp_send_Err (callback h (call (map st (seq 0 m)) i)) s) st st' m H). Qed.

Lemma handle_in (c : hnd Core unit) s s' : c s = Ok (s', inl tt) -> handle sp_send_Err c s = Ok s'.
Proof. intros E. unfold handle. now rewrite E. Qed.

(** Loops whose state is known after every prefix. *)
Lemma foldM_pre {A B} (f : B -> A -> res B) (g : nat -> A) (b : list nat -> B) js :
  (forall pre j post, js = pre ++ j :: post -> f (b pre) (g j) = Ok (b (pre ++ [j]))) -> foldM f (b []) (map g js) = Ok (b js).
Proof.
  intros H. enough (G : forall rest pre, js = pre ++ rest -> foldM f (b pre) (map g rest) = Ok (b js)) by now apply (G js []).
  induction rest as [|j rest IH]; intros pre E; cbn [foldM map]; [rewrite app_nil_r in E; now subst|].
  rewrite (H pre j rest E). cbn [rbind]. apply IH. now rewrite E, <- app_assoc.
Qed.
Lemma hfor_pre {S A} (f : A -> hnd S unit) (g : nat -> A) (st : list nat -> S) js :
  (forall pre j post, js = pre ++ j :: post -> f (g j) (st pre) = Ok (st (pre ++ [j]), inl tt)) -> hfor f (map g js) (st []) = Ok (st js, inl tt).
Proof.
  intros H. enough (G : forall rest pre, js = pre ++ rest -> hfor f (map g rest) (st pre) = Ok (st js, inl tt)) by now apply (G js []).
  induction rest as [|j rest IH]; intros pre E; cbn [hfor map]; [rewrite app_nil_r in E; now subst|].
  eapply bind_in; [exact (H pre j rest E)|]. apply IH. now rewrite E, <- app_assoc.
Qed.
Lemma hfold_enum {S A B} (f : B -> nat * A -> hnd S B) (g : nat -> A) (b : list nat -> B) (st : list nat -> S) js :
  (forall pre j post, js = pre ++ j :: post -> f (b pre) (length pre, g j) (st pre) = Ok (st (pre ++ [j]), inl (b (pre ++ [j])))) ->
  hfold f (b []) (enum (map g js)) (st []) = Ok (st js, inl (b js)).
Proof.
  intros H. unfold enum. rewrite length_map.
  enough (G : forall rest pre, js = pre ++ rest -> hfold f (b pre) (combine (seq (length pre) (length rest)) (map g rest)) (st pre) = Ok (st js, inl (b js)))
    by now apply (G js []).
  induction rest as [|j rest IH]; intros pre E; cbn [length seq map combine hfold]; [rewrite app_nil_r in E; now subst|].
  eapply bind_in; [exact (H pre j rest E)|]. replace (Datatypes.S (length pre)) with (length (pre ++ [j])) by (rewrite length_app; cbn; lia).
  apply IH. now rewrite E, <- app_assoc.
Qed.
Lemma hfor_fold {S A} (f : A -> hnd S unit) l (s : S) : hfor f l s = hfold (fun _ a => f a) tt l s.
Proof. revert s. induction l as [|a l IH]; intros s; [reflexivity|]. cbn [hfor hfold]. unfold hbind. destruct (f a s) as [[s1 [[]|e]]| |]; cbn [rbind]; auto. Qed.
Lemma hfor_enum {S A} (f : nat * A -> hnd S unit) (g : nat -> A) (st : list nat -> S) js :
  (forall pre j post, js = pre ++ j :: post -> f (length pre, g j) (st pre) = Ok (st (pre ++ [j]), inl tt)) ->
  hfor f (enum (map g js)) (st []) = Ok (st js, inl tt).
Proof. intros H. rewrite hfor_fold. exact (hfold_enum (fun _ a => f a) g (fun _ => tt) st js H). Qed.
Lemma idx_pre {A B} (g : A -> B) pre j post : idx (map g (pre ++ j :: post)) (length pre) = Ok (g j).
Proof. apply idx_ok. rewrite nth_error_map, nth_error_app2, Nat.sub_diag by lia. reflexivity. Qed.
End Session.

(** ** The honest signers *)
Section Honest.
Context `{HS : Hash} `{SH : Sha256} `{AL : AesLaws} `{CS : Curves} `{SL : Secp256k1Lib} `{EL : Ed25519Lib} `{ML : MapRangeLaws}.
Context `{SJ : SignJson} `{BR : !Broker SMsg}.
Context {pt : Z -> Z * Z} {L : CurveLaws S256 pt false} {CT : CtCurve S256 pt false}.
Abbreviation Core := (Machine SigningParty SMsg).
Abbreviation q := (cN S256).
Abbreviation pnt := (mkpt S256 pt).
Hypothesis Hbroker : forall m, broker_Receive m = None.

Context {h : Heap} {subset : list ref} (RO : roster h subset).
Abbreviation m := (length subset).
Abbreviation rf := (ref_at subset).
Abbreviation oth := (others_at subset).
Abbreviation idp := (id_at h subset).
Abbreviation kat := (kat h subset).
Abbreviation tab := (tab h subset).

(** The parties: their parameters, keys and transfer states by position, what they
    drew and their effective shares. *)
Variables (P : nat -> Parameters) (K : nat -> Key) (pr : nat -> nat -> PairOTState).
Variables (kk rho sx : nat -> Z) (lams : list Z) (hash : bytes) (tweak : option Z) (base : bytes).
Hypothesis HP : forall i, (i < m)%nat -> p_partyID (P i) = rf i /\ p_ec (P i) = S256.
Hypothesis Hkk : forall i, (i < m)%nat -> 1 <= kk i < q.
(** Between two of them. *)
Hypothesis Hpair : forall i j, (i < m)%nat -> (j < m)%nat -> i <> j ->
  (exists n, indexInFullCommittee h (K i) (rf j) = Ok n /\ idxZ (kOT (K i)) n = Ok (Some (pr i j))) /\
  exists r s, AsAlice (pr i j) = Some r /\ AsBob (pr j i) = Some s /\ matched r s.

(** *** Positions *)
Definition oth_lt i j : In j (oth i) -> (j < m)%nat := fun H => proj1 (proj1 (others_at_In subset i j) H).

(** *** The multiplications *)
Section Mul.
Variables (ssid : bytes) (kind : string) (alpha : nat -> Z).
Definition msid (i j : nat) : bytes := signMulSid ssid kind (idp i) (idp j).
Definition no_msg : ExtendMsg1 := {| emL := 0; emU := []; emX := []; emT := [] |}.
Definition mA1 (i j : nat) : ExtendMsg1 * AliceState :=
  get_ok (AliceStep1 (msid i j) (AsAlice (pr i j)) (Some (alpha i))) (no_msg, {| as_sid := []; as_alpha := 0; as_keys := [] |}).
Definition mB (i j : nat) : BobMsg * Z := get_ok (BobStep1 (msid i j) (AsBob (pr j i)) (Some (rho j)) (Some (fst (mA1 i j)))) ({| Corrections := [] |}, 0).
Definition mA2 (i j : nat) : Z := get_ok (AliceStep2 (Some (snd (mA1 i j))) (Some (fst (mB i j)))) 0.
Definition menc (i j : nat) : list bytes := get_ok (encodeBobMsg (fst (mB i j))) [].

Record multiplied (i j : nat) : Prop := {
  mu_A1 : AliceStep1 (msid i j) (AsAlice (pr i j)) (Some (alpha i)) = Ok (mA1 i j);
  mu_dec : decodeExtendMsg (Some (encodeExtendMsg (fst (mA1 i j)))) = Ok (fst (mA1 i j));
  mu_B : BobStep1 (msid i j) (AsBob (pr j i)) (Some (rho j)) (Some (fst (mA1 i j))) = Ok (mB i j);
  mu_enc : encodeBobMsg (fst (mB i j)) = Ok (menc i j);
  mu_decB : decodeBobMsg (menc i j) = fst (mB i j);
  mu_A2 : AliceStep2 (Some (snd (mA1 i j))) (Some (fst (mB i j))) = Ok (mA2 i j);
  mu_sum : cong q (mA2 i j + snd (mB i j)) (alpha i * rho j)
}.

Lemma multiply i j : (i < m)%nat -> (j < m)%nat -> i <> j -> multiplied i j.
Proof.
  intros Hi Hj Hij. destruct (Hpair i j Hi Hj Hij) as (_ & r & s & EA & EB & M). pose proof (q_pos (L := L)) as Q1.
  destruct (mul_ok (conj (Z.lt_trans _ _ _ Z.lt_0_1 Q1) cl_N) r s (msid i j) (alpha i) M) as (msg & st & E1 & Hb).
  destruct (Hb (rho j)) as (bm & uA & uB & E2 & E3 & _ & _ & C). rewrite <- EA in E1. rewrite <- EB in E2.
  assert (X1 : mA1 i j = (msg, st)) by (unfold mA1; now rewrite E1).
  assert (X2 : mB i j = (bm, uB)) by (unfold mB; rewrite X1; cbn [fst]; now rewrite E2).
  assert (X3 : mA2 i j = uA) by (unfold mA2; rewrite X1, X2; cbn [fst snd]; now rewrite E3).
  destruct (BobStep1_wire _ _ _ _ _ _ (Z.lt_trans _ _ _ Z.lt_0_1 Q1) E2) as (enc & En & Ed).
  assert (X4 : menc i j = enc) by (unfold menc; rewrite X2; cbn [fst]; now rewrite En).
  constructor; rewrite ?X1, ?X2, ?X3, ?X4; cbn [fst snd]; try assumption. exact (AliceStep1_wire _ _ _ _ _ E1).
Qed.
End Mul.

(** *** Values *)
Definition job (i : nat) : SigningJob := {|
  sj_params := P i; sj_key := K i; sj_hash := hash; sj_tweak := tweak; sj_subset := subset; sj_myPos := i;
  sj_otherSubset := map rf (oth i); sj_subsetIDs := map (Party.key_of h) subset; sj_lambdas := lams; sj_sx := sx i |}.
Definition Ksum : Z := zsum (map kk (seq 0 m)).
Definition Rx : Z := fst (pt Ksum) mod q.
Definition Kp (i : nat) : ECPoint := pnt (kk i).
(** A value in the own slot of an accumulator. *)
Definition slot (i : nat) (v : Z) : list Z := <[i := v]> (repeat 0 m).
(** The sum in the order of the peers, reduced at each step. *)
Definition addq (v : Z) (g : nat -> Z) (js : list nat) : Z := fold_left (fun v j => (v + g j) mod q) js v.

Lemma addq_snoc v g js j : addq v g (js ++ [j]) = (addq v g js + g j) mod q.
Proof. unfold addq. now rewrite fold_left_app. Qed.
Lemma addq_cong v g js : cong q (addq v g js) (v + zsum (map g js)).
Proof.
  revert v. induction js as [|j js IH]; intros v; cbn [addq fold_left map]; [apply cong_eq; cbn; ring|].
  change (fold_left _ js ?a) with (addq a g js). rewrite IH, cong_mod, zsum_cons. apply cong_eq. ring.
Qed.

Lemma nth_error_insert {A} (l : list A) i v : (i < length l)%nat -> nth_error (<[i := v]> l) i = Some v.
Proof. revert i. induction l as [|x l IH]; intros [|i] Hi; cbn [length] in Hi; try lia; [reflexivity|]. cbn. apply IH. lia. Qed.
Lemma idx_slot i v : (i < m)%nat -> idx (slot i v) i = Ok v.
Proof.
  intros Hi. apply idx_ok, nth_error_insert. rewrite repeat_length. exact Hi.
Qed.
Lemma set_at_insert {A} (l : list A) i f a b : nth_error l i = Some a -> f a = Ok b -> set_at l i f = Ok (<[i := b]> l).
Proof.
  intros E Hf. revert i E. induction l as [|x l IH]; intros [|i] E; try discriminate E; cbn [set_at nth_error] in *.
  - injection E as ->. now rewrite Hf.
  - now rewrite (IH i E).
Qed.
Lemma set_slot i v f v' : (i < m)%nat -> f v = Ok v' -> set_at (slot i v) i f = Ok (slot i v').
Proof.
  intros Hi Hf. rewrite (set_at_insert _ i f v v'); [|now apply idx_ok, idx_slot|exact Hf]. unfold slot. now rewrite list_insert_insert_eq.
Qed.

(** *** Messages *)
Definition M1 (j : nat) : signR1 := {| KiX := Bytes (fst (pt (kk j))); KiY := Bytes (snd (pt (kk j))) |}.
Definition dK (j : nat) : bytes := sha256 (commitInput echoTagSign (Bytes (idp j)) [Bytes (fst (pt (kk j))); Bytes (snd (pt (kk j)))]).
Definition s1 (i : nat) : list SMsg := [SR1 (JsonWrap signTypeR1 (Some (M1 i)) (Some (rf i)) None)].
Definition s2 (i : nat) : list SMsg := s1 i ++ [SR1Echo (JsonWrap signTypeR1Echo (Some {| Digests := Some (tab dK (oth i)) |}) (Some (rf i)) None)].

(** *** States *)
Definition pty (i : nat) (ssid : bytes) (r : option Z) (aK aX : gmap string AliceState) (pK : gmap string ECPoint) (kR xR : Z) (ph sh : option Z)
    (r4 : gmap string (option signR4)) (d : option Signature) : SigningParty := {|
  sp_job := job i; sp_ssid := ssid; sp_k_i := Some (kk i); sp_rho_i := Some (rho i); sp_K_i := Some (Kp i); sp_r := r;
  sp_aliceStateK := aK; sp_aliceStateX := aX; sp_peerK := pK; sp_kRhoShare := slot i kR; sp_xRhoShare := slot i xR;
  sp_phi_i := ph; sp_shat_i := sh; sp_r4msgs := r4; sp_Done := d; sp_Err := None |}.
Variables (rr ry : nat -> reader).
Definition mach (i : nat) (p : SigningParty) (out : list SMsg) (conn : list (string * list ref)) : Core :=
  {| self := p; rPartial := []; rRand := rr i; rSys := ry i; sent := out; connected := conn |}.
Definition k0 (i : nat) : Z := (kk i * rho i + 0) mod q.
Definition x0 (i : nat) : Z := (sx i * rho i + 0) mod q.
Definition c1 (i : nat) : list (string * list ref) := [(signTypeR1, map rf (oth i))].
Definition c2 (i : nat) := c1 i ++ [(signTypeR1Echo, map rf (oth i))].
Definition st1 (i : nat) : Core := mach i (pty i base None empty empty empty (k0 i) (x0 i) None None empty None) (s1 i) (c1 i).
Definition st2 (i : nat) : Core := mach i (pty i base (Some Rx) empty empty (tab Kp (oth i)) (k0 i) (x0 i) None None empty None) (s2 i) (c2 i).

Lemma oth_split i pre j post : oth i = pre ++ j :: post -> (j < m)%nat /\ j <> i.
Proof. intros E. apply (others_at_In subset i j). rewrite E. apply in_app_iff. right. now left. Qed.

Lemma coords_nonneg a : 0 <= fst (pt a) /\ 0 <= snd (pt a).
Proof. pose proof (cl_x (CurveLaws := L) a). pose proof (cl_y (CurveLaws := L) a). lia. Qed.

Lemma kIDigest_run j : (j < m)%nat -> kIDigest h (rf j) (Some (Kp j)) = Ok (dK j).
Proof. intros Hj. unfold kIDigest, Kp. cbn. unfold commitDigest. now rewrite (KeyInt_ref_at h subset RO j Hj). Qed.

Lemma kI_digests_run i pK : pK = tab Kp (oth i) -> kI_digests h pK (map rf (oth i)) empty = Ok (tab dK (oth i)).
Proof.
  intros ->. unfold kI_digests. apply (foldM_pre _ rf (tab dK)). intros pre j post E. destruct (oth_split i pre j post E) as [Hj Hji].
  rewrite (peerKey_ref_at h subset RO j Hj). cbn [rbind].
  rewrite (tab_at h subset RO Kp _ j (others_at_lt subset i)) by (apply (others_at_In subset i j); auto).
  rewrite (kIDigest_run j Hj). cbn [rbind]. now rewrite tab_snoc.
Qed.

(** *** The nonces' points *)
Hypothesis Hpartial : forall i pre post, (i < m)%nat -> oth i = pre ++ post -> (kk i + zsum (map kk pre)) mod q <> 0.
Hypothesis HRx : Rx <> 0.

Lemma zsum_oth (f : nat -> Z) i : (i < m)%nat -> f i + zsum (map f (oth i)) = zsum (map f (seq 0 m)).
Proof.
  intros Hi. rewrite <- (zsum_others f i m 0) by lia. rewrite Z.add_comm. f_equal. unfold others_at. induction (seq 0 m) as [|j l IH]; [reflexivity|].
  cbn [List.filter map]. rewrite (Nat.eqb_sym j i). destruct (Nat.eqb_spec i j) as [->|E]; cbn [negb map]; rewrite !zsum_cons, ?IH; ring.
Qed.

Lemma round1_collected i : (i < m)%nat -> callback h (OnR1 None (map rf (oth i)) (map (fun j => Some (M1 j)) (oth i))) (st1 i) = Ok (st2 i, inl tt).
Proof.
  intros Hi. pose proof (q_pos (L := L)) as Q1. cbn [callback]. unfold round2KCollect. do 3 (eapply bind_in; [reflexivity|]).
  replace (Kp i) with (pnt (kk i + zsum (map kk []))) by (unfold Kp; cbn; now rewrite Z.add_0_r).
  eapply bind_in.
  { refine (hfold_enum _ rf (fun pre => pnt (kk i + zsum (map kk pre)))
      (fun pre => mach i (pty i base None empty empty (tab Kp pre) (k0 i) (x0 i) None None empty None) (s1 i) (c1 i)) (oth i) _).
    intros pre j post E. destruct (oth_split i pre j post E) as [Hj Hji]. unfold collect_K. eapply bind_in; [reflexivity|].
    eapply bind_in; [apply lift_in; rewrite E, idx_pre; reflexivity|]. cbn [KiX KiY M1].
    destruct (coords_nonneg (kk j)). rewrite !SetBytes_Bytes_pos by assumption.
    match goal with |- context [NewECPoint ?c] => change c with (p_ec (P i)) end. rewrite (proj2 (HP i Hi)), NewECPoint_pt.
    pose proof (Hkk j Hj). rewrite on_c_nonzero by (rewrite Z.mod_small; lia).
    eapply bind_in; [apply lift_in, (peerKey_ref_at h subset RO j Hj)|]. eapply bind_in; [reflexivity|].
    unfold hlift. rewrite ECPoint_Add_pt, on_c_nonzero.
    - cbn [rewrap]. rewrite tab_snoc, map_app, zsum_app. cbn [map]. rewrite zsum_cons, Z.add_0_r, Z.add_assoc. reflexivity.
    - rewrite <- Z.add_assoc, <- (Z.add_0_r (kk j)). change (kk j + 0) with (zsum (map kk [j])). rewrite <- zsum_app, <- map_app.
      apply (Hpartial i _ post Hi). now rewrite <- app_assoc. }
  rewrite zsum_oth by exact Hi. fold Ksum. eapply bind_in; [reflexivity|].
  match goal with |- context [Mod _ ?c] => change c with (cN (p_ec (P i))) end. rewrite (proj2 (HP i Hi)).
  eapply bind_in; [apply lift_in; now rewrite Mod_ok by lia|]. change (fst (pt Ksum) mod q) with Rx.
  eapply bind_in; [apply guard_in, negb_true_iff, Z.eqb_neq; rewrite Z.sgn_null_iff; exact HRx|].
  do 2 (eapply bind_in; [reflexivity|]). eapply bind_in; [apply lift_in, kI_digests_run; reflexivity|].
  eapply bind_in; [unfold send; rewrite Hbroker; reflexivity|].
  match goal with |- context [Some (p_partyID ?p)] => change p with (P i) end. rewrite (proj1 (HP i Hi)). reflexivity.
Qed.

(** *** The echo *)
Lemma own_perm i : (i < m)%nat -> Permutation (i :: oth i) (seq 0 m).
Proof.
  intros Hi. apply NoDup_Permutation.
  - constructor; [|apply others_at_NoDup]. intros X. apply (others_at_In subset i i) in X. now destruct X.
  - apply seq_NoDup.
  - intros j. cbn [In]. rewrite (others_at_In subset i j), in_seq. destruct (Nat.eq_dec i j); lia.
Qed.
Lemma own_all i : (i < m)%nat -> Permutation (rf i :: map rf (oth i)) subset.
Proof.
  intros Hi. transitivity (map rf (seq 0 m)); [|now rewrite <- (refs_at subset)].
  change (rf i :: map rf (oth i)) with (map rf (i :: oth i)). apply Permutation_map, own_perm, Hi.
Qed.
Lemma own_valid i : (i < m)%nat -> Forall (valid_ref h) (map rf (oth i)).
Proof.
  intros Hi. apply List.Forall_forall. intros r Hr. apply in_map_iff in Hr as (j & <- & Hj). apply (ref_at_valid h subset RO), (oth_lt i j Hj).
Qed.

Definition echo_from (d : nat -> bytes) (j : nat) : echoMsg := {| Digests := Some (tab d (oth j)) |}.
Lemma echo_ok i d src : (i < m)%nat ->
  verifyEchoes h (<[kat i := d i]> (tab d (oth i))) (kat i) (map rf (oth i)) (map (fun j => Some (echo_from d j)) (oth i)) (rf i :: map rf (oth i)) src = Ok None.
Proof.
  intros Hi. rewrite (tab_own h subset RO d i Hi). pose proof (own_all i Hi) as Pm.
  apply (verifyEchoes_none (h := h)).
  - apply List.Forall_forall. intros r Hr. apply (Permutation_in r Pm) in Hr. pose proof (cm_valid _ _ RO) as F. rewrite List.Forall_forall in F. auto.
  - apply nodup_kstr. apply (Permutation_NoDup (Permutation_map (Party.key_of h) (Permutation_sym Pm))), (cm_distinct _ _ RO).
  - intros k. rewrite (tab_dom h subset RO d k). rewrite !list_elem_of_In. split; apply Permutation_in; [symmetry|]; now apply (Permutation_map (kstr h)).
  - apply own_valid, Hi.
  - intros n e E. rewrite nth_error_map in E. destruct (nth_error (oth i) n) as [j|] eqn:Ej; [|discriminate]. injection E as <-.
    pose proof (oth_lt i j (nth_error_In _ _ Ej)) as Hj. rewrite nth_error_map, Ej. cbn [option_map]. unfold echo_of, echo_from.
    do 3 f_equal. now rewrite (tab_others h subset RO d j Hj).
Qed.

(** *** The mixed session *)
Lemma insert_idK_perm e l : Permutation (e :: l) (insert_idK e l).
Proof. induction l as [|x l IH]; cbn [insert_idK]; [reflexivity|]. destruct (0 <? _); [reflexivity|]. rewrite perm_swap. now constructor. Qed.
Lemma sort_idK_perm l : Permutation l (sort_idK l).
Proof.
  unfold sort_idK. enough (G : forall acc, Permutation (l ++ acc) (fold_left (fun acc e => insert_idK e acc) l acc)) by (rewrite <- (G []); now rewrite app_nil_r).
  induction l as [|e l IH]; intros acc; cbn [fold_left app]; [reflexivity|]. rewrite <- IH, <- insert_idK_perm. apply Permutation_middle.
Qed.
Definition id_le (a b : Z * ECPoint) : Prop := fst a <= fst b.
Lemma insert_idK_sorted e l : StronglySorted id_le l -> StronglySorted id_le (insert_idK e l).
Proof.
  induction 1 as [|x l Sl IH F]; cbn [insert_idK]; [repeat constructor|]. unfold Cmp. destruct (Z.compare_spec (fst x) (fst e)) as [E|E|E]; cbn [Z.ltb Z.compare].
  1,2: constructor; [exact IH|]; apply List.Forall_forall; intros y Hy; apply (Permutation_in y (Permutation_sym (insert_idK_perm e l))) in Hy as [<-|Hy];
    [unfold id_le; lia|]; rewrite List.Forall_forall in F; now apply F.
  constructor; [now constructor|]. constructor; [unfold id_le; lia|]. eapply List.Forall_impl; [|exact F]. unfold id_le. cbn. lia.
Qed.
Lemma sort_idK_sorted l : StronglySorted id_le (sort_idK l).
Proof.
  unfold sort_idK. enough (G : forall acc, StronglySorted id_le acc -> StronglySorted id_le (fold_left (fun acc e => insert_idK e acc) l acc)) by (apply G; constructor).
  induction l as [|e l IH]; intros acc Ha; cbn [fold_left]; [exact Ha|]. now apply IH, insert_idK_sorted.
Qed.
(** The order of arrival does not matter. *)
Lemma sort_idK_unique l l' : Permutation l l' -> List.NoDup (map fst l) -> sort_idK l = sort_idK l'.
Proof.
  intros Pm N. apply (StronglySorted_unique_strong id_le); [|apply sort_idK_sorted..|now rewrite <- !sort_idK_perm].
  intros x y Hx Hy Hxy Hyx. apply list_elem_of_In in Hx, Hy. apply (Permutation_in x (Permutation_sym (sort_idK_perm l))) in Hx.
  apply (Permutation_in y (Permutation_sym (sort_idK_perm l'))), (Permutation_in y (Permutation_sym Pm)) in Hy.
  assert (E : fst x = fst y) by (unfold id_le in *; lia). apply In_nth_error in Hx as (a & Ea), Hy as (b & Eb).
  assert (a = b); [|congruence]. apply (proj1 (List.NoDup_nth_error _) N); [rewrite length_map; apply nth_error_Some; congruence|].
  rewrite !nth_error_map, Ea, Eb. cbn. congruence.
Qed.

Definition entry (j : nat) : Z * ECPoint := (idp j, Kp j).
Definition part (e : Z * ECPoint) : bytes := [124] ++ Bytes (fst e) ++ [124] ++ Bytes (get_ok (ECPoint_X (snd e)) 0) ++ [124] ++ Bytes (get_ok (ECPoint_Y (snd e)) 0).
Definition ssid1 : bytes := sha256 (str "DKLS23-sign-ssid-mix-v1" ++ [124] ++ base ++ concat (map part (sort_idK (map entry (seq 0 m))))).

Lemma mix_run i : (i < m)%nat -> mixRoundOneSsid h base (rf i) (Some (Kp i)) (map rf (oth i)) (tab Kp (oth i)) = Ok ssid1.
Proof.
  intros Hi. unfold mixRoundOneSsid. rewrite (KeyInt_ref_at h subset RO i Hi). cbn [rbind].
  rewrite (foldM_pre _ rf (fun pre => (idp i, Some (Kp i)) :: map (fun j => (idp j, Some (Kp j))) pre)).
  2: { intros pre j post E. destruct (oth_split i pre j post E) as [Hj Hji]. rewrite (peerKey_ref_at h subset RO j Hj). cbn [rbind].
       rewrite (tab_at h subset RO Kp _ j (others_at_lt subset i)) by (apply (others_at_In subset i j); auto).
       rewrite (KeyInt_ref_at h subset RO j Hj). cbn [rbind app]. now rewrite map_app. }
  cbn [rbind]. change ((idp i, Some (Kp i)) :: map (fun j => (idp j, Some (Kp j))) (oth i)) with (map (fun j => (idp j, Some (Kp j))) (i :: oth i)).
  replace (mapM _ (map (fun j => (idp j, Some (Kp j))) (i :: oth i))) with (@Ok (list (Z * ECPoint)) (map entry (i :: oth i))).
  2: { symmetry. generalize (i :: oth i). induction l as [|j l IH]; [reflexivity|]. cbn [map mapM deref rbind]. now rewrite IH. }
  cbn [rbind]. rewrite (sort_idK_unique (map entry (i :: oth i)) (map entry (seq 0 m))).
  - rewrite (mapM_ok _ part); [reflexivity|]. intros [id Kj] Hin. apply (Permutation_in _ (Permutation_sym (sort_idK_perm _))) in Hin.
    apply in_map_iff in Hin as (j & [= <- <-] & _). reflexivity.
  - apply Permutation_map, own_perm, Hi.
  - apply (Permutation_NoDup (l := map fst (map entry (seq 0 m)))); [apply Permutation_map, Permutation_map, Permutation_sym, own_perm, Hi|].
    rewrite map_map. cbn [entry fst]. pose proof (cm_distinct _ _ RO) as N. rewrite (refs_at subset), map_map in N.
    rewrite (map_ext_in _ (fun j => Party.key_of h (rf j))); [exact N|]. intros j Hj. apply in_seq in Hj. symmetry. apply (ref_at_key h subset). lia.
Qed.

(** *** From the echo to the partial signatures *)
Abbreviation A1k := (mA1 ssid1 "kxrho" kk).
Abbreviation A1x := (mA1 ssid1 "xxrho" sx).
Abbreviation Bk := (mB ssid1 "kxrho" kk).
Abbreviation Bx := (mB ssid1 "xxrho" sx).
Abbreviation A2k := (mA2 ssid1 "kxrho" kk).
Abbreviation A2x := (mA2 ssid1 "xxrho" sx).
Definition M2 (i j : nat) : signR2 := {| AliceK := Some (encodeExtendMsg (fst (A1k i j))); AliceX := Some (encodeExtendMsg (fst (A1x i j))) |}.
Definition M3 (i j : nat) : signR3 := {| BobK := menc ssid1 "kxrho" kk j i; BobX := menc ssid1 "xxrho" sx j i |}.
Definition k1 (i : nat) (js : list nat) : Z := addq (k0 i) (fun j => snd (Bk j i)) js.
Definition x1 (i : nat) (js : list nat) : Z := addq (x0 i) (fun j => snd (Bx j i)) js.
Definition k2 (i : nat) (js : list nat) : Z := addq (k1 i (oth i)) (fun j => A2k i j) js.
Definition x2 (i : nat) (js : list nat) : Z := addq (x1 i (oth i)) (fun j => A2x i j) js.
Definition phi (i : nat) : Z := k2 i (oth i).
Definition shat (i : nat) : Z := (Rx * x2 i (oth i) + (rho i * (hashToInt q hash mod q) + 0) mod q) mod q.
Definition M4 (i : nat) : signR4 := {| Phi := Bytes (phi i); Shat := Bytes (shat i) |}.
Definition d4 (j : nat) : bytes := sha256 (commitInput echoTagSignR4 (Bytes (idp j)) [Bytes (phi j); Bytes (shat j)]).

Definition o2 (i j : nat) : SMsg := SR2 (JsonWrap signTypeR2 (Some (M2 i j)) (Some (rf i)) (Some (rf j))).
Definition o3 (i j : nat) : SMsg := SR3 (JsonWrap signTypeR3 (Some (M3 i j)) (Some (rf i)) (Some (rf j))).
Definition s3 (i : nat) : list SMsg := s2 i ++ map (o2 i) (oth i).
Definition s4 (i : nat) : list SMsg := s3 i ++ map (o3 i) (oth i).
Definition s5 (i : nat) : list SMsg := s4 i ++ [SR4 (JsonWrap signTypeR4 (Some (M4 i)) (Some (rf i)) None)].
Definition s6 (i : nat) : list SMsg := s5 i ++ [SR4Echo (JsonWrap signTypeR4Echo (Some (echo_from d4 i)) (Some (rf i)) None)].
Definition c3 (i : nat) := c2 i ++ [(signTypeR2, map rf (oth i))].
Definition c4 (i : nat) := c3 i ++ [(signTypeR3, map rf (oth i))].
Definition c5 (i : nat) := c4 i ++ [(signTypeR4, map rf (oth i))].
Definition c6 (i : nat) := c5 i ++ [(signTypeR4Echo, map rf (oth i))].
Definition tK (i : nat) := tab (fun j => snd (A1k i j)).
Definition tX (i : nat) := tab (fun j => snd (A1x i j)).
Definition p3 (i : nat) := pty i ssid1 (Some Rx) (tK i (oth i)) (tX i (oth i)) (tab Kp (oth i)).
Definition st3 (i : nat) : Core := mach i (p3 i (k0 i) (x0 i) None None empty None) (s3 i) (c3 i).
Definition st4 (i : nat) : Core := mach i (p3 i (k1 i (oth i)) (x1 i (oth i)) None None empty None) (s4 i) (c4 i).
Definition st5 (i : nat) : Core := mach i (p3 i (phi i) (x2 i (oth i)) (Some (phi i)) (Some (shat i)) empty None) (s5 i) (c5 i).
Definition st6 (i : nat) : Core :=
  mach i (p3 i (phi i) (x2 i (oth i)) (Some (phi i)) (Some (shat i)) (tab (fun j => Some (M4 j)) (oth i)) None) (s6 i) (c6 i).

Lemma pair_run i j (s : Core) : (i < m)%nat -> (j < m)%nat -> i <> j -> sp_job (self s) = job i -> pair_of h (rf j) s = Ok (s, inl (pr i j)).
Proof.
  intros Hi Hj Hij Ej. destruct (Hpair i j Hi Hj Hij) as ((n & E1 & E2) & _). unfold pair_of. eapply bind_in; [reflexivity|]. rewrite Ej.
  eapply bind_in; [apply lift_in; exact E1|]. eapply bind_in; [apply lift_in; exact E2|]. reflexivity.
Qed.

Lemma me_run (s : Core) i : (i < m)%nat -> sp_job (self s) = job i -> p_partyID (sj_params (sp_job (self s))) = rf i.
Proof. intros Hi ->. exact (proj1 (HP i Hi)). Qed.
Lemma crv_run (s : Core) i : (i < m)%nat -> sp_job (self s) = job i -> p_ec (sj_params (sp_job (self s))) = S256.
Proof. intros Hi ->. exact (proj2 (HP i Hi)). Qed.

Lemma alice_sent i : (i < m)%nat ->
  callback h (OnR1Echo None (map rf (oth i)) (map rf (oth i)) (map (fun j => Some (echo_from dK j)) (oth i))) (st2 i) = Ok (st3 i, inl tt).
Proof.
  intros Hi. cbn [callback]. unfold round2Echo. do 2 (eapply bind_in; [reflexivity|]). erewrite me_run; [|exact Hi|reflexivity].
  eapply bind_in; [apply lift_in, kI_digests_run; reflexivity|].
  eapply bind_in; [apply lift_in, (peerKey_ref_at h subset RO i Hi)|].
  eapply bind_in; [apply lift_in; exact (kIDigest_run i Hi)|].
  eapply bind_in; [apply lift_in, (echo_ok i dK _ Hi)|]. cbv beta iota.
  eapply bind_in; [apply lift_in; exact (mix_run i Hi)|]. eapply bind_in; [reflexivity|].
  eapply bind_in.
  { refine (hfor_pre _ rf (fun pre => mach i (pty i ssid1 (Some Rx) (tK i pre) (tX i pre) (tab Kp (oth i)) (k0 i) (x0 i) None None empty None)
    (s2 i ++ map (o2 i) pre) (c2 i)) (oth i) _).
  intros pre j post E. destruct (oth_split i pre j post E) as [Hj Hji]. unfold alice_peer. eapply bind_in; [reflexivity|].
  eapply bind_in; [apply (pair_run i j _ Hi Hj); [congruence|reflexivity]|]. erewrite me_run; [|exact Hi|reflexivity].
  eapply bind_in; [apply lift_in, (KeyInt_ref_at h subset RO i Hi)|]. eapply bind_in; [apply lift_in, (KeyInt_ref_at h subset RO j Hj)|].
  pose proof (multiply ssid1 "kxrho" kk i j Hi Hj ltac:(congruence)) as Mk. pose proof (multiply ssid1 "xxrho" sx i j Hi Hj ltac:(congruence)) as Mx.
  eapply bind_in; [apply lift_in; etransitivity; [apply (f_equal (rewrap _)), (mu_A1 _ _ _ _ _ Mk)|reflexivity]|].
  rewrite (surjective_pairing (A1k i j)). cbv beta iota.
  eapply bind_in; [apply lift_in; etransitivity; [apply (f_equal (rewrap _)), (mu_A1 _ _ _ _ _ Mx)|reflexivity]|].
  rewrite (surjective_pairing (A1x i j)). cbv beta iota.
  eapply bind_in; [apply lift_in, (peerKey_ref_at h subset RO j Hj)|]. eapply bind_in; [reflexivity|].
  unfold send. rewrite Hbroker. unfold tK, tX. rewrite !tab_snoc, map_app, app_assoc. reflexivity. }
  reflexivity.
Qed.

Lemma accumulate_run i ssid r aK aX pK kR xR ph sh r4 d out conn a b : (i < m)%nat ->
  accumulate a b (mach i (pty i ssid r aK aX pK kR xR ph sh r4 d) out conn) =
  Ok (mach i (pty i ssid r aK aX pK ((kR + a) mod q) ((xR + b) mod q) ph sh r4 d) out conn, inl tt).
Proof.
  intros Hi. pose proof (q_pos (L := L)) as Q1. unfold accumulate. eapply bind_in; [reflexivity|].
  erewrite crv_run; [|exact Hi|reflexivity].
  eapply bind_in; [apply lift_in; apply (set_slot i kR); [exact Hi|]; unfold addMod; apply Mod_ok; lia|].
  eapply bind_in; [apply lift_in; apply (set_slot i xR); [exact Hi|]; unfold addMod; apply Mod_ok; lia|]. reflexivity.
Qed.

Lemma rewrap_in {A} e (c : res A) a : c = Ok a -> rewrap e c = Ok a.
Proof. intros ->. reflexivity. Qed.

Lemma bob_sent i : (i < m)%nat -> callback h (OnR2 None (map rf (oth i)) (map (fun j => Some (M2 j i)) (oth i))) (st3 i) = Ok (st4 i, inl tt).
Proof.
  intros Hi. cbn [callback]. unfold round3.
  replace (st3 i) with (mach i (p3 i (k1 i []) (x1 i []) None None empty None) (s3 i ++ map (o3 i) []) (c3 i)) by (cbn [map]; now rewrite app_nil_r).
  eapply bind_in; [reflexivity|]. eapply bind_in.
  { refine (hfor_enum _ rf (fun pre => mach i (p3 i (k1 i pre) (x1 i pre) None None empty None) (s3 i ++ map (o3 i) pre) (c3 i)) (oth i) _).
    intros pre j post E. destruct (oth_split i pre j post E) as [Hj Hji]. unfold bob_peer. eapply bind_in; [reflexivity|].
    eapply bind_in; [apply lift_in; rewrite E; exact (idx_pre (fun j => Some (M2 j i)) pre j post)|].
    eapply bind_in; [apply (pair_run i j _ Hi Hj); [congruence|reflexivity]|]. eapply bind_in; [reflexivity|].
    erewrite me_run; [|exact Hi|reflexivity].
    pose proof (multiply ssid1 "kxrho" kk j i Hj Hi Hji) as Mk. pose proof (multiply ssid1 "xxrho" sx j i Hj Hi Hji) as Mx.
    eapply bind_in; [apply lift_in, rewrap_in; exact (mu_dec _ _ _ _ _ Mk)|]. eapply bind_in; [apply lift_in, rewrap_in; exact (mu_dec _ _ _ _ _ Mx)|].
    eapply bind_in; [apply lift_in, (KeyInt_ref_at h subset RO j Hj)|]. eapply bind_in; [apply lift_in, (KeyInt_ref_at h subset RO i Hi)|].
    eapply bind_in; [apply lift_in, rewrap_in; exact (mu_B _ _ _ _ _ Mk)|]. rewrite (surjective_pairing (Bk j i)). cbv beta iota.
    eapply bind_in; [apply lift_in, rewrap_in; exact (mu_B _ _ _ _ _ Mx)|]. rewrite (surjective_pairing (Bx j i)). cbv beta iota.
    eapply bind_in; [apply accumulate_run; exact Hi|].
    eapply bind_in; [apply lift_in; exact (mu_enc _ _ _ _ _ Mk)|]. eapply bind_in; [apply lift_in; exact (mu_enc _ _ _ _ _ Mx)|].
    unfold send. rewrite Hbroker. unfold k1, x1. rewrite !addq_snoc, map_app, app_assoc. reflexivity. }
  eapply bind_in; [reflexivity|]. reflexivity.
Qed.

Hypothesis Hhash : Forall is_byte hash.
Lemma partial_sent i : (i < m)%nat -> callback h (OnR3 None (map rf (oth i)) (map (fun j => Some (M3 j i)) (oth i))) (st4 i) = Ok (st5 i, inl tt).
Proof.
  intros Hi. pose proof (q_pos (L := L)) as Q1. cbn [callback]. unfold round4. eapply bind_in; [reflexivity|]. eapply bind_in.
  { refine (hfor_enum _ rf (fun pre => mach i (p3 i (k2 i pre) (x2 i pre) None None empty None) (s4 i) (c4 i)) (oth i) _).
    intros pre j post E. destruct (oth_split i pre j post E) as [Hj Hji]. unfold close_peer. eapply bind_in; [reflexivity|].
    eapply bind_in; [apply lift_in; rewrite E; exact (idx_pre (fun j => Some (M3 j i)) pre j post)|].
    eapply bind_in; [apply lift_in, (peerKey_ref_at h subset RO j Hj)|].
    assert (Hin : In j (oth i)) by (apply (others_at_In subset i j); auto).
    change (sp_aliceStateK _) with (tK i (oth i)). change (sp_aliceStateX _) with (tX i (oth i)). unfold tK, tX.
    rewrite !(tab_at h subset RO _ _ j (others_at_lt subset i) Hin). eapply bind_in; [reflexivity|].
    pose proof (multiply ssid1 "kxrho" kk i j Hi Hj ltac:(congruence)) as Mk. pose proof (multiply ssid1 "xxrho" sx i j Hi Hj ltac:(congruence)) as Mx.
    cbn [BobK BobX M3]. rewrite (mu_decB _ _ _ _ _ Mk), (mu_decB _ _ _ _ _ Mx).
    eapply bind_in; [apply lift_in, rewrap_in; exact (mu_A2 _ _ _ _ _ Mk)|]. eapply bind_in; [apply lift_in, rewrap_in; exact (mu_A2 _ _ _ _ _ Mx)|].
    unfold p3. rewrite accumulate_run by exact Hi. unfold k2, x2. rewrite !addq_snoc. reflexivity. }
  eapply bind_in; [reflexivity|]. erewrite crv_run; [|exact Hi|reflexivity]. erewrite me_run; [|exact Hi|reflexivity].
  eapply bind_in; [apply lift_in, hashToScalar_run; [lia|exact Hhash]|].
  eapply bind_in; [apply lift_in; exact (idx_slot i _ Hi)|]. eapply bind_in; [reflexivity|].
  eapply bind_in; [apply lift_in, ct_muladd|]. eapply bind_in; [reflexivity|].
  eapply bind_in; [apply lift_in; exact (idx_slot i _ Hi)|]. eapply bind_in; [apply lift_in, ct_muladd|]. eapply bind_in; [reflexivity|].
  eapply bind_in; [unfold send; rewrite Hbroker; reflexivity|]. reflexivity.
Qed.

Lemma phi_range i : 0 <= phi i < q.
Proof.
  pose proof (q_pos (L := L)) as Q1. assert (R : forall v g js, 0 <= v < q -> 0 <= addq v g js < q).
  { intros v g js. revert v. induction js as [|j js IH]; intros v Hv; [exact Hv|]. apply IH, Z.mod_pos_bound. lia. }
  unfold phi, k2, k1. apply R, R, Z.mod_pos_bound. lia.
Qed.
Lemma shat_range i : 0 <= shat i < q.
Proof. pose proof (q_pos (L := L)) as Q1. apply Z.mod_pos_bound. lia. Qed.

Lemma r4Digest_run j : (j < m)%nat -> r4Digest h (rf j) (Some (M4 j)) = Ok (d4 j).
Proof. intros Hj. unfold r4Digest. cbn [deref rbind]. unfold commitDigest. now rewrite (KeyInt_ref_at h subset RO j Hj). Qed.

Lemma r4_echoed i : (i < m)%nat -> callback h (OnR4 None (map rf (oth i)) (map (fun j => Some (M4 j)) (oth i))) (st5 i) = Ok (st6 i, inl tt).
Proof.
  intros Hi. cbn [callback]. unfold round5Echo. eapply bind_in; [reflexivity|]. eapply bind_in.
  { refine (hfold_enum _ rf (tab d4) (fun pre => mach i (p3 i (phi i) (x2 i (oth i)) (Some (phi i)) (Some (shat i)) (tab (fun j => Some (M4 j)) pre) None) (s5 i) (c5 i)) (oth i) _).
    intros pre j post E. destruct (oth_split i pre j post E) as [Hj Hji]. unfold stash_r4.
    eapply bind_in; [apply lift_in; rewrite E; exact (idx_pre (fun j => Some (M4 j)) pre j post)|].
    eapply bind_in; [apply lift_in, (peerKey_ref_at h subset RO j Hj)|]. eapply bind_in; [reflexivity|].
    eapply bind_in; [apply lift_in, (r4Digest_run j Hj)|]. rewrite !tab_snoc. reflexivity. }
  eapply bind_in; [reflexivity|]. erewrite me_run; [|exact Hi|reflexivity].
  eapply bind_in; [unfold send; rewrite Hbroker; reflexivity|]. reflexivity.
Qed.

(** *** The sums *)
Definition rsum : Z := zsum (map rho (seq 0 m)).
Lemma zsum_swap (f : nat -> nat -> Z) l l' : zsum (map (fun i => zsum (map (f i) l')) l) = zsum (map (fun j => zsum (map (fun i => f i j) l)) l').
Proof.
  induction l as [|i l IH]; cbn [map].
  - induction l' as [|j l' IH]; [reflexivity|]. cbn [map]. now rewrite zsum_cons, <- IH.
  - rewrite zsum_cons, IH, <- zsum_map_add. reflexivity.
Qed.
Lemma oth_if (f : nat -> Z) i : zsum (map f (oth i)) = zsum (map (fun j => if (i =? j)%nat then 0 else f j) (seq 0 m)).
Proof.
  unfold others_at. induction (seq 0 m) as [|j l IH]; [reflexivity|]. cbn [List.filter map]. rewrite (Nat.eqb_sym j i).
  destruct (i =? j)%nat; cbn [negb map]; rewrite !zsum_cons, IH; ring.
Qed.
Lemma oth_swap (f : nat -> nat -> Z) :
  zsum (map (fun i => zsum (map (fun j => f j i) (oth i))) (seq 0 m)) = zsum (map (fun i => zsum (map (f i) (oth i))) (seq 0 m)).
Proof.
  rewrite (map_ext _ _ (fun i => oth_if (fun j => f j i) i)), (map_ext _ _ (fun i => oth_if (f i) i)), zsum_swap.
  f_equal. apply map_ext. intros i. f_equal. apply map_ext. intros j. now rewrite Nat.eqb_sym.
Qed.

(** The accumulators share the product of the sums. *)
Lemma product_shared ssid kind alpha :
  cong q (zsum (map (fun i => addq (addq ((alpha i * rho i + 0) mod q) (fun j => snd (mB ssid kind alpha j i)) (oth i)) (mA2 ssid kind alpha i) (oth i)) (seq 0 m)))
    (zsum (map alpha (seq 0 m)) * rsum).
Proof.
  transitivity (zsum (map (fun i => alpha i * rho i + zsum (map (fun j => snd (mB ssid kind alpha j i)) (oth i)) + zsum (map (mA2 ssid kind alpha i) (oth i))) (seq 0 m))).
  { apply cong_zsum_map. intros i _. rewrite !addq_cong, cong_mod. apply cong_eq. ring. }
  rewrite !zsum_map_add, (oth_swap (fun i j => snd (mB ssid kind alpha i j))), <- !zsum_map_add.
  transitivity (zsum (map (fun i => alpha i * rsum) (seq 0 m))); [|rewrite zsum_map_const_mul; reflexivity].
  apply cong_zsum_map. intros i Hi. apply in_seq in Hi. unfold rsum. rewrite <- (zsum_oth rho i) by lia.
  rewrite Z.mul_add_distr_l, <- Z.add_assoc, <- zsum_map_add, <- zsum_map_mul_l. apply cong_add; [reflexivity|].
  apply cong_zsum_map. intros j Hj. apply (others_at_In subset i j) in Hj as [Hj Hji].
  rewrite Z.add_comm. apply (mu_sum _ _ _ _ _ (multiply ssid kind alpha i j ltac:(lia) Hj ltac:(congruence))).
Qed.

(** *** The last round *)
Variable x : Z.
Abbreviation X := (x + tweak_of tweak).
Hypothesis Hneg : forall a, pt (- a) = (fst (pt a), (- snd (pt a)) mod cP S256).
Hypothesis Q2 : 2 < q.
Hypothesis Hodd : Z.odd (cP S256) = true.
Hypothesis Hpub : forall i, (i < m)%nat -> kECDSAPub (K i) = Some (pnt x).
Hypothesis Hsx : cong q (zsum (map sx (seq 0 m))) X.
Hypothesis Hry : forall i, (i < m)%nat -> Forall is_byte (ry i) /\ ct_healthy (ry i).
Hypothesis HKsum : Ksum mod q <> 0.
Hypothesis Hphi : (Ksum * rsum) mod q <> 0.
Hypothesis Hs0 : (hashToInt q hash + Rx * X) mod q <> 0.
Hypothesis HX : X mod q <> 0.

Definition PHI : Z := zsum (map phi (seq 0 m)) mod q.
Definition SHAT : Z := zsum (map shat (seq 0 m)) mod q.
Definition sval : Z := (SHAT * Z.invmod PHI q) mod q.
Definition the_sig : Signature :=
  let (s, v) := low_s q sval (Bit (snd (pt Ksum)) 0) in {| sigR := Rx; sigS := s; sigV := v |}.

Lemma PHI_cong : cong q PHI (Ksum * rsum).
Proof. unfold PHI. rewrite cong_mod. exact (product_shared ssid1 "kxrho" kk). Qed.
Lemma SHAT_cong : cong q SHAT (rsum * (hashToInt q hash + Rx * X)).
Proof.
  unfold SHAT. rewrite cong_mod. transitivity (zsum (map (fun i => Rx * x2 i (oth i) + rho i * hashToInt q hash) (seq 0 m))).
  { apply cong_zsum_map. intros i _. unfold shat. rewrite !cong_mod. apply cong_eq. ring. }
  rewrite zsum_map_add, zsum_map_mul_l, zsum_map_const_mul. fold rsum.
  rewrite (product_shared ssid1 "xxrho" sx : cong q (zsum (map (fun i => x2 i (oth i)) (seq 0 m))) _), Hsx. apply cong_eq. ring.
Qed.
Lemma sval_eq : cong q (sval * Ksum) (hashToInt q hash + Rx * X).
Proof.
  pose proof PHI_cong as Cp. assert (Hp : PHI mod q <> 0) by (apply cong_iff in Cp; rewrite Cp; exact Hphi).
  apply (cong_cancel q cl_prime rsum).
  - intros Z0. apply Hphi. pose proof (q_pos (L := L)). rewrite <- Z.mul_mod_idemp_r, Z0, Z.mul_0_r by lia. apply Z.mod_0_l. lia.
  - rewrite <- SHAT_cong. unfold sval. rewrite cong_mod. replace (rsum * (SHAT * Z.invmod PHI q * Ksum)) with (SHAT * Z.invmod PHI q * (Ksum * rsum)) by ring.
    rewrite <- Cp. replace (SHAT * Z.invmod PHI q * PHI) with (SHAT * (Z.invmod PHI q * PHI)) by ring.
    rewrite (inv_l q cl_prime) by exact Hp. apply cong_eq. ring.
Qed.
Lemma sval_range : 0 < sval < q.
Proof.
  pose proof (q_pos (L := L)) as Q1. pose proof (Z.mod_pos_bound (SHAT * Z.invmod PHI q) q). fold sval in H1.
  enough (sval <> 0) by lia. intros Z0. apply Hs0. pose proof sval_eq as E. rewrite Z0 in E. apply cong_iff in E. rewrite <- E. apply Z.mod_0_l. lia.
Qed.
Lemma Rx_range : 0 < Rx < q.
Proof. pose proof (q_pos (L := L)) as Q1. pose proof (Z.mod_pos_bound (fst (pt Ksum)) q). fold Rx in H1. lia. Qed.

(** The reduced sum of all the values, in the order of one party. *)
Lemma addq_all f i : (i < m)%nat -> 0 <= f i < q -> addq (f i) f (oth i) = zsum (map f (seq 0 m)) mod q.
Proof.
  intros Hi Hf. pose proof (q_pos (L := L)) as Q1. rewrite <- (zsum_oth f i Hi).
  assert (R : forall js v, 0 <= v < q -> 0 <= addq v f js < q).
  { induction js as [|j js IH]; intros v Hv; [exact Hv|]. apply IH, Z.mod_pos_bound. lia. }
  pose proof (addq_cong (f i) f (oth i)) as C. apply cong_iff in C. rewrite <- C. symmetry. apply Z.mod_small, R, Hf.
Qed.

Lemma combined i : (i < m)%nat -> exists sys', combine_partials h (self (st6 i)) (map rf (oth i)) (ry i) = Ok (the_sig, sys').
Proof.
  intros Hi. pose proof (q_pos (L := L)) as Q1. unfold combine_partials.
  change (p_ec (sj_params (sp_job (self (st6 i))))) with (p_ec (P i)). rewrite (proj2 (HP i Hi)). cbv zeta.
  change (deref (sp_phi_i (self (st6 i)))) with (Ok (phi i)). change (deref (sp_shat_i (self (st6 i)))) with (Ok (shat i)). cbn [rbind].
  assert (Ep : sum_partials h (self (st6 i)) q (map rf (oth i)) (phi i) (shat i) = Ok (PHI, SHAT)).
  { unfold PHI, SHAT. rewrite <- (addq_all phi i Hi (phi_range i)), <- (addq_all shat i Hi (shat_range i)). unfold sum_partials.
    refine (foldM_pre _ rf (fun pre => (addq (phi i) phi pre, addq (shat i) shat pre)) (oth i) _).
    intros pre j post E. destruct (oth_split i pre j post E) as [Hj Hji]. unfold r4_of. rewrite (peerKey_ref_at h subset RO j Hj). cbn [rbind].
    change (sp_r4msgs (self (st6 i))) with (tab (fun j => Some (M4 j)) (oth i)).
    rewrite (tab_at h subset RO _ _ j (others_at_lt subset i)) by (apply (others_at_In subset i j); auto). cbn [default id deref rbind].
    pose proof (phi_range j). pose proof (shat_range j). cbn [Phi Shat M4]. rewrite !SetBytes_Bytes_pos, !Mod_ok by lia. cbn [rbind].
    now rewrite !addq_snoc. }
  rewrite Ep. cbn [rbind]. pose proof PHI_cong as Cp. assert (Hp : PHI mod q <> 0) by (apply cong_iff in Cp; rewrite Cp; exact Hphi).
  rewrite (proj2 (Z.eqb_neq (Z.sgn PHI) 0)) by (rewrite Z.sgn_null_iff; intros Z0; apply Hp; rewrite Z0; apply Z.mod_0_l; lia). cbn [negb guard rbind].
  rewrite modInt_ModInverse_ok by (try lia; now apply (prime_gcd q cl_prime)). cbn [rbind]. rewrite Mod_ok by lia. cbn [rbind]. fold sval.
  pose proof sval_range as Rs. rewrite (proj2 (Z.eqb_neq (Z.sgn sval) 0)) by (rewrite Z.sgn_null_iff; lia). cbn [negb guard rbind].
  assert (ER : rebuild_R h (self (st6 i)) = Ok (pnt Ksum)).
  { unfold rebuild_R. change (deref (sp_K_i (self (st6 i)))) with (Ok (Kp i)). cbn [rbind]. unfold Ksum. rewrite <- (zsum_oth kk i Hi).
    replace (Kp i) with (pnt (kk i + zsum (map kk []))) by (unfold Kp; cbn; now rewrite Z.add_0_r).
    refine (foldM_pre _ rf (fun pre => pnt (kk i + zsum (map kk pre))) (oth i) _).
    intros pre j post E. destruct (oth_split i pre j post E) as [Hj Hji]. rewrite (peerKey_ref_at h subset RO j Hj). cbn [rbind].
    change (sp_peerK (self (st6 i))) with (tab Kp (oth i)).
    rewrite (tab_at h subset RO _ _ j (others_at_lt subset i)) by (apply (others_at_In subset i j); auto). cbn [deref rbind].
    assert (Es : kk i + zsum (map kk pre) + kk j = kk i + zsum (map kk (pre ++ [j]))) by (rewrite map_app, zsum_app; cbn [map]; rewrite zsum_cons; cbn; ring).
    unfold Kp. rewrite ECPoint_Add_pt, Es, on_c_nonzero; [reflexivity|]. apply (Hpartial i _ post Hi). now rewrite <- app_assoc. }
  rewrite ER. cbn [rbind]. change (ECPoint_Y (pnt Ksum)) with (Ok (snd (pt Ksum))). cbn [rbind]. unfold the_sig.
  destruct (low_s_ok Hneg sval Ksum _ (Bit (snd (pt Ksum)) 0) Q2 Hodd Rs HKsum sval_eq eq_refl) as (k & Hk & Ek & Cl & Rl & _).
  destruct (low_s q sval (Bit (snd (pt Ksum)) 0)) as [s' v'] eqn:El. cbn [fst snd] in Cl, Rl.
  change (sp_r (self (st6 i))) with (Some Rx). change (sp_job (self (st6 i))) with (job i). cbn [deref rbind sj_key sj_tweak sj_hash job].
  rewrite (Hpub i Hi). destruct (Hry i Hi) as [Fy Hh].
  assert (Hs' : 0 < s' < q) by (pose proof (Z.div_lt q 2 (Z.lt_trans _ _ _ Z.lt_0_1 Q1) Z.lt_1_2); lia).
  destruct (verify_gate_ok x tweak hash Rx s' k (ry i) Fy Hh Rx_range Hs' Hk ltac:(unfold Rx; now rewrite Ek) Cl) as [(sys' & -> & _)|[_ Z1]]; [|contradiction].
  cbn [rbind]. eauto.
Qed.

(** All the parties, one signature. *)
Definition p7 (i : nat) : SigningParty :=
  p3 i (phi i) (x2 i (oth i)) (Some (phi i)) (Some (shat i)) (tab (fun j => Some (M4 j)) (oth i)) (Some the_sig).
Lemma signed i : (i < m)%nat -> exists s, callback h (OnR4Echo None (map rf (oth i)) (map rf (oth i)) (map (fun j => Some (echo_from d4 j)) (oth i))) (st6 i) = Ok (s, inl tt) /\
  self s = p7 i.
Proof.
  intros Hi. destruct (combined i Hi) as (sys' & Ec). eexists. split.
  { cbn [callback]. unfold sign_finalize. do 2 (eapply bind_in; [reflexivity|]). erewrite me_run; [|exact Hi|reflexivity].
    assert (Ed : r4_digests h (self (st6 i)) (map rf (oth i)) = Ok (tab d4 (oth i))).
    { unfold r4_digests. refine (foldM_pre _ rf (tab d4) (oth i) _). intros pre j post E. destruct (oth_split i pre j post E) as [Hj Hji].
      unfold r4_of. rewrite (peerKey_ref_at h subset RO j Hj). cbn [rbind]. change (sp_r4msgs (self (st6 i))) with (tab (fun j => Some (M4 j)) (oth i)).
      rewrite (tab_at h subset RO _ _ j (others_at_lt subset i)) by (apply (others_at_In subset i j); auto). cbn [default id rbind].
      rewrite (r4Digest_run j Hj). cbn [rbind]. now rewrite tab_snoc. }
    eapply bind_in; [apply lift_in; exact Ed|]. eapply bind_in; [apply lift_in, (peerKey_ref_at h subset RO i Hi)|].
    do 2 (eapply bind_in; [reflexivity|]). eapply bind_in; [apply lift_in; exact (r4Digest_run i Hi)|].
    eapply bind_in; [apply lift_in, (echo_ok i d4 _ Hi)|]. cbv beta iota.
    eapply bind_in; [|reflexivity]. unfold draw_sys. apply both_in. rewrite Ec. reflexivity. }
  reflexivity.
Qed.

Lemma the_sig_good : good_signature (pt := pt) X hash the_sig.
Proof.
  pose proof (q_pos (L := L)) as Q1. unfold the_sig, good_signature.
  destruct (low_s_ok Hneg sval Ksum _ (Bit (snd (pt Ksum)) 0) Q2 Hodd sval_range HKsum sval_eq eq_refl) as (k & Hk & Ek & Cl & Rl & Pl).
  destruct (low_s q sval (Bit (snd (pt Ksum)) 0)) as [s' v'] eqn:El. cbn [fst snd] in Cl, Rl, Pl. cbn [sigR sigS sigV].
  split; [exact Rx_range|]. split; [exact Rl|]. assert (Er : Rx = fst (pt k) mod q) by (unfold Rx; now rewrite Ek).
  assert (Hs' : 0 < s' < q) by (pose proof (Z.div_lt q 2 (Z.lt_trans _ _ _ Z.lt_0_1 Q1) Z.lt_1_2); lia).
  split; [|eauto 6]. exact (ecdsa_Verify_ok hash X Rx s' k Rx_range Hs' Hk Er Cl).
Qed.

(** *** What arrives *)
Lemma rf_inj i j : (i < m)%nat -> (j < m)%nat -> rf i = rf j -> i = j.
Proof. intros Hi Hj E. apply (id_at_inj h subset RO i j Hi Hj). rewrite <- !(ref_at_key h subset) by assumption. now rewrite E. Qed.

Lemma inbox_run {V} `{JV : Json V} (sel : SMsg -> option (JsonMessage V Raw)) (st : nat -> Core) (f : nat -> nat -> V) i : (i < m)%nat ->
  (forall j, (j < m)%nat -> j <> i -> hd None (deliveries sel (rf i) (sent (st j))) = Some (f j i)) ->
  inbox sel (map st (seq 0 m)) (rf i) (oth i) = map (fun j => Some (f j i)) (oth i).
Proof.
  intros Hi H'. unfold inbox. apply map_ext_in. intros j Hj. apply (others_at_In subset i j) in Hj as [Hj Hji].
  rewrite nth_error_map, (nth_error_nth_lt (seq 0 m) j 0%nat) by now rewrite length_seq. rewrite seq_nth by exact Hj. cbn [option_map plus]. now apply H'.
Qed.

Lemma in_other {V} `{JV : Json V} (sel : SMsg -> option (JsonMessage V Raw)) to l (mk : nat -> SMsg) js : (forall j, sel (mk j) = None) ->
  deliveries sel to (l ++ map mk js) = deliveries sel to l.
Proof.
  intros Hs. rewrite deliveries_app, (deliveries_other sel to (map mk js)), app_nil_r; [reflexivity|]. intros y Hy. apply in_map_iff in Hy as (j & <- & _). apply Hs.
Qed.

Lemma arrived_r2 i : (i < m)%nat -> inbox is_r2 (map st3 (seq 0 m)) (rf i) (oth i) = map (fun j => Some (M2 j i)) (oth i).
Proof.
  intros Hi. apply (inbox_run is_r2 st3 M2 i Hi). intros j Hj Hji. change (sent (st3 j)) with (s2 j ++ map (o2 j) (oth j)).
  rewrite deliveries_app. change (deliveries is_r2 (rf i) (s2 j)) with (@nil (option signR2)). cbn [app].
  apply (deliveries_each is_r2 (fun _ jm => SR2 jm) signTypeR2 (rf j) (M2 j) rf (oth j) i); [reflexivity|apply (others_at_In subset j i); auto|].
  intros a b Ha Hb. apply rf_inj; eapply oth_lt; eassumption.
Qed.
Lemma arrived_r3 i : (i < m)%nat -> inbox is_r3 (map st4 (seq 0 m)) (rf i) (oth i) = map (fun j => Some (M3 j i)) (oth i).
Proof.
  intros Hi. apply (inbox_run is_r3 st4 M3 i Hi). intros j Hj Hji. change (sent (st4 j)) with (s3 j ++ map (o3 j) (oth j)).
  rewrite deliveries_app. unfold s3. rewrite in_other by reflexivity. change (deliveries is_r3 (rf i) (s2 j)) with (@nil (option signR3)). cbn [app].
  apply (deliveries_each is_r3 (fun _ jm => SR3 jm) signTypeR3 (rf j) (M3 j) rf (oth j) i); [reflexivity|apply (others_at_In subset j i); auto|].
  intros a b Ha Hb. apply rf_inj; eapply oth_lt; eassumption.
Qed.
Lemma arrived_r4 i : (i < m)%nat -> inbox is_r4 (map st5 (seq 0 m)) (rf i) (oth i) = map (fun j => Some (M4 j)) (oth i).
Proof.
  intros Hi. apply (inbox_run is_r4 st5 (fun j _ => M4 j) i Hi). intros j Hj Hji. change (sent (st5 j)) with (s5 j).
  unfold s5, s4, s3. rewrite deliveries_app, !in_other by reflexivity. reflexivity.
Qed.
Lemma arrived_r4e i : (i < m)%nat -> inbox is_r4e (map st6 (seq 0 m)) (rf i) (oth i) = map (fun j => Some (echo_from d4 j)) (oth i).
Proof.
  intros Hi. apply (inbox_run is_r4e st6 (fun j _ => echo_from d4 j) i Hi). intros j Hj Hji. change (sent (st6 j)) with (s6 j).
  unfold s6, s5, s4, s3. rewrite !deliveries_app. rewrite !(deliveries_other is_r4e (rf i) (map _ _)); [reflexivity|..];
    intros y Hy; apply in_map_iff in Hy as (j' & <- & _); reflexivity.
Qed.

Lemma session_run : exists net, signing_session h subset (map st1 (seq 0 m)) = Ok net /\ length net = m /\
  Forall (fun s => sp_Done (self s) = Some the_sig /\ sp_Err (self s) = None) net.
Proof.
  unfold signing_session, rounds. cbn [foldM].
  rewrite (lockstep_run h st1 st2); [cbn [rbind]|intros i Hi; apply handle_in; rewrite (inbox_run is_r1 st1 (fun j _ => M1 j) i Hi) by reflexivity; exact (round1_collected i Hi)].
  rewrite (lockstep_run h st2 st3); [cbn [rbind]|intros i Hi; apply handle_in; rewrite (inbox_run is_r1e st2 (fun j _ => echo_from dK j) i Hi) by reflexivity; exact (alice_sent i Hi)].
  rewrite (lockstep_run h st3 st4); [cbn [rbind]|intros i Hi; apply handle_in; rewrite (arrived_r2 i Hi); exact (bob_sent i Hi)].
  rewrite (lockstep_run h st4 st5); [cbn [rbind]|intros i Hi; apply handle_in; rewrite (arrived_r3 i Hi); exact (partial_sent i Hi)].
  rewrite (lockstep_run h st5 st6); [cbn [rbind]|intros i Hi; apply handle_in; rewrite (arrived_r4 i Hi); exact (r4_echoed i Hi)].
  set (st7 := fun i => get_ok (handle sp_send_Err (callback h (OnR4Echo None (map rf (oth i)) (map rf (oth i)) (map (fun j => Some (echo_from d4 j)) (oth i)))) (st6 i)) (st6 i)).
  assert (E7 : forall i, (i < m)%nat -> handle sp_send_Err (callback h (OnR4Echo None (map rf (oth i)) (map rf (oth i)) (map (fun j => Some (echo_from d4 j)) (oth i)))) (st6 i) = Ok (st7 i) /\
    self (st7 i) = p7 i).
  { intros i Hi. destruct (signed i Hi) as (s & E & Es). unfold st7. rewrite (handle_in _ _ _ E). auto. }
  rewrite (lockstep_run h st6 st7); [cbn [rbind]|intros i Hi; rewrite (arrived_r4e i Hi); exact (proj1 (E7 i Hi))].
  exists (map st7 (seq 0 m)). split; [reflexivity|]. split; [now rewrite length_map, length_seq|].
  apply List.Forall_forall. intros s Hs. apply in_map_iff in Hs as (i & <- & Hi). apply in_seq in Hi. rewrite (proj2 (E7 i ltac:(lia))). split; reflexivity.
Qed.
End Honest.
