(* ===== verification/DklsSigningCorrect.v ===== *)
(** * Correctness of the brokered signing of [dklstss]

    From the keys of one key generation: what [NewSigning] starts, and the theorem
    that the session of [DklsSigningRun] ends with one good signature, with a run of two
    signers on the toy curve. *)
From stdpp Require Import base gmap list strings pretty sorting.
From Stdlib Require Import ZArith String List Lia Bool Permutation.
From S2P Require Import Prelude GoBig Common Curve CtMul Field Vss Schnorr Bits OtExt OtExtCorrect BaseOt Ole Party Handler Json.
From S2P Require Import Dkls DklsSetup DklsSign DklsSignCorrect DklsKeygen DklsLife DklsEcho DklsRoster DklsSigningParty DklsSigningSafe DklsSigningRun.
Import ListNotations.
Open Scope string_scope.
Open Scope Z_scope.
Open Scope list_scope.

(** ** The start *)
Section Start.
Context `{HS : Hash} `{SH : Sha256} `{AL : AesLaws} `{CS : Curves} `{SL : Secp256k1Lib} `{EL : Ed25519Lib} `{ML : MapRangeLaws}.
Context `{SJ : SignJson} `{BR : !Broker SMsg}.
Context {pt : Z -> Z * Z} {L : CurveLaws S256 pt false} {CT : CtCurve S256 pt false}.
Abbreviation Core := (Machine SigningParty SMsg).
Abbreviation q := (cN S256).
Abbreviation pnt := (mkpt S256 pt).
Hypothesis Hbroker : forall m, broker_Receive m = None.
Context {h : Heap} {subset : list ref} (RO : roster h subset).
Abbreviation m := (length subset).
Abbreviation rf := (ref_at subset).
Abbreviation oth := (others_at subset).
Abbreviation skeys := (map (Party.key_of h) subset).

Lemma find_self_run l k : Forall (valid_ref h) l -> forall d n r, nth_error l d = Some r -> Party.key_of h r = k ->
  (forall d' r', (d' < d)%nat -> nth_error l d' = Some r' -> Party.key_of h r' <> k) -> find_self h n l k = Ok (Some (n + d)%nat).
Proof.
  induction 1 as [|p l Vp F IH]; intros d n r E Ek Hb; [destruct d; discriminate|]. cbn [find_self]. rewrite (KeyInt_valid h p Vp). cbn [rbind]. rewrite Cmp_eq.
  destruct d as [|d]; cbn [nth_error] in E.
  - injection E as ->. rewrite Ek, Z.eqb_refl. do 2 f_equal. lia.
  - rewrite (proj2 (Z.eqb_neq _ _)) by (apply (Hb 0%nat p); [lia|reflexivity]). rewrite (IH d (S n) r E Ek); [do 2 f_equal; lia|].
    intros d' r' Hd E'. apply (Hb (S d') r'); [lia|exact E'].
Qed.

Lemma index_from_run l ids k : mapM (KeyInt h) l = Ok ids -> forall d n, nth_error ids d = Some k ->
  (forall d' k', (d' < d)%nat -> nth_error ids d' = Some k' -> k' <> k) -> index_from h n l k = Ok (n + Z.of_nat d).
Proof.
  intros E. apply mapM_inv in E. induction E as [|p k' l ids Ep F IH]; intros d n Ed Hb; [destruct d; discriminate|].
  cbn [index_from]. rewrite Ep. cbn [rbind]. rewrite Cmp_eq. destruct d as [|d]; cbn [nth_error] in Ed.
  - injection Ed as ->. rewrite Z.eqb_refl. f_equal. lia.
  - rewrite (proj2 (Z.eqb_neq _ _)) by (apply (Hb 0%nat k'); [lia|reflexivity]). rewrite (IH d (n + 1) Ed); [f_equal; lia|].
    intros d' k'' Hd E'. apply (Hb (S d') k''); [lia|exact E'].
Qed.

Lemma others_fold i own : (i < m)%nat -> own = id_at h subset i ->
  foldM (fun out p => let! k := KeyInt h p in Ok (if negb (Cmp k own =? 0) then out ++ [p] else out)) [] subset = Ok (map rf (oth i)).
Proof.
  intros Hi ->. rewrite <- (others_ref_at h subset RO i Hi). unfold others.
  enough (G : forall l out, Forall (valid_ref h) l ->
    foldM (fun out p => let! k := KeyInt h p in Ok (if negb (Cmp k (id_at h subset i) =? 0) then out ++ [p] else out)) out l =
    Ok (out ++ List.filter (fun r => negb (Party.key_of h r =? id_at h subset i)) l)) by (apply (G subset []), (cm_valid _ _ RO)).
  induction l as [|r l IH]; intros out F; cbn [foldM List.filter]; [now rewrite app_nil_r|].
  apply Forall_cons_iff in F as [Vr F]. rewrite (KeyInt_valid h r Vr). cbn [rbind]. rewrite Cmp_eq.
  destruct (Party.key_of h r =? id_at h subset i); cbn [negb]; rewrite IH by assumption; [reflexivity|]. now rewrite <- app_assoc.
Qed.

Lemma KeyInts : mapM (KeyInt h) subset = Ok skeys.
Proof. apply mapM_ok. intros r Hr. apply KeyInt_valid. pose proof (cm_valid _ _ RO) as F. rewrite List.Forall_forall in F. auto. Qed.

(** The first round of a party. *)
Lemma round1_inv i (s0 s : Core) : (i < m)%nat -> p_ec (sj_params (sp_job (self s0))) = S256 -> p_partyID (sj_params (sp_job (self s0))) = rf i ->
  sj_myPos (sp_job (self s0)) = i -> sp_kRhoShare (self s0) = repeat 0 m -> sp_xRhoShare (self s0) = repeat 0 m ->
  Forall is_byte (rRand s0) -> sign_round1 s0 = Ok (s, inl tt) ->
  exists kk rho rr, 1 <= kk < q /\
    s = {| self := with_round1 (Some kk) (Some rho) (Some (pnt kk)) (slot (subset := subset) i ((kk * rho + 0) mod q))
                     (slot (subset := subset) i ((sj_sx (sp_job (self s0)) * rho + 0) mod q)) (self s0);
           rPartial := rPartial s0; rRand := rr; rSys := rSys s0;
           sent := sent s0 ++ [SR1 (JsonWrap signTypeR1 (Some {| KiX := Bytes (fst (pt kk)); KiY := Bytes (snd (pt kk)) |}) (Some (rf i)) None)];
           connected := connected s0 ++ [(signTypeR1, sj_otherSubset (sp_job (self s0)))] |}.
Proof.
  intros Hi Hec Hme Hpos HkR HxR Fr H1. pose proof (q_pos (L := L)) as Q1. unfold sign_round1 in H1.
  apply hbind_ok in H1 as (t & a & E & H1). injection E as <- <-. rewrite Hec, Hme, Hpos, HkR, HxR in H1.
  apply hbind_ok in H1 as (t & a & E & H1). apply draw_rand_ok in E as (r1 & E & ->). destruct (positive_draw (L := L) _ _ _ Fr E) as (kk & -> & Rk & F1).
  apply hbind_ok in H1 as (t & a & E' & H1). apply draw_rand_ok in E' as (r2 & E' & ->). cbn [rRand] in E'. destruct (positive_draw (L := L) _ _ _ F1 E') as (rho & -> & Rr & F2).
  apply hbind_ok in H1 as (t & a & E2 & H1). apply draw_rand_ok in E2 as (r3 & E2 & ->). cbn [rRand] in E2. apply ct_base in E2 as [-> F3]; [|lia|exact F2].
  assert (Hs : forall v, set_at (repeat 0 m) i (fun _ => Ok v) = Ok (slot (subset := subset) i v)).
  { intros v. rewrite (set_at_insert _ i _ 0 v); [reflexivity| |reflexivity]. rewrite (nth_error_nth_lt _ i 0) by now rewrite repeat_length.
    f_equal. apply nth_repeat. }
  do 2 (apply hbind_ok in H1 as (t & a & E3 & H1); apply hlift_ok in E3 as [E3 ->]; injection E3 as <-).
  apply hbind_ok in H1 as (t & a & E3 & H1). apply hlift_ok in E3 as [E3 ->]. rewrite ct_muladd in E3. injection E3 as <-.
  apply hbind_ok in H1 as (t & a & E3 & H1). apply hlift_ok in E3 as [E3 ->]. rewrite Hs in E3. injection E3 as <-.
  apply hbind_ok in H1 as (t & a & E3 & H1). apply hlift_ok in E3 as [E3 ->]. rewrite ct_muladd in E3. injection E3 as <-.
  apply hbind_ok in H1 as (t & a & E3 & H1). apply hlift_ok in E3 as [E3 ->]. rewrite Hs in E3. injection E3 as <-.
  apply hbind_ok in H1 as (t & [] & E3 & H1). injection E3 as <-.
  do 3 (apply hbind_ok in H1 as (t & a & E3 & H1); apply hlift_ok in E3 as [E3 ->]; injection E3 as <-).
  apply hbind_ok in H1 as (t & [] & E3 & H1). apply send_ok in E3. subst t. injection H1 as <-. exists kk, rho, r3. split; [exact Rk|]. reflexivity.
Qed.

Lemma round1_total i (s0 : Core) kk rho r1 r2 : (i < m)%nat -> p_ec (sj_params (sp_job (self s0))) = S256 -> p_partyID (sj_params (sp_job (self s0))) = rf i ->
  sj_myPos (sp_job (self s0)) = i -> sp_kRhoShare (self s0) = repeat 0 m -> sp_xRhoShare (self s0) = repeat 0 m ->
  GetRandomPositiveInt (Some q) (rRand s0) = Ok (Some kk, r1) -> GetRandomPositiveInt (Some q) r1 = Ok (Some rho, r2) ->
  0 <= kk -> Forall is_byte r2 -> ct_healthy r2 ->
  sign_round1 s0 = Ok ({| self := with_round1 (Some kk) (Some rho) (Some (pnt kk)) (slot (subset := subset) i ((kk * rho + 0) mod q))
                     (slot (subset := subset) i ((sj_sx (sp_job (self s0)) * rho + 0) mod q)) (self s0);
           rPartial := rPartial s0; rRand := ct_rest r2; rSys := rSys s0;
           sent := sent s0 ++ [SR1 (JsonWrap signTypeR1 (Some {| KiX := Bytes (fst (pt kk)); KiY := Bytes (snd (pt kk)) |}) (Some (rf i)) None)];
           connected := connected s0 ++ [(signTypeR1, sj_otherSubset (sp_job (self s0)))] |}, inl tt).
Proof.
  destruct s0 as [p rp rr rs se co]. cbn [self rRand rPartial rSys sent connected]. intros Hi Hec Hme Hpos HkR HxR Dk Dr Rk F2 H2.
  assert (Hs : forall v, set_at (repeat 0 m) i (fun _ => Ok v) = Ok (slot (subset := subset) i v)).
  { intros v. rewrite (set_at_insert _ i _ 0 v); [reflexivity| |reflexivity]. rewrite (nth_error_nth_lt _ i 0) by now rewrite repeat_length.
    f_equal. apply nth_repeat. }
  unfold sign_round1. eapply bind_in; [reflexivity|]. cbn [self]. rewrite Hec, Hme, Hpos, HkR, HxR. unfold draw_rand.
  eapply bind_in; [apply both_in; rewrite Dk; reflexivity|]. eapply bind_in; [apply both_in; rewrite Dr; reflexivity|].
  eapply bind_in; [apply both_in; rewrite (ct_base_total kk r2 Rk F2 H2); reflexivity|].
  do 2 (eapply bind_in; [reflexivity|]). eapply bind_in; [apply lift_in, ct_muladd|]. eapply bind_in; [apply lift_in, Hs|].
  eapply bind_in; [apply lift_in, ct_muladd|]. eapply bind_in; [apply lift_in, Hs|]. do 4 (eapply bind_in; [reflexivity|]).
  eapply bind_in; [unfold send; rewrite Hbroker; reflexivity|]. reflexivity.
Qed.

(** The texts of [NewSigning]. *)
Definition new_texts : Texts := {|
  t_keys := ""; t_count := ""; t_range := ""; t_dup := ""; t_hash := ""; t_key := ""; t_lagrange := "dklstss: NewSigning lagrange";
  t_ssid := ""; t_agg := ""; t_r0 := ""; t_ot := ""; t_phi := ""; t_inv := ""; t_s0 := "" |}.
Definition session_base (x : Z) (hash : bytes) : bytes :=
  sha256 (str "DKLS23-sign-party-v1-" ++ Bytes (fst (pt x)) ++ Bytes (snd (pt x)) ++ hash ++ flat_map (fun k => Bytes k ++ [0]) skeys).

Section Party.
Variables (signers : list Key) (lams sxl : list Z) (x : Z) (hash : bytes) (tweak : option Z).
Hypothesis Hlen : length signers = m.
Hypothesis Hlams : mapM (fun i => rewrap "dklstss: NewSigning lagrange" (lagrangeCoefficient q skeys (Z.of_nat i))) (seq 0 m) = Ok lams.
Hypothesis Hsxl : signing_shares new_texts q skeys signers tweak = Ok sxl.

(** The share of one signer is the entry of the list. *)
Lemma share_at i k lam xi : nth_error signers i = Some k -> nth_error lams i = Some lam -> kXi k = Some xi ->
  nth_error sxl i = Some (match tweak with Some t => if (i =? 0)%nat then ((lam * xi) mod q + t mod q) mod q else (lam * xi) mod q | None => (lam * xi) mod q end).
Proof.
  intros Ek El Ex. pose proof (q_pos (L := L)) as Q1. unfold signing_shares in Hsxl. rewrite Hlen in Hsxl. cbn [t_lagrange new_texts] in Hsxl. rewrite Hlams in Hsxl.
  cbn [rbind] in Hsxl. apply rbind_ok in Hsxl as (sx0 & E0 & E1).
  assert (E0i : nth_error sx0 i = Some ((lam * xi) mod q)).
  { apply (mapM_nth _ _ _ i (lam, k)) in E0 as (b & Eb & En).
    - rewrite Ex in Eb. cbn [deref rbind] in Eb. rewrite Mod_ok in Eb by lia. injection Eb as <-. exact En.
    - clear -El Ek. revert lams i El Ek. induction signers as [|k' l IH]; intros [|l0 lams] [|i] El Ek; try discriminate; cbn [nth_error combine] in *;
        [now injection El as ->; injection Ek as ->|now apply IH]. }
  destruct tweak as [t|]; [|now injection E1 as <-]. rewrite Mod_ok in E1 by lia. cbn [rbind] in E1.
  destruct sx0 as [|s0 sx0]; [destruct i; discriminate|]. cbn [set_at] in E1. rewrite Mod_ok in E1 by lia. cbn [rbind] in E1. injection E1 as <-.
  destruct i as [|i]; cbn [nth_error Nat.eqb] in *; [now injection E0i as ->|exact E0i].
Qed.

(** A start that succeeds. *)
Lemma new_total i reg P k xi rand sys sys' kk r1 rho r2 : (i < m)%nat -> nth_error signers i = Some k -> p_partyID P = rf i -> p_ec P = S256 ->
  kECDSAPub k = Some (pnt x) -> kXi k = Some xi -> kT k + 1 = Z.of_nat m -> hash <> [] -> SameCurve S256 S256 reg = true ->
  validateSortedSubset h subset = Ok tt -> Key_ValidateBasic (Some k) sys = Ok sys' ->
  GetRandomPositiveInt (Some q) rand = Ok (Some kk, r1) -> GetRandomPositiveInt (Some q) r1 = Ok (Some rho, r2) ->
  0 <= kk -> Forall is_byte r2 -> ct_healthy r2 ->
  NewSigning h reg false (Some P) (Some k) hash subset tweak rand sys = Ok (Some (st1 (h := h) (subset := subset) (pt := pt) (fun _ => P) (fun _ => k) (fun _ => kk)
    (fun _ => rho) (fun _ => nth i sxl 0) lams hash tweak (session_base x hash) (fun _ => ct_rest r2) (fun _ => sys') i), None).
Proof.
  intros Hi Ek HPi HPe Hpub Ex HT Hh Hreg Hv Hval Dk Dr Rk F2 H2. pose proof (q_pos (L := L)) as Q1. unfold NewSigning, new_job.
  replace (length hash =? 0)%nat with false by (destruct hash; [contradiction|reflexivity]). cbn [negb guard rbind]. rewrite Hval. cbn [rewrap rbind].
  rewrite HPe, Hreg. cbn [guard rbind]. rewrite (proj2 (Z.eqb_eq _ _)) by lia. cbn [guard rbind]. rewrite Hv. cbn [rewrap rbind].
  rewrite HPi, (KeyInt_ref_at h subset RO i Hi). cbn [rbind].
  rewrite (find_self_run subset (id_at h subset i) (cm_valid _ _ RO) i 0 (rf i) (ref_at_ok subset i Hi) (ref_at_key h subset i Hi)).
  2: { intros d' r' Hd Er E. assert (d' = i); [|lia]. apply (key_pos h subset RO d' i r' (rf i) Er (ref_at_ok subset i Hi)). now rewrite E, (ref_at_key h subset). }
  cbn [rbind plus]. cbv zeta. rewrite KeyInts. cbn [rbind]. rewrite Hlams. cbn [rbind].
  assert (El : exists lam, nth_error lams i = Some lam).
  { destruct (nth_error lams i) eqn:E; [eauto|]. apply nth_error_None in E. apply mapM_len in Hlams. rewrite length_seq in Hlams. lia. }
  destruct El as (lam & El). rewrite (proj2 (idx_ok _ _ _) El). cbn [rbind]. rewrite Ex. cbn [deref rbind]. rewrite Mod_ok by lia. cbn [rbind].
  pose proof (share_at i k lam xi Ek El Ex) as Es. apply nth_error_nth with (d := 0) in Es.
  replace (match tweak with Some t => if (i =? 0)%nat then let! t := Mod t q in Mod ((lam * xi) mod q + t) q else Ok ((lam * xi) mod q) | None => Ok ((lam * xi) mod q) end)
    with (Ok (nth i sxl 0)).
  2: { rewrite Es. destruct tweak as [t|]; [|reflexivity]. destruct (i =? 0)%nat; [|reflexivity]. rewrite Mod_ok by lia. cbn [rbind]. now rewrite Mod_ok by lia. }
  cbn [rbind]. rewrite (others_fold i _ Hi eq_refl). cbn [rbind]. unfold signSession. rewrite Hpub. cbn [deref rbind].
  change (ECPoint_X (pnt x)) with (Ok (fst (pt x))). change (ECPoint_Y (pnt x)) with (Ok (snd (pt x))). cbn [rbind].
  rewrite KeyInts. cbn [rbind]. fold (session_base x hash).
  match goal with |- rbind (sign_round1 ?s0) _ = _ =>
    rewrite (round1_total i s0 kk rho r1 r2 Hi HPe HPi eq_refl eq_refl eq_refl Dk Dr Rk F2 H2) end. reflexivity.
Qed.

Lemma new_run i reg P k rand sys s : (i < m)%nat -> nth_error signers i = Some k -> p_partyID P = rf i -> p_ec P = S256 -> kECDSAPub k = Some (pnt x) ->
  Forall is_byte rand -> NewSigning h reg false (Some P) (Some k) hash subset tweak rand sys = Ok (Some s, None) ->
  exists kk rho rr ry, 1 <= kk < q /\ kT k + 1 = Z.of_nat m /\
    s = st1 (h := h) (subset := subset) (pt := pt) (fun _ => P) (fun _ => k) (fun _ => kk) (fun _ => rho) (fun _ => nth i sxl 0) lams hash tweak
      (session_base x hash) (fun _ => rr) (fun _ => ry) i.
Proof.
  intros Hi Ek HPi HPe Hpub Fr HN. pose proof (q_pos (L := L)) as Q1. unfold NewSigning in HN.
  destruct (new_job _ _ _ _ _ _ _ _) as [[p sys1]|e|w] eqn:En; try discriminate.
  apply rbind_ok in HN as ([s' [[]|e]] & E1 & HN); [|discriminate]. injection HN as <-.
  unfold new_job in En. apply rbind_ok in En as (_ & _ & En). apply rbind_ok in En as (sysv & _ & En). apply rbind_ok in En as (_ & _ & En).
  apply rbind_ok in En as ([] & GT & En). apply guard_ok, Z.eqb_eq in GT. apply rbind_ok in En as (_ & _ & En).
  rewrite HPi, HPe, (KeyInt_ref_at h subset RO i Hi) in En. cbn [rbind] in En.
  rewrite (find_self_run subset (id_at h subset i) (cm_valid _ _ RO) i 0 (rf i) (ref_at_ok subset i Hi) (ref_at_key h subset i Hi)) in En.
  2: { intros d' r' Hd Er K. assert (d' = i); [|lia]. apply (key_pos h subset RO d' i r' (rf i) Er (ref_at_ok subset i Hi)). now rewrite K, (ref_at_key h subset). }
  cbn [rbind plus] in En. cbv zeta in En. rewrite KeyInts in En. cbn [rbind] in En. rewrite Hlams in En. cbn [rbind] in En.
  apply rbind_ok in En as (lam & El & En). apply idx_ok in El. apply rbind_ok in En as (xi & Ex & En). apply deref_ok in Ex.
  rewrite Mod_ok in En by lia. cbn [rbind] in En. pose proof (share_at i k lam xi Ek El Ex) as Es. apply nth_error_nth with (d := 0) in Es.
  apply rbind_ok in En as (sx & Esx & En).
  assert (sx = nth i sxl 0) as ->.
  { rewrite Es. destruct tweak as [t|]; [|now injection Esx]. destruct (i =? 0)%nat; [|now injection Esx]. rewrite Mod_ok in Esx by lia. cbn [rbind] in Esx.
    rewrite Mod_ok in Esx by lia. now injection Esx. }
  rewrite (others_fold i _ Hi eq_refl) in En. cbn [rbind] in En. unfold signSession in En. rewrite Hpub in En. cbn [deref rbind] in En.
  change (ECPoint_X (pnt x)) with (Ok (fst (pt x))) in En. change (ECPoint_Y (pnt x)) with (Ok (snd (pt x))) in En. cbn [rbind] in En.
  rewrite KeyInts in En. cbn [rbind] in En. fold (session_base x hash) in En. injection En as <- <-.
  apply (round1_inv i) in E1 as (kk & rho & rr & Rk & Ers); [|assumption|assumption|assumption|reflexivity..|assumption]. exists kk, rho, rr, sysv.
  split; [exact Rk|]. split; [rewrite <- GT; reflexivity|]. rewrite Ers. reflexivity.
Qed.
End Party.

(** Every signer calls [NewSigning]. *)
Definition start_signers (reg : CurveState) (P : nat -> Parameters) (signers : list Key) (hash : bytes) (tweak : option Z)
    (rand sys : nat -> reader) : res (list Core) :=
  mapM (fun '(i, k) =>
    let! (s, e) := NewSigning h reg false (Some (P i)) (Some k) hash subset tweak (rand i) (sys i) in
    match s, e with Some s, None => Ok s | _, _ => Err "NewSigning" end) (enum signers).

(** What the signers drew: a nonce and a mask each. *)
Definition drew (s : Core) (p : Z * Z) : Prop := sp_k_i (self s) = Some (fst p) /\ sp_rho_i (self s) = Some (snd p).

(** No sum of the drawn values is degenerate: a party adds its own nonce and those of
    the others in order. *)
Record generic (prs : list (Z * Z)) (x : Z) (hash : bytes) : Prop := {
  ge_sums : forall l1 a l2 pre post, map fst prs = l1 ++ a :: l2 -> l1 ++ l2 = pre ++ post -> (a + zsum pre) mod q <> 0;
  ge_r : fst (pt (zsum (map fst prs))) mod q <> 0;
  ge_phi : (zsum (map fst prs) * zsum (map snd prs)) mod q <> 0;
  ge_s : (hashToInt q hash + fst (pt (zsum (map fst prs))) mod q * x) mod q <> 0;
  ge_x : x mod q <> 0
}.

Lemma others_at_split i : (i < m)%nat -> oth i = seq 0 i ++ seq (S i) (m - S i).
Proof.
  intros Hi. unfold others_at. replace m with (i + S (m - S i))%nat at 1 by lia. rewrite seq_app, List.filter_app. cbn [seq List.filter plus].
  rewrite Nat.eqb_refl. cbn [negb].
  assert (G : forall l, (forall j, In j l -> j <> i) -> List.filter (fun j => negb (j =? i)%nat) l = l).
  { induction l as [|j l IH]; intros Hl; [reflexivity|]. cbn [List.filter]. rewrite (proj2 (Nat.eqb_neq j i)) by (apply Hl; now left). cbn [negb].
    rewrite IH; [reflexivity|]. intros; apply Hl; now right. }
  rewrite !G; [reflexivity|intros j Hj; apply in_seq in Hj; lia..].
Qed.

Definition no_key : Key := {|
  kCurve := None; kN := 0; kT := 0; kIdx := 0; kPartyIDs := []; kXi := None; kBigXj := []; kECDSAPub := None; kOT := []; kChainCode := [] |}.
Definition key_at (signers : list Key) (i : nat) : Key := nth i signers no_key.

Lemma fin_choice {A} (d : A) (R : nat -> A -> Prop) n : (forall i, (i < n)%nat -> exists a, R i a) -> exists f, forall i, (i < n)%nat -> R i (f i).
Proof.
  induction n as [|n IH]; intros HR; [exists (fun _ => d); intros i Hi; lia|].
  destruct IH as (f & Hf); [intros i Hi; apply HR; lia|]. destruct (HR n (Nat.lt_succ_diag_r n)) as (a & Ha).
  exists (fun i => if (i =? n)%nat then a else f i). intros i Hi. destruct (Nat.eqb_spec i n) as [->|Hne]; [exact Ha|]. apply Hf. lia.
Qed.

Section Session.
Variables (reg : CurveState) (P : nat -> Parameters) (signers : list Key) (lams sxl : list Z) (x : Z) (hash : bytes) (tweak : option Z).
Hypothesis Hlen : length signers = m.
Hypothesis Hlams : mapM (fun i => rewrap "dklstss: NewSigning lagrange" (lagrangeCoefficient q skeys (Z.of_nat i))) (seq 0 m) = Ok lams.
Hypothesis Hsxl : signing_shares new_texts q skeys signers tweak = Ok sxl.
Hypothesis HP : forall i, (i < m)%nat -> p_partyID (P i) = rf i /\ p_ec (P i) = S256.
Hypothesis Hpub : Forall (fun k => kECDSAPub k = Some (pnt x)) signers.

Abbreviation begun kk rho rr ry :=
  (st1 (h := h) (subset := subset) (pt := pt) P (key_at signers) kk rho (fun i => nth i sxl 0) lams hash tweak (session_base x hash) rr ry).

Lemma start_inv rand sys net0 : (forall i, Forall is_byte (rand i)) -> start_signers reg P signers hash tweak rand sys = Ok net0 ->
  exists kk rho rr ry, (forall i, (i < m)%nat -> 1 <= kk i < q /\ kT (key_at signers i) + 1 = Z.of_nat m) /\ net0 = map (begun kk rho rr ry) (seq 0 m).
Proof.
  intros Fr E. unfold start_signers in E. assert (Ln : length net0 = m).
  { apply mapM_len in E. rewrite E. unfold enum. rewrite length_combine, length_seq. lia. }
  apply mapM_inv in E. set (R := fun i (t : Z * Z * reader * reader) => let '(k, r, a, b) := t in
    (1 <= k < q /\ kT (key_at signers i) + 1 = Z.of_nat m) /\ nth_error net0 i = Some (begun (fun _ => k) (fun _ => r) (fun _ => a) (fun _ => b) i)).
  destruct (fin_choice (0, 0, [], []) R m) as (f & Hf).
  { intros i Hi. assert (Ek : nth_error signers i = Some (key_at signers i)) by (apply nth_error_nth'; lia).
    destruct (Forall2_nth_error_l _ _ _ i _ E (enum_nth _ i _ Ek)) as (s & Es & Hs). cbn beta iota in Hs.
    apply rbind_ok in Hs as ([[s0|] [e|]] & HN & Hs); try discriminate. injection Hs as ->.
    rewrite List.Forall_forall in Hpub.
    destruct (new_run signers lams sxl x hash tweak Hlen Hlams Hsxl i reg (P i) (key_at signers i) (rand i) (sys i) s Hi Ek
      (proj1 (HP i Hi)) (proj2 (HP i Hi)) (Hpub _ (nth_error_In _ _ Ek)) (Fr i) HN) as (kk & rho & rr & ry & Rk & HT & Eq).
    exists (kk, rho, rr, ry). split; [auto|]. rewrite Es, Eq. reflexivity. }
  exists (fun i => fst (fst (fst (f i)))), (fun i => snd (fst (fst (f i)))), (fun i => snd (fst (f i))), (fun i => snd (f i)).
  split; [intros i Hi; specialize (Hf i Hi); unfold R in Hf; destruct (f i) as [[[k r] a] b]; exact (proj1 Hf)|].
  apply nth_error_ext. intros i. destruct (Nat.lt_ge_cases i m) as [Hi|Hi].
  - specialize (Hf i Hi). unfold R in Hf. rewrite nth_error_map, (nth_error_nth_lt (seq 0 m) i 0%nat) by now rewrite length_seq. rewrite seq_nth by exact Hi.
    cbn [option_map plus]. assert (Ei : f i = f i) by reflexivity. destruct (f i) as [[[k r] a] b] eqn:Ef in Hf. rewrite (proj2 Hf). f_equal.
    unfold st1, mach, pty, k0, x0, s1, M1, Kp. now rewrite Ef.
  - rewrite !(proj2 (nth_error_None _ i)); [reflexivity|now rewrite length_map, length_seq|lia].
Qed.
End Session.

(** ** The theorem *)
Hypothesis Hneg : forall a, pt (- a) = (fst (pt a), (- snd (pt a)) mod cP S256).
Hypothesis Q2 : 2 < q.
Hypothesis Hodd : Z.odd (cP S256) = true.
Context {keys : list (option Key)} {ids cs : list Z} (CK : consistent (pt := pt) h keys ids cs).
Abbreviation x := (peval cs 0).

(** The signers: [T + 1] different parties of the key, each with its own key. *)
Record committee_of (signers : list Key) : Prop := {
  of_member : Forall (member keys) signers;
  of_nodup : List.NoDup (map kIdx signers);
  of_count : length cs = length signers;
  of_ids : Forall (fun k => mapM (KeyInt h) (kPartyIDs k) = Ok ids) signers;
  of_subset : map (id_of ids) signers = skeys
}.

Section Committee.
Variable signers : list Key.
Hypothesis OF : committee_of signers.
Abbreviation K := (key_at signers).

Lemma signers_len : length signers = m.
Proof. rewrite <- (length_map (id_of ids)), (of_subset _ OF). apply length_map. Qed.
Lemma K_at i : (i < m)%nat -> nth_error signers i = Some (K i).
Proof. intros Hi. apply nth_error_nth'. rewrite signers_len. exact Hi. Qed.
Lemma K_member i : (i < m)%nat -> member keys (K i).
Proof. intros Hi. pose proof (of_member _ OF) as F. rewrite List.Forall_forall in F. apply F. exact (nth_error_In _ _ (K_at i Hi)). Qed.
Lemma K_id i : (i < m)%nat -> id_at h subset i = id_of ids (K i).
Proof. intros Hi. unfold id_at. rewrite <- (of_subset _ OF). apply nth_error_nth. rewrite nth_error_map, (K_at i Hi). reflexivity. Qed.
Lemma K_idx i j : (i < m)%nat -> (j < m)%nat -> i <> j -> kIdx (K i) <> kIdx (K j).
Proof.
  intros Hi Hj Hij E. apply Hij. apply (proj1 (List.NoDup_nth_error _) (of_nodup _ OF)).
  - rewrite length_map, signers_len. exact Hi.
  - rewrite !nth_error_map, (K_at i Hi), (K_at j Hj). cbn. now rewrite E.
Qed.

(** The own entry for a peer. *)
Definition pair_at (i j : nat) : PairOTState :=
  match idxZ (kOT (K i)) (kIdx (K j)) with Ok (Some p) => p | _ => {| AsAlice := None; AsBob := None |} end.

Lemma index_run i j : (i < m)%nat -> (j < m)%nat -> indexInFullCommittee h (K i) (rf j) = Ok (kIdx (K j)).
Proof.
  intros Hi Hj. destruct (K_member j Hj) as (d & Hd & _ & Ed). pose proof (of_ids _ OF) as F. rewrite List.Forall_forall in F.
  pose proof (F _ (nth_error_In _ _ (K_at i Hi))) as Eids. cbv beta in Eids. pose proof (co_len _ _ _ _ CK) as Ln.
  unfold indexInFullCommittee. destruct (kPartyIDs (K i)) as [|p l] eqn:Ep.
  { injection Eids as <-. cbn in Ln. lia. }
  rewrite (KeyInt_ref_at h subset RO j Hj), (K_id j Hj). cbn [rbind]. unfold id_of. rewrite Ed, Nat2Z.id.
  apply (index_from_run _ _ _ Eids d 0); [apply nth_error_nth_lt; lia|]. intros d' k' Hd' E' Ek.
  pose proof (co_distinct _ _ _ _ CK) as D. unfold distinct in D. rewrite List.NoDup_nth_error in D. assert (d' = d); [|lia].
  apply D; [rewrite length_map; lia|]. rewrite !nth_error_map, E', (nth_error_nth_lt ids d 0) by lia. cbn. now rewrite Ek.
Qed.

Lemma pairs_run i j : (i < m)%nat -> (j < m)%nat -> i <> j ->
  (exists n, indexInFullCommittee h (K i) (rf j) = Ok n /\ idxZ (kOT (K i)) n = Ok (Some (pair_at i j))) /\
  exists r s, AsAlice (pair_at i j) = Some r /\ AsBob (pair_at j i) = Some s /\ matched r s.
Proof.
  intros Hi Hj Hij. destruct (member_ot h keys ids cs CK (K i) (K j) (K_member i Hi) (K_member j Hj) (K_idx i j Hi Hj Hij)) as (pa & pb & r & s & Ea & Eb & EA & EB & M).
  assert (Pa : pair_at i j = pa) by (unfold pair_at; now rewrite Ea). assert (Pb : pair_at j i = pb) by (unfold pair_at; now rewrite Eb).
  rewrite Pa, Pb. split; [exists (kIdx (K j)); split; [now apply index_run|assumption]|eauto].
Qed.

Lemma session_correct reg P hash tweak rand sys net0 : (forall i, (i < m)%nat -> p_partyID (P i) = rf i /\ p_ec (P i) = S256) -> (0 < m)%nat ->
  Forall is_byte hash -> (forall i, Forall is_byte (rand i)) -> start_signers reg P signers hash tweak rand sys = Ok net0 ->
  Forall (fun s => Forall is_byte (rSys s) /\ ct_healthy (rSys s)) net0 ->
  exists prs, Forall2 drew net0 prs /\ (generic prs (x + tweak_of tweak) hash -> exists net sg, signing_session h subset net0 = Ok net /\ length net = m /\
    Forall (fun s => sp_Done (self s) = Some sg /\ sp_Err (self s) = None) net /\ good_signature (pt := pt) (x + tweak_of tweak) hash sg).
Proof.
  intros HP Hm Hhash Fr HN Hsys. pose proof signers_len as Ls.
  destruct (signing_shares_ok h keys ids cs CK new_texts tweak signers (of_member _ OF) (of_nodup _ OF)) as (sxl & Esx & Lsx & Csx).
  { intros ->. cbn in Ls. lia. } { rewrite (of_count _ OF). lia. }
  rewrite (of_subset _ OF) in Esx.
  assert (El : exists lams, mapM (fun i => rewrap "dklstss: NewSigning lagrange" (lagrangeCoefficient q skeys (Z.of_nat i))) (seq 0 m) = Ok lams).
  { unfold signing_shares in Esx. rewrite Ls in Esx. apply rbind_ok in Esx as (lams & El & _). eauto. }
  destruct El as (lams & El).
  assert (Hpub : Forall (fun k => kECDSAPub k = Some (pnt x)) signers).
  { eapply List.Forall_impl; [|exact (of_member _ OF)]. intros k Hk. now apply (member_facts h keys ids cs CK). }
  destruct (start_inv reg P signers lams sxl x hash tweak Ls El Esx HP Hpub rand sys net0 Fr HN) as (kk & rho & rr & ry & Rk & ->).
  exists (map (fun i => (kk i, rho i)) (seq 0 m)). split.
  { generalize (seq 0 m). intros l. induction l as [|i l IH]; cbn [map]; constructor; [split; reflexivity|exact IH]. }
  intros [Gs Gr Gp Gd Gx]. rewrite !map_map in Gs, Gr, Gd. rewrite !map_map in Gp. cbn [fst snd] in Gs, Gr, Gp, Gd.
  assert (Hkk : forall i, (i < m)%nat -> 1 <= kk i < q) by (intros; now apply Rk).
  assert (Hpart : forall i pre post, (i < m)%nat -> oth i = pre ++ post -> (kk i + zsum (map kk pre)) mod q <> 0).
  { intros i pre post Hi E. rewrite others_at_split in E by exact Hi. apply (Gs (map kk (seq 0 i)) (kk i) (map kk (seq (S i) (m - S i))) (map kk pre) (map kk post)).
    - rewrite <- (map_cons kk i), <- map_app. f_equal. replace m with (i + S (m - S i))%nat at 1 by lia. now rewrite seq_app.
    - now rewrite <- !map_app, E. }
  assert (HK : Ksum (subset := subset) kk mod q <> 0).
  { unfold Ksum. rewrite <- (zsum_oth kk 0 Hm). apply (Hpart 0%nat (oth 0) [] Hm). now rewrite app_nil_r. }
  assert (Hsx : cong q (zsum (map (fun i => nth i sxl 0) (seq 0 m))) (x + tweak_of tweak)).
  { rewrite <- Csx, <- Ls, <- Lsx, zsum_nth. reflexivity. }
  assert (Hry : forall i, (i < m)%nat -> Forall is_byte (ry i) /\ ct_healthy (ry i)).
  { intros i Hi. rewrite List.Forall_forall in Hsys. refine (Hsys _ (in_map _ _ i _)). apply in_seq. lia. }
  assert (HpubK : forall i, (i < m)%nat -> kECDSAPub (K i) = Some (pnt x)).
  { intros i Hi. rewrite List.Forall_forall in Hpub. exact (Hpub _ (nth_error_In _ _ (K_at i Hi))). }
  destruct (session_run Hbroker RO P K pair_at kk rho (fun i => nth i sxl 0) lams hash tweak (session_base x hash) HP Hkk pairs_run rr ry Hpart Gr Hhash x
    Hneg Q2 Hodd HpubK Hsx Hry HK Gp Gd Gx) as (net & E & Ln & F).
  exists net, (the_sig (h := h) (subset := subset) (pt := pt) pair_at kk rho (fun i => nth i sxl 0) hash (session_base x hash)).
  split; [exact E|]. split; [exact Ln|]. split; [exact F|].
  apply (the_sig_good (h := h) (subset := subset) K); assumption || exact pairs_run.
Qed.
End Committee.
End Start.

(** ** Properties *)
Section Properties.
Context `{HS : Hash} `{SH : Sha256} `{AL : AesLaws} `{CS : Curves} `{SL : Secp256k1Lib} `{EL : Ed25519Lib} `{ML : MapRangeLaws}.
Context `{SJ : SignJson} `{BR : !Broker SMsg}.
Context {pt : Z -> Z * Z} {L : CurveLaws S256 pt false} {CT : CtCurve S256 pt false}.
Abbreviation q := (cN S256).

(** Keys of one committee are a committee of signers. *)
Lemma roster_committee h keys partyIDs ids cs signers subset : DklsLife.committee (pt := pt) h keys partyIDs ids cs -> roster h subset ->
  Forall (fun k => In k keys) signers -> List.NoDup (map kIdx signers) -> length signers = length cs ->
  Forall2 (fun r k => KeyInt h r = own_id h k) subset signers -> committee_of (h := h) (subset := subset) (keys := map Some keys) (ids := ids) (cs := cs) signers.
Proof.
  intros C RO Hin Nd Hc Hsub. pose proof (cm_consistent _ _ _ _ _ C) as CK.
  assert (Fm : Forall (member (map Some keys)) signers).
  { eapply List.Forall_impl; [|exact Hin]. intros k Hk. apply In_nth_error in Hk as (i & Ei).
    assert (Hi : (i < length (map Some keys))%nat) by (rewrite length_map; apply nth_error_Some; congruence).
    destruct (co_key _ _ _ _ CK i Hi) as (k' & Ek & _ & _ & Ex & _). rewrite nth_error_map, Ei in Ek. injection Ek as <-.
    exists i. split; [exact Hi|]. split; [now rewrite nth_error_map, Ei|exact Ex]. }
  constructor; try assumption; [now symmetry| |].
  - eapply List.Forall_impl; [|exact Hin]. intros k Hk. pose proof (cm_common _ _ _ _ _ C) as F. rewrite List.Forall_forall in F.
    rewrite (proj2 (F k Hk)). exact (cm_ids _ _ _ _ _ C).
  - clear Hin Nd Hc. pose proof (cm_valid _ _ RO) as V. clear RO. revert V Fm. induction Hsub as [|r k l l' E F IH]; intros V Fm; [reflexivity|]. cbn [map].
    apply Forall_cons_iff in V as [Vr V]. apply Forall_cons_iff in Fm as [Mk Fm].
    rewrite (KeyInt_valid h r Vr) in E. destruct (member_facts h (map Some keys) ids cs CK k Mk) as (_ & _ & _ & Eo & _). rewrite Eo in E. injection E as E.
    f_equal; [now symmetry|]. apply IH; assumption.
Qed.

(** C2. Brokered signing, end to end.  Let [T + 1] different parties of a committee (the
    keys of a key generation, refreshes and resharings) call [NewSigning] for one
    digest, one subset and one tweak, and let their brokers deliver what was sent.
    Unless a sum of the drawn scalars is degenerate ([generic]), every party ends
    with one signature on [Done] and nothing on [Err], the same for all: an ECDSA
    signature of the digest under the secret plus the tweak that [crypto/ecdsa]
    accepts, in low form and with the right recovery bit. *)
Theorem brokered_signing_correct h keys partyIDs ids cs signers subset reg P hash tweak rand sys net0
  (Hneg : forall a, pt (- a) = (fst (pt a), (- snd (pt a)) mod cP S256)) (Q2 : 2 < q) (Hodd : Z.odd (cP S256) = true)
  (Hbroker : forall m, broker_Receive m = None)
  (C : DklsLife.committee (pt := pt) h keys partyIDs ids cs)
  (Hin : Forall (fun k => In k keys) signers) (Nd : List.NoDup (map kIdx signers)) (Hcount : length signers = length cs)
  (RO : roster h subset) (Hsub : Forall2 (fun r k => KeyInt h r = own_id h k) subset signers)
  (HP : forall i, (i < length subset)%nat -> p_partyID (P i) = ref_at subset i /\ p_ec (P i) = S256)
  (Hhash : Forall is_byte hash) (Hrand : forall i, Forall is_byte (rand i))
  (HN : start_signers (h := h) (subset := subset) reg P signers hash tweak rand sys = Ok net0)
  (Hsys : Forall (fun s => Forall is_byte (rSys s) /\ ct_healthy (rSys s)) net0) :
  exists prs, Forall2 drew net0 prs /\
  (generic (pt := pt) prs (peval cs 0 + tweak_of tweak) hash ->
   exists net sg, signing_session h subset net0 = Ok net /\ length net = length subset /\
     Forall (fun s => sp_Done (self s) = Some sg /\ sp_Err (self s) = None) net /\
     good_signature (pt := pt) (peval cs 0 + tweak_of tweak) hash sg).
Proof.
  pose proof (roster_committee h keys partyIDs ids cs signers subset C RO Hin Nd Hcount Hsub) as OF.
  apply (session_correct Hbroker RO Hneg Q2 Hodd (cm_consistent _ _ _ _ _ C) signers OF reg P hash tweak rand sys net0 HP); try assumption.
  rewrite (Forall2_length Hsub), Hcount. pose proof (cm_poly _ _ _ _ _ C). destruct cs; [contradiction|cbn; lia].
Qed.

(** In a session every party only runs its callbacks. *)
Lemma session_calls h subset net net' i s : signing_session h subset net = Ok net' -> nth_error net i = Some s ->
  exists calls s', nth_error net' i = Some s' /\ run_calls h calls s = Ok s'.
Proof.
  unfold signing_session. generalize (rounds (SJ := SJ) subset). intros calls. revert net s. induction calls as [|call calls IH]; intros net s E En; cbn [foldM] in E.
  - injection E as <-. exists [], s. auto.
  - apply rbind_ok in E as (net1 & E1 & E). unfold lockstep in E1.
    destruct (mapM_nth _ _ _ i (i, s) E1 (enum_nth _ i s En)) as (s1 & Es & En1). cbn beta iota in Es.
    destruct (IH net1 s1 E En1) as (cs & s' & En' & Er). exists (call net i :: cs), s'. split; [exact En'|].
    unfold run_calls in *. cbn [foldM]. now rewrite Es.
Qed.

(** C7. Whatever a signer's broker delivers, in whatever order and how often, a
    signature that the party puts on [Done] is in range and in low form, and
    [crypto/ecdsa] accepts it for the digest and the public key (with the tweak)
    that [NewSigning] was given; and no further callback replaces it. *)
Theorem signing_party_sound h reg P key hash subset tweak rand sys s0 calls s sg
  (Hq : 0 < cN (p_ec P)) (HN : NewSigning h reg false (Some P) (Some key) hash subset tweak rand sys = Ok (Some s0, None))
  (HR : run_calls h calls s0 = Ok s) (HD : sp_Done (self s) = Some sg) :
  (let q := cN (p_ec P) in 0 < sigR sg < q /\ 0 < sigS sg <= q / 2 /\
   exists sys1 sys2 vpub X Y, effectiveVerifyPub (kECDSAPub key) tweak sys1 = Ok (vpub, sys2) /\
     ECPoint_X vpub = Ok X /\ ECPoint_Y vpub = Ok Y /\ ecdsa_Verify (curve vpub) X Y hash (sigR sg) (sigS sg) = Ok true) /\
  forall calls' s', run_calls h calls' s = Ok s' -> sp_Done (self s') = Some sg.
Proof.
  destruct (NewSigning_sound _ _ _ _ _ _ _ _ _ _ _ _ HN) as (P' & k' & [= <-] & [= <-] & E1 & E2 & E3 & E4 & S0).
  pose proof (calls_sound _ ltac:(now rewrite E1) _ _ _ _ S0 HR) as (Ej & Er & Ed).
  rewrite HD in Ed. split; [unfold released in Ed; now rewrite E1, E2, E3, E4 in Ed|].
  intros calls' s'. now apply calls_once.
Qed.
End Properties.

(** ** Evaluation on a concrete input *)
#[local] Existing Instances toy_hash toy_sha toy_aes toy_curves toy_secp toy_ed.
#[local] Instance toy_sign_json : SignJson := {|
  json_sr1 := id_json signR1; json_secho := id_json echoMsg; json_sr2 := id_json signR2; json_sr3 := id_json signR3; json_sr4 := id_json signR4
|}.
#[local] Instance toy_sign_broker : Broker SMsg := {| broker_Receive := fun _ => None |}.
Definition b_subset : list ref := [0%nat; 1%nat].
Definition b_params (i : nat) : Parameters := {|
  p_ec := toy256; p_partyID := i; p_parties := NewPeerContext b_subset; p_partyCount := 2; p_threshold := 1;
  p_concurrency := 1; p_safePrimeGenTimeout := defaultSafePrimeGenTimeout; p_noProofMod := false; p_noProofFac := false |}.
Definition b_rand (i : nat) : reader := match i with O => 11 :: 6 :: repeat 1 40 | S O => 13 :: 9 :: repeat 1 40 | _ => [] end.
Definition b_sys : reader := repeat 1 80.

Lemma b_roster : roster w_kheap b_subset.
Proof.
  constructor; [repeat constructor; eexists _, _; split; reflexivity|].
  change (map (Party.key_of w_kheap) b_subset) with [1; 2]. repeat (apply List.NoDup_cons; [cbn; intros D; repeat destruct D as [D|D]; lia|]). apply List.NoDup_nil.
Qed.

Lemma b_rand_byte i : Forall is_byte (b_rand i).
Proof. destruct i as [|[|i]]; [do 2 (apply one_byte; [lia|]); apply ones_byte..|constructor]. Qed.

(** A party starts. *)
Lemma b_start i k xi kk rho ks : (i < 2)%nat -> nth_error ks i = Some k -> length ks = 2%nat ->
  signing_shares new_texts 31 [1; 2] ks (Some 4) = Ok [7; 5] ->
  kECDSAPub k = Some (tpnt 8) -> kXi k = Some xi -> kT k = 1 -> @Key_ValidateBasic toy_curves toy_secp toy_ed (Some k) b_sys = Ok (repeat 1 40) ->
  b_rand i = kk :: rho :: repeat 1 40 -> GetRandomPositiveInt (Some 31) (kk :: rho :: repeat 1 40) = Ok (Some kk, rho :: repeat 1 40) ->
  GetRandomPositiveInt (Some 31) (rho :: repeat 1 40) = Ok (Some rho, repeat 1 40) -> 0 <= kk ->
  exists s, NewSigning w_kheap curve_init false (Some (b_params i)) (Some k) [201; 3] b_subset (Some 4) (b_rand i) b_sys = Ok (Some s, None) /\
    drew s (kk, rho) /\ rSys s = repeat 1 40.
Proof.
  intros Hi Ek Hl Hs Hpub Ex HT Hv Hr Dk Dr Hk. rewrite Hr.
  assert (EL : @mapM nat Z (fun i => rewrap "dklstss: NewSigning lagrange" (lagrangeCoefficient 31 [1; 2] (Z.of_nat i))) (seq 0 2) = Ok [2; 30]) by (vm_compute; reflexivity).
  assert (HP : p_partyID (b_params i) = ref_at b_subset i) by (destruct i as [|[|i]]; [reflexivity..|lia]).
  assert (HT2 : kT k + 1 = 2) by lia. assert (Hh : [201; 3] <> []) by discriminate.
  pose proof (new_total (CT := toy256_ct) (fun _ => eq_refl) b_roster ks [2; 30] [7; 5] 8 [201; 3] (Some 4) Hl EL Hs i curve_init (b_params i) k xi
    _ _ _ kk _ rho _ Hi Ek HP eq_refl Hpub Ex HT2 Hh eq_refl eq_refl Hv Dk Dr Hk (ones_byte _) (toy_healthy 40 (le_n 40))) as E.
  eexists. split; [exact E|]. split; [split; reflexivity|reflexivity].
Qed.

Lemma b_shares ot chain : signing_shares new_texts 31 [1; 2] (w_pair 17 26 8 ot chain) (Some 4) = Ok [7; 5].
Proof. vm_compute. reflexivity. Qed.
Lemma b_valid ot chain k xi : In (k, xi) (combine (w_pair 17 26 8 ot chain) [17; 26]) -> length chain = 32%nat ->
  (exists rA sA rB sB, ot = w_matrix rA sA rB sB) -> @Key_ValidateBasic toy_curves toy_secp toy_ed (Some k) b_sys = Ok (repeat 1 40).
Proof.
  intros Hk Hc (rA & sA & rB & sB & ->). change (repeat 1 40) with (skipn 40 b_sys).
  assert (Hh : toy_healthy_m 1%nat b_sys) by (apply toy_healthy_n; lia).
  destruct Hk as [E|[E|[]]]; injection E as <- <-.
  - apply (w_validate _ 17 (tpnt 17)); try reflexivity; try assumption; [lia|exists 8; split; [reflexivity|discriminate]|apply ones_byte].
  - apply (w_validate _ 26 (tpnt 26)); try reflexivity; try assumption; [lia|exists 8; split; [reflexivity|discriminate]|apply ones_byte].
Qed.

Lemma b_generic x : cong 31 x 8 -> @generic toy_curves toy256_pt [(11, 6); (13, 9)] (x + 4) [201; 3].
Proof.
  intros Hx. constructor.
  - cbn [map fst]. intros l1 a l2 pre post E1 E2 Z0. change (cN S256) with 31 in Z0.
    destruct l1 as [|b [|c l1]]; [| |destruct l1; discriminate E1]; injection E1; intros; subst; cbn [app] in E2;
      (destruct pre as [|d [|e pre]]; [| |discriminate E2]; [discriminate Z0|injection E2 as <- _; discriminate Z0]).
  - intros Z0. apply (w_not_degenerate sign_texts x (t_r0 sign_texts) Hx). right. left. auto.
  - intros Z0. apply (w_not_degenerate sign_texts x (t_phi sign_texts) Hx). right. right. left. auto.
  - intros Z0. apply (w_not_degenerate sign_texts x (t_s0 sign_texts) Hx). do 3 right. left. auto.
  - intros Z0. apply (w_not_degenerate sign_texts x "dklstss: tweaked pubkey" Hx). do 4 right. auto.
Qed.

(** The two parties start, with what the theorem asks of them. *)
Record b_started (keys : list Key) (ids cs : list Z) (s0 s1 : Machine SigningParty SMsg) : Prop := {
  bs_committee : @DklsLife.committee toy_curves toy256_pt w_kheap keys [0%nat; 1%nat] ids cs;
  bs_secret : cong 31 (peval cs 0) 8;
  bs_count : length keys = length cs;
  bs_idx : map kIdx keys = [0; 1];
  bs_own : Forall2 (fun r k => KeyInt w_kheap r = own_id w_kheap k) b_subset keys;
  bs_first : NewSigning w_kheap curve_init false (Some (b_params 0)) (Some (key_at keys 0)) [201; 3] b_subset (Some 4) (b_rand 0) b_sys = Ok (Some s0, None);
  bs_start : start_signers (h := w_kheap) (subset := b_subset) curve_init b_params keys [201; 3] (Some 4) b_rand (fun _ => b_sys) = Ok [s0; s1];
  bs_drew0 : drew s0 (11, 6);
  bs_drew1 : drew s1 (13, 9);
  bs_sys0 : rSys s0 = repeat 1 40;
  bs_sys1 : rSys s1 = repeat 1 40
}.

Lemma b_run : exists rA sA rB sB ids cs s0 s1, b_started (w_pair 17 26 8 (w_matrix rA sA rB sB) w_chain) ids cs s0 s1.
Proof.
  destruct w_pair_keys as (rA & sA & rB & sB & rng' & sys' & EK). destruct (w_committee _ _ _ _ _ _ EK) as (ids & cs & C).
  exists rA, sA, rB, sB, ids, cs. set (keys := w_pair 17 26 8 (w_matrix rA sA rB sB) w_chain) in *.
  set (k0 := nth 0 keys no_key). set (k1 := nth 1 keys no_key).
  assert (V0 : @Key_ValidateBasic toy_curves toy_secp toy_ed (Some k0) b_sys = Ok (repeat 1 40)) by (apply (b_valid (w_matrix rA sA rB sB) w_chain _ 17); [now left|reflexivity|eauto]).
  assert (V1 : @Key_ValidateBasic toy_curves toy_secp toy_ed (Some k1) b_sys = Ok (repeat 1 40)) by (apply (b_valid (w_matrix rA sA rB sB) w_chain _ 26); [right; now left|reflexivity|eauto]).
  destruct (b_start 0 k0 17 11 6 keys ltac:(lia) eq_refl eq_refl (b_shares _ _) eq_refl eq_refl eq_refl V0 eq_refl eq_refl eq_refl ltac:(lia)) as (s0 & N0 & D0 & Y0).
  destruct (b_start 1 k1 26 13 9 keys ltac:(lia) eq_refl eq_refl (b_shares _ _) eq_refl eq_refl eq_refl V1 eq_refl eq_refl eq_refl ltac:(lia)) as (s1 & N1 & D1 & Y1).
  exists s0, s1. constructor; try assumption; try reflexivity.
  - pose proof (committee_pub _ _ _ _ _ C) as F. apply Forall_inv in F. injection F as Fx Fy. symmetry. apply (cl_eq (CurveLaws := toy256_laws)). apply injective_projections; assumption.
  - destruct (co_key _ _ _ _ (cm_consistent _ _ _ _ _ C) 0%nat ltac:(cbn; lia)) as (k & Ek & _ & Hk & _). injection Ek as <-. cbn in Hk. cbn. lia.
  - do 2 (constructor; [reflexivity|]). constructor.
  - unfold start_signers. change (enum keys) with [(0%nat, k0); (1%nat, k1)]. cbn [mapM]. rewrite N0. cbn [rbind]. rewrite N1. reflexivity.
Qed.

Lemma b_nodup (l : list Z) : l = [0; 1] -> List.NoDup l.
Proof. intros ->. repeat (apply List.NoDup_cons; [cbn; intros D; repeat destruct D as [D|D]; lia|]). apply List.NoDup_nil. Qed.
Lemma b_seats i : (i < length b_subset)%nat -> p_partyID (b_params i) = ref_at b_subset i /\ p_ec (b_params i) = S256.
Proof. intros Hi. destruct i as [|[|i]]; [split; reflexivity..|cbn in Hi; lia]. Qed.
Lemma b_readers (s0 s1 : Machine SigningParty SMsg) : rSys s0 = repeat 1 40 -> rSys s1 = repeat 1 40 ->
  Forall (fun s => Forall is_byte (rSys s) /\ ct_healthy (rSys s)) [s0; s1].
Proof. intros Y0 Y1. constructor; [|constructor; [|constructor]]; [rewrite Y0|rewrite Y1]; (split; [apply ones_byte|exact (toy_healthy 40 (le_n 40))]). Qed.
Lemma b_draws (s0 s1 : Machine SigningParty SMsg) prs : drew s0 (11, 6) -> drew s1 (13, 9) -> Forall2 drew [s0; s1] prs -> prs = [(11, 6); (13, 9)].
Proof.
  intros D0 D1 F2. inversion F2 as [|? [a b] ? l Da F2']; subst. inversion F2' as [|? [c d] ? l' Db F2'']; subst. inversion F2''; subst.
  destruct D0 as [D0 D0'], D1 as [D1 D1'], Da as [Da Da'], Db as [Db Db']. cbn [fst snd] in *. congruence.
Qed.

Lemma brokered_signing_correct_witness : exists keys net0 net sg x, cong 31 x 8 /\
  start_signers (h := w_kheap) (subset := b_subset) curve_init b_params keys [201; 3] (Some 4) b_rand (fun _ => b_sys) = Ok net0 /\
  signing_session w_kheap b_subset net0 = Ok net /\ length net = 2%nat /\
  Forall (fun s => sp_Done (self s) = Some sg /\ sp_Err (self s) = None) net /\ @good_signature toy_curves toy256_pt (x + 4) [201; 3] sg.
Proof.
  destruct b_run as (rA & sA & rB & sB & ids & cs & s0 & s1 & [C Hx Hc Hi Ho _ EN D0 D1 Y0 Y1]). exists (w_pair 17 26 8 (w_matrix rA sA rB sB) w_chain).
  destruct (@brokered_signing_correct toy_hash toy_sha toy_aes toy_aes_laws toy_curves toy_secp toy_ed toy_range toy_range_laws toy_sign_json toy_sign_broker
    toy256_pt toy256_laws toy256_ct w_kheap _ [0%nat; 1%nat] ids cs _ b_subset curve_init b_params [201; 3] (Some 4) b_rand (fun _ => b_sys) [s0; s1]
    toy_neg eq_refl eq_refl (fun _ => eq_refl) C (proj2 (List.Forall_forall _ _) (fun k Hk => Hk)) (b_nodup _ Hi) Hc b_roster Ho b_seats w_hash_byte b_rand_byte EN
    (b_readers s0 s1 Y0 Y1)) as (prs & F2 & G).
  rewrite (b_draws s0 s1 prs D0 D1 F2) in G. destruct (G (b_generic _ Hx)) as (net & sg & E & Ln & F & Gs).
  exists [s0; s1], net, sg, (peval cs 0). auto 6.
Defined.

Lemma signing_party_sound_witness : exists key s0 calls s sg,
  NewSigning w_kheap curve_init false (Some (b_params 0)) (Some key) [201; 3] b_subset (Some 4) (b_rand 0) b_sys = Ok (Some s0, None) /\
  run_calls w_kheap calls s0 = Ok s /\ sp_Done (self s) = Some sg /\ 0 < sigR sg < 31 /\ 0 < sigS sg <= 15.
Proof.
  destruct b_run as (rA & sA & rB & sB & ids & cs & s0 & s1 & [C Hx Hc Hi Ho N0 EN D0 D1 Y0 Y1]).
  pose proof (roster_committee (pt := toy256_pt) w_kheap _ _ ids cs _ b_subset C b_roster (proj2 (List.Forall_forall _ _) (fun k Hk => Hk)) (b_nodup _ Hi) Hc Ho) as OF.
  destruct (session_correct (CT := toy256_ct) (BR := toy_sign_broker) (fun _ => eq_refl) b_roster toy_neg eq_refl eq_refl (cm_consistent _ _ _ _ _ C) _ OF curve_init b_params [201; 3] (Some 4)
    b_rand (fun _ => b_sys) [s0; s1] b_seats ltac:(cbn; lia) w_hash_byte b_rand_byte EN (b_readers s0 s1 Y0 Y1)) as (prs & F2 & G).
  rewrite (b_draws s0 s1 prs D0 D1 F2) in G. destruct (G (b_generic _ Hx)) as (net & sg & E & Ln & F & _).
  destruct (session_calls w_kheap b_subset [s0; s1] net 0 s0 E eq_refl) as (calls & s & En & Er).
  assert (HD : sp_Done (self s) = Some sg) by (rewrite List.Forall_forall in F; exact (proj1 (F s (nth_error_In _ _ En)))).
  eexists _, s0, calls, s, sg. split; [exact N0|]. split; [exact Er|]. split; [exact HD|].
  destruct (signing_party_sound w_kheap curve_init (b_params 0) _ [201; 3] b_subset (Some 4) (b_rand 0) b_sys s0 calls s sg eq_refl N0 Er HD) as ((R1 & R2 & _) & _).
  split; [exact R1|exact R2].
Defined.
