(* ===== verification/DklsKeygenParty.v ===== *)
(** * Package [dklstss]: a party of the brokered key generation

    [keygen_party.go] and [once_send.go].  One party's state machine: round 1 when it
    is created, then one callback per collected round.  [Core] is what the callbacks
    work on: the [KeygenParty], the readers, the messages given to the broker and the
    types connected to it.  The broker is the application's: [broker_Receive] is its
    answer to a message.  A context is the error it reports when it is asked, [None]
    when it is alive. *)
From stdpp Require Import base gmap list strings pretty.
From Stdlib Require Import ZArith String List Lia Bool.
From S2P Require Import Prelude GoBig Common Curve CtMul Field Vss Schnorr Bits OtExt BaseOt Ole Party Handler Json.
From S2P Require Import Dkls DklsSetup DklsKeygen DklsEcho.
Import ListNotations.
Open Scope string_scope.
Open Scope Z_scope.
Open Scope list_scope.

(** ** Wire types *)
Record keygenR1Bcast := { VSSCommitments : list bytes }.
Record keygenR1Unicast := {
  uc_Share : bytes; OTSenderSX : bytes; OTSenderSY : bytes; OTSenderPokAX : bytes; OTSenderPokAY : bytes; OTSenderPokT : bytes
}.
Record keygenR2 := { OTReceiverR : list bytes }.

Definition keygenTypeR1Bcast : string := "dkls:keygen:r1bc".
Definition keygenTypeR1Unicast : string := "dkls:keygen:r1uc".
Definition keygenTypeEcho : string := "dkls:keygen:echo".
Definition keygenTypeR2 : string := "dkls:keygen:r2".
Definition echoTagKeygen : string := "DKLS23-echo-keygen-v1".
Definition echoSourceKeygen : string := "dklstss-keygen".

(** What [encoding/json] does with the four types. *)
Class KeygenJson := {
  #[global] json_bcast :: Json keygenR1Bcast;
  #[global] json_unicast :: Json keygenR1Unicast;
  #[global] json_echo :: Json echoMsg;
  #[global] json_r2 :: Json keygenR2
}.

(** A message of the protocol. *)
Inductive KMsg `{KeygenJson} :=
| KBcast (m : JsonMessage keygenR1Bcast (Raw (T := keygenR1Bcast)))
| KUnicast (m : JsonMessage keygenR1Unicast (Raw (T := keygenR1Unicast)))
| KEcho (m : JsonMessage echoMsg (Raw (T := echoMsg)))
| KR2 (m : JsonMessage keygenR2 (Raw (T := keygenR2))).

(** ** The state *)
(** [Done] and [Err] hold what has been sent on the channel, once. *)
Record KeygenParty := {
  kg_params : Parameters; kg_ssid : bytes;
  kg_u_i : option Z; kg_vs : list (option ECPoint); kg_shares : list Share; kg_baseSnd : gmap string Sender;
  kg_peerVs : gmap string (list (option ECPoint)); kg_peerShares : gmap string Z;
  kg_baseRcv : gmap string Receiver; kg_myDelta : gmap string bytes;
  kg_r1JoinCount : Z; kg_r1Bcasts : list (option keygenR1Bcast); kg_r1Unicasts : list (option keygenR1Unicast);
  kg_r1OtherIds : list ref; kg_r1Echoes : list (option echoMsg);
  kg_Done : option Key; kg_Err : option GoErr
}.

Abbreviation Core := (Machine KeygenParty KMsg).

(** *** Assignments *)
Definition with_dealing (u : option Z) (vs : list (option ECPoint)) (shares : list Share) (k : KeygenParty) : KeygenParty :=
  {| kg_params := kg_params k; kg_ssid := kg_ssid k; kg_u_i := u; kg_vs := vs; kg_shares := shares;
     kg_baseSnd := kg_baseSnd k; kg_peerVs := kg_peerVs k; kg_peerShares := kg_peerShares k; kg_baseRcv := kg_baseRcv k;
     kg_myDelta := kg_myDelta k; kg_r1JoinCount := kg_r1JoinCount k; kg_r1Bcasts := kg_r1Bcasts k; kg_r1Unicasts := kg_r1Unicasts k;
     kg_r1OtherIds := kg_r1OtherIds k; kg_r1Echoes := kg_r1Echoes k; kg_Done := kg_Done k; kg_Err := kg_Err k |}.
Definition with_r1OtherIds (ids : list ref) (k : KeygenParty) : KeygenParty :=
  {| kg_params := kg_params k; kg_ssid := kg_ssid k; kg_u_i := kg_u_i k; kg_vs := kg_vs k; kg_shares := kg_shares k;
     kg_baseSnd := kg_baseSnd k; kg_peerVs := kg_peerVs k; kg_peerShares := kg_peerShares k; kg_baseRcv := kg_baseRcv k;
     kg_myDelta := kg_myDelta k; kg_r1JoinCount := kg_r1JoinCount k; kg_r1Bcasts := kg_r1Bcasts k; kg_r1Unicasts := kg_r1Unicasts k;
     kg_r1OtherIds := ids; kg_r1Echoes := kg_r1Echoes k; kg_Done := kg_Done k; kg_Err := kg_Err k |}.
Definition with_baseSnd (f : gmap string Sender -> gmap string Sender) (k : KeygenParty) : KeygenParty :=
  {| kg_params := kg_params k; kg_ssid := kg_ssid k; kg_u_i := kg_u_i k; kg_vs := kg_vs k; kg_shares := kg_shares k;
     kg_baseSnd := f (kg_baseSnd k); kg_peerVs := kg_peerVs k; kg_peerShares := kg_peerShares k; kg_baseRcv := kg_baseRcv k;
     kg_myDelta := kg_myDelta k; kg_r1JoinCount := kg_r1JoinCount k; kg_r1Bcasts := kg_r1Bcasts k; kg_r1Unicasts := kg_r1Unicasts k;
     kg_r1OtherIds := kg_r1OtherIds k; kg_r1Echoes := kg_r1Echoes k; kg_Done := kg_Done k; kg_Err := kg_Err k |}.
Definition with_join (f : list (option keygenR1Bcast) -> list (option keygenR1Bcast))
    (g : list (option keygenR1Unicast) -> list (option keygenR1Unicast)) (k : KeygenParty) : KeygenParty :=
  {| kg_params := kg_params k; kg_ssid := kg_ssid k; kg_u_i := kg_u_i k; kg_vs := kg_vs k; kg_shares := kg_shares k;
     kg_baseSnd := kg_baseSnd k; kg_peerVs := kg_peerVs k; kg_peerShares := kg_peerShares k; kg_baseRcv := kg_baseRcv k;
     kg_myDelta := kg_myDelta k; kg_r1JoinCount := kg_r1JoinCount k + 1; kg_r1Bcasts := f (kg_r1Bcasts k);
     kg_r1Unicasts := g (kg_r1Unicasts k); kg_r1OtherIds := kg_r1OtherIds k; kg_r1Echoes := kg_r1Echoes k;
     kg_Done := kg_Done k; kg_Err := kg_Err k |}.
Definition with_r1Echoes (msgs : list (option echoMsg)) (k : KeygenParty) : KeygenParty :=
  {| kg_params := kg_params k; kg_ssid := kg_ssid k; kg_u_i := kg_u_i k; kg_vs := kg_vs k; kg_shares := kg_shares k;
     kg_baseSnd := kg_baseSnd k; kg_peerVs := kg_peerVs k; kg_peerShares := kg_peerShares k; kg_baseRcv := kg_baseRcv k;
     kg_myDelta := kg_myDelta k; kg_r1JoinCount := kg_r1JoinCount k; kg_r1Bcasts := kg_r1Bcasts k; kg_r1Unicasts := kg_r1Unicasts k;
     kg_r1OtherIds := kg_r1OtherIds k; kg_r1Echoes := msgs; kg_Done := kg_Done k; kg_Err := kg_Err k |}.
Definition with_peer (key : string) (r : Receiver) (delta : bytes) (vsj : list (option ECPoint)) (sh : Z) (k : KeygenParty) : KeygenParty :=
  {| kg_params := kg_params k; kg_ssid := kg_ssid k; kg_u_i := kg_u_i k; kg_vs := kg_vs k; kg_shares := kg_shares k;
     kg_baseSnd := kg_baseSnd k; kg_peerVs := <[key := vsj]> (kg_peerVs k); kg_peerShares := <[key := sh]> (kg_peerShares k);
     kg_baseRcv := <[key := r]> (kg_baseRcv k); kg_myDelta := <[key := delta]> (kg_myDelta k);
     kg_r1JoinCount := kg_r1JoinCount k; kg_r1Bcasts := kg_r1Bcasts k; kg_r1Unicasts := kg_r1Unicasts k;
     kg_r1OtherIds := kg_r1OtherIds k; kg_r1Echoes := kg_r1Echoes k; kg_Done := kg_Done k; kg_Err := kg_Err k |}.
Definition with_baseRcv (f : gmap string Receiver -> gmap string Receiver) (k : KeygenParty) : KeygenParty :=
  {| kg_params := kg_params k; kg_ssid := kg_ssid k; kg_u_i := kg_u_i k; kg_vs := kg_vs k; kg_shares := kg_shares k;
     kg_baseSnd := kg_baseSnd k; kg_peerVs := kg_peerVs k; kg_peerShares := kg_peerShares k; kg_baseRcv := f (kg_baseRcv k);
     kg_myDelta := kg_myDelta k; kg_r1JoinCount := kg_r1JoinCount k; kg_r1Bcasts := kg_r1Bcasts k; kg_r1Unicasts := kg_r1Unicasts k;
     kg_r1OtherIds := kg_r1OtherIds k; kg_r1Echoes := kg_r1Echoes k; kg_Done := kg_Done k; kg_Err := kg_Err k |}.
Definition send_Done (key : Key) (k : KeygenParty) : KeygenParty :=
  {| kg_params := kg_params k; kg_ssid := kg_ssid k; kg_u_i := kg_u_i k; kg_vs := kg_vs k; kg_shares := kg_shares k;
     kg_baseSnd := kg_baseSnd k; kg_peerVs := kg_peerVs k; kg_peerShares := kg_peerShares k; kg_baseRcv := kg_baseRcv k;
     kg_myDelta := kg_myDelta k; kg_r1JoinCount := kg_r1JoinCount k; kg_r1Bcasts := kg_r1Bcasts k; kg_r1Unicasts := kg_r1Unicasts k;
     kg_r1OtherIds := kg_r1OtherIds k; kg_r1Echoes := kg_r1Echoes k; kg_Done := sendOnce (kg_Done k) key; kg_Err := kg_Err k |}.
Definition send_Err (e : GoErr) (k : KeygenParty) : KeygenParty :=
  {| kg_params := kg_params k; kg_ssid := kg_ssid k; kg_u_i := kg_u_i k; kg_vs := kg_vs k; kg_shares := kg_shares k;
     kg_baseSnd := kg_baseSnd k; kg_peerVs := kg_peerVs k; kg_peerShares := kg_peerShares k; kg_baseRcv := kg_baseRcv k;
     kg_myDelta := kg_myDelta k; kg_r1JoinCount := kg_r1JoinCount k; kg_r1Bcasts := kg_r1Bcasts k; kg_r1Unicasts := kg_r1Unicasts k;
     kg_r1OtherIds := kg_r1OtherIds k; kg_r1Echoes := kg_r1Echoes k; kg_Done := kg_Done k; kg_Err := sendOnce (kg_Err k) e |}.

(** A callback: its error goes to [Err]. *)
Definition run_handler `{KeygenJson} (c : hnd Core unit) (s : Core) : res Core := handle send_Err c s.

(** ** Helpers *)
Section Helpers.
Context `{SH : Sha256}.

(** [binary.BigEndian.PutUint32(uint32(x))] *)
Definition be_u32 (x : Z) : bytes := be_bytes 4 (x mod 2 ^ 32).

Definition keygenSession (h : Heap) (params : Parameters) : res bytes :=
  let! ids := Keys h (IDs (p_parties params)) in
  Ok (sha256 (str "DKLS23-keygen-party-v2-" ++ be_u32 (p_threshold params) ++ flat_map (fun k => Bytes k ++ [0]) ids)).

Definition otherPartyIDs (h : Heap) (params : Parameters) : res (list ref) :=
  foldM (fun out p =>
    let! k := KeyInt h p in let! me := KeyInt h (p_partyID params) in
    Ok (if Cmp k me =? 0 then out else out ++ [p])) [] (IDs (p_parties params)).

Definition pairBaseSid (ssid : bytes) (a b extSenderID : Z) : bytes :=
  sha256 (ssid ++ [124] ++ (if Cmp a b <=? 0 then Bytes a ++ [124] ++ Bytes b else Bytes b ++ [124] ++ Bytes a) ++ [124] ++ Bytes extSenderID).

Fixpoint findShareValue (shares : list Share) (id : Z) : res Z :=
  match shares with
  | [] => Err "no share for id %s"
  | s :: shares => if Cmp (ID s) id =? 0 then Ok (share s) else findShareValue shares id
  end.

Definition flattenPointXY (pts : list (option ECPoint)) : res (list bytes) :=
  foldM (fun out p =>
    match p with
    | None => Ok (out ++ [[]; []])
    | Some p => let! x := ECPoint_X p in let! y := ECPoint_Y p in Ok (out ++ [Bytes x; Bytes y])
    end) [] pts.

Definition unflattenPointXY (ec : Curve) (flat : list bytes) : res (list (option ECPoint)) :=
  guard (length flat mod 2 =? 0)%nat "flat point slice length %d not even" ;!
  foldM (fun out i =>
    let! fx := idx flat (2 * i) in
    let! fy := idx flat (2 * i + 1) in
    let! p := rewrap "point [%d] off-curve" (NewECPoint ec (Some (SetBytes fx)) (Some (SetBytes fy))) in
    Ok (out ++ [Some p])) [] (seq 0 (length flat / 2)).
End Helpers.

(** ** The rounds *)
Section Defs.
Context `{HS : Hash} `{SH : Sha256} `{AE : Aes} `{CS : Curves} `{SL : Secp256k1Lib} `{EL : Ed25519Lib} `{MR : MapRange}.
Context `{KJ : KeygenJson} `{BR : !Broker KMsg}.

(** The message to one peer: its share and the first move of the base transfers. *)
Definition unicast_of (shareForJ : Z) (sndMsg : SenderMsg1) : res keygenR1Unicast :=
  let! P := deref (smS sndMsg) in
  let! sx := ECPoint_X P in
  let! sy := ECPoint_Y P in
  let! pok := deref (smPoK sndMsg) in
  let! A := deref (Alpha pok) in
  let! ax := ECPoint_X A in
  let! ay := ECPoint_Y A in
  let! t := deref (T pok) in
  Ok {| uc_Share := Bytes shareForJ; OTSenderSX := Bytes sx; OTSenderSY := Bytes sy;
        OTSenderPokAX := Bytes ax; OTSenderPokAY := Bytes ay; OTSenderPokT := Bytes t |}.

Definition round1_peer (h : Heap) (Pj : ref) : hnd Core unit :=
  let^ s := hget in
  let Pi := p_partyID (kg_params (self s)) in
  let^ kj := hlift (KeyInt h Pj) in
  let^ shareForJ := hlift (rewrap "internal" (findShareValue (kg_shares (self s)) kj)) in
  let^ ki := hlift (KeyInt h Pi) in
  let sid := pairBaseSid (kg_ssid (self s)) ki kj kj in
  let^ (snd, sndMsg) := draw_rand (fun r => rewrap "baseot.NewSender for %s" (NewSender sid (Z.of_nat Kappa) r)) in
  let^ key := hlift (peerKeyStr h Pj) in
  upd (with_baseSnd (<[key := snd]>)) ;^
  let^ uc := hlift (unicast_of shareForJ sndMsg) in
  send "broker.Receive r1-uc" (KUnicast (JsonWrap keygenTypeR1Unicast (Some uc) (Some Pi) (Some Pj))).

Definition round1 (h : Heap) : hnd Core unit :=
  let^ s := hget in
  let P := kg_params (self s) in
  let Pi := p_partyID P in
  let ec := p_ec P in
  let threshold := p_threshold P in
  let^ ids := hlift (Keys h (IDs (p_parties P))) in
  let^ _ := hlift (rewrap "invalid party indexes" (CheckIndexes ec ids)) in
  let^ u_i := draw_partial (GetRandomPositiveInt (Some (cN ec))) in
  let^ (vs, shares) := draw_both (fun r y =>
    let! (c, r) := rewrap "vss.Create" (Create ec threshold u_i (Some ids) y r) in
    let '(vs, shares, y) := c in Ok ((vs, shares), r, y)) in
  upd (with_dealing u_i vs shares) ;^
  let^ encCommit := hlift (flattenPointXY vs) in
  let^ otherIds := hlift (otherPartyIDs h P) in
  upd (with_r1OtherIds otherIds) ;^
  send "broker.Receive r1-bcast" (KBcast (JsonWrap keygenTypeR1Bcast (Some {| VSSCommitments := encCommit |}) (Some Pi) None)) ;^
  hfor (round1_peer h) otherIds ;^
  connect keygenTypeR1Bcast otherIds ;^
  connect keygenTypeR1Unicast otherIds.

(** [NewKeygen]: the party, or the error; what was sent stays sent.  [ctx_nil] tells a
    nil context, [reg] is the curve registry. *)
Definition NewKeygen (h : Heap) (reg : CurveState) (ctx_nil : bool) (params : option Parameters) (partialKeyRand rand sys : reader)
  : res (option Core * option GoErr) :=
  if ctx_nil then Ok (None, Some (PlainErr "dklstss: NewKeygen nil context"))
  else match params with
  | None => Ok (None, Some (PlainErr "dklstss: NewKeygen nil params"))
  | Some params =>
    if negb (SameCurve (p_ec params) S256 reg) then Ok (None, Some (PlainErr "dklstss: NewKeygen requires secp256k1 curve"))
    else
      let! ssid := keygenSession h params in
      let kg0 := {| kg_params := params; kg_ssid := ssid; kg_u_i := None; kg_vs := []; kg_shares := []; kg_baseSnd := empty;
                    kg_peerVs := empty; kg_peerShares := empty; kg_baseRcv := empty; kg_myDelta := empty;
                    kg_r1JoinCount := 0; kg_r1Bcasts := []; kg_r1Unicasts := []; kg_r1OtherIds := []; kg_r1Echoes := [];
                    kg_Done := None; kg_Err := None |} in
      let! (s, r) := round1 h {| self := kg0; rPartial := partialKeyRand; rRand := rand; rSys := sys; sent := []; connected := [] |} in
      Ok (Some s, match r with inl _ => None | inr e => Some (PlainErr "dklstss: NewKeygen round1") end)
  end.

(** The digests of the received commitments, added to [m]. *)
Definition add_digests (h : Heap) (otherIds : list ref) (bcasts : list (option keygenR1Bcast)) (m : gmap string bytes) : res (gmap string bytes) :=
  foldM (fun m '(n, pid) =>
    let! k := peerKeyStr h pid in
    let! b := idx bcasts n in
    let! b := deref b in
    let! d := commitDigest h echoTagKeygen (Some pid) (VSSCommitments b) in
    Ok (<[k := d]> m)) m (enum otherIds).

Definition startEchoPhase (h : Heap) (ctx : option string) (otherIds : list ref) : hnd Core unit :=
  ctx_alive ctx ;^
  let^ s := hget in
  let^ digests := hlift (add_digests h otherIds (kg_r1Bcasts (self s)) empty) in
  let Pi := p_partyID (kg_params (self s)) in
  send "broker echo broadcast" (KEcho (JsonWrap keygenTypeEcho (Some {| Digests := Some digests |}) (Some Pi) None)) ;^
  connect keygenTypeEcho otherIds.

(** The second of the two callbacks of round 1 starts the echo. *)
Definition join (h : Heap) (ctx : option string) (otherIds : list ref) : hnd Core unit :=
  let^ s := hget in
  if kg_r1JoinCount (self s) =? 2 then startEchoPhase h ctx otherIds else hret tt.
Definition onR1Bcast (h : Heap) (ctx : option string) (otherIds : list ref) (msgs : list (option keygenR1Bcast)) : hnd Core unit :=
  upd (with_join (fun _ => msgs) (fun u => u)) ;^
  join h ctx otherIds.
Definition onR1Unicast (h : Heap) (ctx : option string) (otherIds : list ref) (msgs : list (option keygenR1Unicast)) : hnd Core unit :=
  upd (with_join (fun b => b) (fun _ => msgs)) ;^
  join h ctx otherIds.

Definition round2_peer (h : Heap) (np : nat * ref) : hnd Core unit :=
  let '(n, pid) := np in
  let^ s := hget in
  let P := kg_params (self s) in
  let Pi := p_partyID P in
  let ec := p_ec P in
  let q := cN ec in
  let threshold := p_threshold P in
  let^ bc := hlift (let! b := idx (kg_r1Bcasts (self s)) n in deref b) in
  let^ uc := hlift (idx (kg_r1Unicasts (self s)) n) in
  hguard (Z.of_nat (length (VSSCommitments bc)) =? 2 * (threshold + 1)) "party %s sent %d VSS-commitment coords, expected %d" ;^
  let^ vsj := hlift (rewrap "party %s VSS commitments decode" (unflattenPointXY ec (VSSCommitments bc))) in
  let^ uc := hlift (deref uc) in
  let shareInt := SetBytes (uc_Share uc) in
  hguard (negb ((Z.sgn shareInt <? 0) || (0 <=? Cmp shareInt q))) "party %s sent non-canonical share (>= q)" ;^
  let^ ki := hlift (KeyInt h Pi) in
  let^ ok := hlift (Share_Verify {| Threshold := threshold; ID := ki; share := shareInt |} ec threshold (Some vsj)) in
  hguard ok "party %s VSS share verification failed" ;^
  let^ Sj := hlift (rewrap "party %s OT Sender S invalid"
    (NewECPoint ec (Some (SetBytes (OTSenderSX uc))) (Some (SetBytes (OTSenderSY uc))))) in
  let^ alpha := hlift (rewrap "party %s OT Sender PoK alpha invalid"
    (NewECPoint ec (Some (SetBytes (OTSenderPokAX uc))) (Some (SetBytes (OTSenderPokAY uc))))) in
  let pok := {| Alpha := Some alpha; T := Some (SetBytes (OTSenderPokT uc)) |} in
  let^ kp := hlift (KeyInt h pid) in
  let sid := pairBaseSid (kg_ssid (self s)) kp ki ki in
  let sndMsg := {| smS := Some Sj; smPoK := Some pok |} in
  let^ delta := draw_rand (fun r => rewrap "randomness" (reader_Read DeltaBytes r)) in
  let^ (rcvr, rcvMsg) := draw_both (fun r y =>
    let! (rcvr, rcvMsg, r, y) := rewrap "party %s base-OT receiver setup" (NewReceiver sid (Z.of_nat Kappa) delta (Some sndMsg) r y) in
    Ok ((rcvr, rcvMsg), r, y)) in
  let^ key := hlift (peerKeyStr h pid) in
  upd (with_peer key rcvr delta vsj shareInt) ;^
  let^ R := hlift (flattenPointXY (rmR rcvMsg)) in
  send "broker.Receive r2" (KR2 (JsonWrap keygenTypeR2 (Some {| OTReceiverR := R |}) (Some Pi) (Some pid))).

Definition round2 (h : Heap) (ctx : option string) (otherIds : list ref) : hnd Core unit :=
  ctx_alive ctx ;^
  hfor (round2_peer h) (enum otherIds) ;^
  connect keygenTypeR2 otherIds.

(** [ctx] and [ctx'] are the context's state on entry and at the start of round 2. *)
Definition onEcho (h : Heap) (ctx ctx' : option string) (otherIds : list ref) (msgs : list (option echoMsg)) : hnd Core unit :=
  ctx_alive ctx ;^
  let^ s := hget in
  let Pi := p_partyID (kg_params (self s)) in
  let^ selfKey := hlift (peerKeyStr h Pi) in
  let^ flat := hlift (flattenPointXY (kg_vs (self s))) in
  let^ mine := hlift (commitDigest h echoTagKeygen (Some Pi) flat) in
  let^ myDigests := hlift (add_digests h otherIds (kg_r1Bcasts (self s)) {[selfKey := mine]}) in
  let^ err := hlift (verifyEchoes h myDigests selfKey otherIds msgs (Pi :: otherIds) echoSourceKeygen) in
  match err with
  | Some e => herr e
  | None => upd (with_r1Echoes msgs) ;^ round2 h ctx' otherIds
  end.

(** [l[i] = a] for an [int] index. *)
Definition set_idx {A} (l : list A) (i : Z) (a : A) : res (list A) :=
  if (i <? 0) || (Z.of_nat (length l) <=? i) then Panic "index out of range" else Ok (<[Z.to_nat i := a]> l).

(** The sum of the shares. *)
Definition sum_shares (h : Heap) (k : KeygenParty) (otherIds : list ref) : res Z :=
  let! me := load h (p_partyID (kg_params k)) in
  let! own := idxZ (kg_shares k) (Index me) in
  foldM (fun xi pid =>
    let! key := peerKeyStr h pid in
    let! s := deref (kg_peerShares k !! key) in
    Mod (xi + s) (cN (p_ec (kg_params k)))) (share own) otherIds.

(** The joint public key. *)
Definition sum_commitments (h : Heap) (k : KeygenParty) (otherIds : list ref) : res (option ECPoint) :=
  let! own := idx (kg_vs k) 0 in
  foldM (fun pub pid =>
    let! key := peerKeyStr h pid in
    let! v := idx (default [] (kg_peerVs k !! key)) 0 in
    let! pub := deref pub in
    let! v := deref v in
    let! pub := rewrap "aggregate pubkey" (ECPoint_Add pub v) in
    Ok (Some pub)) own otherIds.

(** Everyone's commitments, by index, and the public shares. *)
Definition all_commitments (h : Heap) (k : KeygenParty) : res (list (list (option ECPoint))) :=
  let parties := IDs (p_parties (kg_params k)) in
  foldM (fun allVss pid =>
    let! kp := KeyInt h pid in
    let! me := KeyInt h (p_partyID (kg_params k)) in
    let! p := load h pid in
    if Cmp kp me =? 0 then set_idx allVss (Index p) (kg_vs k)
    else let! key := peerKeyStr h pid in set_idx allVss (Index p) (default [] (kg_peerVs k !! key)))
    (repeat [] (length parties)) parties.
Definition public_shares (h : Heap) (ec : Curve) (parties : list ref) (allVss : list (list (option ECPoint))) : res (list (option ECPoint)) :=
  foldM (fun BigXj pid =>
    let! id := KeyInt h pid in
    let! Xj := rewrap "BigXj[%d]" (evaluateCommitmentSum ec allVss id) in
    let! p := load h pid in
    set_idx BigXj (Index p) Xj) (repeat None (length parties)) parties.

(** The message of [pj]: the loop over [otherIds] that stops at its key. *)
Fixpoint find_r2 (h : Heap) (kj : Z) (n : nat) (otherIds : list ref) (msgs : list (option keygenR2)) : res (option keygenR2) :=
  match otherIds with
  | [] => Ok None
  | pid :: otherIds =>
    let! k := KeyInt h pid in
    if Cmp k kj =? 0 then idx msgs n else find_r2 h kj (S n) otherIds msgs
  end.

(** The transfer state with one peer. *)
Definition finalize_peer (h : Heap) (otherIds : list ref) (msgs : list (option keygenR2)) (ot : list (option PairOTState)) (pj : ref)
  : hnd Core (list (option PairOTState)) :=
  let^ s := hget in
  let ec := p_ec (kg_params (self s)) in
  let^ peerk := hlift (peerKeyStr h pj) in
  let^ (chosen, rcv) := draw_sys (fun y =>
    let! (chosen, rcv, y) := rewrap "base-OT receiver finalize for %s" (Receiver_Finalize (kg_baseRcv (self s) !! peerk) y) in
    Ok ((chosen, rcv), y)) in
  upd (with_baseRcv (<[peerk := rcv]>)) ;^
  let^ extSender := hlift (rewrap "ExtSender for %s" (NewExtSenderFromBase (default [] (kg_myDelta (self s) !! peerk)) chosen)) in
  let^ kj := hlift (KeyInt h pj) in
  let^ r2 := hlift (find_r2 h kj 0 otherIds msgs) in
  match r2 with
  | None => herr (PlainErr "missing round-2 message from %s")
  | Some r2 =>
    let^ rPoints := hlift (rewrap "decode R from %s" (unflattenPointXY ec (OTReceiverR r2))) in
    let^ (k0, k1, snd) := draw_sys (fun y =>
      let! (k0, k1, snd, y) := rewrap "base-OT sender finalize for %s"
        (Sender_Finalize (kg_baseSnd (self s) !! peerk) (Some {| rmR := rPoints |}) y) in
      Ok ((k0, k1, snd), y)) in
    upd (with_baseSnd (<[peerk := snd]>)) ;^
    let^ extReceiver := hlift (rewrap "ExtReceiver for %s" (NewExtReceiverFromBase k0 k1)) in
    let^ p := hlift (load h pj) in
    hlift (set_idx ot (Index p) (Some {| AsAlice := Some extReceiver; AsBob := Some extSender |}))
  end.

Definition finalize (h : Heap) (ctx : option string) (otherIds : list ref) (msgs : list (option keygenR2)) : hnd Core unit :=
  ctx_alive ctx ;^
  let^ s := hget in
  let P := kg_params (self s) in
  let ec := p_ec P in
  let parties := IDs (p_parties P) in
  let n := length parties in
  let^ me := hlift (load h (p_partyID P)) in
  let^ xi := hlift (sum_shares h (self s) otherIds) in
  let^ pub := hlift (sum_commitments h (self s) otherIds) in
  let^ allVss := hlift (all_commitments h (self s)) in
  let^ BigXj := hlift (public_shares h ec parties allVss) in
  let^ ot := hfold (finalize_peer h otherIds msgs) (repeat None n) otherIds in
  let^ chainCode := hlift (let! pub := deref pub in deriveChainCode pub) in
  let key := {| kCurve := Some ec; kN := Z.of_nat n; kT := p_threshold P; kIdx := Index me; kPartyIDs := parties; kXi := Some xi;
                kBigXj := BigXj; kECDSAPub := pub; kOT := ot; kChainCode := chainCode |} in
  draw_sys (fun y => let! y := rewrap "finalize ValidateBasic" (Key_ValidateBasic (Some key) y) in Ok (tt, y)) ;^
  upd (send_Done key).
End Defs.
