(* ===== verification/DklsKeygenRun.v ===== *)
(** * One party's run of the brokered key generation of [dklstss]

    What the callbacks of [DklsKeygenParty] leave behind when they return without an
    error, for whatever messages they were given. *)
From stdpp Require Import base gmap list strings pretty.
From Stdlib Require Import ZArith String List Lia Bool.
From S2P Require Import Prelude GoBig Common Curve CtMul Field Vss Schnorr Bits OtExt OtExtCorrect BaseOt Ole Party Handler Json.
From S2P Require Import Dkls DklsSetup DklsSign DklsSignCorrect DklsKeygen DklsEcho DklsRoster DklsKeygenParty.
Import ListNotations.
Open Scope string_scope.
Open Scope Z_scope.
Open Scope list_scope.

(** ** Points on the wire *)
(** A point of the curve with coordinates that a byte string holds. *)
Definition plain (c : Curve) (p : option ECPoint) : Prop :=
  exists x y, p = Some {| curve := c; coords := (Some x, Some y) |} /\ 0 <= x /\ 0 <= y.

Lemma flatten_plain c pts : Forall (plain c) pts -> exists flat, flattenPointXY pts = Ok flat /\ length flat = (2 * length pts)%nat /\
  forall i p, nth_error pts i = Some p -> exists x y, p = Some {| curve := c; coords := (Some x, Some y) |} /\ 0 <= x /\ 0 <= y /\
    nth_error flat (2 * i) = Some (Bytes x) /\ nth_error flat (2 * i + 1) = Some (Bytes y).
Proof.
  intros F. unfold flattenPointXY.
  enough (G : forall flat0, exists flat, foldM (fun out p => match p with
      | None => Ok (out ++ [[]; []])
      | Some p => let! x := ECPoint_X p in let! y := ECPoint_Y p in Ok (out ++ [Bytes x; Bytes y]) end) flat0 pts = Ok (flat0 ++ flat) /\
      length flat = (2 * length pts)%nat /\
      forall i p, nth_error pts i = Some p -> exists x y, p = Some {| curve := c; coords := (Some x, Some y) |} /\ 0 <= x /\ 0 <= y /\
        nth_error flat (2 * i) = Some (Bytes x) /\ nth_error flat (2 * i + 1) = Some (Bytes y)).
  { destruct (G []) as (flat & E & K). exists flat. auto. }
  induction F as [|p pts (x & y & -> & Hx & Hy) F IH]; intros flat0; cbn [foldM].
  - exists []. rewrite app_nil_r. split; [reflexivity|]. split; [reflexivity|]. intros [|i] p E; discriminate E.
  - unfold ECPoint_X, ECPoint_Y. cbn [coords fst snd deref rbind].
    destruct (IH (flat0 ++ [Bytes x; Bytes y])) as (flat & E & Hl & K).
    exists (Bytes x :: Bytes y :: flat). split; [unfold ECPoint_X, ECPoint_Y in E; rewrite E, <- app_assoc; reflexivity|].
    split; [cbn [length]; rewrite Hl; lia|]. intros [|i] p Ep; cbn [nth_error] in Ep.
    + injection Ep as <-. exists x, y. auto.
    + destruct (K i p Ep) as (a & b & Ea & Ha & Hb & E1 & E2). exists a, b. split; [assumption|]. split; [assumption|]. split; [assumption|].
      replace (2 * S i)%nat with (S (S (2 * i))) by lia. replace (S (S (2 * i)) + 1)%nat with (S (S (2 * i + 1))) by lia.
      cbn [nth_error]. auto.
Qed.

Lemma unflatten_inv c flat pts : unflattenPointXY c flat = Ok pts ->
  length flat = (2 * length pts)%nat /\
  forall i p, nth_error pts i = Some p -> exists fx fy, nth_error flat (2 * i) = Some fx /\ nth_error flat (2 * i + 1) = Some fy /\
    p = Some {| curve := c; coords := (Some (SetBytes fx), Some (SetBytes fy)) |} /\ cIsOnCurve c (SetBytes fx) (SetBytes fy) = true.
Proof.
  intros H. unfold unflattenPointXY in H. apply rbind_ok in H as ([] & G & H). apply guard_ok, Nat.eqb_eq in G.
  set (m := (length flat / 2)%nat) in *. pose proof (Nat.div_mod_eq (length flat) 2) as Dm. fold m in Dm.
  set (at_i := fun i p => exists fx fy, nth_error flat (2 * i) = Some fx /\ nth_error flat (2 * i + 1) = Some fy /\
    p = Some {| curve := c; coords := (Some (SetBytes fx), Some (SetBytes fy)) |} /\ cIsOnCurve c (SetBytes fx) (SetBytes fy) = true).
  set (Q := fun (done : list nat) (out : list (option ECPoint)) => done = seq 0 (length done) ->
    length out = length done /\ forall i p, nth_error out i = Some p -> at_i i p).
  assert (K : Q ([] ++ seq 0 m) pts).
  { eapply (foldM_done Q); [| |exact H]; [|intros _; split; [reflexivity|intros [|i] p E; discriminate E]].
    intros done a out out' IH E Es. rewrite length_app in Es. cbn [length] in Es. rewrite Nat.add_1_r, seq_S in Es.
    apply app_inj_tail in Es as [Es Ea]. cbn in Ea. destruct (IH Es) as [Hl Ho].
    apply rbind_ok in E as (fx & Ex & E). apply rbind_ok in E as (fy & Ey & E). apply rbind_ok in E as (p0 & Ep & E).
    apply idx_ok in Ex, Ey. apply rewrap_ok in Ep. injection E as <-. unfold NewECPoint, isOnCurve in Ep.
    destruct (cIsOnCurve c (SetBytes fx) (SetBytes fy)) eqn:Eon; [|discriminate]. injection Ep as <-.
    split; [rewrite !length_app, Hl; reflexivity|]. intros i p Ei. destruct (Nat.lt_ge_cases i (length out)) as [Hi|Hi].
    - rewrite nth_error_app1 in Ei by assumption. auto.
    - rewrite nth_error_app2 in Ei by assumption. destruct (i - length out)%nat as [|k] eqn:Ek; [|destruct k; discriminate Ei].
      injection Ei as <-. assert (i = a) as -> by lia. exists fx, fy. auto. }
  destruct (K ltac:(cbn [app]; now rewrite length_seq)) as [Hl Hp]. cbn [app] in Hl. rewrite length_seq in Hl. split; [lia|exact Hp].
Qed.

(** What was flattened and decodes is what it was. *)
Lemma unflatten_flatten c pts flat pts' : Forall (plain c) pts -> flattenPointXY pts = Ok flat -> unflattenPointXY c flat = Ok pts' -> pts' = pts.
Proof.
  intros F E H. destruct (flatten_plain c pts F) as (flat' & E' & Hl & K). rewrite E in E'. injection E' as <-.
  apply unflatten_inv in H as [Hl' K']. apply nth_error_ext. intros i.
  destruct (nth_error pts' i) as [p'|] eqn:Ei'; destruct (nth_error pts i) as [p|] eqn:Ei.
  - destruct (K i p Ei) as (x & y & -> & Hx & Hy & E1 & E2). destruct (K' i p' Ei') as (fx & fy & F1 & F2 & -> & _).
    rewrite E1 in F1. rewrite E2 in F2. injection F1 as <-. injection F2 as <-. now rewrite !SetBytes_Bytes_pos.
  - apply nth_error_None in Ei. pose proof (proj1 (nth_error_Some pts' i) ltac:(congruence)). lia.
  - apply nth_error_None in Ei'. pose proof (proj1 (nth_error_Some pts i) ltac:(congruence)). lia.
  - reflexivity.
Qed.

Lemma otherPartyIDs_run h refs (CM : roster h refs) i P : nth_error refs i = Some (p_partyID P) -> IDs (p_parties P) = refs -> otherPartyIDs h P = Ok (others h refs i).
Proof.
  intros Ei Er. unfold otherPartyIDs, others. rewrite Er, (KeyInt_at h refs CM i _ Ei).
  enough (G : forall l out, Forall (valid_ref h) l ->
    foldM (fun out p => let! k := KeyInt h p in let! me := Ok (id_at h refs i) in Ok (if Cmp k me =? 0 then out else out ++ [p])) out l =
    Ok (out ++ List.filter (fun r => negb (Party.key_of h r =? id_at h refs i)) l)) by (apply (G refs []), (cm_valid _ _ CM)).
  induction l as [|r l IH]; intros out F; cbn [foldM List.filter]; [now rewrite app_nil_r|].
  apply Forall_cons_iff in F as [Vr F]. rewrite (KeyInt_valid h r Vr). cbn [rbind]. rewrite Cmp_eq.
  destruct (Party.key_of h r =? id_at h refs i); cbn [negb]; rewrite IH by assumption; [reflexivity|]. now rewrite <- app_assoc.
Qed.

(** ** Round 1 *)
Section Local.
Context `{HS : Hash} `{SH : Sha256} `{CS : Curves} `{SL : Secp256k1Lib} `{EL : Ed25519Lib} `{MR : MapRange}.
Context `{KJ : KeygenJson} `{BR : !Broker KMsg}.
Context {pt : Z -> Z * Z} {L : CurveLaws S256 pt false} {CT : CtCurve S256 pt false}.
Hypothesis Hne : curve_eqb S256 Edwards = false.
Abbreviation q := (cN S256).
Abbreviation pnt := (mkpt S256 pt).
Context {h : Heap} {refs : list ref} (CM : committee h refs) {T : Z}.

(** The parameters of the party at position [i]. *)
Record seat (i : nat) (P : Parameters) : Prop := {
  st_me : nth_error refs i = Some (p_partyID P);
  st_refs : IDs (p_parties P) = refs;
  st_ec : p_ec P = S256;
  st_T : p_threshold P = T
}.
Abbreviation id_at := (id_at h refs).
Abbreviation others := (others h refs).
Abbreviation ids := (map (Party.key_of h) refs).

(** What a party has from round 1 on. *)
Record dealing_of (P : Parameters) (ssid : bytes) (p : list Z) (k : KeygenParty) : Prop := {
  do_params : kg_params k = P;
  do_ssid : kg_ssid k = ssid;
  do_vs : kg_vs k = commit_to (pt := pt) p;
  do_shares : kg_shares k = shares_of (C := S256) T p ids
}.

(** The message to [pid], and the state of the transfer it opens. *)
Definition uc_for (i : nat) (P : Parameters) (ssid : bytes) (p : list Z) (k : KeygenParty) (pid : ref) (m : KMsg) : Prop :=
  exists v snd msg uc r r', Forall is_byte r /\ findShareValue (shares_of (C := S256) T p ids) (Party.key_of h pid) = Ok v /\
    NewSender (pairBaseSid ssid (id_at i) (Party.key_of h pid) (Party.key_of h pid)) (Z.of_nat Kappa) r = Ok ((snd, msg), r') /\
    unicast_of v msg = Ok uc /\ m = KUnicast (JsonWrap keygenTypeR1Unicast (Some uc) (Some (p_partyID P)) (Some pid)) /\
    kg_baseSnd k !! kstr h pid = Some snd.

Lemma commit_plain p : Forall (plain S256) (commit_to (pt := pt) p).
Proof.
  apply List.Forall_forall. intros x Hx. apply in_map_iff in Hx as (a & <- & _). exists (fst (pt a)), (snd (pt a)).
  split; [reflexivity|]. pose proof (cl_x (CurveLaws := L) a). pose proof (cl_y (CurveLaws := L) a). lia.
Qed.

Lemma round1_peer_run i P ssid p pid s s' : seat i P -> valid_ref h pid -> dealing_of P ssid p (self s) -> Forall is_byte (rRand s) ->
  round1_peer h pid s = Ok (s', inl tt) ->
  exists m snd, uc_for i P ssid p (self s') pid m /\ self s' = with_baseSnd (<[kstr h pid := snd]>) (self s) /\ sent s' = sent s ++ [m] /\
    connected s' = connected s /\ Forall is_byte (rRand s') /\ rSys s' = rSys s.
Proof.
  intros ST Vp DO Fr H. unfold round1_peer in H. inv_hnd. destruct DO as [Dp Ds Dv Dsh].
  rewrite Dp in *. rewrite (KeyInt_valid h pid Vp) in *. rewrite (KeyInt_at h refs CM i _ (st_me _ _ ST)) in *.
  rewrite (peerKeyStr_valid h pid Vp) in *.
  repeat match goal with E : Ok _ = Ok _ |- _ => injection E as <- end.
  match goal with E : rewrap _ (findShareValue _ _) = _ |- _ => apply rewrap_ok in E; rename E into Ef end.
  match goal with E : rewrap _ (NewSender _ _ _) = _ |- _ => apply rewrap_ok in E; rename E into En end.
  match goal with E : unicast_of _ _ = _ |- _ => rename E into Eu end.
  cbn [self rRand rSys sent connected with_self] in *. rewrite Ds, Dsh in *.
  eexists. eexists. split; [|split; [reflexivity|split; [reflexivity|split; [reflexivity|split; [|reflexivity]]]]].
  - do 6 eexists. split; [exact Fr|]. split; [exact Ef|]. split; [exact En|]. split; [exact Eu|]. split; [reflexivity|].
    cbn [self with_self with_baseSnd kg_baseSnd]. apply lookup_insert_eq.
  - apply (NewSender_run (L := L) (CT := CT)) in En as (_ & _ & _ & _ & _ & _ & F); assumption.
Qed.

(** The loop over the peers. *)
Record peers_served (i : nat) (P : Parameters) (ssid : bytes) (p : list Z) (s0 : Core) (done : list ref) (s : Core) : Prop := {
  ps_dealing : dealing_of P ssid p (self s);
  ps_kg : exists f, self s = with_baseSnd f (self s0);
  ps_sent : exists us, sent s = sent s0 ++ us /\ Forall2 (uc_for i P ssid p (self s)) done us;
  ps_conn : connected s = connected s0;
  ps_rand : Forall is_byte (rRand s);
  ps_sys : rSys s = rSys s0
}.

Lemma dealing_baseSnd P ssid p f k : dealing_of P ssid p k -> dealing_of P ssid p (with_baseSnd f k).
Proof. intros [D1 D2 D3 D4]. constructor; assumption. Qed.

Lemma uc_for_insert i P ssid p k pid pid' snd m : kstr h pid' <> kstr h pid -> uc_for i P ssid p k pid m ->
  uc_for i P ssid p (with_baseSnd (<[kstr h pid' := snd]>) k) pid m.
Proof.
  intros Hk (v & sd & msg & uc & r & r' & A1 & A2 & A3 & A4 & A5 & A6). exists v, sd, msg, uc, r, r'.
  repeat (split; [assumption|]). cbn [with_baseSnd kg_baseSnd]. now rewrite lookup_insert_ne.
Qed.

Lemma Forall2_impl_In {A B} (R R' : A -> B -> Prop) l1 l2 : (forall a b, In a l1 -> R a b -> R' a b) -> Forall2 R l1 l2 -> Forall2 R' l1 l2.
Proof. intros H F. induction F as [|a b l1 l2 Hab F IH]; constructor; [apply H; [now left|assumption]|]. apply IH. intros; apply H; [now right|assumption]. Qed.

Lemma round1_loop i P ssid p s0 s : seat i P -> dealing_of P ssid p (self s0) -> Forall is_byte (rRand s0) ->
  hfor (round1_peer h) (others i) s0 = Ok (s, inl tt) -> peers_served i P ssid p s0 (others i) s.
Proof.
  intros ST DO Fr H. pose proof (others_valid h refs CM i) as V. pose proof (nodup_kstr h _ (others_keys h refs CM i)) as N.
  set (Q := fun done s => Forall (valid_ref h) done -> List.NoDup (kstr h <$> done) -> peers_served i P ssid p s0 done s).
  assert (K : Q ([] ++ others i) s); [|exact (K V N)].
  refine (hfor_done Q (round1_peer h) (others i) _ [] s0 s _ H).
  - intros done pid s1 s2 IH E V' N'. apply Forall_app in V' as [V' Vp]. apply Forall_inv in Vp.
    rewrite fmap_app in N'. cbn [fmap list_fmap] in N'.
    assert (Nd : List.NoDup (kstr h <$> done)) by (apply List.NoDup_app_remove_r in N'; exact N').
    destruct (IH V' Nd) as [D1 (f & D2) (us & D3 & D4) D5 D6 D7].
    destruct (round1_peer_run i P ssid p pid s1 s2 ST Vp D1 D6 E) as (m & sd & U & E1 & E2 & E3 & E4 & E5).
    constructor; try congruence.
    + rewrite E1. now apply dealing_baseSnd.
    + exists (fun x => <[kstr h pid := sd]> (f x)). rewrite E1, D2. reflexivity.
    + exists (us ++ [m]). rewrite E2, D3, app_assoc. split; [reflexivity|]. apply Forall2_app; [|constructor; [exact U|constructor]].
      eapply Forall2_impl_In; [|exact D4]. intros a b Ha Hab. rewrite E1. apply uc_for_insert; [|exact Hab].
      apply List.NoDup_remove_2 in N'. rewrite app_nil_r in N'. intros Ek. apply N'. rewrite Ek. apply in_map_iff. eauto.
  - intros _ _. constructor; [exact DO|exists (fun x => x); now destruct (self s0)|exists []; rewrite app_nil_r; split; [reflexivity|constructor]|reflexivity|exact Fr|reflexivity].
Qed.

(** A party that has started. *)
Record started (i : nat) (P : Parameters) (ssid : bytes) (p : list Z) (flat : list bytes) (us : list KMsg) (s : Core) : Prop := {
  sd_dealing : dealing_of P ssid p (self s);
  sd_T : 1 <= T;
  sd_len : length p = S (Z.to_nat T);
  sd_distinct : distinct q ids;
  sd_flat : flattenPointXY (commit_to (pt := pt) p) = Ok flat;
  sd_sent : sent s = KBcast (JsonWrap keygenTypeR1Bcast (Some {| VSSCommitments := flat |}) (Some (p_partyID P)) None) :: us;
  sd_us : Forall2 (uc_for i P ssid p (self s)) (others i) us;
  sd_conn : connected s = [(keygenTypeR1Bcast, others i); (keygenTypeR1Unicast, others i)];
  sd_rand : Forall is_byte (rRand s);
  sd_sys : Forall is_byte (rSys s);
  sd_fresh : kg_r1JoinCount (self s) = 0 /\ kg_r1Bcasts (self s) = [] /\ kg_r1Unicasts (self s) = [] /\ kg_Done (self s) = None /\ kg_Err (self s) = None
}.

Lemma Keys_run : Keys h refs = Ok ids.
Proof. unfold Keys. apply mapM_ok. intros r Hr. apply KeyInt_valid. pose proof (cm_valid _ _ CM) as F. rewrite List.Forall_forall in F. auto. Qed.

Lemma round1_run i P ssid s0 s : seat i P -> kg_params (self s0) = P -> kg_ssid (self s0) = ssid ->
  Forall is_byte (rPartial s0) -> Forall is_byte (rRand s0) -> Forall is_byte (rSys s0) -> sent s0 = [] -> connected s0 = [] ->
  kg_r1JoinCount (self s0) = 0 /\ kg_r1Bcasts (self s0) = [] /\ kg_r1Unicasts (self s0) = [] /\ kg_Done (self s0) = None /\ kg_Err (self s0) = None ->
  round1 h s0 = Ok (s, inl tt) -> exists p flat us, started i P ssid p flat us s.
Proof.
  intros ST EP Es Fp Fr Fs E1 E2 Hf H. unfold round1 in H. apply hbind_ok in H as (s1 & a & E & H). injection E as <- <-.
  rewrite EP, (st_ec _ _ ST), (st_T _ _ ST), (st_refs _ _ ST), Keys_run in H.
  apply hbind_ok in H as (s1 & a & E & H). apply hlift_ok in E as [E ->]. injection E as <-.
  apply hbind_ok in H as (s1 & a & E & H). apply hlift_ok in E as [Ec ->]. apply rewrap_ok in Ec.
  assert (a = ids) as -> by (unfold CheckIndexes in Ec; apply rbind_ok in Ec as (? & _ & Ec); now injection Ec).
  apply (CheckIndexes_ok (L := L)) in Ec as [_ Dist].
  apply hbind_ok in H as (s1 & u & E & H). apply draw_partial_ok in E as (rp & Eu & ->).
  destruct (positive_draw (L := L) _ _ _ Fp Eu) as (u' & -> & Ru & F1).
  apply hbind_ok in H as (s1 & [vs shares] & E & H). apply draw_both_ok in E as (r1 & y1 & E & ->). cbn [rRand rSys] in E.
  apply rbind_ok in E as ([[[vs' sh'] y'] r'] & E & K). apply rewrap_ok in E. injection K as <- <- <- <-.
  destruct (Create_inv (L := L) (CT := CT) Hne T u' ids _ _ _ _ _ _ ltac:(lia) Fr Fs E) as (HT & cs & Lc & -> & -> & F2 & F3).
  apply hbind_ok in H as (s1 & [] & E' & H). injection E' as <-.
  apply hbind_ok in H as (s1 & flat & E' & H). apply hlift_ok in E' as [Ef ->].
  rewrite (otherPartyIDs_run h refs CM i P (st_me _ _ ST) (st_refs _ _ ST)) in H.
  apply hbind_ok in H as (s1 & a & E' & H). apply hlift_ok in E' as [E' ->]. injection E' as <-.
  apply hbind_ok in H as (s1 & [] & E' & H). injection E' as <-.
  apply hbind_ok in H as (s1 & [] & E' & H). apply send_ok in E'. subst s1.
  apply hbind_ok in H as (s2 & [] & E' & H).
  apply (round1_loop i P ssid (u' :: cs)) in E' as [D1 (f & D2) (us & D3 & D4) D5 D6 D7]; [|exact ST| |exact F3].
  2: { constructor; cbn [self with_self with_r1OtherIds with_dealing kg_params kg_ssid kg_vs kg_shares]; try reflexivity; assumption. }
  inv_hnd. cbn [self sent connected with_self rRand rSys] in *. exists (u' :: cs), flat, us.
  constructor; cbn [self sent connected with_self rRand rSys]; try assumption.
  - cbn [length]. now rewrite Lc.
  - rewrite D3, E1. reflexivity.
  - rewrite D5, E2. reflexivity.
  - rewrite D7. exact F2.
  - rewrite D2. exact Hf.
Qed.

Lemma start_run reg i P rp rr rs s : seat i P -> Forall is_byte rp -> Forall is_byte rr -> Forall is_byte rs ->
  NewKeygen h reg false (Some P) rp rr rs = Ok (Some s, None) ->
  exists ssid p flat us, keygenSession h P = Ok ssid /\ started i P ssid p flat us s.
Proof.
  intros ST Fp Fr Fs H. unfold NewKeygen in H. destruct (negb _); [discriminate|].
  apply rbind_ok in H as (ssid & Es & H). cbv zeta in H. apply rbind_ok in H as ([s1 r] & E & H). destruct r as [[]|]; [|discriminate].
  injection H as ->. exists ssid. eapply (round1_run i P ssid) in E as (p & flat & us & S); [exists p, flat, us; auto|..]; try assumption; try reflexivity.
  cbn. auto.
Qed.

(** ** The echo *)
(** The digest of a dealer's commitments. *)
Definition digest_of (pid : ref) (v : keygenR1Bcast) : bytes :=
  sha256 (commitInput echoTagKeygen (Bytes (Party.key_of h pid)) (VSSCommitments v)).

Lemma add_digests_run ps b m0 D : Forall (valid_ref h) ps -> List.NoDup (kstr h <$> ps) -> add_digests h ps b m0 = Ok D ->
  (forall n pid, nth_error ps n = Some pid -> exists v, nth_error b n = Some (Some v) /\ D !! kstr h pid = Some (digest_of pid v)) /\
  (forall k, ~ In k (kstr h <$> ps) -> D !! k = m0 !! k).
Proof.
  intros V N H. unfold add_digests in H.
  set (Q := fun (done : list (nat * ref)) (D : gmap string bytes) => Forall (valid_ref h) (map snd done) -> List.NoDup (kstr h <$> map snd done) ->
    (forall n pid, In (n, pid) done -> exists v, nth_error b n = Some (Some v) /\ D !! kstr h pid = Some (digest_of pid v)) /\
    (forall k, ~ In k (kstr h <$> map snd done) -> D !! k = m0 !! k)).
  assert (K : Q ([] ++ enum ps) D).
  { eapply (foldM_done Q); [| |exact H]; [|intros _ _; split; [intros n pid []|reflexivity]].
    intros done [n pid] D1 D2 IH E V' N'. rewrite map_app in V', N'. cbn [map snd] in V', N'.
    apply Forall_app in V' as [V' Vp]. apply Forall_inv in Vp. rewrite fmap_app in N'. cbn [fmap list_fmap] in N'.
    destruct (IH V' (List.NoDup_app_remove_r _ _ N')) as [I1 I2].
    rewrite (peerKeyStr_valid h pid Vp) in E. cbn [rbind] in E. apply rbind_ok in E as (b' & Eb & E). apply idx_ok in Eb.
    apply rbind_ok in E as (v & Ev & E). apply deref_ok in Ev. subst b'. unfold commitDigest in E. rewrite (KeyInt_valid h pid Vp) in E.
    cbn [rbind] in E. injection E as <-. apply List.NoDup_remove_2 in N'. rewrite app_nil_r in N'. rewrite map_app, fmap_app. cbn [map snd fmap list_fmap]. split.
    - intros n' pid' X. apply in_app_or in X as [X|[X|[]]].
      + destruct (I1 n' pid' X) as (v' & Ev' & Ed). exists v'. split; [assumption|]. rewrite lookup_insert_ne; [assumption|].
        intros Ek. apply N'. rewrite Ek. apply in_map_iff. exists pid'. split; [reflexivity|]. apply in_map_iff. now exists (n', pid').
      + injection X as <- <-. exists v. split; [assumption|]. apply lookup_insert_eq.
    - intros k Hk. rewrite lookup_insert_ne; [apply I2|]; intros X; apply Hk, in_or_app; [now left|right; now left]. }
  cbn [app] in K. unfold Q in K. rewrite enum_snd in K. destruct (K V N) as [K1 K2]. split; [|exact K2].
  intros n pid E. apply K1. now apply enum_In.
Qed.

(** The state in which both halves of round 1 have come. *)
Definition joined (b : list (option keygenR1Bcast)) (u : list (option keygenR1Unicast)) (s : Core) : Core :=
  with_self (with_join (fun _ => b) (fun u => u)) (with_self (with_join (fun b => b) (fun _ => u)) s).

Lemma dealing_join P ssid p f g k : dealing_of P ssid p k -> dealing_of P ssid p (with_join f g k).
Proof. intros [D1 D2 D3 D4]. constructor; assumption. Qed.

(** The first half only stores; the second starts the echo. *)
Lemma onR1Bcast_first ctx ids b s : kg_r1JoinCount (self s) = 0 ->
  onR1Bcast h ctx ids b s = Ok (with_self (with_join (fun _ => b) (fun u => u)) s, inl tt).
Proof.
  intros E. unfold onR1Bcast, join, hbind, upd, hmod, hget. cbn [rbind self with_self with_join kg_r1JoinCount]. now rewrite E.
Qed.
Lemma onR1Unicast_first ctx ids u s : kg_r1JoinCount (self s) = 0 ->
  onR1Unicast h ctx ids u s = Ok (with_self (with_join (fun b => b) (fun _ => u)) s, inl tt).
Proof.
  intros E. unfold onR1Unicast, join, hbind, upd, hmod, hget. cbn [rbind self with_self with_join kg_r1JoinCount]. now rewrite E.
Qed.
Lemma onR1Bcast_second ctx ids b u s : kg_r1JoinCount (self s) = 0 ->
  onR1Bcast h ctx ids b (with_self (with_join (fun b => b) (fun _ => u)) s) = startEchoPhase h ctx ids (joined b u s).
Proof.
  intros E. unfold onR1Bcast, join, hbind, upd, hmod, hget. cbn [rbind self with_self with_join kg_r1JoinCount]. now rewrite E.
Qed.
Lemma onR1Unicast_second ctx ids b u s : kg_r1JoinCount (self s) = 0 ->
  onR1Unicast h ctx ids u (with_self (with_join (fun _ => b) (fun u => u)) s) = startEchoPhase h ctx ids (joined b u s).
Proof.
  intros E. unfold onR1Unicast, join, hbind, upd, hmod, hget. cbn [rbind self with_self with_join kg_r1JoinCount]. now rewrite E.
Qed.

(** A party that has sent its echo. *)
Record echoed (i : nat) (P : Parameters) (b : list (option keygenR1Bcast)) (u : list (option keygenR1Unicast)) (s1 s : Core) : Prop := {
  ec_kg : self s = self (joined b u s1);
  ec_digests : exists D, add_digests h (others i) b empty = Ok D /\
    sent s = sent s1 ++ [KEcho (JsonWrap keygenTypeEcho (Some {| Digests := Some D |}) (Some (p_partyID P)) None)];
  ec_conn : connected s = connected s1 ++ [(keygenTypeEcho, others i)];
  ec_rand : rRand s = rRand s1;
  ec_sys : rSys s = rSys s1
}.

Lemma startEcho_run i P ctx b u s1 s : kg_params (self s1) = P -> startEchoPhase h ctx (others i) (joined b u s1) = Ok (s, inl tt) -> echoed i P b u s1 s.
Proof.
  intros EP H. unfold startEchoPhase in H. inv_hnd. cbn [self sent connected with_self joined with_join kg_params kg_r1Bcasts] in *.
  constructor; cbn [self sent connected rRand rSys with_self joined]; try reflexivity. eexists. split; [eassumption|reflexivity].
Qed.

(** ** Round 2 *)
Lemma reader_Read_run n (r : reader) d r' : Forall is_byte r -> reader_Read n r = Ok (d, r') -> length d = n /\ Forall is_byte d /\ Forall is_byte r'.
Proof.
  intros F H. assert (E : (d, r') = (firstn n r ++ repeat 0 (n - length r), skipn n r)) by (destruct r; [discriminate|unfold reader_Read in H; congruence]).
  injection E as -> ->. set (l := r) in *. split; [rewrite length_app, length_firstn, repeat_length; lia|]. destruct (Forall_split_at is_byte n l F) as [F1 F2]. split; [|assumption].
  apply Forall_app. split; [assumption|]. apply List.Forall_forall. intros y Hy. apply repeat_spec in Hy as ->. unfold is_byte. lia.
Qed.

(** A receiver's first move keeps the readers' bytes, whatever the sender's message. *)
Lemma NewReceiver_byte sid n bits msg (rand sys : reader) r rm rand' sys' : Forall is_byte rand -> Forall is_byte sys ->
  NewReceiver sid n bits msg rand sys = Ok (r, rm, rand', sys') -> Forall is_byte rand' /\ Forall is_byte sys'.
Proof.
  intros Fr Fs H. unfold NewReceiver in H. apply rbind_ok in H as ([] & _ & H). apply rbind_ok in H as ([] & _ & H).
  destruct msg as [[[SG|] [pok|]]|]; try discriminate. apply rbind_ok in H as ([] & _ & H). apply rbind_ok in H as ([] & _ & H).
  apply rbind_ok in H as (ok & _ & H). apply rbind_ok in H as ([] & _ & H). apply rbind_ok in H as ([[[xs Rs] rd] sy] & E & H).
  injection H as _ _ <- <-.
  apply (foldM_done (fun _ st => Forall is_byte (snd (fst st)) /\ Forall is_byte (snd st))) with (done := []) in E; [exact E| |cbn; auto].
  intros done i [[[xs0 Rs0] rd0] sy0] st' [F1 F2] Er. cbn [fst snd] in F1, F2. unfold recv_row in Er.
  apply rbind_ok in Er as ([x rd1] & Ex & Er). destruct (positive_draw (L := L) _ _ _ F1 Ex) as (x' & -> & Rx & F3).
  apply rbind_ok in Er as (bt & _ & Er). cbv zeta in Er. apply rbind_ok in Er as ([Ra sy1] & Em & Er).
  apply ct_base in Em as [-> F4]; [|lia|assumption]. cbn [deref rbind] in Er. apply rbind_ok in Er as (Rb & _ & Er).
  apply rbind_ok in Er as (R & _ & Er). injection Er as <-. cbn [fst snd]. auto.
Qed.

(** What a party has from one peer, and the message it sent back. *)
Definition r2_for (i : nat) (P : Parameters) (ssid : bytes) (b : list (option keygenR1Bcast)) (u : list (option keygenR1Unicast)) (k : KeygenParty)
    (np : nat * ref) (m : KMsg) : Prop :=
  let '(n, pid) := np in
  exists bc uc vsj Sj al delta rcvr rm r y r' y' R,
    nth_error b n = Some (Some bc) /\ nth_error u n = Some (Some uc) /\ length (VSSCommitments bc) = Z.to_nat (2 * (T + 1)) /\
    unflattenPointXY S256 (VSSCommitments bc) = Ok vsj /\ 0 <= SetBytes (uc_Share uc) < q /\
    Share_Verify {| Threshold := T; ID := id_at i; share := SetBytes (uc_Share uc) |} S256 T (Some vsj) = Ok true /\
    NewECPoint S256 (Some (SetBytes (OTSenderSX uc))) (Some (SetBytes (OTSenderSY uc))) = Ok Sj /\
    NewECPoint S256 (Some (SetBytes (OTSenderPokAX uc))) (Some (SetBytes (OTSenderPokAY uc))) = Ok al /\
    length delta = DeltaBytes /\ Forall is_byte delta /\ Forall is_byte r /\ Forall is_byte y /\
    NewReceiver (pairBaseSid ssid (Party.key_of h pid) (id_at i) (id_at i)) (Z.of_nat Kappa) delta
      (Some {| smS := Some Sj; smPoK := Some {| Alpha := Some al; Schnorr.T := Some (SetBytes (OTSenderPokT uc)) |} |}) r y = Ok (rcvr, rm, r', y') /\
    flattenPointXY (rmR rm) = Ok R /\ m = KR2 (JsonWrap keygenTypeR2 (Some {| OTReceiverR := R |}) (Some (p_partyID P)) (Some pid)) /\
    kg_baseRcv k !! kstr h pid = Some rcvr /\ kg_myDelta k !! kstr h pid = Some delta /\ kg_peerVs k !! kstr h pid = Some vsj /\
    kg_peerShares k !! kstr h pid = Some (SetBytes (uc_Share uc)).

(** The fields that round 2 does not write. *)
Record same_but_peers (k k' : KeygenParty) : Prop := {
  sp_params : kg_params k' = kg_params k; sp_ssid : kg_ssid k' = kg_ssid k; sp_vs : kg_vs k' = kg_vs k; sp_shares : kg_shares k' = kg_shares k;
  sp_snd : kg_baseSnd k' = kg_baseSnd k; sp_b : kg_r1Bcasts k' = kg_r1Bcasts k; sp_u : kg_r1Unicasts k' = kg_r1Unicasts k;
  sp_done : kg_Done k' = kg_Done k; sp_err : kg_Err k' = kg_Err k
}.

Lemma round2_peer_run i P ssid n pid s s' : seat i P -> valid_ref h pid -> kg_params (self s) = P -> kg_ssid (self s) = ssid ->
  Forall is_byte (rRand s) -> Forall is_byte (rSys s) -> 1 <= T -> round2_peer h (n, pid) s = Ok (s', inl tt) ->
  exists m rcvr delta vsj sh, r2_for i P ssid (kg_r1Bcasts (self s)) (kg_r1Unicasts (self s)) (self s') (n, pid) m /\
    self s' = with_peer (kstr h pid) rcvr delta vsj sh (self s) /\ sent s' = sent s ++ [m] /\ connected s' = connected s /\
    Forall is_byte (rRand s') /\ Forall is_byte (rSys s').
Proof.
  intros ST Vp EP Es Fr Fs HT H. unfold round2_peer in H. apply hbind_ok in H as (s1 & a & E & H). injection E as <- <-.
  rewrite EP, Es, (st_ec _ _ ST), (st_T _ _ ST), (KeyInt_valid h pid Vp), (KeyInt_at h refs CM i _ (st_me _ _ ST)), (peerKeyStr_valid h pid Vp) in H.
  apply hbind_ok in H as (s1 & bc & E & H). apply hlift_ok in E as [E ->]. apply rbind_ok in E as (b' & Eb & E). apply idx_ok in Eb. apply deref_ok in E. subst b'.
  apply hbind_ok in H as (s1 & uo & E & H). apply hlift_ok in E as [Eu ->]. apply idx_ok in Eu.
  apply hbind_ok in H as (s1 & [] & E & H). apply hguard_ok in E as [E ->]. apply Z.eqb_eq in E.
  apply hbind_ok in H as (s1 & vsj & Ev & H). apply hlift_ok in Ev as [Ev ->]. apply rewrap_ok in Ev.
  apply hbind_ok in H as (s1 & uc & Ed & H). apply hlift_ok in Ed as [Ed ->]. apply deref_ok in Ed. subst uo.
  apply hbind_ok in H as (s1 & [] & Ec & H). apply hguard_ok in Ec as [Ec ->]. apply negb_true_iff, orb_false_iff in Ec as [Ec1 Ec2].
  apply Z.ltb_ge in Ec1. rewrite Cmp_ge in Ec2. apply Z.leb_gt in Ec2. apply Z.sgn_nonneg in Ec1.
  apply hbind_ok in H as (s1 & ki & Ek & H). apply hlift_ok in Ek as [Ek ->]. injection Ek as <-.
  apply hbind_ok in H as (s1 & ok & Ey & H). apply hlift_ok in Ey as [Ey ->].
  apply hbind_ok in H as (s1 & [] & Eo & H). apply hguard_ok in Eo as [Eo ->]. subst ok.
  apply hbind_ok in H as (s1 & Sj & ES & H). apply hlift_ok in ES as [ES ->]. apply rewrap_ok in ES.
  apply hbind_ok in H as (s1 & al & EA & H). apply hlift_ok in EA as [EA ->]. apply rewrap_ok in EA.
  apply hbind_ok in H as (s1 & kp & Ek & H). apply hlift_ok in Ek as [Ek ->]. injection Ek as <-.
  apply hbind_ok in H as (s1 & delta & ER & H). apply draw_rand_ok in ER as (r1 & ER & ->). apply rewrap_ok in ER.
  destruct (reader_Read_run _ _ _ _ Fr ER) as (Ld & Fd & F1).
  apply hbind_ok in H as (s1 & [rcvr rm] & EN & H). apply draw_both_ok in EN as (r2 & y2 & EN & ->). cbn [rRand rSys] in EN.
  apply rbind_ok in EN as ([[[rcvr' rm'] r2'] y2'] & EN & K). apply rewrap_ok in EN. injection K as <- <- <- <-.
  destruct (NewReceiver_byte _ _ _ _ _ _ _ _ _ _ F1 Fs EN) as [F2 F3].
  apply hbind_ok in H as (s1 & key & Ek & H). apply hlift_ok in Ek as [Ek ->]. injection Ek as <-.
  apply hbind_ok in H as (s1 & [] & E' & H). injection E' as <-.
  apply hbind_ok in H as (s1 & R & Ef & H). apply hlift_ok in Ef as [Ef ->]. apply send_ok in H. subst s'.
  do 5 eexists. split; [|split; [reflexivity|split; [reflexivity|split; [reflexivity|split; [exact F2|exact F3]]]]].
  exists bc, uc, vsj, Sj, al, delta, rcvr', rm', r1, (rSys s), r2', y2', R. cbn [self with_self with_peer kg_baseRcv kg_myDelta kg_peerVs kg_peerShares].
  rewrite !lookup_insert_eq. repeat (split; [first [assumption|lia|reflexivity]|]). auto.
Qed.

(** A party that has answered the peers done. *)
Record peers_met (i : nat) (P : Parameters) (ssid : bytes) (s0 : Core) (done : list (nat * ref)) (s : Core) : Prop := {
  pm_same : same_but_peers (self s0) (self s);
  pm_sent : exists ms, sent s = sent s0 ++ ms /\
    Forall2 (r2_for i P ssid (kg_r1Bcasts (self s0)) (kg_r1Unicasts (self s0)) (self s)) done ms;
  pm_conn : connected s = connected s0;
  pm_rand : Forall is_byte (rRand s);
  pm_sys : Forall is_byte (rSys s)
}.

Lemma r2_for_insert i P ssid b u k np m key rcvr delta vsj sh : key <> kstr h (snd np) -> r2_for i P ssid b u k np m ->
  r2_for i P ssid b u (with_peer key rcvr delta vsj sh k) np m.
Proof.
  destruct np as [n pid]. cbn [snd]. intros Hk (bc & uc & vj & Sj & al & dl & rc & rm & r & y & r' & y' & R & H).
  exists bc, uc, vj, Sj, al, dl, rc, rm, r, y, r', y', R. cbn [with_peer kg_baseRcv kg_myDelta kg_peerVs kg_peerShares].
  now rewrite !lookup_insert_ne by assumption.
Qed.

Lemma round2_loop i P ssid s0 s : seat i P -> kg_params (self s0) = P -> kg_ssid (self s0) = ssid -> Forall is_byte (rRand s0) -> Forall is_byte (rSys s0) ->
  1 <= T -> hfor (round2_peer h) (enum (others i)) s0 = Ok (s, inl tt) -> peers_met i P ssid s0 (enum (others i)) s.
Proof.
  intros ST EP Es Fr Fs HT H. pose proof (others_valid h refs CM i) as V. pose proof (nodup_kstr h _ (others_keys h refs CM i)) as N.
  rewrite <- (enum_snd (others i)) in V, N.
  set (Q := fun (done : list (nat * ref)) s => Forall (valid_ref h) (map snd done) -> List.NoDup (kstr h <$> map snd done) -> peers_met i P ssid s0 done s).
  assert (K : Q ([] ++ enum (others i)) s); [|exact (K V N)].
  refine (hfor_done Q (round2_peer h) (enum (others i)) _ [] s0 s _ H).
  - intros done [n pid] s1 s2 IH E V' N'. rewrite map_app in V', N'. cbn [map snd] in V', N'.
    apply Forall_app in V' as [V' Vp]. apply Forall_inv in Vp. rewrite fmap_app in N'. cbn [fmap list_fmap] in N'.
    destruct (IH V' (List.NoDup_app_remove_r _ _ N')) as [[S1 S2 S3 S4 S5 S6 S7 S8 S9] (ms & D3 & D4) D5 D6 D7].
    destruct (round2_peer_run i P ssid n pid s1 s2 ST Vp (eq_trans S1 EP) (eq_trans S2 Es) D6 D7 HT E)
      as (m & rc & dl & vj & sh & R & E1 & E2 & E3 & F1 & F2).
    rewrite S6, S7 in R. constructor; [|exists (ms ++ [m])|congruence|assumption|assumption].
    + rewrite E1. constructor; assumption.
    + rewrite E2, D3, app_assoc. split; [reflexivity|]. apply Forall2_app; [|constructor; [exact R|constructor]].
      eapply Forall2_impl_In; [|exact D4]. intros a c Ha Hac. rewrite E1. apply r2_for_insert; [|exact Hac].
      apply List.NoDup_remove_2 in N'. rewrite app_nil_r in N'. intros Ek. apply N'. rewrite Ek. apply in_map_iff. exists (snd a).
      split; [reflexivity|]. now apply in_map.
  - intros _ _. constructor; [constructor; reflexivity|exists []; rewrite app_nil_r; split; [reflexivity|constructor]|reflexivity|exact Fr|exact Fs].
Qed.

(** The own digest and the received ones. *)
Definition my_view (i : nat) (P : Parameters) (flat : list bytes) (b : list (option keygenR1Bcast)) : res (gmap string bytes) :=
  add_digests h (others i) b {[kstr h (p_partyID P) := digest_of (p_partyID P) {| VSSCommitments := flat |}]}.

(** A party that has accepted the echoes and answered. *)
Record answered (i : nat) (P : Parameters) (ssid : bytes) (e : list (option echoMsg)) (s0 s : Core) : Prop := {
  an_view : exists flat my, flattenPointXY (kg_vs (self s0)) = Ok flat /\ my_view i P flat (kg_r1Bcasts (self s0)) = Ok my /\
    forall n pid, nth_error (others i) n = Some pid -> nth_error e n = Some (echo_of (kstr h pid) my);
  an_same : same_but_peers (self s0) (self s);
  an_sent : exists ms, sent s = sent s0 ++ ms /\
    Forall2 (r2_for i P ssid (kg_r1Bcasts (self s0)) (kg_r1Unicasts (self s0)) (self s)) (enum (others i)) ms;
  an_conn : connected s = connected s0 ++ [(keygenTypeR2, others i)];
  an_rand : Forall is_byte (rRand s);
  an_sys : Forall is_byte (rSys s)
}.

Lemma others_me i P : seat i P -> ~ In (kstr h (p_partyID P)) (kstr h <$> others i).
Proof.
  intros ST X. apply in_map_iff in X as (r & Ek & Hr). apply kstr_inj in Ek. apply filter_In in Hr as [_ Hk].
  rewrite <- (at_key h refs i _ (st_me _ _ ST)), Ek, Z.eqb_refl in Hk. discriminate.
Qed.

(** The view has a digest for everyone. *)
Lemma my_view_dom {ML : MapRangeLaws} i P flat b my : seat i P -> my_view i P flat b = Ok my ->
  Forall (valid_ref h) (p_partyID P :: others i) /\ List.NoDup (kstr h <$> p_partyID P :: others i) /\
  forall k, is_Some (my !! k) <-> k ∈ kstr h <$> p_partyID P :: others i.
Proof.
  intros ST H. pose proof (others_valid h refs CM i) as V. pose proof (nodup_kstr h _ (others_keys h refs CM i)) as N.
  pose proof (others_me i P ST) as Nm. unfold my_view in H. destruct (add_digests_run _ _ _ _ V N H) as [A1 A2].
  split; [constructor; [exact (at_valid h refs CM i _ (st_me _ _ ST))|exact V]|]. split; [cbn; constructor; assumption|]. intros k. rewrite fmap_cons, elem_of_cons. split.
  - intros [d Ed]. destruct (in_dec string_dec k (kstr h <$> others i)) as [Hk|Hk]; [right; now apply list_elem_of_In|left].
    rewrite (A2 k Hk) in Ed. now apply lookup_singleton_Some in Ed as [-> _].
  - intros [->|Hk].
    + rewrite (A2 _ Nm), lookup_singleton_eq. eauto.
    + apply list_elem_of_fmap in Hk as (pid & -> & Hp). apply list_elem_of_In, In_nth_error in Hp as (n & En).
      destruct (A1 n pid En) as (v & _ & ->). eauto.
Qed.

Lemma onEcho_run {ML : MapRangeLaws} i P ssid ctx ctx' e s0 s : seat i P -> kg_params (self s0) = P -> kg_ssid (self s0) = ssid ->
  Forall is_byte (rRand s0) -> Forall is_byte (rSys s0) -> 1 <= T ->
  onEcho h ctx ctx' (others i) e s0 = Ok (s, inl tt) -> answered i P ssid e s0 s.
Proof.
  intros ST EP Es Fr Fs HT H. unfold onEcho in H. apply hbind_ok in H as (s1 & [] & E & H). apply ctx_alive_ok in E as [_ ->].
  apply hbind_ok in H as (s1 & a & E & H). injection E as <- <-. rewrite EP in H.
  pose proof (at_valid h refs CM i _ (st_me _ _ ST)) as Vi. rewrite (peerKeyStr_valid h _ Vi) in H.
  apply hbind_ok in H as (s1 & k & E & H). apply hlift_ok in E as [E ->]. injection E as <-.
  apply hbind_ok in H as (s1 & flat & E & H). apply hlift_ok in E as [Ef ->].
  apply hbind_ok in H as (s1 & mine & E & H). apply hlift_ok in E as [E ->]. unfold commitDigest in E. rewrite (KeyInt_valid h _ Vi) in E.
  cbn [rbind] in E. injection E as <-.
  apply hbind_ok in H as (s1 & my & E & H). apply hlift_ok in E as [Em ->].
  change (my_view i P flat (kg_r1Bcasts (self s0)) = Ok my) in Em. destruct (my_view_dom i P flat _ my ST Em) as (Va & Na & Da).
  apply hbind_ok in H as (s1 & err & E & H). apply hlift_ok in E as [Ev ->]. destruct err as [err|]; [discriminate|].
  pose proof (proj1 (verifyEchoes_none Va Na Da _ _ _ _ (others_valid h refs CM i)) Ev) as Hv.
  apply hbind_ok in H as (s1 & [] & E & H). injection E as <-. unfold round2 in H.
  apply hbind_ok in H as (s1 & [] & E & H). apply ctx_alive_ok in E as [_ ->].
  apply hbind_ok in H as (s2 & [] & E & H). injection H as <-.
  apply (round2_loop i P ssid) in E as [[S1 S2 S3 S4 S5 S6 S7 S8 S9] D2 D3 D4 D5]; try assumption.
  constructor; cbn [self sent connected rRand rSys with_self with_r1Echoes kg_params kg_ssid kg_vs kg_shares kg_baseSnd kg_r1Bcasts kg_r1Unicasts kg_Done kg_Err] in *;
    try assumption; [exists flat, my; auto|constructor; assumption|now rewrite D3].
Qed.

(** ** Readers *)
(** A computation that leaves bytes of a reader of bytes. *)
Definition keeps_bytes {A} (c : rnd A) : Prop := forall r a r', Forall is_byte r -> c r = Ok (a, r') -> Forall is_byte r'.

Lemma kb_ret {A} (a : A) : keeps_bytes (rret a).
Proof. intros r b r' F H. injection H as _ <-. exact F. Qed.
Lemma kb_lift {A} (c : res A) : keeps_bytes (rlift c).
Proof. intros r b r' F H. apply rlift_ok in H as [_ ->]. exact F. Qed.
Lemma kb_bind {A B} (c : rnd A) (k : A -> rnd B) : keeps_bytes c -> (forall a, keeps_bytes (k a)) -> keeps_bytes (rnd_bind c k).
Proof. intros Hc Hk r b r' F H. apply rnd_bind_ok in H as (a & r1 & E & H). eapply Hk; [|exact H]. eapply Hc; eassumption. Qed.
Lemma kb_read n : keeps_bytes (ReadFull n).
Proof. intros r b r' F H. now apply ReadFull_byte in H as (_ & _ & F'). Qed.

Lemma kb_ScalarMult P k : keeps_bytes (ScalarMult P k).
Proof.
  unfold ScalarMult, ScalarMultWithRand. destruct P as [P|]; [|apply kb_ret]. destruct k as [k|]; [|apply kb_ret].
  destruct (negb _); [apply kb_bind; [apply kb_lift|intros; apply kb_ret]|].
  assert (K : keeps_bytes (ctScalarMultSecp256k1 P k)).
  { unfold ctScalarMultSecp256k1. apply kb_bind; [apply kb_lift|]. intros [J|]; [|apply kb_lift]. apply kb_bind.
    - unfold randomizeZ. generalize 16%nat. induction n as [|n IH]; cbn [randomizeZ_tries]; [apply kb_lift|].
      apply kb_bind; [apply kb_read|]. intros a. destruct (fv_IsZero _); [exact IH|apply kb_ret].
    - intros J'. apply kb_bind; [apply kb_lift|]. intros m. apply kb_bind; [apply kb_read|]. intros bl. cbv zeta.
      destruct (ladder _ _ _) as [r0 r1]. destruct (fv_IsZero _); apply kb_ret. }
  intros r a r' F H. destruct (ctScalarMultSecp256k1 P k r) as [[Q r1]| |] eqn:E; try discriminate. injection H as _ <-. exact (K _ _ _ F E).
Qed.

Lemma Receiver_Finalize_byte r (sys : reader) keys r' sys' : Forall is_byte sys -> Receiver_Finalize r sys = Ok (keys, r', sys') -> Forall is_byte sys'.
Proof.
  intros F H. destruct r as [r|]; [|discriminate]. cbn [Receiver_Finalize] in H. destruct (r_x r) as [xs|]; [|discriminate].
  apply rbind_ok in H as ([ks sy] & E & H). injection H as _ _ <-.
  apply (foldM_done (fun _ st => Forall is_byte (snd st))) with (done := []) in E; [exact E| |exact F].
  intros done i [ks0 sy0] st F0 Er. unfold key_row in Er. apply rbind_ok in Er as (bt & _ & Er). cbv zeta in Er.
  apply rbind_ok in Er as (x & _ & Er). apply rbind_ok in Er as ([xS sy1] & Em & Er). apply rbind_ok in Er as (key & _ & Er). injection Er as <-.
  exact (kb_ScalarMult _ _ _ _ _ F0 Em).
Qed.
Lemma Sender_Finalize_byte s msg (sys : reader) k0 k1 s' sys' : Forall is_byte sys -> Sender_Finalize s msg sys = Ok (k0, k1, s', sys') -> Forall is_byte sys'.
Proof.
  intros F H. destruct s as [s|]; [|discriminate]. cbn [Sender_Finalize] in H. apply rbind_ok in H as ([] & _ & H).
  destruct msg as [msg|]; [|discriminate]. apply rbind_ok in H as ([] & _ & H). apply rbind_ok in H as ([yS sy1] & Em & H).
  apply kb_ScalarMult in Em; [|exact F]. apply rbind_ok in H as (yS' & _ & H). apply rbind_ok in H as (nY & _ & H).
  apply rbind_ok in H as ([[a b] sy2] & E & H). injection H as _ _ _ <-.
  apply (foldM_done (fun _ st => Forall is_byte (snd st))) with (done := []) in E; [exact E| |exact Em].
  intros done i [[a0 b0] sy0] st F0 Er. unfold send_row in Er. apply rbind_ok in Er as (Ri & _ & Er). apply rbind_ok in Er as ([] & _ & Er).
  apply rbind_ok in Er as (Ri' & _ & Er). apply rbind_ok in Er as ([] & _ & Er). apply rbind_ok in Er as ([yR sy3] & Ey & Er).
  apply rbind_ok in Er as (key0 & _ & Er). apply rbind_ok in Er as (yR' & _ & Er). apply rbind_ok in Er as (z & _ & Er).
  apply rbind_ok in Er as (key1 & _ & Er). injection Er as <-. exact (kb_ScalarMult _ _ _ _ _ F0 Ey).
Qed.

(** ** The last round *)
(** The transfer state that a party stores for the peer [pj]. *)
Definition ot_for (i : nat) (r2 : list (option keygenR2)) (k : KeygenParty) (ot : list (option PairOTState)) (pj : ref) : Prop :=
  exists y chosen rcv' y1 es m pts y2 k0 k1 snd' y3 er p,
    Forall is_byte y /\ Receiver_Finalize (kg_baseRcv k !! kstr h pj) y = Ok (chosen, rcv', y1) /\
    NewExtSenderFromBase (default [] (kg_myDelta k !! kstr h pj)) chosen = Ok es /\
    find_r2 h (Party.key_of h pj) 0 (others i) r2 = Ok (Some m) /\ unflattenPointXY S256 (OTReceiverR m) = Ok pts /\
    Forall is_byte y2 /\ Sender_Finalize (kg_baseSnd k !! kstr h pj) (Some {| rmR := pts |}) y2 = Ok (k0, k1, snd', y3) /\
    NewExtReceiverFromBase k0 k1 = Ok er /\ h !! pj = Some p /\
    idxZ ot (Index p) = Ok (Some {| AsAlice := Some er; AsBob := Some es |}).

Lemma set_idx_inv {A} (l l' : list A) i a : set_idx l i a = Ok l' ->
  0 <= i < Z.of_nat (length l) /\ l' = <[Z.to_nat i := a]> l /\ length l' = length l /\ idxZ l' i = Ok a /\
  forall j, j <> i -> idxZ l' j = idxZ l j.
Proof.
  unfold set_idx. destruct (Z.ltb_spec i 0); [discriminate|]. destruct (Z.leb_spec (Z.of_nat (length l)) i); [discriminate|].
  cbn [orb]. intros H'. injection H' as <-. assert (Hn : (Z.to_nat i < length l)%nat) by lia.
  split; [lia|]. split; [reflexivity|]. split; [apply length_insert|]. unfold idxZ, idx. split.
  - rewrite (proj2 (Z.ltb_ge _ _)) by lia. rewrite nth_error_lookup, list_lookup_insert_eq by assumption. reflexivity.
  - intros j Hj. destruct (Z.ltb_spec j 0); [reflexivity|]. rewrite !nth_error_lookup, list_lookup_insert_ne by lia. reflexivity.
Qed.

Lemma others_at i pid : (i < length refs)%nat -> In pid (others i) ->
  exists d p, d <> i /\ nth_error refs d = Some pid /\ h !! pid = Some p /\ Index p = Z.of_nat d /\ Party.key_of h pid = id_at d.
Proof.
  intros Hi Hp. apply (others_In h refs CM i pid Hi) in Hp as (d & Hd & Ed). destruct (cm_index _ _ CM d pid Ed) as (p & Ep & Ip).
  exists d, p. rewrite (at_key h refs d pid Ed). auto.
Qed.

Record fin_loop (i : nat) (r2 : list (option keygenR2)) (s0 : Core) (done : list ref) (ot : list (option PairOTState)) (s : Core) : Prop := {
  fl_kg : exists f g, self s = with_baseSnd f (with_baseRcv g (self s0));
  fl_rcv : forall pid, ~ In pid done -> In pid (others i) -> kg_baseRcv (self s) !! kstr h pid = kg_baseRcv (self s0) !! kstr h pid;
  fl_snd : forall pid, ~ In pid done -> In pid (others i) -> kg_baseSnd (self s) !! kstr h pid = kg_baseSnd (self s0) !! kstr h pid;
  fl_ot : Forall (ot_for i r2 (self s0) ot) done;
  fl_sent : sent s = sent s0;
  fl_conn : connected s = connected s0;
  fl_sys : Forall is_byte (rSys s)
}.

Lemma finalize_peer_run i P r2 s0 done ot pj s ot' s' : seat i P -> (i < length refs)%nat -> kg_params (self s0) = P ->
  In pj (others i) -> ~ In pj done -> Forall (fun pid => In pid (others i)) done -> fin_loop i r2 s0 done ot s ->
  finalize_peer h (others i) r2 ot pj s = Ok (s', inl ot') -> fin_loop i r2 s0 (done ++ [pj]) ot' s'.
Proof.
  intros ST Hi EP Hpj Hn Fd [(f & g & K1) K2 K3 K4 K5 K6 K7] H. unfold finalize_peer in H.
  destruct (others_at i pj Hi Hpj) as (d & p & Hd & Ed & Ep & Ip & Ek).
  pose proof (at_valid h refs CM d pj Ed) as Vp.
  apply hbind_ok in H as (s1 & a & E & H). injection E as <- <-.
  assert (EP' : kg_params (self s) = P) by (rewrite K1; exact EP). rewrite EP', (st_ec _ _ ST), (peerKeyStr_valid h pj Vp), (KeyInt_valid h pj Vp) in H.
  apply hbind_ok in H as (s1 & k & E & H). apply hlift_ok in E as [E ->]. injection E as <-.
  apply hbind_ok in H as (s1 & [chosen rcv] & E & H). apply draw_sys_ok in E as (y1 & E & ->).
  apply rbind_ok in E as ([[ch rc] y1'] & E & K). apply rewrap_ok in E. injection K as <- <- <-.
  pose proof (Receiver_Finalize_byte _ _ _ _ _ K7 E) as F1. rewrite (K2 pj Hn Hpj) in E.
  apply hbind_ok in H as (s1 & [] & E' & H). injection E' as <-.
  apply hbind_ok in H as (s1 & es & Es & H). apply hlift_ok in Es as [Es ->]. apply rewrap_ok in Es.
  apply hbind_ok in H as (s1 & kj & E' & H). apply hlift_ok in E' as [E' ->]. injection E' as <-.
  apply hbind_ok in H as (s1 & m & Em & H). apply hlift_ok in Em as [Em ->]. destruct m as [m|]; [|discriminate].
  apply hbind_ok in H as (s1 & pts & Ept & H). apply hlift_ok in Ept as [Ept ->]. apply rewrap_ok in Ept.
  apply hbind_ok in H as (s1 & [[k0 k1] snd] & E' & H). apply draw_sys_ok in E' as (y2 & E' & ->). cbn [rSys with_self] in E'.
  apply rbind_ok in E' as ([[[k0' k1'] sd] y2'] & E' & K). apply rewrap_ok in E'. injection K as <- <- <- <-.
  pose proof (Sender_Finalize_byte _ _ _ _ _ _ _ F1 E') as F2. rewrite (K3 pj Hn Hpj) in E'.
  apply hbind_ok in H as (s1 & [] & E2 & H). injection E2 as <-.
  apply hbind_ok in H as (s1 & er & Er & H). apply hlift_ok in Er as [Er ->]. apply rewrap_ok in Er.
  apply hbind_ok in H as (s1 & p' & E2 & H). apply hlift_ok in E2 as [E2 ->]. unfold load in E2. apply deref_ok in E2. rewrite Ep in E2. injection E2 as <-.
  apply hlift_ok in H as [H ->]. destruct (set_idx_inv _ _ _ _ H) as (_ & _ & _ & I1 & I2).
  assert (Kn : forall pid, ~ In pid (done ++ [pj]) -> In pid (others i) -> kstr h pid <> kstr h pj).
  { intros pid Hx Hy Ekk. apply kstr_inj in Ekk. destruct (others_at i pid Hi Hy) as (e & p2 & _ & Ee & _).
    assert (e = d) as -> by (eapply (key_pos h refs CM); eassumption). apply Hx, in_or_app. right. left. congruence. }
  constructor; cbn [self with_self sent connected rSys with_baseSnd with_baseRcv kg_baseRcv kg_baseSnd].
  - exists (fun x => <[kstr h pj := sd]> (f x)), (fun x => <[kstr h pj := rc]> (g x)). rewrite K1. reflexivity.
  - intros pid Hx Hy. rewrite lookup_insert_ne by (apply not_eq_sym, Kn; assumption). apply K2; [|exact Hy]. intros X. apply Hx, in_or_app. now left.
  - intros pid Hx Hy. rewrite lookup_insert_ne by (apply not_eq_sym, Kn; assumption). apply K3; [|exact Hy]. intros X. apply Hx, in_or_app. now left.
  - apply Forall_app. split.
    + rewrite List.Forall_forall in *. intros pid Hx. specialize (K4 pid Hx). destruct K4 as (a1 & a2 & a3 & a4 & a5 & a6 & a7 & a8 & a9 & a10 & a11 & a12 & a13 & a14 & B).
      exists a1, a2, a3, a4, a5, a6, a7, a8, a9, a10, a11, a12, a13, a14. destruct B as (B1 & B2 & B3 & B4 & B5 & B6 & B7 & B8 & B9 & B10).
      repeat (split; [assumption|]). rewrite I2; [exact B10|]. rewrite Ip. destruct (others_at i pid Hi (Fd pid Hx)) as (e & p2 & _ & Ee & Ep2 & Ip2 & _).
      rewrite Ep2 in B9. injection B9 as <-. rewrite Ip2. intros X. assert (e = d) as -> by lia. apply Hn. congruence.
    + constructor; [|constructor]. do 14 eexists. split; [exact K7|]. split; [exact E|]. split; [|split; [exact Em|split; [exact Ept|split; [exact F1|split; [exact E'|split; [exact Er|split; [exact Ep|exact I1]]]]]]].
      rewrite K1 in Es. exact Es.
  - exact K5.
  - exact K6.
  - exact F2.
Qed.

(** A key that passed its checks holds a reduced secret, and its own public share. *)
Lemma validated_share k y y' : kCurve k = Some S256 -> Forall is_byte y -> Key_ValidateBasic (Some k) y = Ok y' ->
  exists xi X, kXi k = Some xi /\ 0 < xi < q /\ idxZ (kBigXj k) (kIdx k) = Ok X /\ ECPoint_Equals (Some (pnt xi)) X = Ok true.
Proof.
  intros Ec F H. unfold Key_ValidateBasic in H. rewrite Ec in H. do 5 (apply rbind_ok in H as ([] & _ & H)).
  apply rbind_ok in H as (c & Ed & H). injection Ed as <-. apply rbind_ok in H as (xi & Ex & H). apply deref_ok in Ex.
  apply rbind_ok in H as ([] & G & H). apply guard_ok, negb_true_iff, orb_false_iff in G as [G1 G2]. apply Z.leb_gt in G1.
  rewrite Cmp_ge in G2. apply Z.leb_gt in G2. do 5 (apply rbind_ok in H as ([] & _ & H)).
  apply rbind_ok in H as (X & EX & H). apply rbind_ok in H as ([] & _ & H). apply rbind_ok in H as ([P' y1] & Em & H).
  unfold ctmul_ScalarBaseMult in Em. apply ct_base in Em as [-> _]; [|lia|assumption].
  apply rbind_ok in H as (eq & Eq & H). apply rbind_ok in H as ([] & G & _). apply guard_ok in G as ->.
  exists xi, X. split; [assumption|]. split; [lia|]. auto.
Qed.

(** A party that has delivered its key. *)
Record finished (i : nat) (P : Parameters) (r2 : list (option keygenR2)) (s0 s : Core) (key : Key) : Prop := {
  fi_done : kg_Done (self s) = sendOnce (kg_Done (self s0)) key;
  fi_key : exists xi pub Vall X ot chain,
    sum_shares h (self s0) (others i) = Ok xi /\ sum_commitments h (self s0) (others i) = Ok pub /\ all_commitments h (self s0) = Ok Vall /\
    public_shares h S256 refs Vall = Ok X /\ (let! pub := deref pub in deriveChainCode pub) = Ok chain /\
    Forall (ot_for i r2 (self s0) ot) (others i) /\
    key = {| kCurve := Some S256; kN := Z.of_nat (length refs); kT := T; kIdx := Z.of_nat i; kPartyIDs := refs; kXi := Some xi;
             kBigXj := X; kECDSAPub := pub; kOT := ot; kChainCode := chain |};
  fi_sent : sent s = sent s0;
  fi_conn : connected s = connected s0;
  fi_b : kg_r1Bcasts (self s) = kg_r1Bcasts (self s0);
  fi_valid : exists y y', Forall is_byte y /\ Key_ValidateBasic (Some key) y = Ok y'
}.

Lemma finalize_run i P ctx r2 s0 s : seat i P -> kg_params (self s0) = P -> Forall is_byte (rSys s0) ->
  finalize h ctx (others i) r2 s0 = Ok (s, inl tt) -> exists key, finished i P r2 s0 s key.
Proof.
  intros ST EP Fs H. assert (Hi : (i < length refs)%nat) by (apply nth_error_Some; rewrite (st_me _ _ ST); discriminate).
  destruct (cm_index _ _ CM i _ (st_me _ _ ST)) as (me & Eme & Ime).
  unfold finalize in H. apply hbind_ok in H as (s1 & [] & E & H). apply ctx_alive_ok in E as [_ ->].
  apply hbind_ok in H as (s1 & a & E & H). injection E as <- <-. rewrite EP, (st_ec _ _ ST), (st_refs _ _ ST), (st_T _ _ ST) in H.
  apply hbind_ok in H as (s1 & m & E & H). apply hlift_ok in E as [E ->]. unfold load in E. apply deref_ok in E. rewrite Eme in E. injection E as <-.
  apply hbind_ok in H as (s1 & xi & E & H). apply hlift_ok in E as [Ex ->].
  apply hbind_ok in H as (s1 & pub & E & H). apply hlift_ok in E as [Ep ->].
  apply hbind_ok in H as (s1 & Vall & E & H). apply hlift_ok in E as [Ev ->].
  apply hbind_ok in H as (s1 & X & E & H). apply hlift_ok in E as [EX ->].
  apply hbind_ok in H as (s1 & ot & Eo & H).
  set (Q := fun (done : list ref) ot s => Forall (fun pid => In pid (others i)) done -> List.NoDup done -> fin_loop i r2 s0 done ot s).
  assert (N : List.NoDup (others i)) by (eapply List.NoDup_map_inv, (others_keys h refs CM i)).
  assert (K : Q ([] ++ others i) ot s1).
  { refine (hfold_done Q (finalize_peer h (others i) r2) (others i) _ [] _ s0 ot s1 _ Eo).
    - intros done pj ot1 s2 ot2 s3 IH E Fd Nd. apply Forall_app in Fd as [Fd Fp]. apply Forall_inv in Fp.
      apply (finalize_peer_run i P r2 s0 done ot1 pj s2 ot2 s3); try assumption; [|exact (IH Fd (List.NoDup_app_remove_r _ _ Nd))].
      apply List.NoDup_remove_2 in Nd. rewrite app_nil_r in Nd. exact Nd.
    - intros _ _. constructor; try reflexivity; try assumption; [|constructor]. exists (fun x => x), (fun x => x). now destruct (self s0). }
  cbn [app] in K. destruct (K ltac:(apply List.Forall_forall; auto) N) as [(f & g & K1) _ _ K4 K5 K6 K7].
  apply hbind_ok in H as (s2 & chain & E & H). apply hlift_ok in E as [Ec ->].
  apply hbind_ok in H as (s2 & [] & E & H). apply draw_sys_ok in E as (y & E & ->). apply rbind_ok in E as (y' & E & K0). apply rewrap_ok in E. injection K0 as <-.
  injection H as <-. rewrite Ime in E |- *. eexists. constructor; cbn [self with_self send_Done kg_Done sent connected].
  - rewrite K1. reflexivity.
  - exists xi, pub, Vall, X, ot, chain. repeat (split; [assumption|]). reflexivity.
  - exact K5.
  - exact K6.
  - rewrite K1. reflexivity.
  - exists (rSys s1), y'. auto.
Qed.
End Local.
