(* ===== verification/DklsKeygenNet.v ===== *)
(** * The brokered key generation of [dklstss] on a network

    A [Node] is a party with the collectors its broker dispatches to.  [reachable]
    is the set of configurations of the honest nodes: any of them may start at any
    time, and any message may be delivered to any of them, in any order and any number
    of times, as long as what arrives in the name of an honest party is something that
    it sent to the recipient or to all.  Nothing is assumed of the other parties, nor
    of the order of the map iterations, nor of the contexts. *)
From stdpp Require Import base gmap list strings pretty.
From Stdlib Require Import ZArith String List Lia Bool.
From S2P Require Import Prelude GoBig Common Curve CtMul Field Vss Schnorr Bits OtExt OtExtCorrect BaseOt Ole Party Handler Json.
From S2P Require Import Dkls DklsSetup DklsSign DklsSignCorrect DklsKeygen DklsEcho DklsRoster DklsKeygenParty DklsKeygenRun.
Import ListNotations.
Open Scope string_scope.
Open Scope Z_scope.
Open Scope list_scope.

(** ** A party and its collectors *)
Record Node `{KeygenJson} := {
  core : Core; e_bc : option (jsonExpect keygenR1Bcast); e_uc : option (jsonExpect keygenR1Unicast);
  e_ec : option (jsonExpect echoMsg); e_r2 : option (jsonExpect keygenR2)
}.

Section Defs.
Context `{HS : Hash} `{SH : Sha256} `{AE : Aes} `{CS : Curves} `{SL : Secp256k1Lib} `{EL : Ed25519Lib} `{MR : MapRange}.
Context `{KJ : KeygenJson} `{BR : !Broker KMsg}.

(** [testBroker.Connect], by the type. *)
Definition attach_one (nd : Node) (tp : string * list ref) : Node :=
  let '(typ, ids) := tp in
  let fresh {T} (t : string) (old : option (jsonExpect T)) := if String.eqb typ t then Some (NewJsonExpect typ ids) else old in
  {| core := core nd; e_bc := fresh keygenTypeR1Bcast (e_bc nd); e_uc := fresh keygenTypeR1Unicast (e_uc nd);
     e_ec := fresh keygenTypeEcho (e_ec nd); e_r2 := fresh keygenTypeR2 (e_r2 nd) |}.
(** The node after a callback: the new state, and what it connected. *)
Definition attach (nd : Node) (s : Core) : Node :=
  fold_left attach_one (skipn (length (connected (core nd))) (connected s))
    {| core := s; e_bc := e_bc nd; e_uc := e_uc nd; e_ec := e_ec nd; e_r2 := e_r2 nd |}.

(** One delivery to a collector and its callback. *)
Definition dispatch {T} `{Json T} (h : Heap) (e : option (jsonExpect T)) (m : JsonMessage T Raw)
    (put : option (jsonExpect T) -> Node) (cb : list ref -> list (option T) -> hnd Core unit) : res Node :=
  match e with
  | None => Ok (put None)
  | Some e =>
    match jsonExpect_Receive h e m with
    | (_, _, Panic w) => Panic w
    | (e', None, _) => Ok (put (Some e'))
    | (e', Some (ids, packets), _) =>
      let nd := put (Some e') in
      let! s := run_handler (cb ids packets) (core nd) in
      Ok (attach nd s)
    end
  end.

(** The contexts are asked at most twice in a callback. *)
Definition deliver (h : Heap) (ctx ctx' : option string) (nd : Node) (m : KMsg) : res Node :=
  match m with
  | KBcast m => dispatch h (e_bc nd) m
      (fun e => {| core := core nd; e_bc := e; e_uc := e_uc nd; e_ec := e_ec nd; e_r2 := e_r2 nd |}) (onR1Bcast h ctx)
  | KUnicast m => dispatch h (e_uc nd) m
      (fun e => {| core := core nd; e_bc := e_bc nd; e_uc := e; e_ec := e_ec nd; e_r2 := e_r2 nd |}) (onR1Unicast h ctx)
  | KEcho m => dispatch h (e_ec nd) m
      (fun e => {| core := core nd; e_bc := e_bc nd; e_uc := e_uc nd; e_ec := e; e_r2 := e_r2 nd |}) (onEcho h ctx ctx')
  | KR2 m => dispatch h (e_r2 nd) m
      (fun e => {| core := core nd; e_bc := e_bc nd; e_uc := e_uc nd; e_ec := e_ec nd; e_r2 := e |}) (finalize h ctx)
  end.

(** A node that starts; one that fails to start has sent what it has sent. *)
Definition start_node (h : Heap) (reg : CurveState) (P : Parameters) (rp rr rs : reader) : res (option Node) :=
  let! (s, _) := NewKeygen h reg false (Some P) rp rr rs in
  match s with
  | None => Ok None
  | Some s =>
    let c0 := {| self := self s; rPartial := rPartial s; rRand := rRand s; rSys := rSys s; sent := sent s; connected := [] |} in
    Ok (Some (attach {| core := c0; e_bc := None; e_uc := None; e_ec := None; e_r2 := None |} s))
  end.

(** ** Messages *)
Definition from_of (m : KMsg) : option ref :=
  match m with KBcast m => jm_From m | KUnicast m => jm_From m | KEcho m => jm_From m | KR2 m => jm_From m end.
Definition to_of (m : KMsg) : option ref :=
  match m with KBcast m => jm_To m | KUnicast m => jm_To m | KEcho m => jm_To m | KR2 m => jm_To m end.
(** Both messages decode to the same value. *)
Definition same_payload (m m' : KMsg) : Prop :=
  match m, m' with
  | KBcast a, KBcast b => exists v, JsonGet a = Ok (Some v) /\ JsonGet b = Ok (Some v)
  | KUnicast a, KUnicast b => exists v, JsonGet a = Ok (Some v) /\ JsonGet b = Ok (Some v)
  | KEcho a, KEcho b => exists v, JsonGet a = Ok (Some v) /\ JsonGet b = Ok (Some v)
  | KR2 a, KR2 b => exists v, JsonGet a = Ok (Some v) /\ JsonGet b = Ok (Some v)
  | _, _ => False
  end.
(** The strings of a broadcast are byte strings, of lengths that an [int] holds. *)
Definition bc_fits (v : keygenR1Bcast) : Prop :=
  fits64 (length (VSSCommitments v)) /\ Forall (fun c => fits64 (length c)) (VSSCommitments v) /\ Forall (Forall is_byte) (VSSCommitments v).
Definition msg_fits (m : KMsg) : Prop :=
  match m with
  | KBcast a => forall v, JsonGet a = Ok (Some v) -> bc_fits v
  | _ => True
  end.

(** ** The network *)
Section Network.
Context (h : Heap) (reg : CurveState) (refs : list ref) (P : nat -> Parameters) (honest : nat -> bool).
Abbreviation Net := (gmap nat Node).

(** What may arrive at party [i]. *)
Definition authentic (net : Net) (i : nat) (m : KMsg) : Prop :=
  forall j r f, honest j = true -> nth_error refs j = Some r -> from_of m = Some f -> Party.key_of h f = Party.key_of h r ->
  exists nd m', net !! j = Some nd /\ m' ∈ sent (core nd) /\ same_payload m m' /\
    (to_of m' = None \/ exists t r', to_of m' = Some t /\ nth_error refs i = Some r' /\ Party.key_of h t = Party.key_of h r').

Inductive step : Net -> Net -> Prop :=
| step_start net i rp rr rs nd : (i < length refs)%nat -> honest i = true -> net !! i = None ->
    Forall is_byte rp -> Forall is_byte rr -> Forall is_byte rs ->
    start_node h reg (P i) rp rr rs = Ok (Some nd) -> step net (<[i := nd]> net)
| step_deliver net i nd m ctx ctx' nd' : net !! i = Some nd -> authentic net i m -> msg_fits m ->
    deliver h ctx ctx' nd m = Ok nd' -> step net (<[i := nd']> net).

Inductive reachable : Net -> Prop :=
| reach_init : reachable empty
| reach_step net net' : reachable net -> step net net' -> reachable net'.
End Network.
End Defs.

(** ** Collectors *)
Section Collectors.
Context {T : Type} `{JS : Json T}.
Context (h : Heap) (auth : nat -> T -> Prop).

Record collecting (ids : list ref) (e : jsonExpect T) : Prop := {
  cl_from : je_From e = ids;
  cl_packets : forall n v, nth_error (je_Packet e) n = Some (Some v) -> auth n v
}.

Lemma locate_inv ki : forall From (Packet : list (option T)) n i, locate h ki n From Packet = Ok (Some i) ->
  exists p, nth_error From (i - n) = Some p /\ KeyInt h p = Ok ki /\ (n <= i)%nat.
Proof.
  induction From as [|p From IH]; intros Packet n i H; cbn [locate] in H; [discriminate|].
  apply rbind_ok in H as (pk & _ & H).
  assert (R : locate h ki (S n) From Packet = Ok (Some i) -> exists p', nth_error (p :: From) (i - n) = Some p' /\ KeyInt h p' = Ok ki /\ (n <= i)%nat).
  { intros K. destruct (IH _ _ _ K) as (p' & E & Ek & Hi). exists p'. replace (i - n)%nat with (S (i - S n)) by lia. cbn [nth_error]. split; [assumption|]. split; [assumption|lia]. }
  destruct (is_some pk); [exact (R H)|]. apply rbind_ok in H as (k & Ek & H). rewrite Cmp_eq in H.
  destruct (Z.eqb_spec k ki) as [->|]; [|exact (R H)]. injection H as ->. exists p. rewrite Nat.sub_diag. split; [reflexivity|]. split; [assumption|lia].
Qed.

(** One delivery: the packets stay authentic, and a callback hands all of them out,
    once. *)
Lemma Receive_inv ids e m e' cb r : collecting ids e ->
  (forall n p f v, nth_error ids n = Some p -> jm_From m = Some f -> KeyInt h p = KeyInt h f -> JsonGet m = Ok (Some v) -> auth n v) ->
  jsonExpect_Receive h e m = (e', cb, r) ->
  collecting ids e' /\ (je_missing e = 0 -> e' = e /\ cb = None) /\
  (cb = None \/ cb = Some (ids, je_Packet e') /\ je_missing e' = 0).
Proof.
  intros C Hm H. unfold jsonExpect_Receive in H.
  assert (Same : forall r0, (e, None, r0) = (e', cb, r) -> collecting ids e' /\ (je_missing e = 0 -> e' = e /\ cb = None) /\
    (cb = None \/ cb = Some (ids, je_Packet e') /\ je_missing e' = 0)) by (intros r0 K; injection K as <- <- _; auto).
  destruct (negb _); [exact (Same _ H)|]. destruct (Z.eqb_spec (je_missing e) 0) as [Hz|Hz]; [exact (Same _ H)|].
  destruct (JsonGet m) as [obj| |] eqn:Eg; [|exact (Same _ H)..].
  destruct (let! f := deref (jm_From m) in let! ki := KeyInt h f in locate h ki 0 (je_From e) (je_Packet e)) as [[n|]| |] eqn:El; [|exact (Same _ H)..].
  apply rbind_ok in El as (f & Ef & El). apply deref_ok in Ef. apply rbind_ok in El as (ki & Ek & El).
  apply locate_inv in El as (p & Ep & Ekp & _). rewrite Nat.sub_0_r, (cl_from _ _ C) in Ep.
  injection H as <- <- _. cbn [je_missing je_Packet je_From]. split; [|split; [contradiction|]].
  - constructor; cbn [je_From je_Packet]; [apply C|]. intros k v Ev. destruct (decide (n = k)) as [<-|Hne].
    + rewrite nth_error_lookup in Ev. destruct (Nat.lt_ge_cases n (length (je_Packet e))) as [Hl|Hl].
      * rewrite list_lookup_insert_eq in Ev by assumption. injection Ev as ->. apply (Hm n p f v Ep Ef); congruence.
      * rewrite lookup_ge_None_2 in Ev by (rewrite length_insert; lia). discriminate.
    + rewrite nth_error_lookup, list_lookup_insert_ne, <- nth_error_lookup in Ev by assumption. exact (cl_packets _ _ C k v Ev).
  - destruct (Z.eqb_spec (je_missing e - 1) 0) as [Hz'|]; [right|now left]. rewrite (cl_from _ _ C). auto.
Qed.
End Collectors.

(** ** Callbacks that fail *)
(** They only send: nothing is connected and no key is delivered. *)
Section Quiet.
Context `{HS : Hash} `{SH : Sha256} `{CS : Curves} `{SL : Secp256k1Lib} `{EL : Ed25519Lib} `{MR : MapRange}.
Context `{KJ : KeygenJson} `{BR : !Broker KMsg}.

Definition quietly (s s' : Core) : Prop :=
  (exists l, sent s' = sent s ++ l) /\ kg_Done (self s') = kg_Done (self s) /\ connected s' = connected s.
Lemma quietly_refl s : quietly s s.
Proof. split; [exists []; now rewrite app_nil_r|auto]. Qed.
Lemma quietly_trans a b c : quietly a b -> quietly b c -> quietly a c.
Proof. intros [(l & E1) [E2 E3]] [(l' & E4) [E5 E6]]. split; [exists (l ++ l'); now rewrite E4, E1, app_assoc|]. split; congruence. Qed.

Abbreviation quiet := (hkeeps quietly).
Definition fails_quiet {A} (c : hnd Core A) : Prop := forall s s' e, c s = Ok (s', inr e) -> quietly s s'.

Lemma fq_quiet {A} (c : hnd Core A) : quiet c -> fails_quiet c.
Proof. intros H s s' e E. exact (H _ _ _ E). Qed.
Lemma fq_bind {A B} (c : hnd Core A) (k : A -> hnd Core B) : quiet c -> (forall a, fails_quiet (k a)) -> fails_quiet (hbind c k).
Proof.
  intros Hc Hk s s' e H. unfold hbind in H. apply rbind_ok in H as ([s1 [a|e1]] & E & H).
  - exact (quietly_trans _ _ _ (Hc _ _ _ E) (Hk _ _ _ _ H)).
  - injection H as <- _. exact (Hc _ _ _ E).
Qed.
Lemma fq_connect typ ids : fails_quiet (connect typ ids).
Proof. intros s s' e H. discriminate H. Qed.
Lemma fq_connect2 typ ids typ' ids' : fails_quiet (connect typ ids ;^ connect typ' ids').
Proof. intros s s' e H. discriminate H. Qed.
Lemma fq_upd f : fails_quiet (upd f).
Proof. intros s s' e H. discriminate H. Qed.

Lemma q_bind {A B} (c : hnd Core A) (k : A -> hnd Core B) : quiet c -> (forall a, quiet (k a)) -> quiet (hbind c k).
Proof. exact (keeps_bind quietly quietly_trans c k). Qed.
Lemma q_lift {A} (c : res A) : quiet (hlift c).
Proof. exact (keeps_lift quietly quietly_refl c). Qed.
Lemma q_get : quiet hget.
Proof. exact (keeps_get quietly quietly_refl). Qed.
Lemma q_ret {A} (a : A) : quiet (hret a).
Proof. exact (keeps_ret quietly quietly_refl a). Qed.
Lemma q_err {A} e : quiet (herr (A := A) e).
Proof. exact (keeps_err quietly quietly_refl e). Qed.
Lemma q_for {A} (f : A -> hnd Core unit) l : (forall a, quiet (f a)) -> quiet (hfor f l).
Proof. exact (keeps_for quietly quietly_refl quietly_trans f l). Qed.
Lemma q_fold {A B} (f : B -> A -> hnd Core B) b l : (forall b a, quiet (f b a)) -> quiet (hfold f b l).
Proof. intros H. exact (keeps_fold quietly quietly_refl quietly_trans f l H b). Qed.
Lemma q_both {A} (f : reader -> reader -> res (A * reader * reader)) : quiet (draw_both f).
Proof. intros s s' r H. unfold draw_both in H. destruct (f _ _) as [[[a r1] y]| |]; [injection H as <- _|injection H as <- _|discriminate]; (split; [exists []; now rewrite app_nil_r|split; reflexivity]). Qed.
Lemma q_partial {A} (f : rnd A) : quiet (draw_partial f).
Proof. intros s s' r H. unfold draw_partial in H. destruct (f _) as [[a r1]| |]; [injection H as <- _|injection H as <- _|discriminate]; (split; [exists []; now rewrite app_nil_r|split; reflexivity]). Qed.
Lemma q_send msg m : quiet (send msg m).
Proof. intros s s' r H. unfold send in H. injection H as <- _. split; [now exists [m]|auto]. Qed.
Lemma q_ctx ctx : quiet (ctx_alive ctx).
Proof. destruct ctx; [apply q_err|apply q_ret]. Qed.
Lemma q_upd f : (forall k, kg_Done (f k) = kg_Done k) -> quiet (upd f).
Proof. intros Hf s s' r H. injection H as <- _. split; [exists []; now rewrite app_nil_r|]. split; [apply Hf|reflexivity]. Qed.
End Quiet.

(** Follows the text of a callback. *)
Ltac quiet :=
  repeat first
  [ apply q_lift | apply q_get | apply q_ret | apply q_err | apply q_both | apply q_partial | apply q_send | apply q_ctx
  | apply q_upd; intros; reflexivity | apply q_for; intros | apply q_fold; intros
  | progress unfold hguard, draw_rand, draw_sys
  | apply q_bind; [|intros]
  | match goal with |- hkeeps _ (let '(_, _) := ?p in _) => destruct p end
  | match goal with |- hkeeps _ (match ?p with _ => _ end) => destruct p end ].
Ltac fails_quiet :=
  repeat first
  [ apply fq_connect | apply fq_connect2 | apply fq_upd | apply fq_bind; [solve [quiet]|intros]
  | match goal with |- fails_quiet (let '(_, _) := ?p in _) => destruct p end
  | match goal with |- fails_quiet (match ?p with _ => _ end) => destruct p end
  | solve [apply fq_quiet; quiet] ].

Section QuietRounds.
Context `{HS : Hash} `{SH : Sha256} `{CS : Curves} `{SL : Secp256k1Lib} `{EL : Ed25519Lib} `{MR : MapRange}.
Context `{KJ : KeygenJson} `{BR : !Broker KMsg}.

Lemma round1_fails h : fails_quiet (round1 h).
Proof.
  unfold round1, round1_peer. fails_quiet.
Qed.
Lemma startEcho_fails h ctx ids : fails_quiet (startEchoPhase h ctx ids).
Proof. unfold startEchoPhase. fails_quiet. Qed.
Lemma onEcho_fails h ctx ctx' ids e : fails_quiet (onEcho h ctx ctx' ids e).
Proof. unfold onEcho, round2, round2_peer. fails_quiet. Qed.
Lemma finalize_fails h ctx ids r2 : fails_quiet (finalize h ctx ids r2).
Proof. unfold finalize, finalize_peer. fails_quiet. Qed.
End QuietRounds.

(** ** Dispatch *)
Section Dispatch.
Context `{HS : Hash} `{SH : Sha256} `{AE : Aes} `{CS : Curves} `{SL : Secp256k1Lib} `{EL : Ed25519Lib} `{MR : MapRange}.
Context `{KJ : KeygenJson} `{BR : !Broker KMsg}.

(** A collector that takes nothing any more, or is not there. *)
Definition shut {T} (o : option (jsonExpect T)) : Prop := forall e, o = Some e -> je_missing e = 0.

Lemma dispatch_shut {T} `{Json T} h o (m : JsonMessage T Raw) put cb nd' : shut o -> dispatch h o m put cb = Ok nd' -> nd' = put o.
Proof.
  intros S H'. unfold dispatch in H'. destruct o as [e|]; [|now injection H' as <-]. specialize (S e eq_refl).
  assert (K : exists r, jsonExpect_Receive h e m = (e, None, r)).
  { unfold jsonExpect_Receive. destruct (negb _); [eauto|]. rewrite (proj2 (Z.eqb_eq _ _) S). eauto. }
  destruct K as (r & E). rewrite E in H'. destruct r; [now injection H' as <-|now injection H' as <-|discriminate].
Qed.

Lemma dispatch_inv {T} `{Json T} h auth ids e (m : JsonMessage T Raw) put cb nd' : collecting auth ids e ->
  (forall n p f v, nth_error ids n = Some p -> jm_From m = Some f -> KeyInt h p = KeyInt h f -> JsonGet m = Ok (Some v) -> auth n v) ->
  dispatch h (Some e) m put cb = Ok nd' ->
  exists e', collecting auth ids e' /\
    (nd' = put (Some e') \/
     je_missing e' = 0 /\ exists s, run_handler (cb ids (je_Packet e')) (core (put (Some e'))) = Ok s /\ nd' = attach (put (Some e')) s).
Proof.
  intros C Hm H'. unfold dispatch in H'. destruct (jsonExpect_Receive h e m) as [[e' c] r] eqn:E.
  destruct (Receive_inv h auth ids e m e' c r C Hm E) as (C' & _ & [->|[-> Hz]]).
  - exists e'. split; [assumption|]. left. destruct r; [now injection H' as <-|now injection H' as <-|discriminate].
  - exists e'. split; [assumption|]. right. split; [assumption|]. destruct r; [| |discriminate];
    apply rbind_ok in H' as (s & Es & H'); injection H' as <-; exists s; auto.
Qed.

(** What a callback connects. *)
Lemma attach_app nd s l : connected s = connected (core nd) ++ l ->
  attach nd s = fold_left attach_one l {| core := s; e_bc := e_bc nd; e_uc := e_uc nd; e_ec := e_ec nd; e_r2 := e_r2 nd |}.
Proof. intros E. unfold attach. rewrite E, skipn_app, skipn_all, Nat.sub_diag. reflexivity. Qed.
Lemma attach_same nd s : connected s = connected (core nd) ->
  attach nd s = {| core := s; e_bc := e_bc nd; e_uc := e_uc nd; e_ec := e_ec nd; e_r2 := e_r2 nd |}.
Proof. intros E. rewrite (attach_app nd s []); [reflexivity|now rewrite app_nil_r]. Qed.

(** A callback that returned, or failed with its error sent to [Err]. *)
Lemma run_handler_inv c s s' : run_handler c s = Ok s' -> fails_quiet c ->
  c s = Ok (s', inl tt) \/ ((exists l, sent s' = sent s ++ l) /\ kg_Done (self s') = kg_Done (self s) /\ connected s' = connected s).
Proof.
  intros H F. unfold run_handler, handle in H. apply rbind_ok in H as ([s1 [[]|e]] & E & H); injection H as <-; [now left|right].
  destruct (F _ _ _ E) as (A & B & C). cbn [with_self sent self connected send_Err kg_Done]. auto.
Qed.
End Dispatch.
