(* ===== verification/DklsKeygenSafe.v ===== *)
(** * The brokered key generation of [dklstss]: safety

    The invariant of the reachable configurations of [DklsKeygenNet], by induction on
    the steps: every honest node is at one phase of its run, and every packet that it
    holds in the name of an honest party was sent to it or to all. *)
From stdpp Require Import base gmap list strings pretty.
From Stdlib Require Import ZArith String List Lia Bool.
From S2P Require Import Prelude GoBig Common Curve CtMul Field Vss Schnorr Bits OtExt OtExtCorrect BaseOt Ole Party Handler Json.
From S2P Require Import Dkls DklsSetup DklsSign DklsSignCorrect DklsKeygen DklsEcho DklsRoster DklsKeygenParty DklsKeygenRun DklsKeygenNet.
Import ListNotations.
Open Scope string_scope.
Open Scope Z_scope.
Open Scope list_scope.

Section Invariant.
Context `{HS : Hash} `{SH : Sha256} `{AE : Aes} `{CS : Curves} `{SL : Secp256k1Lib} `{EL : Ed25519Lib} `{ML : MapRangeLaws}.
Context `{KJ : KeygenJson} `{BR : !Broker KMsg}.
Context {pt : Z -> Z * Z} {L : CurveLaws S256 pt false} {CT : CtCurve S256 pt false}.
Hypothesis Hne : curve_eqb S256 Edwards = false.
Context {h : Heap} {refs : list ref} (CM : committee h refs) {T : Z} {reg : CurveState} {P : nat -> Parameters} {honest : nat -> bool}.
Hypothesis HP : forall i, (i < length refs)%nat -> seat (refs := refs) (T := T) i (P i).
Abbreviation Net := (gmap nat Node).
Abbreviation others := (others h refs).
Abbreviation started := (started (pt := pt) (h := h) (refs := refs) (T := T)).
Abbreviation echoed := (echoed (h := h) (refs := refs)).
Abbreviation answered := (answered (h := h) (refs := refs) (T := T)).
Abbreviation finished := (finished (h := h) (refs := refs) (T := T)).

(** ** Authentic packets *)
(** In the name of an honest [pid], only what it sent to party [i] or to all. *)
Definition from_honest (net : Net) (i : nat) (pid : ref) (pay : KMsg -> Prop) : Prop :=
  forall j r, honest j = true -> nth_error refs j = Some r -> Party.key_of h pid = Party.key_of h r ->
  exists nd m, net !! j = Some nd /\ m ∈ sent (core nd) /\ pay m /\
    (to_of m = None \/ exists t r', to_of m = Some t /\ nth_error refs i = Some r' /\ Party.key_of h t = Party.key_of h r').
Definition auth {V} (net : Net) (i : nat) (pay : V -> KMsg -> Prop) (n : nat) (v : V) : Prop :=
  forall pid, nth_error (others i) n = Some pid -> from_honest net i pid (pay v).

Definition pay_bc (v : keygenR1Bcast) (m : KMsg) : Prop := exists a, m = KBcast a /\ JsonGet a = Ok (Some v).
Definition pay_uc (v : keygenR1Unicast) (m : KMsg) : Prop := exists a, m = KUnicast a /\ JsonGet a = Ok (Some v).
Definition pay_ec (v : echoMsg) (m : KMsg) : Prop := exists a, m = KEcho a /\ JsonGet a = Ok (Some v).
Definition pay_r2 (v : keygenR2) (m : KMsg) : Prop := exists a, m = KR2 a /\ JsonGet a = Ok (Some v).
Definition auth_bc (net : Net) (i n : nat) (v : keygenR1Bcast) : Prop := bc_fits v /\ auth net i pay_bc n v.

(** ** Phases *)
Definition opened {V} (A : nat -> V -> Prop) (i : nat) (o : option (jsonExpect V)) : Prop :=
  exists e, o = Some e /\ collecting A (others i) e.
Definition closed {V} (A : nat -> V -> Prop) (i : nat) (o : option (jsonExpect V)) (l : list (option V)) : Prop :=
  exists e, o = Some e /\ collecting A (others i) e /\ je_missing e = 0 /\ je_Packet e = l.
Definition half {V} (A : nat -> V -> Prop) (i : nat) (o : option (jsonExpect V)) (x : option (list (option V))) : Prop :=
  match x with None => opened A i o | Some l => closed A i o l end.

(** The core after the halves of round 1 that have come. *)
Definition part (b : option (list (option keygenR1Bcast))) (u : option (list (option keygenR1Unicast))) (s1 : Core) : Core :=
  let s := match b with Some b => with_self (with_join (fun _ => b) (fun u => u)) s1 | None => s1 end in
  match u with Some u => with_self (with_join (fun b => b) (fun _ => u)) s | None => s end.

(** The party as it started. *)
Record begun (i : nat) (ssid : bytes) (p : list Z) (flat : list bytes) (us : list KMsg) (s1 : Core) : Prop := {
  be_ssid : keygenSession h (P i) = Ok ssid;
  be_started : started i (P i) ssid p flat us s1
}.

Inductive phase (net : Net) (i : nat) (nd : Node) : Prop :=
| ph_failed : kg_Done (self (core nd)) = None -> shut (e_bc nd) -> shut (e_uc nd) -> shut (e_ec nd) -> shut (e_r2 nd) -> phase net i nd
| ph_join ssid p flat us s1 b u : begun i ssid p flat us s1 -> core nd = part b u s1 -> b = None \/ u = None ->
    half (auth_bc net i) i (e_bc nd) b -> half (auth net i pay_uc) i (e_uc nd) u -> e_ec nd = None -> e_r2 nd = None -> phase net i nd
| ph_echo ssid p flat us s1 b u : begun i ssid p flat us s1 -> echoed i (P i) b u s1 (core nd) ->
    closed (auth_bc net i) i (e_bc nd) b -> closed (auth net i pay_uc) i (e_uc nd) u -> opened (auth net i pay_ec) i (e_ec nd) ->
    e_r2 nd = None -> phase net i nd
| ph_wait ssid p flat us s1 b u s2 e : begun i ssid p flat us s1 -> echoed i (P i) b u s1 s2 -> answered i (P i) ssid e s2 (core nd) ->
    closed (auth_bc net i) i (e_bc nd) b -> closed (auth net i pay_uc) i (e_uc nd) u -> closed (auth net i pay_ec) i (e_ec nd) e ->
    opened (auth net i pay_r2) i (e_r2 nd) -> phase net i nd
| ph_done ssid p flat us s1 b u s2 e s3 r key : begun i ssid p flat us s1 -> echoed i (P i) b u s1 s2 -> answered i (P i) ssid e s2 s3 ->
    finished i (P i) r s3 (core nd) key ->
    closed (auth_bc net i) i (e_bc nd) b -> closed (auth net i pay_uc) i (e_uc nd) u -> closed (auth net i pay_ec) i (e_ec nd) e ->
    closed (auth net i pay_r2) i (e_r2 nd) r -> phase net i nd.

(** ** Growth *)
(** Nodes are added and send more. *)
Definition grows (net net' : Net) : Prop :=
  forall j nd, net !! j = Some nd -> exists nd' l, net' !! j = Some nd' /\ sent (core nd') = sent (core nd) ++ l.

Lemma auth_grows {V} net net' i (pay : V -> KMsg -> Prop) n v : grows net net' -> auth net i pay n v -> auth net' i pay n v.
Proof.
  intros G A pid En j r Hj Er Ek. destruct (A pid En j r Hj Er Ek) as (nd & m & E & Hm & Hp & Ht).
  destruct (G j nd E) as (nd' & l & E' & Es). exists nd', m. split; [assumption|]. split; [|auto]. rewrite Es. apply elem_of_app. now left.
Qed.
Lemma collecting_impl {V} (A A' : nat -> V -> Prop) ids e : (forall n v, A n v -> A' n v) -> collecting A ids e -> collecting A' ids e.
Proof. intros HA [C1 C2]. constructor; [assumption|]. intros n v E. apply HA, (C2 n v E). Qed.
Lemma opened_impl {V} (A A' : nat -> V -> Prop) i o : (forall n v, A n v -> A' n v) -> opened A i o -> opened A' i o.
Proof. intros HA (e & E & C). exists e. split; [assumption|]. eapply collecting_impl; eassumption. Qed.
Lemma closed_impl {V} (A A' : nat -> V -> Prop) i o l : (forall n v, A n v -> A' n v) -> closed A i o l -> closed A' i o l.
Proof. intros HA (e & E & C & R). exists e. split; [assumption|]. split; [eapply collecting_impl; eassumption|assumption]. Qed.
Lemma half_impl {V} (A A' : nat -> V -> Prop) i o x : (forall n v, A n v -> A' n v) -> half A i o x -> half A' i o x.
Proof. intros HA. destruct x; [apply closed_impl|apply opened_impl]; exact HA. Qed.

Lemma phase_grows net net' i nd : grows net net' -> phase net i nd -> phase net' i nd.
Proof.
  intros G. assert (A : forall V (pay : V -> KMsg -> Prop) n v, auth net i pay n v -> auth net' i pay n v) by (intros; eapply auth_grows; eassumption).
  assert (B : forall n v, auth_bc net i n v -> auth_bc net' i n v) by (intros n v [F K]; split; [assumption|now apply A]).
  intros [H1 H2 H3 H4 H5|ssid p flat us s1 b u H1 H2 H3 H4 H5 H6 H7|ssid p flat us s1 b u H1 H2 H3 H4 H5 H6|ssid p flat us s1 b u s2 e H1 H2 H3 H4 H5 H6 H7|
    ssid p flat us s1 b u s2 e s3 r key H1 H2 H3 H4 H5 H6 H7 H8].
  - now apply ph_failed.
  - eapply ph_join; try eassumption; eapply half_impl; try eassumption; auto.
  - eapply ph_echo; try eassumption; [eapply closed_impl; [exact B|exact H3]|eapply closed_impl; [apply A|exact H4]|eapply opened_impl; [apply A|exact H5]].
  - eapply ph_wait; try eassumption; [eapply closed_impl; [exact B|exact H4]|eapply closed_impl; [apply A|exact H5]|eapply closed_impl; [apply A|exact H6]|
      eapply opened_impl; [apply A|exact H7]].
  - eapply ph_done; try eassumption; [eapply closed_impl; [exact B|exact H5]|eapply closed_impl; [apply A|exact H6]|eapply closed_impl; [apply A|exact H7]|
      eapply closed_impl; [apply A|exact H8]].
Qed.

(** ** A node that starts *)
Lemma collecting_new {V} (A : nat -> V -> Prop) typ ids : collecting A ids (NewJsonExpect typ ids).
Proof.
  constructor; [reflexivity|]. intros n v E. cbn in E. apply nth_error_In, repeat_spec in E. discriminate.
Qed.

Lemma start_phase net i rp rr rs nd : (i < length refs)%nat -> Forall is_byte rp -> Forall is_byte rr -> Forall is_byte rs ->
  start_node h reg (P i) rp rr rs = Ok (Some nd) -> phase net i nd.
Proof.
  intros Hi Fp Fr Fs HR. unfold start_node in HR. apply rbind_ok in HR as ([o e] & E & HR). destruct o as [s|]; [|discriminate].
  injection HR as <-. destruct e as [e|].
  - (* round 1 failed *)
    unfold NewKeygen in E. destruct (negb _); [discriminate|]. apply rbind_ok in E as (ssid & _ & E). cbv zeta in E.
    apply rbind_ok in E as ([s1 [[]|e1]] & E & K); [discriminate|]. injection K as -> _.
    apply round1_fails in E as (_ & Ed & Ec). cbn in Ed, Ec.
    rewrite attach_same by exact Ec. apply ph_failed; cbn; [exact Ed|intros ? [=]..].
  - destruct (start_run Hne CM reg i (P i) rp rr rs s (HP i Hi) Fp Fr Fs E) as (ssid & p & flat & us & Es & S).
    rewrite (attach_app _ _ [(keygenTypeR1Bcast, others i); (keygenTypeR1Unicast, others i)]) by (rewrite (sd_conn _ _ _ _ _ _ _ S); reflexivity).
    eapply (ph_join net i _ ssid p flat us s None None); [constructor; eassumption|reflexivity|now left| | |reflexivity|reflexivity].
    + exists (NewJsonExpect keygenTypeR1Bcast (others i)). split; [reflexivity|apply collecting_new].
    + exists (NewJsonExpect keygenTypeR1Unicast (others i)). split; [reflexivity|apply collecting_new].
Qed.

(** ** A delivery *)
(** An accepted message fills a position with an authentic packet. *)
Lemma authentic_auth net i m f n p : (i < length refs)%nat -> authentic h refs honest net i m -> nth_error (others i) n = Some p -> from_of m = Some f ->
  KeyInt h p = KeyInt h f -> from_honest net i p (same_payload m).
Proof.
  intros Hi A En Ef Ek j r Hj Er Ekr. assert (Vp : valid_ref h p).
  { pose proof (others_valid h refs CM i) as F. rewrite List.Forall_forall in F. apply F. now apply nth_error_In in En. }
  apply (A j r f Hj Er Ef). rewrite (KeyInt_valid h p Vp) in Ek. unfold Party.key_of at 1. now rewrite <- Ek.
Qed.

Lemma from_honest_impl net i p (pay pay' : KMsg -> Prop) : (forall m, pay m -> pay' m) -> from_honest net i p pay -> from_honest net i p pay'.
Proof. intros HA F j r Hj Er Ek. destruct (F j r Hj Er Ek) as (nd & m & E & Hm & Hp & Ht). exists nd, m. auto. Qed.

Lemma accept {V} (pay : V -> KMsg -> Prop) km net i n p f v : (i < length refs)%nat -> authentic h refs honest net i km ->
  (forall m', same_payload km m' -> pay v m') ->
  nth_error (others i) n = Some p -> from_of km = Some f -> KeyInt h p = KeyInt h f -> auth net i pay n v.
Proof.
  intros Hi A S En Ef Ek p' En'. rewrite En in En'. injection En' as <-.
  exact (from_honest_impl net i p _ _ S (authentic_auth net i km f n p Hi A En Ef Ek)).
Qed.

Ltac same_value := let m' := fresh "m'" in let v' := fresh "v'" in let a := fresh "a" in
  intros m' S; destruct m' as [a|a|a|a]; try contradiction; destruct S as (v' & E1 & E2);
  match goal with E : JsonGet _ = Ok (Some _) |- _ => rewrite E in E1; injection E1 as <- end; exists a; auto.
Lemma same_bc (m : JsonMessage keygenR1Bcast (Raw (T := keygenR1Bcast))) v : JsonGet m = Ok (Some v) -> forall m', same_payload (KBcast m) m' -> pay_bc v m'.
Proof. intros E. same_value. Qed.
Lemma same_uc (m : JsonMessage keygenR1Unicast (Raw (T := keygenR1Unicast))) v : JsonGet m = Ok (Some v) -> forall m', same_payload (KUnicast m) m' -> pay_uc v m'.
Proof. intros E. same_value. Qed.
Lemma same_ec (m : JsonMessage echoMsg (Raw (T := echoMsg))) v : JsonGet m = Ok (Some v) -> forall m', same_payload (KEcho m) m' -> pay_ec v m'.
Proof. intros E. same_value. Qed.
Lemma same_r2 (m : JsonMessage keygenR2 (Raw (T := keygenR2))) v : JsonGet m = Ok (Some v) -> forall m', same_payload (KR2 m) m' -> pay_r2 v m'.
Proof. intros E. same_value. Qed.

Lemma closed_shut {V} (A : nat -> V -> Prop) i o l : closed A i o l -> shut o.
Proof. intros (e & -> & _ & Hz & _) e' E. now injection E as <-. Qed.
Lemma none_shut {V} (o : option (jsonExpect V)) : o = None -> shut o.
Proof. intros -> e E. discriminate. Qed.
Lemma complete_shut {V} (e : jsonExpect V) : je_missing e = 0 -> shut (Some e).
Proof. intros Hz e' E. now injection E as <-. Qed.
Lemma complete_closed {V} (A : nat -> V -> Prop) i e : collecting A (others i) e -> je_missing e = 0 -> closed A i (Some e) (je_Packet e).
Proof. intros C Hz. exists e. auto. Qed.

(** A node that keeps its phase and sends more. *)
Definition moved (net : Net) (i : nat) (nd nd' : Node) : Prop := phase net i nd' /\ exists l, sent (core nd') = sent (core nd) ++ l.
Lemma moved_same net i nd nd' : phase net i nd -> nd' = {| core := core nd; e_bc := e_bc nd; e_uc := e_uc nd; e_ec := e_ec nd; e_r2 := e_r2 nd |} -> moved net i nd nd'.
Proof. intros H1 ->. split; [now destruct nd|]. exists []. now rewrite app_nil_r. Qed.

(** The second half of round 1 has come: the echo starts, or the node fails. *)
Lemma echo_starts net i nd nd' ssid p flat us s1 b u ctx s : begun i ssid p flat us s1 -> connected (core nd) = connected s1 -> sent (core nd) = sent s1 ->
  closed (auth_bc net i) i (e_bc nd) b -> closed (auth net i pay_uc) i (e_uc nd) u -> e_ec nd = None -> e_r2 nd = None ->
  run_handler (startEchoPhase h ctx (others i)) (joined b u s1) = Ok s -> nd' = attach nd s -> moved net i nd nd'.
Proof.
  intros B Ec Es Cb Cu Ee Er HR ->. pose proof (be_started _ _ _ _ _ _ B) as S.
  apply run_handler_inv in HR as [HR|((l & E1) & E2 & E3)]; [| |apply startEcho_fails].
  - apply (startEcho_run i (P i)) in HR; [|exact (do_params _ _ _ _ (sd_dealing _ _ _ _ _ _ _ S))].
    destruct (ec_digests _ _ _ _ _ _ HR) as (D & _ & Esn).
    rewrite (attach_app _ _ [(keygenTypeEcho, others i)]) by (rewrite Ec; exact (ec_conn _ _ _ _ _ _ HR)). split.
    + eapply (ph_echo net i _ ssid p flat us s1 b u); [exact B|exact HR|exact Cb|exact Cu| |exact Er].
      exists (NewJsonExpect keygenTypeEcho (others i)). split; [reflexivity|apply collecting_new].
    + eexists. cbn [fold_left attach_one core]. rewrite Es. exact Esn.
  - cbn [joined with_self connected sent self] in E1, E2, E3. rewrite attach_same by (rewrite Ec; exact E3). split.
    + apply ph_failed; cbn [core e_bc e_uc e_ec e_r2]; [|exact (closed_shut _ _ _ _ Cb)|exact (closed_shut _ _ _ _ Cu)|now apply none_shut|now apply none_shut].
      rewrite E2. apply (sd_fresh _ _ _ _ _ _ _ S).
    + exists l. cbn [core]. rewrite Es. exact E1.
Qed.

Lemma deliver_bc net i nd m ctx ctx' nd' : (i < length refs)%nat -> phase net i nd -> authentic h refs honest net i (KBcast m) -> msg_fits (KBcast m) ->
  deliver h ctx ctx' nd (KBcast m) = Ok nd' -> moved net i nd nd'.
Proof.
  intros Hi PH A F HD. cbn [deliver] in HD.
  assert (Sh : shut (e_bc nd) -> moved net i nd nd') by (intros Sh; apply dispatch_shut in HD; [|assumption]; now apply moved_same).
  assert (Am : forall n p f v, nth_error (others i) n = Some p -> jm_From m = Some f -> KeyInt h p = KeyInt h f -> JsonGet m = Ok (Some v) -> auth_bc net i n v).
  { intros n p f v En Ef Ek Ev. split; [exact (F v Ev)|]. exact (accept pay_bc (KBcast m) net i n p f v Hi A (same_bc m v Ev) En Ef Ek). }
  destruct PH as [H1 H2 _ _ _|ssid p flat us s1 b u B Ec Hn Hb Hu He Hr|ssid p flat us s1 b u _ _ Cb _ _ _|? ? ? ? ? b u ? ? _ _ _ Cb|? ? ? ? ? b u ? ? ? ? ? _ _ _ _ Cb];
    try (apply Sh; first [assumption|exact (closed_shut _ _ _ _ Cb)]).
  destruct b as [b|]; [apply Sh; exact (closed_shut _ _ _ _ Hb)|]. destruct Hb as (e & Ee & C). rewrite Ee in HD.
  destruct (dispatch_inv h _ _ e m _ _ nd' C Am HD) as (e' & C' & [->|(Hz & s & HR & ->)]); clear HD Sh.
  - split; [|exists []; now rewrite app_nil_r]. eapply ph_join; [exact B|exact Ec|now left|exists e'; auto|exact Hu|exact He|exact Hr].
  - pose proof (be_started _ _ _ _ _ _ B) as S. destruct (sd_fresh _ _ _ _ _ _ _ S) as (J0 & _). cbn [core] in HR. rewrite Ec in HR.
    set (nd1 := {| core := core nd; e_bc := Some e'; e_uc := e_uc nd; e_ec := e_ec nd; e_r2 := e_r2 nd |}).
    destruct u as [u|]; cbn [part] in HR.
    + unfold run_handler, handle in HR. rewrite (onR1Bcast_second ctx (others i) (je_Packet e') u s1 J0) in HR.
      assert (K : moved net i nd1 (attach nd1 s)).
      { apply (echo_starts net i nd1 _ ssid p flat us s1 (je_Packet e') u ctx s B); cbn [nd1 core e_bc e_uc e_ec e_r2];
          [now rewrite Ec|now rewrite Ec|now apply complete_closed|exact Hu|exact He|exact Hr|exact HR|reflexivity]. }
      exact K.
    + unfold run_handler, handle in HR. rewrite (onR1Bcast_first ctx (others i) (je_Packet e') s1 J0) in HR. injection HR as <-.
      rewrite attach_same by (cbn [nd1 core]; now rewrite Ec). split; [|exists []; cbn [nd1 core]; now rewrite app_nil_r, Ec].
      eapply (ph_join net i _ ssid p flat us s1 (Some (je_Packet e')) None); [exact B|reflexivity|now right|now apply complete_closed|exact Hu|exact He|exact Hr].
Qed.

Lemma deliver_uc net i nd m ctx ctx' nd' : (i < length refs)%nat -> phase net i nd -> authentic h refs honest net i (KUnicast m) ->
  deliver h ctx ctx' nd (KUnicast m) = Ok nd' -> moved net i nd nd'.
Proof.
  intros Hi PH A HD. cbn [deliver] in HD.
  assert (Sh : shut (e_uc nd) -> moved net i nd nd') by (intros Sh; apply dispatch_shut in HD; [|assumption]; now apply moved_same).
  assert (Am : forall n p f v, nth_error (others i) n = Some p -> jm_From m = Some f -> KeyInt h p = KeyInt h f -> JsonGet m = Ok (Some v) -> auth net i pay_uc n v)
    by (intros n p f v En Ef Ek Ev; exact (accept pay_uc (KUnicast m) net i n p f v Hi A (same_uc m v Ev) En Ef Ek)).
  destruct PH as [H1 _ H2 _ _|ssid p flat us s1 b u B Ec Hn Hb Hu He Hr|ssid p flat us s1 b u _ _ _ Cb _ _|? ? ? ? ? b u ? ? _ _ _ _ Cb|? ? ? ? ? b u ? ? ? ? ? _ _ _ _ _ Cb];
    try (apply Sh; first [assumption|exact (closed_shut _ _ _ _ Cb)]).
  destruct u as [u|]; [apply Sh; exact (closed_shut _ _ _ _ Hu)|]. destruct Hu as (e & Ee & C). rewrite Ee in HD.
  destruct (dispatch_inv h _ _ e m _ _ nd' C Am HD) as (e' & C' & [->|(Hz & s & HR & ->)]); clear HD Sh.
  - split; [|exists []; now rewrite app_nil_r]. eapply ph_join; [exact B|exact Ec|now right|exact Hb|exists e'; auto|exact He|exact Hr].
  - pose proof (be_started _ _ _ _ _ _ B) as S. destruct (sd_fresh _ _ _ _ _ _ _ S) as (J0 & _). cbn [core] in HR. rewrite Ec in HR.
    set (nd1 := {| core := core nd; e_bc := e_bc nd; e_uc := Some e'; e_ec := e_ec nd; e_r2 := e_r2 nd |}).
    destruct b as [b|]; cbn [part] in HR.
    + unfold run_handler, handle in HR. rewrite (onR1Unicast_second ctx (others i) b (je_Packet e') s1 J0) in HR.
      assert (K : moved net i nd1 (attach nd1 s)).
      { apply (echo_starts net i nd1 _ ssid p flat us s1 b (je_Packet e') ctx s B); cbn [nd1 core e_bc e_uc e_ec e_r2];
          [now rewrite Ec|now rewrite Ec|exact Hb|now apply complete_closed|exact He|exact Hr|exact HR|reflexivity]. }
      exact K.
    + unfold run_handler, handle in HR. rewrite (onR1Unicast_first ctx (others i) (je_Packet e') s1 J0) in HR. injection HR as <-.
      rewrite attach_same by (cbn [nd1 core]; now rewrite Ec). split; [|exists []; cbn [nd1 core]; now rewrite app_nil_r, Ec].
      eapply (ph_join net i _ ssid p flat us s1 None (Some (je_Packet e'))); [exact B|reflexivity|now left|exact Hb|now apply complete_closed|exact He|exact Hr].
Qed.

Lemma deliver_ec net i nd m ctx ctx' nd' : (i < length refs)%nat -> phase net i nd -> authentic h refs honest net i (KEcho m) ->
  deliver h ctx ctx' nd (KEcho m) = Ok nd' -> moved net i nd nd'.
Proof.
  intros Hi PH A HD. cbn [deliver] in HD.
  assert (Sh : shut (e_ec nd) -> moved net i nd nd') by (intros Sh; apply dispatch_shut in HD; [|assumption]; now apply moved_same).
  assert (Am : forall n p f v, nth_error (others i) n = Some p -> jm_From m = Some f -> KeyInt h p = KeyInt h f -> JsonGet m = Ok (Some v) -> auth net i pay_ec n v)
    by (intros n p f v En Ef Ek Ev; exact (accept pay_ec (KEcho m) net i n p f v Hi A (same_ec m v Ev) En Ef Ek)).
  destruct PH as [H1 _ _ H2 _|ssid p flat us s1 b u B Ec Hn Hb Hu He Hr|ssid p flat us s1 b u B Hec Cb Cu He Hr|? ? ? ? ? b u ? ? _ _ _ _ _ Cb|? ? ? ? ? b u ? ? ? ? ? _ _ _ _ _ _ Cb];
    try (apply Sh; first [assumption|exact (closed_shut _ _ _ _ Cb)|now apply none_shut]).
  destruct He as (e & Ee & C). rewrite Ee in HD.
  destruct (dispatch_inv h _ _ e m _ _ nd' C Am HD) as (e' & C' & [->|(Hz & s & HR & ->)]); clear HD Sh.
  - split; [|exists []; now rewrite app_nil_r]. eapply ph_echo; [exact B|exact Hec|exact Cb|exact Cu|exists e'; auto|exact Hr].
  - pose proof (be_started _ _ _ _ _ _ B) as S. destruct (sd_fresh _ _ _ _ _ _ _ S) as (_ & _ & _ & Dn & _). cbn [core] in HR.
    assert (Ek : self (core nd) = self (joined b u s1)) by apply (ec_kg _ _ _ _ _ _ Hec).
    apply run_handler_inv in HR as [HR|((l & E1) & E2 & E3)]; [| |apply onEcho_fails].
    + apply (onEcho_run (T := T) (pt := pt) CM i (P i) ssid) in HR; [|exact (HP i Hi)|rewrite Ek; exact (do_params _ _ _ _ (sd_dealing _ _ _ _ _ _ _ S))|
        rewrite Ek; exact (do_ssid _ _ _ _ (sd_dealing _ _ _ _ _ _ _ S))|rewrite (ec_rand _ _ _ _ _ _ Hec); exact (sd_rand _ _ _ _ _ _ _ S)|
        rewrite (ec_sys _ _ _ _ _ _ Hec); exact (sd_sys _ _ _ _ _ _ _ S)|exact (sd_T _ _ _ _ _ _ _ S)].
      rewrite (attach_app _ _ [(keygenTypeR2, others i)]) by exact (an_conn _ _ _ _ _ _ HR). split.
      * eapply (ph_wait net i _ ssid p flat us s1 b u (core nd)); [exact B|exact Hec|exact HR|exact Cb|exact Cu|now apply complete_closed|].
        exists (NewJsonExpect keygenTypeR2 (others i)). split; [reflexivity|apply collecting_new].
      * destruct (an_sent _ _ _ _ _ _ HR) as (ms & Em & _). exists ms. exact Em.
    + rewrite attach_same by exact E3. split; [|exists l; exact E1].
      apply ph_failed; cbn [core e_bc e_uc e_ec e_r2]; [|exact (closed_shut _ _ _ _ Cb)|exact (closed_shut _ _ _ _ Cu)|now apply complete_shut|now apply none_shut].
      rewrite E2, Ek. exact Dn.
Qed.

Lemma deliver_r2 net i nd m ctx ctx' nd' : (i < length refs)%nat -> phase net i nd -> authentic h refs honest net i (KR2 m) ->
  deliver h ctx ctx' nd (KR2 m) = Ok nd' -> moved net i nd nd'.
Proof.
  intros Hi PH A HD. cbn [deliver] in HD.
  assert (Sh : shut (e_r2 nd) -> moved net i nd nd') by (intros Sh; apply dispatch_shut in HD; [|assumption]; now apply moved_same).
  assert (Am : forall n p f v, nth_error (others i) n = Some p -> jm_From m = Some f -> KeyInt h p = KeyInt h f -> JsonGet m = Ok (Some v) -> auth net i pay_r2 n v)
    by (intros n p f v En Ef Ek Ev; exact (accept pay_r2 (KR2 m) net i n p f v Hi A (same_r2 m v Ev) En Ef Ek)).
  destruct PH as [H1 _ _ _ H2|ssid p flat us s1 b u B Ec Hn Hb Hu He Hr|ssid p flat us s1 b u B Hec Cb Cu He Hr|
    ssid p flat us s1 b u s2 e0 B Hec Han Cb Cu Ce Hr|? ? ? ? ? b u ? ? ? ? ? _ _ _ _ _ _ _ Cb];
    try (apply Sh; first [assumption|exact (closed_shut _ _ _ _ Cb)|now apply none_shut]).
  destruct Hr as (e & Ee & C). rewrite Ee in HD.
  destruct (dispatch_inv h _ _ e m _ _ nd' C Am HD) as (e' & C' & [->|(Hz & s & HR & ->)]); clear HD Sh.
  - split; [|exists []; now rewrite app_nil_r]. eapply ph_wait; [exact B|exact Hec|exact Han|exact Cb|exact Cu|exact Ce|exists e'; auto].
  - pose proof (be_started _ _ _ _ _ _ B) as S. destruct (sd_fresh _ _ _ _ _ _ _ S) as (_ & _ & _ & Dn & _). cbn [core] in HR.
    pose proof (an_same _ _ _ _ _ _ Han) as Sm. assert (Ek : self s2 = self (joined b u s1)) by apply (ec_kg _ _ _ _ _ _ Hec).
    apply run_handler_inv in HR as [HR|((l & E1) & E2 & E3)]; [| |apply finalize_fails].
    + apply (finalize_run (T := T) CM i (P i)) in HR as (key & HR); [|exact (HP i Hi)|rewrite (sp_params _ _ Sm), Ek; exact (do_params _ _ _ _ (sd_dealing _ _ _ _ _ _ _ S))|
        exact (an_sys _ _ _ _ _ _ Han)].
      rewrite attach_same by exact (fi_conn _ _ _ _ _ _ HR). split; [|exists []; rewrite app_nil_r; exact (fi_sent _ _ _ _ _ _ HR)].
      eapply (ph_done net i _ ssid p flat us s1 b u s2 e0 (core nd)); [exact B|exact Hec|exact Han|exact HR|exact Cb|exact Cu|exact Ce|now apply complete_closed].
    + rewrite attach_same by exact E3. split; [|exists l; exact E1].
      apply ph_failed; cbn [core e_bc e_uc e_ec e_r2]; [|exact (closed_shut _ _ _ _ Cb)|exact (closed_shut _ _ _ _ Cu)|exact (closed_shut _ _ _ _ Ce)|now apply complete_shut].
      rewrite E2, (sp_done _ _ Sm), Ek. exact Dn.
Qed.

(** ** The invariant *)
Definition invariant (net : Net) : Prop := forall i nd, net !! i = Some nd -> (i < length refs)%nat /\ honest i = true /\ phase net i nd.

Lemma grows_insert (net : Net) i nd : (forall nd0, net !! i = Some nd0 -> exists l, sent (core nd) = sent (core nd0) ++ l) -> grows net (<[i := nd]> net).
Proof.
  intros Hs j nd0 Ej. destruct (decide (i = j)) as [<-|Hij].
  - destruct (Hs nd0 Ej) as (l & El). exists nd, l. rewrite lookup_insert_eq. auto.
  - exists nd0, []. rewrite lookup_insert_ne, app_nil_r by assumption. auto.
Qed.

Lemma reachable_invariant net : reachable h reg refs P honest net -> invariant net.
Proof.
  induction 1 as [|net net' HR IH St]; [intros i nd E; now rewrite lookup_empty in E|].
  destruct St as [net i rp rr rs nd Hi Hh En Fp Fr Fs Es|net i nd m ctx ctx' nd' En A F Ed].
  - assert (G : grows net (<[i := nd]> net)) by (apply grows_insert; intros nd0 E; congruence).
    intros j nd' Ej. destruct (decide (i = j)) as [<-|Hij].
    + rewrite lookup_insert_eq in Ej. injection Ej as <-. split; [assumption|]. split; [assumption|]. exact (start_phase _ i rp rr rs nd Hi Fp Fr Fs Es).
    + rewrite lookup_insert_ne in Ej by assumption. destruct (IH j nd' Ej) as (A1 & A2 & A3). split; [assumption|]. split; [assumption|]. exact (phase_grows _ _ _ _ G A3).
  - destruct (IH i nd En) as (Hi & Hh & PH).
    assert (M : moved net i nd nd').
    { destruct m; [exact (deliver_bc net i nd _ ctx ctx' nd' Hi PH A F Ed)|exact (deliver_uc net i nd _ ctx ctx' nd' Hi PH A Ed)|
        exact (deliver_ec net i nd _ ctx ctx' nd' Hi PH A Ed)|exact (deliver_r2 net i nd _ ctx ctx' nd' Hi PH A Ed)]. }
    destruct M as [PH' (l & El)].
    assert (G : grows net (<[i := nd']> net)) by (apply grows_insert; intros nd0 E; rewrite En in E; injection E as <-; eauto).
    intros j nd0 Ej. destruct (decide (i = j)) as [<-|Hij].
    + rewrite lookup_insert_eq in Ej. injection Ej as <-. split; [assumption|]. split; [assumption|]. exact (phase_grows _ _ _ _ G PH').
    + rewrite lookup_insert_ne in Ej by assumption. destruct (IH j nd0 Ej) as (A1 & A2 & A3). split; [assumption|]. split; [assumption|]. exact (phase_grows _ _ _ _ G A3).
Qed.
End Invariant.
