(* ===== verification/DklsKeygenAgree.v ===== *)
(** * The brokered key generation of [dklstss]: agreement

    Two honest parties that finish hold the same public key, whatever the others
    sent: the echo makes them agree on everyone's commitments, and the rest is a
    function of these.  [CurveLog] says of the curve that every point it accepts is
    a multiple of its generator and is added as such. *)
From stdpp Require Import base gmap list strings pretty.
From Stdlib Require Import ZArith String List Lia Bool Permutation.
From S2P Require Import Prelude GoBig Common Curve CtMul Field Vss Schnorr Bits OtExt OtExtCorrect BaseOt Ole Party Handler Json.
From S2P Require Import Dkls DklsSetup DklsSign DklsSignCorrect DklsKeygen DklsEcho DklsRoster DklsKeygenParty DklsKeygenRun DklsKeygenNet DklsKeygenSafe.
Import ListNotations.
Open Scope string_scope.
Open Scope Z_scope.
Open Scope list_scope.

Class CurveLog (C : Curve) (pt : Z -> Z * Z) := {
  dlog : Z -> Z -> Z;
  dlog_pt : forall k, k mod cN C <> 0 -> cong (cN C) (dlog (fst (pt k)) (snd (pt k))) k;
  dlog_add : forall x y x' y', 0 <= x -> 0 <= y -> 0 <= x' -> 0 <= y' -> cIsOnCurve C x y = true -> cIsOnCurve C x' y' = true ->
    cAdd C x y x' y' = pt (dlog x y + dlog x' y')
}.

(** ** The runs of the parties that finished *)
Section Agree.
Context `{HS : Hash} `{SH : Sha256} `{AE : Aes} `{CS : Curves} `{SL : Secp256k1Lib} `{EL : Ed25519Lib} `{ML : MapRangeLaws}.
Context `{KJ : KeygenJson} `{BR : !Broker KMsg}.
Context {pt : Z -> Z * Z} {L : CurveLaws S256 pt false} {CT : CtCurve S256 pt false}.
Hypothesis Hne : curve_eqb S256 Edwards = false.
Context {h : Heap} {refs : list ref} (CM : committee h refs) {T : Z} {reg : CurveState} {P : nat -> Parameters} {honest : nat -> bool}.
Hypothesis HP : forall i, (i < length refs)%nat -> seat (refs := refs) (T := T) i (P i).
Abbreviation q := (cN S256).
Abbreviation pnt := (mkpt S256 pt).
Abbreviation others := (others h refs).
Abbreviation ids := (map (Party.key_of h) refs).
Abbreviation Net := (gmap nat Node).

(** Everything about a node that has delivered a key. *)
Record full_run (net : Net) (i : nat) (nd : Node) (key : Key) (ssid : bytes) (p : list Z) (flat : list bytes) (us : list KMsg) (s1 : Core)
    (b : list (option keygenR1Bcast)) (u : list (option keygenR1Unicast)) (s2 : Core) (e : list (option echoMsg)) (s3 : Core)
    (r : list (option keygenR2)) : Prop := {
  fr_i : (i < length refs)%nat;
  fr_honest : honest i = true;
  fr_begun : begun (pt := pt) (h := h) (refs := refs) (T := T) (P := P) i ssid p flat us s1;
  fr_echoed : echoed (h := h) (refs := refs) i (P i) b u s1 s2;
  fr_answered : answered (h := h) (refs := refs) (T := T) i (P i) ssid e s2 s3;
  fr_finished : finished (h := h) (refs := refs) (T := T) i (P i) r s3 (core nd) key;
  fr_b : forall n v, nth_error b n = Some (Some v) -> auth_bc (h := h) (refs := refs) (honest := honest) net i n v;
  fr_u : forall n v, nth_error u n = Some (Some v) -> auth (h := h) (refs := refs) (honest := honest) net i pay_uc n v;
  fr_e : forall n v, nth_error e n = Some (Some v) -> auth (h := h) (refs := refs) (honest := honest) net i pay_ec n v;
  fr_r : forall n v, nth_error r n = Some (Some v) -> auth (h := h) (refs := refs) (honest := honest) net i pay_r2 n v
}.

Lemma closed_packets {V} (A : nat -> V -> Prop) i o l : closed (h := h) (refs := refs) A i o l -> forall n v, nth_error l n = Some (Some v) -> A n v.
Proof. intros (e & _ & C & _ & <-). exact (cl_packets _ _ _ C). Qed.

Lemma done_run net i nd key : reachable h reg refs P honest net -> net !! i = Some nd -> kg_Done (self (core nd)) = Some key ->
  exists ssid p flat us s1 b u s2 e s3 r, full_run net i nd key ssid p flat us s1 b u s2 e s3 r.
Proof.
  intros HR En Ed. destruct (reachable_invariant Hne CM HP net HR i nd En) as (Hi & Hh & PH).
  assert (N0 : forall ssid p flat us s1, begun (pt := pt) (h := h) (refs := refs) (T := T) (P := P) i ssid p flat us s1 -> kg_Done (self s1) = None)
    by (intros ssid p flat us s1 B; apply (sd_fresh _ _ _ _ _ _ _ (be_started _ _ _ _ _ _ B))).
  destruct PH as [H1 _ _ _ _|ssid p flat us s1 b u B Ec _ _ _ _ _|ssid p flat us s1 b u B Hec _ _ _ _|
    ssid p flat us s1 b u s2 e B Hec Han _ _ _ _|ssid p flat us s1 b u s2 e s3 r key' B Hec Han Hf Cb Cu Ce Cr].
  - congruence.
  - rewrite Ec in Ed. pose proof (N0 _ _ _ _ _ B) as N. destruct b, u; cbn in Ed; congruence.
  - rewrite (ec_kg _ _ _ _ _ _ Hec) in Ed. cbn in Ed. rewrite (N0 _ _ _ _ _ B) in Ed. discriminate.
  - rewrite (sp_done _ _ (an_same _ _ _ _ _ _ Han)), (ec_kg _ _ _ _ _ _ Hec) in Ed. cbn in Ed. rewrite (N0 _ _ _ _ _ B) in Ed. discriminate.
  - exists ssid, p, flat, us, s1, b, u, s2, e, s3, r. rewrite (fi_done _ _ _ _ _ _ Hf), (sp_done _ _ (an_same _ _ _ _ _ _ Han)), (ec_kg _ _ _ _ _ _ Hec) in Ed.
    cbn in Ed. rewrite (N0 _ _ _ _ _ B) in Ed. injection Ed as ->.
    constructor; try assumption; eapply closed_packets; eassumption.
Qed.

(** The keygen session of everyone is the same. *)
Lemma session_same i j : (i < length refs)%nat -> (j < length refs)%nat -> keygenSession h (P i) = keygenSession h (P j).
Proof.
  intros Hi Hj. unfold keygenSession. now rewrite (st_refs _ _ (HP i Hi)), (st_refs _ _ (HP j Hj)), (st_T _ _ (HP i Hi)), (st_T _ _ (HP j Hj)).
Qed.

Section Run.
Context {net : Net} {i : nat} {nd : Node} {key : Key} {ssid : bytes} {p : list Z} {flat : list bytes} {us : list KMsg} {s1 : Core}
  {b : list (option keygenR1Bcast)} {u : list (option keygenR1Unicast)} {s2 : Core} {e : list (option echoMsg)} {s3 : Core} {r : list (option keygenR2)}.
Hypothesis FR : full_run net i nd key ssid p flat us s1 b u s2 e s3 r.

Lemma run_started : started (pt := pt) (h := h) (refs := refs) (T := T) i (P i) ssid p flat us s1.
Proof. exact (be_started _ _ _ _ _ _ (fr_begun _ _ _ _ _ _ _ _ _ _ _ _ _ _ _ FR)). Qed.
Lemma run_seat : seat (refs := refs) (T := T) i (P i).
Proof. exact (HP i (fr_i _ _ _ _ _ _ _ _ _ _ _ _ _ _ _ FR)). Qed.
Lemma run_kg2 : self s2 = self (joined b u s1).
Proof. exact (ec_kg _ _ _ _ _ _ (fr_echoed _ _ _ _ _ _ _ _ _ _ _ _ _ _ _ FR)). Qed.
Lemma run_same : same_but_peers (self s2) (self s3).
Proof. exact (an_same _ _ _ _ _ _ (fr_answered _ _ _ _ _ _ _ _ _ _ _ _ _ _ _ FR)). Qed.
Lemma run_dealing : dealing_of (pt := pt) (h := h) (refs := refs) (T := T) (P i) ssid p (self s3).
Proof.
  destruct (sd_dealing _ _ _ _ _ _ _ run_started) as [D1 D2 D3 D4]. pose proof run_kg2 as E. destruct run_same as [S1 S2 S3 S4 _ _ _ _ _].
  constructor; [rewrite S1|rewrite S2|rewrite S3|rewrite S4]; rewrite E; assumption.
Qed.
Lemma run_b : kg_r1Bcasts (self s2) = b.
Proof. now rewrite run_kg2. Qed.
Lemma run_u : kg_r1Unicasts (self s2) = u.
Proof. now rewrite run_kg2. Qed.

(** Everything that the node sent. *)
Lemma run_sent : exists D ms, add_digests h (others i) b empty = Ok D /\
  Forall2 (r2_for (h := h) (refs := refs) (T := T) i (P i) ssid b u (self s3)) (enum (others i)) ms /\
  sent (core nd) = (KBcast (JsonWrap keygenTypeR1Bcast (Some {| VSSCommitments := flat |}) (Some (p_partyID (P i))) None) :: us) ++
    [KEcho (JsonWrap keygenTypeEcho (Some {| Digests := Some D |}) (Some (p_partyID (P i))) None)] ++ ms.
Proof.
  destruct (ec_digests _ _ _ _ _ _ (fr_echoed _ _ _ _ _ _ _ _ _ _ _ _ _ _ _ FR)) as (D & ED & E2).
  destruct (an_sent _ _ _ _ _ _ (fr_answered _ _ _ _ _ _ _ _ _ _ _ _ _ _ _ FR)) as (ms & E3 & F). rewrite run_b, run_u in F.
  exists D, ms. split; [exact ED|]. split; [exact F|].
  rewrite (fi_sent _ _ _ _ _ _ (fr_finished _ _ _ _ _ _ _ _ _ _ _ _ _ _ _ FR)), E3, E2, (sd_sent _ _ _ _ _ _ _ run_started). now rewrite <- app_assoc.
Qed.

Lemma us_unicast m : In m us -> exists pid, In pid (others i) /\ uc_for (h := h) (refs := refs) (T := T) i (P i) ssid p (self s1) pid m.
Proof. intros Hm. destruct (Forall2_In_r _ _ _ (sd_us _ _ _ _ _ _ _ run_started) m Hm) as (pid & Hp & U). eauto. Qed.

Ltac wrong_us Hm := let pid := fresh "pid" in destruct (us_unicast _ Hm) as (pid & _ & ? & ? & ? & ? & ? & ? & _ & _ & _ & _ & X & _); discriminate X.
Ltac wrong_ms F Hm := let np := fresh "np" in destruct (Forall2_In_r _ _ _ F _ Hm) as ([? ?] & _ & R);
  destruct R as (? & ? & ? & ? & ? & ? & ? & ? & ? & ? & ? & ? & ? & _ & _ & _ & _ & _ & _ & _ & _ & _ & _ & _ & _ & _ & _ & X & _); discriminate X.

Lemma sent_bc v m : m ∈ sent (core nd) -> pay_bc v m -> v = {| VSSCommitments := flat |}.
Proof.
  intros Hm (a & -> & Ea). destruct run_sent as (D & ms & _ & F & E). rewrite E in Hm. apply list_elem_of_In in Hm.
  destruct Hm as [Hm|Hm]; [injection Hm as <-; cbn in Ea; congruence|]. apply in_app_or in Hm as [Hm|[Hm|Hm]]; [wrong_us Hm|discriminate Hm|wrong_ms F Hm].
Qed.
Lemma sent_ec v m : m ∈ sent (core nd) -> pay_ec v m -> exists D, add_digests h (others i) b empty = Ok D /\ v = {| Digests := Some D |}.
Proof.
  intros Hm (a & -> & Ea). destruct run_sent as (D & ms & ED & F & E). rewrite E in Hm. apply list_elem_of_In in Hm. exists D. split; [exact ED|].
  destruct Hm as [Hm|Hm]; [discriminate Hm|]. apply in_app_or in Hm as [Hm|[Hm|Hm]]; [wrong_us Hm|injection Hm as <-; cbn in Ea; congruence|wrong_ms F Hm].
Qed.
Lemma sent_uc v m : m ∈ sent (core nd) -> pay_uc v m ->
  exists pid, In pid (others i) /\ to_of m = Some pid /\ uc_for (h := h) (refs := refs) (T := T) i (P i) ssid p (self s1) pid m.
Proof.
  intros Hm (a & -> & Ea). destruct run_sent as (D & ms & _ & F & E). rewrite E in Hm. apply list_elem_of_In in Hm.
  destruct Hm as [Hm|Hm]; [discriminate Hm|]. apply in_app_or in Hm as [Hm|[Hm|Hm]]; [|discriminate Hm|wrong_ms F Hm].
  destruct (us_unicast _ Hm) as (pid & Hp & U). exists pid. split; [assumption|]. split; [|exact U].
  destruct U as (? & ? & ? & ? & ? & ? & _ & _ & _ & _ & X & _). now injection X as ->.
Qed.
Lemma sent_r2 v m : m ∈ sent (core nd) -> pay_r2 v m ->
  exists n pid, nth_error (others i) n = Some pid /\ to_of m = Some pid /\ r2_for (h := h) (refs := refs) (T := T) i (P i) ssid b u (self s3) (n, pid) m.
Proof.
  intros Hm (a & -> & Ea). destruct run_sent as (D & ms & _ & F & E). rewrite E in Hm. apply list_elem_of_In in Hm.
  destruct Hm as [Hm|Hm]; [discriminate Hm|]. apply in_app_or in Hm as [Hm|[Hm|Hm]]; [wrong_us Hm|discriminate Hm|].
  destruct (Forall2_In_r _ _ _ F _ Hm) as ([n pid] & Hn & R). exists n, pid. split; [now apply enum_In|]. split; [|exact R].
  destruct R as (? & ? & ? & ? & ? & ? & ? & ? & ? & ? & ? & ? & ? & _ & _ & _ & _ & _ & _ & _ & _ & _ & _ & _ & _ & _ & _ & X & _). now injection X as ->.
Qed.
End Run.

(** ** Everyone's commitments *)
(** A loop that stores a value at each party's index. *)
Lemma place_run {V} (step : list V -> ref -> res (list V)) (f : ref -> res V) x0 n out : n = length refs ->
  (forall l d pid, nth_error refs d = Some pid -> step l pid = let! a := f pid in set_idx l (Z.of_nat d) a) ->
  foldM step (repeat x0 n) refs = Ok out ->
  length out = length refs /\ forall d pid, nth_error refs d = Some pid -> exists a, f pid = Ok a /\ nth_error out d = Some a.
Proof.
  intros -> Hs HF.
  set (Q := fun (done : list ref) (out : list V) => done = firstn (length done) refs -> length out = length refs /\
    forall d pid, (d < length done)%nat -> nth_error refs d = Some pid -> exists a, f pid = Ok a /\ nth_error out d = Some a).
  assert (K : Q ([] ++ refs) out).
  { refine (foldM_done Q step refs _ [] _ out _ HF).
    - intros done pid l l' IH E Ep. rewrite length_app in Ep. cbn [length] in Ep. rewrite Nat.add_1_r in Ep.
      assert (El : nth_error refs (length done) = Some pid).
      { rewrite <- (firstn_skipn (S (length done)) refs), <- Ep, nth_error_app1 by (rewrite length_app; cbn; lia).
        rewrite nth_error_app2, Nat.sub_diag by lia. reflexivity. }
      assert (Ed : done = firstn (length done) refs).
      { apply (f_equal (firstn (length done))) in Ep. rewrite firstn_app, Nat.sub_diag, firstn_all, firstn_firstn in Ep. cbn [firstn] in Ep.
        rewrite app_nil_r in Ep. rewrite Ep at 1. f_equal. lia. }
      destruct (IH Ed) as [Hl Hd]. rewrite (Hs l _ pid El) in E. apply rbind_ok in E as (a & Ea & E).
      destruct (set_idx_inv _ _ _ _ E) as (_ & _ & Hl' & I1 & I2). split; [congruence|].
      intros d pid' Hd' Epd. rewrite length_app in Hd'. cbn [length] in Hd'. destruct (Nat.eq_dec d (length done)) as [->|Hne'].
      + rewrite El in Epd. injection Epd as <-. exists a. split; [assumption|]. apply idx_ok. now rewrite <- idxZ_nat.
      + destruct (Hd d pid' ltac:(lia) Epd) as (a' & Ea' & En). exists a'. split; [assumption|]. apply idx_ok. rewrite <- idxZ_nat, I2 by lia. rewrite idxZ_nat. now apply idx_ok.
    - intros _. split; [apply repeat_length|]. intros d pid Hd. cbn in Hd. lia. }
  cbn [app] in K. destruct (K ltac:(symmetry; apply firstn_all)) as [K1 K2]. split; [assumption|].
  intros d pid E. apply K2; [|assumption]. apply nth_error_Some. congruence.
Qed.

Lemma all_commitments_run i k Vall : (i < length refs)%nat -> kg_params k = P i -> all_commitments h k = Ok Vall ->
  length Vall = length refs /\ forall d pid, nth_error refs d = Some pid ->
    nth_error Vall d = Some (if (d =? i)%nat then kg_vs k else default [] (kg_peerVs k !! kstr h pid)).
Proof.
  intros Hi EP HA. unfold all_commitments in HA. rewrite EP, (st_refs _ _ (HP i Hi)) in HA.
  eapply (place_run _ (fun pid => let! k' := KeyInt h pid in Ok (if k' =? id_at h refs i then kg_vs k else default [] (kg_peerVs k !! kstr h pid)))) in HA;
    [|reflexivity|].
  - destruct HA as [Hl Hd]. split; [assumption|]. intros d pid E. destruct (Hd d pid E) as (a & Ea & ->). rewrite (KeyInt_at h refs CM d pid E) in Ea.
    cbn [rbind] in Ea. injection Ea as <-. f_equal. destruct (Nat.eqb_spec d i) as [->|Hd']; [now rewrite Z.eqb_refl|].
    rewrite (proj2 (Z.eqb_neq _ _)); [reflexivity|]. intros X. apply Hd'. destruct (nth_error refs i) as [ri|] eqn:Ei; [|apply nth_error_None in Ei; lia].
    eapply (key_pos h refs CM); [exact E|exact Ei|]. now rewrite (at_key h refs d pid E), (at_key h refs i ri Ei).
  - intros l d pid E. cbn beta. rewrite (KeyInt_at h refs CM d pid E), (KeyInt_at h refs CM i _ (st_me _ _ (HP i Hi))). cbn [rbind].
    destruct (cm_index _ _ CM d pid E) as (pp & Epp & Ipp). unfold load. rewrite Epp. cbn [deref rbind]. rewrite Cmp_eq, Ipp.
    destruct (id_at h refs d =? id_at h refs i); [reflexivity|]. now rewrite (peerKeyStr_valid h pid (at_valid h refs CM d pid E)).
Qed.

(** ** The joint public key *)
Lemma others_perm i ri : nth_error refs i = Some ri -> Permutation (ri :: others i) refs.
Proof.
  intros Ei. assert (Hi : (i < length refs)%nat) by (apply nth_error_Some; congruence). apply Stdlib.Sorting.Permutation.NoDup_Permutation.
  - constructor; [|eapply List.NoDup_map_inv, (others_keys h refs CM i)]. intros X. apply (others_In h refs CM i ri Hi) in X as (d & Hd & Ed).
    apply Hd. eapply (key_pos h refs CM); [exact Ed|exact Ei|reflexivity].
  - eapply List.NoDup_map_inv, (cm_distinct _ _ CM).
  - intros r. cbn [In]. rewrite (others_In h refs CM i r Hi). split.
    + intros [<-|(d & _ & Ed)]; [now apply nth_error_In in Ei|now apply nth_error_In in Ed].
    + intros Hr. apply In_nth_error in Hr as (d & Ed). destruct (Nat.eq_dec d i) as [->|Hd]; [left; congruence|right; eauto].
Qed.

Context {DL : CurveLog S256 pt}.

(** A point that the curve accepts, and its logarithm. *)
Definition curve_pt (w : option ECPoint) : Prop :=
  exists x y, w = Some {| curve := S256; coords := (Some x, Some y) |} /\ 0 <= x /\ 0 <= y /\ cIsOnCurve S256 x y = true.
Definition logp (w : option ECPoint) : Z :=
  match w with Some {| coords := (Some x, Some y) |} => dlog x y | _ => 0 end.

Definition add_point (pub w : option ECPoint) : res (option ECPoint) :=
  let! pub := deref pub in let! v := deref w in let! pub := rewrap "aggregate pubkey" (ECPoint_Add pub v) in Ok (Some pub).

Lemma curve_pt_pnt k : k mod q <> 0 -> curve_pt (Some (pnt k)) /\ cong q (logp (Some (pnt k))) k.
Proof.
  intros Hk. split; [|exact (dlog_pt k Hk)]. exists (fst (pt k)), (snd (pt k)). split; [reflexivity|].
  pose proof (cl_x (CurveLaws := L) k). pose proof (cl_y (CurveLaws := L) k). split; [lia|]. split; [lia|].
  rewrite (cl_on (CurveLaws := L)). cbn [orb]. now rewrite (proj2 (Z.eqb_neq _ _)).
Qed.

Lemma add_point_run a w out : curve_pt a -> curve_pt w -> add_point a w = Ok out ->
  out = Some (pnt (logp a + logp w)) /\ (logp a + logp w) mod q <> 0.
Proof.
  intros (x & y & -> & Hx & Hy & Hon) (x' & y' & -> & Hx' & Hy' & Hon') HA. unfold add_point, ECPoint_Add, ECPoint_X, ECPoint_Y in HA.
  cbn [deref rbind coords fst snd curve] in HA. rewrite dlog_add in HA by assumption. cbn [logp]. set (k := dlog x y + dlog x' y') in *.
  destruct (pt k) as [px py] eqn:Ep. unfold NewECPoint, isOnCurve in HA.
  pose proof (cl_on (CurveLaws := L) k) as On. rewrite Ep in On. cbn [fst snd orb] in On. rewrite On in HA.
  destruct (Z.eqb_spec (k mod q) 0) as [Hz|Hz]; [discriminate|]. cbn in HA. injection HA as <-. split; [|assumption].
  unfold mkpt. now rewrite Ep.
Qed.

Lemma add_points_run l : forall k out, k mod q <> 0 -> Forall curve_pt l -> foldM add_point (Some (pnt k)) l = Ok out ->
  out = Some (pnt (k + zsum (map logp l))).
Proof.
  induction l as [|w l IH]; intros k out Hk F HA; cbn [foldM map] in HA |- *.
  - injection HA as <-. unfold zsum. cbn. now rewrite Z.add_0_r.
  - apply Forall_cons_iff in F as [Fw F]. apply rbind_ok in HA as (a & Ea & HA). destruct (curve_pt_pnt k Hk) as [Ck Lk].
    destruct (add_point_run _ _ _ Ck Fw Ea) as [-> Hz]. rewrite (IH _ _ Hz F HA), zsum_cons. f_equal.
    apply (mkpt_cong (L := L)). rewrite Lk. apply cong_eq. ring.
Qed.

Lemma sum_points_run w0 l out : curve_pt w0 -> Forall curve_pt l -> l <> [] -> foldM add_point w0 l = Ok out ->
  out = Some (pnt (logp w0 + zsum (map logp l))).
Proof.
  intros C0 F Hl HA. destruct l as [|w l]; [contradiction|]. cbn [foldM] in HA. apply rbind_ok in HA as (a & Ea & HA).
  apply Forall_cons_iff in F as [Fw F]. destruct (add_point_run _ _ _ C0 Fw Ea) as [-> Hz]. rewrite (add_points_run _ _ _ Hz F HA).
  cbn [map]. rewrite zsum_cons. do 2 f_equal. ring.
Qed.

Lemma sum_commitments_run (w : ref -> option ECPoint) i ri k pub : nth_error refs i = Some ri -> others i <> [] ->
  nth_error (kg_vs k) 0 = Some (w ri) -> (forall pid, In pid (others i) -> nth_error (default [] (kg_peerVs k !! kstr h pid)) 0 = Some (w pid)) ->
  (forall r, In r refs -> curve_pt (w r)) -> sum_commitments h k (others i) = Ok pub -> pub = Some (pnt (zsum (map (fun r => logp (w r)) refs))).
Proof.
  intros Ei Hne' E0 Ew Cw HS'. unfold sum_commitments in HS'. rewrite (proj2 (idx_ok _ _ _) E0) in HS'. cbn [rbind] in HS'.
  pose proof (others_valid h refs CM i) as V.
  assert (EF : foldM add_point (w ri) (map w (others i)) = Ok pub).
  { rewrite <- HS', foldM_map. clear HS' Hne'. revert V Ew. generalize (w ri). induction (others i) as [|pid l IH]; intros a V Ew; cbn [foldM]; [reflexivity|].
    apply Forall_cons_iff in V as [Vp V]. rewrite (peerKeyStr_valid h pid Vp). cbn [rbind].
    rewrite (proj2 (idx_ok _ _ _) (Ew pid (or_introl eq_refl))). cbn [rbind].
    match goal with |- rbind ?x _ = rbind ?y _ => change y with x; destruct x as [a'| |]; cbn [rbind]; [|reflexivity..] end.
    apply IH; [assumption|]. intros pid' Hp. apply Ew. now right. }
  apply sum_points_run in EF.
  - rewrite EF, map_map. do 2 f_equal. rewrite <- (zsum_perm _ _ (Permutation_map (fun r => logp (w r)) (others_perm i ri Ei))). reflexivity.
  - apply Cw. now apply nth_error_In in Ei.
  - apply List.Forall_forall. intros x Hx. apply in_map_iff in Hx as (r & <- & Hr). apply Cw. apply filter_In in Hr. apply Hr.
  - intros X. apply Hne'. now apply map_eq_nil in X.
Qed.

(** ** Agreement on the commitments *)
(** What party [i] received from [pid]. *)
Definition received (i : nat) (nd : Node) (pid : ref) (v : keygenR1Bcast) : Prop :=
  exists n, nth_error (others i) n = Some pid /\ nth_error (kg_r1Bcasts (self (core nd))) n = Some (Some v).
(** The two encodings are different and have the same digest. *)
Definition sha_collides (m1 m2 : bytes) : Prop := m1 <> m2 /\ sha256 m1 = sha256 m2.
Definition echo_input (pid : ref) (v : keygenR1Bcast) : bytes := commitInput echoTagKeygen (Bytes (Party.key_of h pid)) (VSSCommitments v).

Lemma others_inj i n n' pid : nth_error (others i) n = Some pid -> nth_error (others i) n' = Some pid -> n = n'.
Proof.
  intros E E'. apply (proj1 (List.NoDup_nth_error _) (List.NoDup_map_inv _ _ (others_keys h refs CM i))); [apply nth_error_Some; congruence|congruence].
Qed.

Lemma others_pos i d pid : (i < length refs)%nat -> d <> i -> nth_error refs d = Some pid -> exists n, nth_error (others i) n = Some pid.
Proof. intros Hi Hd Ed. apply In_nth_error, (others_In h refs CM i pid Hi). eauto. Qed.

Section RunHeld.
Context {net : Net} {i : nat} {nd : Node} {key : Key} {ssid : bytes} {p : list Z} {flat : list bytes} {us : list KMsg} {s1 : Core}
  {b : list (option keygenR1Bcast)} {u : list (option keygenR1Unicast)} {s2 : Core} {e : list (option echoMsg)} {s3 : Core} {r : list (option keygenR2)}.
Hypothesis FR : full_run net i nd key ssid p flat us s1 b u s2 e s3 r.

(** The peer at position [n]. *)
Lemma run_peer n pid : nth_error (others i) n = Some pid ->
  exists m, r2_for (h := h) (refs := refs) (T := T) i (P i) ssid b u (self s3) (n, pid) m.
Proof.
  intros En. destruct (run_sent FR) as (D & ms & _ & F & _). apply enum_In, In_nth_error in En as (k & Ek).
  destruct (Forall2_nth_error_l _ _ _ _ _ F Ek) as (m & _ & R). eauto.
Qed.

Lemma run_held n pid : nth_error (others i) n = Some pid ->
  exists v vsj, nth_error b n = Some (Some v) /\ bc_fits v /\ unflattenPointXY S256 (VSSCommitments v) = Ok vsj /\
    length vsj = S (Z.to_nat T) /\ kg_peerVs (self s3) !! kstr h pid = Some vsj.
Proof.
  intros En. destruct (run_peer n pid En) as (m & v & uc & vsj & ? & ? & ? & ? & ? & ? & ? & ? & ? & ? & E1 & _ & E2 & E3 & _ & _ & _ & _ & _ & _ & _ & _ & _ & _ & _ & _ & _ & E4 & _).
  exists v, vsj. split; [assumption|]. split; [exact (proj1 (fr_b _ _ _ _ _ _ _ _ _ _ _ _ _ _ _ FR n v E1))|]. split; [assumption|]. split; [|assumption].
  apply unflatten_inv in E3 as [Hl _]. pose proof (sd_T _ _ _ _ _ _ _ (run_started FR)). lia.
Qed.

Lemma run_received n v pid : nth_error (others i) n = Some pid -> nth_error b n = Some (Some v) -> received i nd pid v.
Proof.
  intros En Eb. exists n. split; [assumption|]. now rewrite (fi_b _ _ _ _ _ _ (fr_finished _ _ _ _ _ _ _ _ _ _ _ _ _ _ _ FR)), (sp_b _ _ (run_same FR)), (run_b FR).
Qed.

(** The vector of commitments on which the key is computed. *)
Lemma run_vector Vall : all_commitments h (self s3) = Ok Vall -> length Vall = length refs /\
  nth_error Vall i = Some (commit_to (pt := pt) p) /\
  forall d pid vsj, d <> i -> nth_error refs d = Some pid -> kg_peerVs (self s3) !! kstr h pid = Some vsj -> nth_error Vall d = Some vsj.
Proof.
  intros EV. pose proof (fr_i _ _ _ _ _ _ _ _ _ _ _ _ _ _ _ FR) as Hi. destruct (run_dealing FR) as [D1 _ D3 _].
  destruct (all_commitments_run i (self s3) Vall Hi D1 EV) as [Hl Hd]. split; [assumption|]. split.
  - rewrite (Hd i _ (st_me _ _ (HP i Hi))), Nat.eqb_refl. now rewrite D3.
  - intros d pid vsj Hne' Ed Ek. rewrite (Hd d pid Ed), (proj2 (Nat.eqb_neq _ _) Hne'), Ek. reflexivity.
Qed.
End RunHeld.

(** A point of a decoded vector. *)
Lemma unflatten_curve_pt flat pts i w : Forall (Forall is_byte) flat -> unflattenPointXY S256 flat = Ok pts -> nth_error pts i = Some w -> curve_pt w.
Proof.
  intros F HU E. apply unflatten_inv in HU as [_ K]. destruct (K i w E) as (fx & fy & Ex & Ey & -> & On).
  apply nth_error_In in Ex, Ey. rewrite List.Forall_forall in F.
  exists (SetBytes fx), (SetBytes fy). split; [reflexivity|].
  split; [apply SetBytes_bound, F, Ex|]. split; [apply SetBytes_bound, F, Ey|assumption].
Qed.
(** ** Two parties that finished *)
Section Pair.
Context {net : Net} {i : nat} {nd : Node} {key : Key} {ssid : bytes} {p : list Z} {flat : list bytes} {us : list KMsg} {s1 : Core}
  {b : list (option keygenR1Bcast)} {u : list (option keygenR1Unicast)} {s2 : Core} {e : list (option echoMsg)} {s3 : Core} {r : list (option keygenR2)}.
Context {j : nat} {nd' : Node} {key' : Key} {ssid' : bytes} {p' : list Z} {flat' : list bytes} {us' : list KMsg} {s1' : Core}
  {b' : list (option keygenR1Bcast)} {u' : list (option keygenR1Unicast)} {s2' : Core} {e' : list (option echoMsg)} {s3' : Core} {r' : list (option keygenR2)}.
Hypothesis FR : full_run net i nd key ssid p flat us s1 b u s2 e s3 r.
Hypothesis FR' : full_run net j nd' key' ssid' p' flat' us' s1' b' u' s2' e' s3' r'.
Hypothesis Hij : i <> j.
Hypothesis En' : net !! j = Some nd'.

Lemma peer_at : exists n, nth_error (others i) n = Some (p_partyID (P j)).
Proof. exact (others_pos i j _ (fr_i _ _ _ _ _ _ _ _ _ _ _ _ _ _ _ FR) (not_eq_sym Hij) (st_me _ _ (run_seat FR'))). Qed.

(** What [i] holds in the name of [j] was sent by [j]. *)
Lemma peer_sent {V} (pay : V -> KMsg -> Prop) n v : nth_error (others i) n = Some (p_partyID (P j)) ->
  auth (h := h) (refs := refs) (honest := honest) net i pay n v -> exists m, m ∈ sent (core nd') /\ pay v m.
Proof.
  intros En A. destruct (A _ En j _ (fr_honest _ _ _ _ _ _ _ _ _ _ _ _ _ _ _ FR') (st_me _ _ (run_seat FR')) eq_refl) as (nd0 & m & E & Hm & Hp & _).
  rewrite En' in E. injection E as <-. eauto.
Qed.

(** Its commitments are those that [j] dealt. *)
Lemma peer_vector vsj : kg_peerVs (self s3) !! kstr h (p_partyID (P j)) = Some vsj -> vsj = commit_to (pt := pt) p'.
Proof.
  intros Ek. destruct peer_at as (n & En). destruct (run_held FR n _ En) as (v & vsj' & Eb & _ & HU & _ & Ek').
  rewrite Ek in Ek'. injection Ek' as <-. destruct (peer_sent pay_bc n v En (proj2 (fr_b _ _ _ _ _ _ _ _ _ _ _ _ _ _ _ FR n v Eb))) as (m & Hm & Hp).
  rewrite (sent_bc FR' v m Hm Hp) in HU. exact (unflatten_flatten S256 _ _ _ (commit_plain p') (sd_flat _ _ _ _ _ _ _ (run_started FR')) HU).
Qed.

(** The echo of [j] that [i] accepted. *)
Lemma peer_echo : exists my, my_view (h := h) (refs := refs) i (P i) flat b = Ok my /\ add_digests h (others j) b' empty = Ok (delete (kstr h (p_partyID (P j))) my).
Proof.
  destruct (an_view _ _ _ _ _ _ (fr_answered _ _ _ _ _ _ _ _ _ _ _ _ _ _ _ FR)) as (flat0 & my & Ef & Ev & Ee).
  pose proof (run_kg2 FR) as E2. rewrite E2 in Ef, Ev. cbn [self with_self joined with_join kg_vs kg_r1Bcasts] in Ef, Ev.
  rewrite (do_vs _ _ _ _ (sd_dealing _ _ _ _ _ _ _ (run_started FR))), (sd_flat _ _ _ _ _ _ _ (run_started FR)) in Ef. injection Ef as <-.
  exists my. split; [exact Ev|]. destruct peer_at as (n & En). specialize (Ee n _ En). unfold echo_of in Ee.
  destruct (peer_sent pay_ec n _ En (fr_e _ _ _ _ _ _ _ _ _ _ _ _ _ _ _ FR n _ Ee)) as (m & Hm & Hp).
  destruct (sent_ec FR' _ m Hm Hp) as (D & ED & E). injection E as <-. exact ED.
Qed.

(** Of every other dealer both hold commitments with the same digest. *)
Lemma peer_digests d pid : d <> i -> d <> j -> nth_error refs d = Some pid -> exists v v' vsj vsj',
  received i nd pid v /\ received j nd' pid v' /\ digest_of (h := h) pid v = digest_of (h := h) pid v' /\ bc_fits v /\ bc_fits v' /\
  unflattenPointXY S256 (VSSCommitments v) = Ok vsj /\ unflattenPointXY S256 (VSSCommitments v') = Ok vsj' /\
  kg_peerVs (self s3) !! kstr h pid = Some vsj /\ kg_peerVs (self s3') !! kstr h pid = Some vsj'.
Proof.
  intros Hi Hj Ed. destruct (others_pos i d pid (fr_i _ _ _ _ _ _ _ _ _ _ _ _ _ _ _ FR) Hi Ed) as (n & En).
  destruct (others_pos j d pid (fr_i _ _ _ _ _ _ _ _ _ _ _ _ _ _ _ FR') Hj Ed) as (n' & En0).
  destruct (run_held FR n pid En) as (v & vsj & Eb & Fv & HU & _ & Ek). destruct (run_held FR' n' pid En0) as (v' & vsj' & Eb' & Fv' & HU' & _ & Ek').
  exists v, v', vsj, vsj'. split; [exact (run_received FR n v pid En Eb)|]. split; [exact (run_received FR' n' v' pid En0 Eb')|].
  split; [|auto 8]. destruct peer_echo as (my & Ev & ED).
  pose proof (fun k b m0 D => add_digests_run _ b m0 D (others_valid h refs CM k) (nodup_kstr h _ (others_keys h refs CM k))) as AD.
  destruct (proj1 (AD i _ _ _ Ev) n pid En) as (v0 & Ev0 & Em). rewrite Eb in Ev0. injection Ev0 as <-.
  destruct (proj1 (AD j _ _ _ ED) n' pid En0) as (v0 & Ev0 & Em'). rewrite Eb' in Ev0. injection Ev0 as <-.
  rewrite lookup_delete_ne in Em'; [congruence|]. intros X. apply kstr_inj in X. apply Hj.
  eapply (key_pos h refs CM); [exact Ed|exact (st_me _ _ (run_seat FR'))|congruence].
Qed.
End Pair.
(** Two packets with the same digest for one dealer that differ. *)
Definition collision (i : nat) (nd : Node) (j : nat) (nd' : Node) : Prop :=
  exists pid v v', received i nd pid v /\ received j nd' pid v' /\ sha_collides (echo_input pid v) (echo_input pid v').

Lemma all_or (A : nat -> Prop) (C : Prop) n : (forall d, (d < n)%nat -> A d \/ C) -> (forall d, (d < n)%nat -> A d) \/ C.
Proof.
  induction n as [|n IH]; intros K; [left; lia|]. destruct (K n ltac:(lia)) as [An|]; [|now right].
  destruct IH as [IH|]; [intros d Hd; apply K; lia| |now right]. left. intros d Hd. destruct (Nat.eq_dec d n) as [->|]; [assumption|apply IH; lia].
Qed.

Section Pairs.
Context {net : Net} {i : nat} {nd : Node} {key : Key} {ssid : bytes} {p : list Z} {flat : list bytes} {us : list KMsg} {s1 : Core}
  {b : list (option keygenR1Bcast)} {u : list (option keygenR1Unicast)} {s2 : Core} {e : list (option echoMsg)} {s3 : Core} {r : list (option keygenR2)}.
Context {j : nat} {nd' : Node} {key' : Key} {ssid' : bytes} {p' : list Z} {flat' : list bytes} {us' : list KMsg} {s1' : Core}
  {b' : list (option keygenR1Bcast)} {u' : list (option keygenR1Unicast)} {s2' : Core} {e' : list (option echoMsg)} {s3' : Core} {r' : list (option keygenR2)}.
Hypothesis FR : full_run net i nd key ssid p flat us s1 b u s2 e s3 r.
Hypothesis FR' : full_run net j nd' key' ssid' p' flat' us' s1' b' u' s2' e' s3' r'.
Hypothesis Hij : i <> j.
Hypothesis En : net !! i = Some nd.
Hypothesis En' : net !! j = Some nd'.

Lemma vectors_agree Vall Vall' : all_commitments h (self s3) = Ok Vall -> all_commitments h (self s3') = Ok Vall' -> Vall = Vall' \/ collision i nd j nd'.
Proof.
  intros EV EV'. destruct (run_vector FR Vall EV) as (Hl & Vi & Vd). destruct (run_vector FR' Vall' EV') as (Hl' & Vj & Vd').
  assert (K : forall d, (d < length refs)%nat -> nth_error Vall d = nth_error Vall' d \/ collision i nd j nd').
  { intros d Hd. destruct (nth_error refs d) as [pid|] eqn:Ed; [|apply nth_error_None in Ed; lia].
    destruct (Nat.eq_dec d i) as [->|Hi].
    - left. rewrite (st_me _ _ (run_seat FR)) in Ed. injection Ed as <-. destruct (peer_at FR' FR (not_eq_sym Hij)) as (n & E1).
      destruct (run_held FR' n _ E1) as (v & vsj & _ & _ & _ & _ & Ek). rewrite Vi, (Vd' i _ vsj Hij (st_me _ _ (run_seat FR)) Ek).
      now rewrite (peer_vector FR' FR (not_eq_sym Hij) En vsj Ek).
    - destruct (Nat.eq_dec d j) as [->|Hj].
      + left. rewrite (st_me _ _ (run_seat FR')) in Ed. injection Ed as <-. destruct (peer_at FR FR' Hij) as (n & E1).
        destruct (run_held FR n _ E1) as (v & vsj & _ & _ & _ & _ & Ek). rewrite Vj, (Vd j _ vsj Hi (st_me _ _ (run_seat FR')) Ek).
        now rewrite (peer_vector FR FR' Hij En' vsj Ek).
      + destruct (peer_digests FR FR' Hij En' d pid Hi Hj Ed) as (v & v' & vsj & vsj' & R & R' & Eq & (F1 & F2 & _) & (F1' & F2' & _) & HU & HU' & Ek & Ek').
        rewrite (Vd d pid vsj Hi Ed Ek), (Vd' d pid vsj' Hj Ed Ek'). destruct (list_eq_dec Z.eq_dec (echo_input pid v) (echo_input pid v')) as [Ei|Ne].
        * left. apply commitInput_inj in Ei; [|assumption..]. rewrite Ei, HU' in HU. now injection HU as <-.
        * right. exists pid, v, v'. split; [assumption|]. split; [assumption|]. split; [exact Ne|exact Eq]. }
  apply all_or in K as [K|K]; [left|now right]. apply nth_error_ext. intros d. destruct (Nat.lt_ge_cases d (length refs)) as [Hd|Hd]; [exact (K d Hd)|].
  now rewrite !(proj2 (nth_error_None _ _)) by lia.
Qed.
End Pairs.
(** The first commitment of the party that [r] points to. *)
Definition seat_of (r : ref) : nat := match h !! r with Some p => Z.to_nat (Index p) | None => 0%nat end.
Definition first_of (Vall : list (list (option ECPoint))) (r : ref) : option ECPoint := nth 0 (nth (seat_of r) Vall []) None.

Lemma first_of_at Vall d pid vs : nth_error refs d = Some pid -> nth_error Vall d = Some vs -> first_of Vall pid = nth 0 vs None.
Proof.
  intros Ed E. destruct (cm_index _ _ CM d pid Ed) as (pp & Epp & Ip). unfold first_of, seat_of. rewrite Epp, Ip, Nat2Z.id.
  now rewrite (nth_error_nth _ _ _ E).
Qed.

Lemma nth_error_first {A} (l : list A) x : (0 < length l)%nat -> nth_error l 0 = Some (nth 0 l x).
Proof. destruct l; cbn; [lia|reflexivity]. Qed.

Section Pub.
Context {net : Net} {i : nat} {nd : Node} {key : Key} {ssid : bytes} {p : list Z} {flat : list bytes} {us : list KMsg} {s1 : Core}
  {b : list (option keygenR1Bcast)} {u : list (option keygenR1Unicast)} {s2 : Core} {e : list (option echoMsg)} {s3 : Core} {r : list (option keygenR2)}.
Hypothesis FR : full_run net i nd key ssid p flat us s1 b u s2 e s3 r.

(** Every first commitment is a point of the curve. *)
Lemma first_on_curve Vall d w vs : all_commitments h (self s3) = Ok Vall -> d <> i -> nth_error Vall d = Some vs -> nth_error vs 0 = Some w -> curve_pt w.
Proof.
  intros EV Hd E Ew. destruct (run_vector FR Vall EV) as (Hl & _ & Vd).
  destruct (nth_error refs d) as [pid|] eqn:Ed; [|apply nth_error_None in Ed; pose proof (proj1 (nth_error_Some Vall d) ltac:(congruence)); lia].
  destruct (others_pos i d pid (fr_i _ _ _ _ _ _ _ _ _ _ _ _ _ _ _ FR) Hd Ed) as (n & E1).
  destruct (run_held FR n pid E1) as (v & vsj & _ & (_ & _ & Fb) & HU & _ & Ek). rewrite (Vd d pid vsj Hd Ed Ek) in E. injection E as <-.
  exact (unflatten_curve_pt _ _ 0 w Fb HU Ew).
Qed.
Lemma pub_run Vall pub : all_commitments h (self s3) = Ok Vall -> others i <> [] -> (forall r, In r refs -> curve_pt (first_of Vall r)) ->
  sum_commitments h (self s3) (others i) = Ok pub -> pub = Some (pnt (zsum (map (fun r => logp (first_of Vall r)) refs))).
Proof.
  intros EV Ho Hc HS'. destruct (run_vector FR Vall EV) as (Hl & Vi & Vd). pose proof (st_me _ _ (run_seat FR)) as Ei.
  eapply (sum_commitments_run (first_of Vall) i (p_partyID (P i)) (self s3)); try eassumption.
  - rewrite (do_vs _ _ _ _ (run_dealing FR)), (first_of_at Vall i _ _ Ei Vi). apply nth_error_first.
    unfold commit_to. rewrite length_map, (sd_len _ _ _ _ _ _ _ (run_started FR)). lia.
  - intros pid Hp. destruct (others_at CM i pid (fr_i _ _ _ _ _ _ _ _ _ _ _ _ _ _ _ FR) Hp) as (d & _ & Hd & Ed & _).
    apply In_nth_error in Hp as (n & E1). destruct (run_held FR n pid E1) as (v & vsj & _ & _ & _ & Hlen & Ek). rewrite Ek. cbn [default].
    rewrite (first_of_at Vall d pid vsj Ed (Vd d pid vsj Hd Ed Ek)). apply nth_error_first. lia.
Qed.

Lemma vector_at Vall d : all_commitments h (self s3) = Ok Vall -> (d < length refs)%nat -> exists vs, nth_error Vall d = Some vs /\ (0 < length vs)%nat.
Proof.
  intros EV Hd. destruct (run_vector FR Vall EV) as (Hl & Vi & Vd). destruct (Nat.eq_dec d i) as [->|Hi].
  - exists (commit_to (pt := pt) p). split; [assumption|]. unfold commit_to. rewrite length_map, (sd_len _ _ _ _ _ _ _ (run_started FR)). lia.
  - destruct (nth_error refs d) as [pid|] eqn:Ed; [|apply nth_error_None in Ed; lia].
    destruct (others_pos i d pid (fr_i _ _ _ _ _ _ _ _ _ _ _ _ _ _ _ FR) Hi Ed) as (n & E1). destruct (run_held FR n pid E1) as (v & vsj & _ & _ & _ & Hlen & Ek).
    exists vsj. split; [exact (Vd d pid vsj Hi Ed Ek)|lia].
Qed.
End Pub.

(** Two honest parties that are done hold the same public part of the key, unless two
    different packets with the same digest were found. *)
Lemma public_keys_agree net i j nd nd' key key' : reachable h reg refs P honest net -> i <> j -> net !! i = Some nd -> net !! j = Some nd' ->
  kg_Done (self (core nd)) = Some key -> kg_Done (self (core nd')) = Some key' ->
  (kECDSAPub key = kECDSAPub key' /\ kBigXj key = kBigXj key' /\ kChainCode key = kChainCode key' /\ kPartyIDs key = kPartyIDs key' /\ kT key = kT key') \/
  collision i nd j nd'.
Proof.
  intros HR Hij En En' Ed Ed'. destruct (done_run net i nd key HR En Ed) as (ssid & p & flat & us & s1 & b & u & s2 & e & s3 & r & FR).
  destruct (done_run net j nd' key' HR En' Ed') as (ssid' & p' & flat' & us' & s1' & b' & u' & s2' & e' & s3' & r' & FR').
  destruct (fi_key _ _ _ _ _ _ (fr_finished _ _ _ _ _ _ _ _ _ _ _ _ _ _ _ FR)) as (xi & pub & Vall & X & ot & chain & _ & Ep & EV & EX & Ec & _ & ->).
  destruct (fi_key _ _ _ _ _ _ (fr_finished _ _ _ _ _ _ _ _ _ _ _ _ _ _ _ FR')) as (xi' & pub' & Vall' & X' & ot' & chain' & _ & Ep' & EV' & EX' & Ec' & _ & ->).
  cbn [kECDSAPub kBigXj kChainCode kPartyIDs kT]. destruct (vectors_agree FR FR' Hij En En' Vall Vall' EV EV') as [<-|C]; [left|now right].
  rewrite EX in EX'. injection EX' as <-.
  assert (Hc : forall pid, In pid refs -> curve_pt (first_of Vall pid)).
  { intros pid Hp. apply In_nth_error in Hp as (d & Hd). assert (Hl : (d < length refs)%nat) by (apply nth_error_Some; congruence).
    destruct (vector_at FR Vall d EV Hl) as (vs & Evs & Hvs). rewrite (first_of_at Vall d pid vs Hd Evs). pose proof (nth_error_first vs None Hvs) as Ew.
    destruct (Nat.eq_dec d i) as [->|Hi]; [exact (first_on_curve FR' Vall i _ vs EV' Hij Evs Ew)|exact (first_on_curve FR Vall d _ vs EV Hi Evs Ew)]. }
  assert (No : forall k m ndk ndm keyk ss pk fl uk sk bk uck sk2 ek sk3 rk, k <> m -> (m < length refs)%nat ->
    full_run ndk k ndm keyk ss pk fl uk sk bk uck sk2 ek sk3 rk -> others k <> []).
  { intros k m ndk ndm keyk ss pk fl uk sk bk uck sk2 ek sk3 rk Hkm Hm F X'. destruct (nth_error refs m) as [pid|] eqn:Em; [|apply nth_error_None in Em; lia].
    destruct (others_pos k m pid (fr_i _ _ _ _ _ _ _ _ _ _ _ _ _ _ _ F) (not_eq_sym Hkm) Em) as (n & E1). rewrite X' in E1. destruct n; discriminate. }
  pose proof (fr_i _ _ _ _ _ _ _ _ _ _ _ _ _ _ _ FR) as Hi. pose proof (fr_i _ _ _ _ _ _ _ _ _ _ _ _ _ _ _ FR') as Hj.
  apply (pub_run FR Vall pub EV (No _ _ _ _ _ _ _ _ _ _ _ _ _ _ _ _ Hij Hj FR) Hc) in Ep.
  apply (pub_run FR' Vall pub' EV' (No _ _ _ _ _ _ _ _ _ _ _ _ _ _ _ _ (not_eq_sym Hij) Hi FR') Hc) in Ep'. subst pub'. rewrite Ep in Ec |- *. rewrite Ec in Ec'. injection Ec' as <-. auto.
Qed.

(** One's public share in the other's key. *)
Lemma agreement_run net i j nd nd' key key' : reachable h reg refs P honest net -> i <> j -> net !! i = Some nd -> net !! j = Some nd' ->
  kg_Done (self (core nd)) = Some key -> kg_Done (self (core nd')) = Some key' ->
  (kECDSAPub key = kECDSAPub key' /\ kBigXj key = kBigXj key' /\ kChainCode key = kChainCode key' /\ kPartyIDs key = kPartyIDs key' /\ kT key = kT key' /\
   exists xi X, kXi key = Some xi /\ 0 < xi < q /\ nth_error (kBigXj key') i = Some X /\ ECPoint_Equals (Some (pnt xi)) X = Ok true) \/
  collision i nd j nd'.
Proof.
  intros HR Hij En En' Ed Ed'. destruct (public_keys_agree net i j nd nd' key key' HR Hij En En' Ed Ed') as [(A1 & A2 & A3 & A4 & A5)|C]; [left|now right].
  destruct (done_run net i nd key HR En Ed) as (ssid & p & flat & us & s1 & b & u & s2 & e & s3 & r & FR).
  pose proof (fr_finished _ _ _ _ _ _ _ _ _ _ _ _ _ _ _ FR) as F. destruct (fi_valid _ _ _ _ _ _ F) as (y & y' & Fy & EV).
  destruct (fi_key _ _ _ _ _ _ F) as (xi & pub & Vall & X & ot & chain & _ & _ & _ & _ & _ & _ & Ek).
  destruct (validated_share key y y' ltac:(now rewrite Ek) Fy EV) as (xi' & X' & Ex & Rx & EX & Eq).
  repeat (split; [assumption|]). exists xi', X'. split; [assumption|]. split; [assumption|]. split; [|assumption].
  rewrite <- A2. apply idx_ok. rewrite <- idxZ_nat. rewrite Ek in EX |- *. exact EX.
Qed.
End Agree.
