(* ===== verification/DklsKeygenAgreement.v ===== *)
(** * The brokered key generation of [dklstss]: agreement between honest parties

    The theorem of the networked key generation, and its evaluation: a run of two
    parties on the small curve, from their start to their keys, message by message. *)
From stdpp Require Import base gmap list strings pretty.
From Stdlib Require Import ZArith String List Lia Bool Permutation.
From S2P Require Import Prelude GoBig Common Curve CtMul Field Vss Schnorr Bits OtExt OtExtCorrect BaseOt Ole Party Handler Json.
From S2P Require Import Dkls DklsSetup DklsSign DklsSignCorrect DklsKeygen DklsEcho DklsRoster DklsKeygenParty DklsKeygenRun DklsKeygenNet DklsKeygenSafe DklsKeygenAgree.
Import ListNotations.
Open Scope string_scope.
Open Scope Z_scope.
Open Scope list_scope.

Section Property.
Context `{HS : Hash} `{SH : Sha256} `{AE : Aes} `{CS : Curves} `{SL : Secp256k1Lib} `{EL : Ed25519Lib} `{ML : MapRangeLaws}.
Context `{KJ : KeygenJson} `{BR : !Broker KMsg}.
Context {pt : Z -> Z * Z} {L : CurveLaws S256 pt false} {CT : CtCurve S256 pt false} {DL : CurveLog S256 pt}.

(** C3. Agreement of the brokered key generation.  In every configuration that a
    committee reaches, whatever its dishonest members send, whatever arrives late,
    twice or never, two honest parties that have delivered their keys hold the same
    public key, the same public shares, the same chain code and the same threshold,
    and each holds, as the other's public share, the multiple of the generator by the other's
    secret share; unless two different lists of commitments with the same echo digest
    have been received, which are a collision of SHA-256. *)
Theorem brokered_keygen_agreement (Hne : curve_eqb S256 Edwards = false) (h : Heap) (refs : list ref) (T : Z) (reg : CurveState)
  (P : nat -> Parameters) (honest : nat -> bool) (net : gmap nat Node) i j nd nd' key key'
  (CM : committee h refs) (HP : forall i, (i < length refs)%nat -> seat (refs := refs) (T := T) i (P i))
  (HR : reachable h reg refs P honest net) (Hij : i <> j) (En : net !! i = Some nd) (En' : net !! j = Some nd')
  (Ed : kg_Done (self (core nd)) = Some key) (Ed' : kg_Done (self (core nd')) = Some key') :
  (kECDSAPub key = kECDSAPub key' /\ kBigXj key = kBigXj key' /\ kChainCode key = kChainCode key' /\ kPartyIDs key = kPartyIDs key' /\
   kT key = kT key' /\
   exists xi X, kXi key = Some xi /\ 0 < xi < cN S256 /\ nth_error (kBigXj key') i = Some X /\ ECPoint_Equals (Some (mkpt S256 pt xi)) X = Ok true) \/
  exists pid v v', received (h := h) (refs := refs) i nd pid v /\ received (h := h) (refs := refs) j nd' pid v' /\
    sha_collides (echo_input (h := h) pid v) (echo_input (h := h) pid v').
Proof. exact (agreement_run Hne CM HP net i j nd nd' key key' HR Hij En En' Ed Ed'). Qed.
End Property.

(** ** The points of the small curve *)
Definition toy_log (x y : Z) : Z :=
  match find (fun k => pair_eqb (toy256_pt (Z.of_nat k)) (x, y)) (seq 1 30) with Some k => Z.of_nat k | None => 0 end.
Lemma toy_log_pt k : k mod 31 <> 0 -> toy_log (fst (toy256_pt k)) (snd (toy256_pt k)) = k mod 31.
Proof.
  intros Hk. rewrite <- (pt_mod (L := toy256_laws) k). change (cN toy256) with 31. pose proof (Z.mod_pos_bound k 31 eq_refl) as B.
  set (Q := fun i => (i =? 0) || (toy_log (fst (toy256_pt i)) (snd (toy256_pt i)) =? i)).
  assert (HQ : Q (k mod 31) = true) by (apply (forall_below Q 31); [vm_compute; reflexivity|exact B]).
  unfold Q in HQ. apply orb_true_iff in HQ as [HQ|HQ]; apply Z.eqb_eq in HQ; [contradiction|exact HQ].
Qed.

Lemma toy_on x y : cIsOnCurve toy256 x y = true -> (x, y) = toy256_pt (toy_log x y).
Proof.
  intros H. assert (R : 0 <= x < 43 /\ 0 <= y < 43).
  { cbn [cIsOnCurve toy256] in H. rewrite !andb_true_iff, !Z.leb_le, !Z.ltb_lt in H. tauto. }
  set (Q := fun x y => negb (cIsOnCurve toy256 x y) || pair_eqb (x, y) (toy256_pt (toy_log x y))).
  assert (HQ : forallb (fun a => forallb (fun b => Q (Z.of_nat a) (Z.of_nat b)) (seq 0 43)) (seq 0 43) = true) by (vm_compute; reflexivity).
  rewrite forallb_forall in HQ. specialize (HQ (Z.to_nat x) ltac:(apply in_seq; lia)). rewrite forallb_forall in HQ.
  specialize (HQ (Z.to_nat y) ltac:(apply in_seq; lia)). rewrite !Z2Nat.id in HQ by lia. unfold Q in HQ. rewrite H in HQ.
  now apply pair_eqb_eq.
Qed.

#[export] Instance toy_curve_log : CurveLog toy256 toy256_pt.
Proof.
  refine {| dlog := toy_log |}.
  - intros k Hk. change (k mod 31 <> 0) in Hk. rewrite (toy_log_pt k Hk). apply cong_mod.
  - intros x y x' y' _ _ _ _ H H'. apply toy_on in H, H'. pose proof (cl_add (CurveLaws := toy256_laws) (toy_log x y) (toy_log x' y')) as A.
    rewrite <- H, <- H' in A. exact A.
Defined.

(** ** A network of two parties *)
(** Both cases of a party. *)
Ltac two i := destruct i as [|[|i]]; [..|lia].

#[local] Existing Instances toy_hash toy_sha toy_aes toy_curves toy_secp toy_ed.
#[local] Instance toy_keygen_json : KeygenJson := {|
  json_bcast := id_json keygenR1Bcast; json_unicast := id_json keygenR1Unicast; json_echo := id_json echoMsg; json_r2 := id_json keygenR2
|}.
#[local] Instance toy_broker : Broker KMsg := {| broker_Receive := fun _ => None |}.

Definition n_key (i : nat) : Z := match i with O => 1 | _ => 4 end.
Definition n_peer (i : nat) : nat := (1 - i)%nat.
Definition n_party (i : nat) : PartyID := {| wrapper := wrapper (w_party (n_key i)); Index := Z.of_nat i |}.
Definition n_heap : Heap := <[0%nat := n_party 0]> (<[1%nat := n_party 1]> empty).
Definition n_refs : list ref := [0%nat; 1%nat].
Definition n_params (i : nat) : Parameters := {|
  p_ec := toy256; p_partyID := i; p_parties := NewPeerContext n_refs; p_partyCount := 2; p_threshold := 1;
  p_concurrency := 1; p_safePrimeGenTimeout := defaultSafePrimeGenTimeout; p_noProofMod := false; p_noProofFac := false |}.

Lemma n_committee : committee n_heap n_refs.
Proof.
  constructor; [constructor|].
  - repeat constructor; eexists _, _; split; reflexivity.
  - change (map (Party.key_of n_heap) n_refs) with [1; 4]. repeat (apply List.NoDup_cons; [cbn; intros D; repeat destruct D as [D|D]; lia|]). apply List.NoDup_nil.
  - intros [|[|d]] r E; try (injection E as <-; eexists; split; reflexivity). destruct d; discriminate E.
Qed.
Lemma n_seat i : (i < length n_refs)%nat -> seat (refs := n_refs) (T := 1) i (n_params i).
Proof. intros Hi. destruct i as [|[|i]]; [constructor; reflexivity..|cbn in Hi; lia]. Qed.

(** What each party draws and sends. *)
Definition n_poly (i : nat) : list Z := match i with O => [5; 7] | _ => [3; 2] end.
Definition n_ssid : bytes := Eval vm_compute in match keygenSession n_heap (n_params 0) with Ok b => b | _ => [] end.
(** The session of the transfers that party [i] opens. *)
Definition n_sid (i : nat) : bytes := repeat (n_key (n_peer i)) 32.
Definition n_flat (i : nat) : list bytes :=
  match flattenPointXY (map (fun a => Some (tpnt a)) (n_poly i)) with Ok f => f | _ => [] end.
Definition n_snd (i : nat) : Sender := {| s_sid := n_sid i; s_n := 128; s_y := Some 9; s_S := Some (tpnt 9) |}.
Definition n_t (i : nat) : Z := (chal (HS := toy_hash) (C := toy256) (pt := toy256_pt) (pokSession (n_sid i)) [9; 1; 5] * 9 + 5) mod 31.
Definition n_msg (i : nat) : SenderMsg1 :=
  {| smS := Some (tpnt 9); smPoK := Some {| Alpha := Some (tpnt 5); Schnorr.T := Some (n_t i) |} |}.
Definition n_share (i : nat) (id : Z) : Z := peval (n_poly i) id mod 31.
Definition n_uc (i : nat) : keygenR1Unicast :=
  match unicast_of (n_share i (n_key (n_peer i))) (n_msg i) with Ok u => u | _ => {| uc_Share := []; OTSenderSX := []; OTSenderSY := []; OTSenderPokAX := []; OTSenderPokAY := []; OTSenderPokT := [] |} end.
Definition n_str (i : nat) : string := kstr n_heap i.

Definition n_bc (i : nat) : KMsg := KBcast (JsonWrap keygenTypeR1Bcast (Some {| VSSCommitments := n_flat i |}) (Some i) None).
Definition n_ucm (i : nat) : KMsg := KUnicast (JsonWrap keygenTypeR1Unicast (Some (n_uc i)) (Some i) (Some (n_peer i))).

Definition n_kg1 (i : nat) : KeygenParty := {|
  kg_params := n_params i; kg_ssid := n_ssid; kg_u_i := Some (nth 0 (n_poly i) 0); kg_vs := map (fun a => Some (tpnt a)) (n_poly i);
  kg_shares := shares_of (C := toy256) 1 (n_poly i) [1; 4]; kg_baseSnd := <[n_str (n_peer i) := n_snd i]> empty;
  kg_peerVs := empty; kg_peerShares := empty; kg_baseRcv := empty; kg_myDelta := empty;
  kg_r1JoinCount := 0; kg_r1Bcasts := []; kg_r1Unicasts := []; kg_r1OtherIds := [n_peer i]; kg_r1Echoes := []; kg_Done := None; kg_Err := None |}.
Definition n_core1 (i : nat) (sys : reader) : Core := {|
  self := n_kg1 i; rPartial := []; rRand := repeat 3 144; rSys := sys; sent := [n_bc i; n_ucm i];
  connected := [(keygenTypeR1Bcast, [n_peer i]); (keygenTypeR1Unicast, [n_peer i])] |}.

Lemma n_others i : (i < 2)%nat -> otherPartyIDs n_heap (n_params i) = Ok [n_peer i].
Proof. intros Hi. destruct i as [|[|i]]; [reflexivity..|lia]. Qed.

Lemma n_create i (sys : reader) tl rest : (i < 2)%nat -> Forall is_byte tl -> Forall is_byte sys -> toy_healthy_m (2 + rest) sys ->
  exists sys', Create toy256 1 (Some (nth 0 (n_poly i) 0)) (Some [1; 4]) sys (nth 1 (n_poly i) 0 :: tl) =
    Ok ((map (fun a => Some (tpnt a)) (n_poly i), shares_of (C := toy256) 1 (n_poly i) [1; 4], sys'), tl) /\
    Forall is_byte sys' /\ toy_healthy_m rest sys'.
Proof.
  intros Hi Ft Fs Hh.
  destruct (Create_run (L := toy256_laws) (CT := toy256_ct) eq_refl 1 (nth 0 (n_poly i) 0) [1; 4] sys (nth 1 (n_poly i) 0 :: tl) (map Some (n_poly i)) tl rest)
    as (cs & sys' & Ep & F' & Hr & _ & _ & E); try assumption; try reflexivity; try (cbn; lia).
  - destruct i as [|[|i]]; cbn; lia.
  - apply one_byte; [destruct i as [|[|i]]; cbn; lia|assumption].
  - destruct i as [|[|i]]; [reflexivity..|lia].
  - destruct i as [|[|i]]; [exact Hh..|lia].
  - exists sys'. split; [|auto]. rewrite E. destruct cs as [|c [|]]; [destruct i as [|[|i]]; discriminate Ep| |destruct i as [|[|i]]; discriminate Ep].
    destruct i as [|[|i]]; [injection Ep as <-; reflexivity..|lia].
Qed.
Lemma n_new_sender i tl : (i < 2)%nat -> Forall is_byte tl ->
  NewSender (n_sid i) 128 (w_seg ++ tl) = Ok ((n_snd i, n_msg i), repeat 3 144 ++ tl).
Proof.
  intros Hi Ft.
  apply (@NewSender_total toy_hash toy_curves toy_secp toy_ed toy256_pt toy256_laws toy256_ct (n_sid i) 128 (w_seg ++ tl) 9 (skipn 1 w_seg ++ tl) 5 (skipn 42 w_seg ++ tl)).
  - discriminate.
  - lia.
  - now apply w_seg_byte.
  - vm_compute. reflexivity.
  - apply toy_healthy_app.
  - vm_compute. reflexivity.
  - apply toy_healthy_app.
Qed.

(** The first round. *)
Lemma n_start i (sys : reader) rest : (i < 2)%nat -> Forall is_byte sys -> toy_healthy_m (2 + rest) sys ->
  exists sys', NewKeygen n_heap curve_init false (Some (n_params i)) [nth 0 (n_poly i) 0] (nth 1 (n_poly i) 0 :: w_seg) sys =
    Ok (Some (n_core1 i sys'), None) /\ Forall is_byte sys' /\ toy_healthy_m rest sys'.
Proof.
  intros Hi Fs Hh. assert (Fw : Forall is_byte w_seg) by (rewrite <- (app_nil_r w_seg); apply w_seg_byte; constructor).
  destruct (n_create i sys w_seg rest Hi Fw Fs Hh) as (sys' & E & F' & H'). exists sys'. split; [|auto].
  pose proof (n_new_sender i [] Hi (List.Forall_nil _)) as ES. rewrite !app_nil_r in ES.
  assert (Eq : keygenSession n_heap (n_params i) = Ok n_ssid) by (destruct i as [|[|i]]; [reflexivity..|lia]).
  unfold NewKeygen. change (negb (SameCurve (p_ec (n_params i)) S256 curve_init)) with false. cbn iota. rewrite Eq. cbn [rbind].
  match goal with |- rbind ?x _ = _ => enough (Er : x = Ok (n_core1 i sys', inl tt)) by (rewrite Er; reflexivity) end.
  unfold round1. eapply bind_in; [reflexivity|].
  eapply bind_in; [apply (lift_in _ _ [1; 4]); reflexivity|].
  eapply bind_in; [apply (lift_in _ _ [1; 4]); reflexivity|].
  eapply bind_in; [apply (partial_in _ _ _ _ _ _ _ (Some (nth 0 (n_poly i) 0)) []); destruct i as [|[|i]]; [reflexivity..|lia]|].
  eapply bind_in; [eapply both_in; cbn [self kg_params p_ec p_threshold n_params rRand rSys]; rewrite E; reflexivity|].
  cbn beta iota.
  eapply bind_in; [reflexivity|]. 
  eapply bind_in; [apply (lift_in _ _ (n_flat i)); destruct i as [|[|i]]; [reflexivity..|lia]|].
  eapply bind_in; [apply (lift_in _ _ [n_peer i]); exact (n_others i Hi)|].
  eapply bind_in; [reflexivity|].
  eapply bind_in; [reflexivity|]. cbn [rRand rPartial rSys self sent connected with_self hfor]. eapply bind_in.
  - eapply bind_in; [|reflexivity]. unfold round1_peer. eapply bind_in; [reflexivity|].
    eapply bind_in; [apply (lift_in _ _ (n_key (n_peer i))); destruct i as [|[|i]]; [reflexivity..|lia]|].
    eapply bind_in; [apply (lift_in _ _ (n_share i (n_key (n_peer i)))); destruct i as [|[|i]]; [reflexivity..|lia]|].
    eapply bind_in; [apply (lift_in _ _ (n_key i)); destruct i as [|[|i]]; [reflexivity..|lia]|].
    eapply bind_in.
    { unfold draw_rand. apply (both_in _ _ _ _ _ _ _ (n_snd i, n_msg i) (repeat 3 144) sys'). cbn beta.
      match goal with |- context [NewSender ?s _ _] => assert (s = n_sid i) as -> by (destruct i as [|[|i]]; [reflexivity..|lia]) end.
      change (Z.of_nat Kappa) with 128. rewrite ES. reflexivity. }
    cbn beta iota. eapply bind_in; [apply (lift_in _ _ (n_str (n_peer i))); destruct i as [|[|i]]; [reflexivity..|lia]|].
    eapply bind_in; [reflexivity|].
    eapply bind_in; [apply (lift_in _ _ (n_uc i)); destruct i as [|[|i]]; [reflexivity..|lia]|].
    reflexivity.
  - reflexivity.
Qed.

(** *** The nodes *)
Definition n_node1 (i : nat) (sys : reader) : Node := {| core := n_core1 i sys;
  e_bc := Some (NewJsonExpect keygenTypeR1Bcast [n_peer i]); e_uc := Some (NewJsonExpect keygenTypeR1Unicast [n_peer i]); e_ec := None; e_r2 := None |}.
Definition got {T} (typ : string) (i : nat) (v : T) : jsonExpect T :=
  {| je_Type := typ; je_From := [n_peer i]; je_Packet := [Some v]; je_missing := 0 |}.
Definition n_node2 (i : nat) (sys : reader) : Node := {|
  core := with_self (with_join (fun _ => [Some {| VSSCommitments := n_flat (n_peer i) |}]) (fun u => u)) (n_core1 i sys);
  e_bc := Some (got keygenTypeR1Bcast i {| VSSCommitments := n_flat (n_peer i) |}); e_uc := Some (NewJsonExpect keygenTypeR1Unicast [n_peer i]);
  e_ec := None; e_r2 := None |}.

Definition n_digest (d : nat) : bytes := digest_of (h := n_heap) d {| VSSCommitments := n_flat d |}.
(** What party [i] echoes: the digest of its peer. *)
Definition n_digests (i : nat) : gmap string bytes := <[n_str (n_peer i) := n_digest (n_peer i)]> empty.
Definition n_echo (i : nat) : KMsg := KEcho (JsonWrap keygenTypeEcho (Some {| Digests := Some (n_digests i) |}) (Some i) None).
Definition n_core3 (i : nat) (sys : reader) : Core :=
  let s := with_self (with_join (fun b => b) (fun _ => [Some (n_uc (n_peer i))])) (core (n_node2 i sys)) in
  {| self := self s; rPartial := rPartial s; rRand := rRand s; rSys := rSys s; sent := sent s ++ [n_echo i];
     connected := connected s ++ [(keygenTypeEcho, [n_peer i])] |}.
Definition n_node3 (i : nat) (sys : reader) : Node := {| core := n_core3 i sys;
  e_bc := Some (got keygenTypeR1Bcast i {| VSSCommitments := n_flat (n_peer i) |}); e_uc := Some (got keygenTypeR1Unicast i (n_uc (n_peer i)));
  e_ec := Some (NewJsonExpect keygenTypeEcho [n_peer i]); e_r2 := None |}.

Lemma n_start_node i (sys : reader) rest : (i < 2)%nat -> Forall is_byte sys -> toy_healthy_m (2 + rest) sys ->
  exists sys', start_node n_heap curve_init (n_params i) [nth 0 (n_poly i) 0] (nth 1 (n_poly i) 0 :: w_seg) sys = Ok (Some (n_node1 i sys')) /\
    Forall is_byte sys' /\ toy_healthy_m rest sys'.
Proof.
  intros Hi Fs Hh. destruct (n_start i sys rest Hi Fs Hh) as (sys' & E & R). exists sys'. split; [|exact R].
  unfold start_node. rewrite E. reflexivity.
Qed.

Lemma n_deliver_bc i sys : (i < 2)%nat -> deliver n_heap None None (n_node1 i sys) (n_bc (n_peer i)) = Ok (n_node2 i sys).
Proof. intros Hi. destruct i as [|[|i]]; [reflexivity..|lia]. Qed.

Lemma n_deliver_uc i sys : (i < 2)%nat -> deliver n_heap None None (n_node2 i sys) (n_ucm (n_peer i)) = Ok (n_node3 i sys).
Proof. intros Hi. destruct i as [|[|i]]; [reflexivity..|lia]. Qed.

(** *** The second round *)
Definition n_bits : bytes := repeat 3 16.
Definition n_xs : list Z := repeat 3 128.
Definition n_rcvr (i : nat) : Receiver :=
  {| r_sid := n_sid (n_peer i); r_n := 128; r_bits := n_bits; r_x := Some (map Some n_xs); r_S := Some (tpnt 9) |}.
Definition n_R : list (option ECPoint) := map (fun k => Some (tpnt (resp n_bits 9 k (nth k n_xs 0)))) (seq 0 128).

Lemma n_sid_good i : (i < 2)%nat -> w_good_sid (n_sid i) = true.
Proof. intros Hi. destruct i as [|[|i]]; [vm_compute; reflexivity..|lia]. Qed.
Lemma n_xs_good : Forall (fun x => on_c toy256 false (x + 9) = true) n_xs.
Proof. apply List.Forall_forall. intros x Hx. apply repeat_spec in Hx as ->. reflexivity. Qed.
Lemma n_threes n : Forall is_byte (repeat 3 n).
Proof. apply List.Forall_forall. intros x Hx. apply repeat_spec in Hx as ->. unfold is_byte. lia. Qed.

Lemma n_new_receiver i (sys : reader) rest : (i < 2)%nat -> Forall is_byte sys -> toy_healthy_m (128 + rest) sys ->
  exists sys', NewReceiver (n_sid (n_peer i)) 128 n_bits (Some (n_msg (n_peer i))) (repeat 3 128) sys = Ok (n_rcvr i, {| rmR := n_R |}, [], sys') /\
    Forall is_byte sys' /\ toy_healthy_m rest sys'.
Proof.
  intros Hi Fs Hh. assert (Hj : (n_peer i < 2)%nat) by (unfold n_peer; lia). destruct (w_good_sid_spec _ (n_sid_good _ Hj)) as [C1 C2].
  destruct (@NewReceiver_total toy_hash toy_curves toy_secp toy_ed toy256_pt toy256_laws toy256_ct (n_sid (n_peer i)) 128 n_bits 9 5 (repeat 3 128) sys n_xs [] rest)
    as (r & rm & sys' & Hr & Hx & E);
    [split; [discriminate|reflexivity]|reflexivity|vm_compute; discriminate|split; [discriminate|reflexivity]|apply n_threes|exact Fs|exact Hh|vm_compute; reflexivity|
     exact n_xs_good|exact C1|exact C2|].
  pose proof (n_new_sender (n_peer i) [] Hj (List.Forall_nil _)) as ES. rewrite !app_nil_r in ES.
  assert (Fw : Forall is_byte w_seg) by (rewrite <- (app_nil_r w_seg); apply w_seg_byte; constructor).
  destruct (@first_moves toy_hash toy_curves toy_secp toy_ed toy256_pt toy256_laws toy256_ct _ _ _ _ _ _ _ _ _ _ _ _ _ Fw (n_threes 128) Fs ES E)
    as (y & xs & _ & _ & _ & _ & Es & -> & -> & _ & _ & _ & F').
  injection Es as <-. cbn [r_x] in Hx. injection Hx as Hx. apply (f_equal (map (default 0))) in Hx. rewrite !map_map, !map_id in Hx. subst xs.
  exists sys'. split; [exact E|auto].
Qed.

Definition n_Rflat : list bytes := Eval vm_compute in match flattenPointXY n_R with Ok f => f | _ => [] end.
Definition n_r2 (i : nat) : KMsg := KR2 (JsonWrap keygenTypeR2 (Some {| OTReceiverR := n_Rflat |}) (Some i) (Some (n_peer i))).
Definition n_echoMsg (i : nat) : echoMsg := {| Digests := Some (n_digests (n_peer i)) |}.
Definition n_core4 (i : nat) (sys : reader) : Core :=
  let s := n_core3 i sys in
  {| self := with_peer (n_str (n_peer i)) (n_rcvr i) n_bits (map (fun a => Some (tpnt a)) (n_poly (n_peer i))) (n_share (n_peer i) (n_key i))
       (with_r1Echoes [Some (n_echoMsg i)] (self s));
     rPartial := []; rRand := []; rSys := sys; sent := sent s ++ [n_r2 i]; connected := connected s ++ [(keygenTypeR2, [n_peer i])] |}.
Definition n_node4 (i : nat) (sys : reader) : Node := {| core := n_core4 i sys;
  e_bc := e_bc (n_node3 i sys); e_uc := e_uc (n_node3 i sys); e_ec := Some (got keygenTypeEcho i (n_echoMsg i));
  e_r2 := Some (NewJsonExpect keygenTypeR2 [n_peer i]) |}.

Definition n_view (i : nat) : gmap string bytes :=
  <[n_str (n_peer i) := n_digest (n_peer i)]> {[n_str i := n_digest i]}.

Lemma n_flat_R : flattenPointXY n_R = Ok n_Rflat.
Proof. vm_compute. reflexivity. Qed.

Lemma n_round2 i (sys : reader) rest : (i < 2)%nat -> Forall is_byte sys -> toy_healthy_m (128 + rest) sys ->
  exists sys', onEcho n_heap None None [n_peer i] [Some (n_echoMsg i)] (n_core3 i sys) = Ok (n_core4 i sys', inl tt) /\
    Forall is_byte sys' /\ toy_healthy_m rest sys'.
Proof.
  intros Hi Fs Hh. destruct (n_new_receiver i sys rest Hi Fs Hh) as (sys' & E & R). exists sys'. split; [|exact R].
  unfold onEcho. eapply bind_in; [reflexivity|]. eapply bind_in; [reflexivity|]. cbv zeta.
  eapply bind_in; [apply (lift_in _ _ (n_str i)); two i; reflexivity|].
  eapply bind_in; [apply (lift_in _ _ (n_flat i)); two i; reflexivity|].
  eapply bind_in; [apply (lift_in _ _ (n_digest i)); two i; reflexivity|].
  eapply bind_in; [apply (lift_in _ _ (n_view i)); two i; reflexivity|].
  eapply bind_in; [apply (lift_in _ _ None); two i; vm_compute; reflexivity|]. cbn iota.
  eapply bind_in; [reflexivity|]. unfold round2. eapply bind_in; [reflexivity|].
  cbn [enum length seq combine hfor]. eapply bind_in. { eapply bind_in. { unfold round2_peer.
  eapply bind_in; [reflexivity|]. cbv zeta.
  eapply bind_in; [apply (lift_in _ _ {| VSSCommitments := n_flat (n_peer i) |}); reflexivity|].
  eapply bind_in; [apply (lift_in _ _ (Some (n_uc (n_peer i)))); reflexivity|].
  eapply bind_in; [apply guard_in; two i; reflexivity|].
  eapply bind_in; [apply (lift_in _ _ (map (fun a => Some (tpnt a)) (n_poly (n_peer i)))); two i; reflexivity|].
  eapply bind_in; [apply (lift_in _ _ (n_uc (n_peer i))); reflexivity|].
  eapply bind_in; [apply guard_in; two i; reflexivity|].
  eapply bind_in; [apply (lift_in _ _ (n_key i)); two i; reflexivity|].
  eapply bind_in; [apply (lift_in _ _ true); two i; vm_compute; reflexivity|].
  eapply bind_in; [apply guard_in; reflexivity|].
  eapply bind_in; [apply (lift_in _ _ (tpnt 9)); two i; reflexivity|].
  eapply bind_in; [apply (lift_in _ _ (tpnt 5)); two i; reflexivity|].
  eapply bind_in; [apply (lift_in _ _ (n_key (n_peer i))); two i; reflexivity|].
  eapply bind_in; [apply (both_in _ _ _ _ _ _ _ n_bits (repeat 3 128) sys); reflexivity|].
  eapply bind_in.
  { apply (both_in _ _ _ _ _ _ _ (n_rcvr i, {| rmR := n_R |}) [] sys').
    match goal with |- context [NewReceiver ?a _ _ _ _ _] => assert (a = n_sid (n_peer i)) as -> by (two i; vm_compute; reflexivity) end.
    match goal with |- context [SetBytes (OTSenderPokT ?t)] => assert (SetBytes (OTSenderPokT t) = n_t (n_peer i)) as -> by (two i; vm_compute; reflexivity) end.
    change (Z.of_nat Kappa) with 128. fold (n_msg (n_peer i)). rewrite E. reflexivity. }
  cbn beta iota. eapply bind_in; [apply (lift_in _ _ (n_str (n_peer i))); two i; reflexivity|].
  eapply bind_in; [reflexivity|].
  eapply bind_in; [apply (lift_in _ _ n_Rflat); exact n_flat_R|].
  reflexivity. }
  reflexivity. }
  assert (SetBytes (uc_Share (n_uc (n_peer i))) = n_share (n_peer i) (n_key i)) as -> by (two i; reflexivity). reflexivity.
Qed.

(** *** The last round *)
Lemma n_finals k (sysF sysS : reader) rF rS : (k < 2)%nat -> Forall is_byte sysF -> toy_healthy_m (128 + rF) sysF ->
  Forall is_byte sysS -> toy_healthy_m (129 + rS) sysS ->
  exists keys r' sysF' k0 k1 s' sysS' es er,
    Receiver_Finalize (Some (n_rcvr k)) sysF = Ok (keys, r', sysF') /\ NewExtSenderFromBase n_bits keys = Ok es /\
    Sender_Finalize (Some (n_snd (n_peer k))) (Some {| rmR := n_R |}) sysS = Ok (k0, k1, s', sysS') /\ NewExtReceiverFromBase k0 k1 = Ok er /\
    (Forall is_byte sysF' /\ toy_healthy_m rF sysF') /\ (Forall is_byte sysS' /\ toy_healthy_m rS sysS').
Proof.
  intros Hk FF HF FS HS. assert (Hj : (n_peer k < 2)%nat) by (unfold n_peer; lia).
  assert (Fx : Forall (fun x => 1 <= x < 31 /\ on_c toy256 false (x + 9) = true) n_xs).
  { apply List.Forall_forall. intros x Hx. apply repeat_spec in Hx as ->. split; [split; [discriminate|reflexivity]|reflexivity]. }
  assert (Hd : ~ In 9 n_xs) by (intros X; apply repeat_spec in X; discriminate X).
  destruct (@finalize_receiver toy_hash toy_curves toy_secp toy_ed toy256_pt toy256_laws toy256_ct (n_sid (n_peer k)) 128 n_bits 9 n_xs sysF rF)
    as (keys & r' & sysF' & F1 & H1 & E1); [split; [discriminate|reflexivity]|reflexivity|vm_compute; discriminate|exact FF|exact HF|exact Fx|].
  destruct (@finalize_sender toy_hash toy_curves toy_secp toy_ed toy256_pt toy256_laws toy256_ct toy_neg (n_sid (n_peer k)) 128 n_bits 9 n_xs sysS rS)
    as (k0 & k1 & s' & sysS' & F2 & H2 & E2); [split; [discriminate|reflexivity]|reflexivity|reflexivity|exact FS|exact HS|exact Fx|exact Hd|].
  destruct (n_new_receiver k (repeat 1 (Z.to_nat 5120)) 0 Hk (ones_byte _)) as (sysR & ER & _); [apply toy_healthy_n; lia|].
  pose proof (n_new_sender (n_peer k) [] Hj (List.Forall_nil _)) as ES. rewrite !app_nil_r in ES.
  assert (Fw : Forall is_byte w_seg) by (rewrite <- (app_nil_r w_seg); apply w_seg_byte; constructor).
  destruct (@run_agree toy_hash toy_curves toy_secp toy_ed toy256_pt toy256_laws toy256_ct toy_neg _ _ _ _ _ _ _ _ _ _ _ _ _ _ _ _ _ _ _ _ _ _ Fw (n_threes 128) (ones_byte _) FS
    (fun _ => FF) ES ER E2 E1) as ((_ & _ & L0 & L1 & Lk & K) & _ & _).
  destruct (NewExt_matched n_bits keys k0 k1 eq_refl (n_threes 16) L0 L1 Lk K) as (es & er & Es & Er & _).
  exists keys, r', sysF', k0, k1, s', sysS', es, er. auto 8.
Qed.

Definition n_xi (i : nat) : Z := match i with O => 17 | _ => 13 end.
Definition n_ot (i : nat) (es : ExtSender) (er : ExtReceiver) : list (option PairOTState) :=
  <[n_peer i := Some {| AsAlice := Some er; AsBob := Some es |}]> (repeat None 2).
Definition n_final (i : nat) (es : ExtSender) (er : ExtReceiver) : Key := {|
  kCurve := Some toy256; kN := 2; kT := 1; kIdx := Z.of_nat i; kPartyIDs := n_refs; kXi := Some (n_xi i);
  kBigXj := [Some (tpnt 17); Some (tpnt 13)]; kECDSAPub := Some (tpnt 8); kOT := n_ot i es er; kChainCode := w_chain |}.
Definition n_vss : list (list (option ECPoint)) := [map (fun a => Some (tpnt a)) (n_poly 0); map (fun a => Some (tpnt a)) (n_poly 1)].

Lemma n_unflat_R : unflattenPointXY toy256 n_Rflat = Ok n_R.
Proof.
  destruct (unflattenPointXY toy256 n_Rflat) as [pts| |] eqn:E.
  - f_equal. eapply unflatten_flatten; [|exact n_flat_R|exact E]. apply List.Forall_forall. intros w Hw. apply in_map_iff in Hw as (k & <- & _).
    eexists _, _. split; [reflexivity|]. pose proof (cl_x (CurveLaws := toy256_laws) (resp n_bits 9 k (nth k n_xs 0))).
    pose proof (cl_y (CurveLaws := toy256_laws) (resp n_bits 9 k (nth k n_xs 0))). lia.
  - assert (X : is_ok (unflattenPointXY toy256 n_Rflat) = true) by (vm_compute; reflexivity). rewrite E in X. discriminate X.
  - assert (X : is_ok (unflattenPointXY toy256 n_Rflat) = true) by (vm_compute; reflexivity). rewrite E in X. discriminate X.
Qed.

Lemma n_finalize i (sys : reader) : (i < 2)%nat -> Forall is_byte sys -> toy_healthy_m (128 + (129 + 1)) sys ->
  exists s' es er, finalize n_heap None [n_peer i] [Some {| OTReceiverR := n_Rflat |}] (n_core4 i sys) = Ok (s', inl tt) /\
    kg_Done (self s') = Some (n_final i es er) /\ connected s' = connected (n_core4 i sys) /\ sent s' = sent (n_core4 i sys).
Proof.
  intros Hi Fs Hh. assert (Hj : (n_peer i < 2)%nat) by (unfold n_peer; lia).
  destruct (n_finals i sys (repeat 1 (Z.to_nat 5160)) (129 + 1) 0 Hi Fs Hh (ones_byte _)) as (keys & r' & sys1 & _ & _ & _ & _ & es & _ & E1 & Ees & _ & _ & (F1 & H1) & _).
  { apply toy_healthy_n. lia. }
  destruct (n_finals (n_peer i) (repeat 1 (Z.to_nat 5120)) sys1 0 1 Hj (ones_byte _)) as (_ & _ & _ & k0 & k1 & s' & sys2 & _ & er & _ & _ & E2 & Eer & _ & (F2 & H2)).
  { apply toy_healthy_n. lia. } { exact F1. } { exact H1. }
  assert (n_peer (n_peer i) = i) as Ep by (two i; reflexivity). rewrite Ep in E2.
  eexists _, es, er. split; [|split; [|split]].
  - unfold finalize. eapply bind_in; [reflexivity|]. eapply bind_in; [reflexivity|]. cbv zeta.
    eapply bind_in; [apply (lift_in _ _ (n_party i)); two i; reflexivity|].
    eapply bind_in; [apply (lift_in _ _ (n_xi i)); two i; vm_compute; reflexivity|].
    eapply bind_in; [apply (lift_in _ _ (Some (tpnt 8))); two i; reflexivity|].
    eapply bind_in; [apply (lift_in _ _ n_vss); two i; reflexivity|].
    eapply bind_in; [apply (lift_in _ _ [Some (tpnt 17); Some (tpnt 13)]); reflexivity|].
    eapply bind_in.
    { cbn [hfold]. eapply bind_in. { unfold finalize_peer. eapply bind_in; [reflexivity|]. cbv zeta.
      eapply bind_in; [apply (lift_in _ _ (n_str (n_peer i))); two i; reflexivity|].
      eapply bind_in.
      { unfold draw_sys. apply (both_in _ _ _ _ _ _ _ (keys, r') [] sys1). cbn beta.
        match goal with |- context [Receiver_Finalize ?a _] => assert (a = Some (n_rcvr i)) as -> by (two i; reflexivity) end.
        rewrite E1. reflexivity. }
      cbn beta iota. eapply bind_in; [reflexivity|].
      eapply bind_in. { apply (lift_in _ _ es). match goal with |- context [NewExtSenderFromBase ?a _] => assert (a = n_bits) as -> by (two i; reflexivity) end.
        rewrite Ees. reflexivity. }
      eapply bind_in; [apply (lift_in _ _ (n_key (n_peer i))); two i; reflexivity|].
      eapply bind_in; [apply (lift_in _ _ (Some {| OTReceiverR := n_Rflat |})); two i; reflexivity|]. cbn iota.
      eapply bind_in. { apply (lift_in _ _ n_R). cbn [OTReceiverR]. change (p_ec (kg_params (self (n_core4 i sys)))) with toy256. rewrite n_unflat_R. reflexivity. }
      eapply bind_in.
      { unfold draw_sys. apply (both_in _ _ _ _ _ _ _ (k0, k1, s') [] sys2). cbn beta.
        match goal with |- context [Sender_Finalize ?a _ _] => assert (a = Some (n_snd i)) as -> by (two i; reflexivity) end.
        cbn [rSys]. rewrite E2. reflexivity. }
      cbn beta iota. eapply bind_in; [reflexivity|].
      eapply bind_in. { apply (lift_in _ _ er). rewrite Eer. reflexivity. }
      eapply bind_in; [apply (lift_in _ _ (n_party (n_peer i))); two i; reflexivity|].
      apply (lift_in _ _ (n_ot i es er)). two i; reflexivity. }
      reflexivity. }
    eapply bind_in; [apply (lift_in _ _ w_chain); reflexivity|].
    eapply bind_in.
    { unfold draw_sys. apply (both_in _ _ _ _ _ _ _ tt [] (skipn 40 sys2)). cbn beta.
      rewrite (w_validate _ (n_xi i) (tpnt (n_xi i))); try exact F2; try exact H2; try (two i; reflexivity).
      - two i; cbn; lia.
      - exists 8. split; [reflexivity|discriminate]. }
    reflexivity.
  - reflexivity.
  - reflexivity.
  - reflexivity.
Qed.

(** *** The run *)
Definition n_honest : nat -> bool := fun _ => true.
Abbreviation n_reach := (reachable n_heap curve_init n_refs n_params n_honest).
Definition n_net (x : nat -> Node) : gmap nat Node := <[1%nat := x 1%nat]> (<[0%nat := x 0%nat]> empty).
Definition n_upd (x : nat -> Node) (i : nat) (nd : Node) : nat -> Node := fun k => if (k =? i)%nat then nd else x k.

Lemma n_net_upd x i nd : (i < 2)%nat -> <[i := nd]> (n_net x) = n_net (n_upd x i nd).
Proof.
  intros Hi. unfold n_net. two i; cbn [n_upd Nat.eqb].
  - rewrite insert_insert_ne by discriminate. now rewrite insert_insert_eq.
  - now rewrite insert_insert_eq.
Qed.
Lemma n_net_at x i : (i < 2)%nat -> n_net x !! i = Some (x i).
Proof. intros Hi. two i; unfold n_net; [rewrite lookup_insert_ne by discriminate|]; now rewrite lookup_insert_eq. Qed.

(** A delivery of what the peer has sent. *)
Lemma n_step x i m nd' : (i < 2)%nat -> n_reach (n_net x) -> from_of m = Some (n_peer i) -> same_payload m m ->
  (to_of m = None \/ to_of m = Some i) -> m ∈ sent (core (x (n_peer i))) -> msg_fits m ->
  deliver n_heap None None (x i) m = Ok nd' -> n_reach (n_net (n_upd x i nd')).
Proof.
  intros Hi HR Ef Ep Et Hm Hf Ed. apply (reach_step _ _ _ _ _ _ _ HR). rewrite <- n_net_upd by exact Hi.
  assert (Hj : (n_peer i < 2)%nat) by (unfold n_peer; lia).
  apply (step_deliver _ _ _ _ _ _ i (x i) m None None nd'); [now apply n_net_at| |exact Hf|exact Ed].
  intros j r f _ Ej Ef' Ek. rewrite Ef in Ef'. injection Ef' as <-.
  assert (j = n_peer i) as ->. { two i; (destruct j as [|[|j]]; [..|destruct j; discriminate Ej]); injection Ej as <-; (reflexivity || discriminate Ek). }
  exists (x (n_peer i)), m. split; [now apply n_net_at|]. split; [exact Hm|]. split; [exact Ep|].
  destruct Et as [Et|Et]; [now left|right]. exists i, i. split; [exact Et|]. split; [two i; reflexivity|reflexivity].
Qed.

Lemma n_deliver_echo i (sys : reader) rest : (i < 2)%nat -> Forall is_byte sys -> toy_healthy_m (128 + rest) sys ->
  exists sys', deliver n_heap None None (n_node3 i sys) (n_echo (n_peer i)) = Ok (n_node4 i sys') /\ Forall is_byte sys' /\ toy_healthy_m rest sys'.
Proof.
  intros Hi Fs Hh. destruct (n_round2 i sys rest Hi Fs Hh) as (sys' & E & R). exists sys'. split; [|exact R].
  unfold deliver, n_echo, dispatch. cbn [e_ec n_node3].
  match goal with |- context [jsonExpect_Receive ?h ?e ?m] =>
    assert (jsonExpect_Receive h e m = (got keygenTypeEcho i (n_echoMsg i), Some ([n_peer i], [Some (n_echoMsg i)]), Ok tt)) as -> by (two i; reflexivity) end.
  cbv zeta. cbn [core n_node3]. unfold run_handler, handle. rewrite E. cbn [rbind]. two i; reflexivity.
Qed.

Definition n_node5 (i : nat) (s : Core) : Node := {| core := s;
  e_bc := e_bc (n_node3 i []); e_uc := e_uc (n_node3 i []); e_ec := Some (got keygenTypeEcho i (n_echoMsg i)); e_r2 := Some (got keygenTypeR2 i {| OTReceiverR := n_Rflat |}) |}.

Lemma n_deliver_r2 i (sys : reader) : (i < 2)%nat -> Forall is_byte sys -> toy_healthy_m (128 + (129 + 1)) sys ->
  exists s' es er, deliver n_heap None None (n_node4 i sys) (n_r2 (n_peer i)) = Ok (n_node5 i s') /\ kg_Done (self s') = Some (n_final i es er) /\ sent s' = sent (n_core4 i sys).
Proof.
  intros Hi Fs Hh. destruct (n_finalize i sys Hi Fs Hh) as (s' & es & er & E & Ed & Ec & Es). exists s', es, er. split; [|auto].
  unfold deliver, n_r2, dispatch. cbn [e_r2 n_node4].
  match goal with |- context [jsonExpect_Receive ?h ?e ?m] =>
    assert (jsonExpect_Receive h e m = (got keygenTypeR2 i {| OTReceiverR := n_Rflat |}, Some ([n_peer i], [Some {| OTReceiverR := n_Rflat |}]), Ok tt)) as -> by (two i; reflexivity) end.
  cbv zeta. cbn [core n_node4]. unfold run_handler, handle. rewrite E. cbn [rbind]. f_equal. rewrite attach_same by exact Ec. reflexivity.
Qed.

Definition n_sys : reader := repeat 1 (Z.to_nat 15520).
Lemma n_sys_healthy : toy_healthy_m (2 + (128 + (128 + (129 + 1)))) n_sys.
Proof. apply toy_healthy_n. lia. Qed.

Lemma n_started : exists y0 y1, n_reach (n_net (fun i => n_node1 i (match i with O => y0 | _ => y1 end))) /\
  (Forall is_byte y0 /\ toy_healthy_m (128 + (128 + (129 + 1))) y0) /\ (Forall is_byte y1 /\ toy_healthy_m (128 + (128 + (129 + 1))) y1).
Proof.
  assert (Fr : forall i, (i < 2)%nat -> Forall is_byte (nth 1 (n_poly i) 0 :: w_seg)).
  { intros i Hi. apply one_byte; [two i; cbn; lia|]. rewrite <- (app_nil_r w_seg). apply w_seg_byte. constructor. }
  assert (Fp : forall i, (i < 2)%nat -> Forall is_byte [nth 0 (n_poly i) 0]) by (intros i Hi; apply one_byte; [two i; cbn; lia|constructor]).
  destruct (n_start_node 0 n_sys _ ltac:(lia) (ones_byte _) n_sys_healthy) as (y0 & E0 & R0).
  destruct (n_start_node 1 n_sys _ ltac:(lia) (ones_byte _) n_sys_healthy) as (y1 & E1 & R1).
  exists y0, y1. split; [|auto]. unfold n_net.
  apply (reach_step _ _ _ _ _ (<[0%nat := n_node1 0 y0]> empty)).
  - apply (reach_step _ _ _ _ _ empty); [apply reach_init|].
    apply (step_start _ _ _ _ _ empty 0 [nth 0 (n_poly 0) 0] (nth 1 (n_poly 0) 0 :: w_seg) n_sys); [cbn; lia|reflexivity|reflexivity|apply Fp; lia|apply Fr; lia|apply ones_byte|exact E0].
  - apply (step_start _ _ _ _ _ _ 1 [nth 0 (n_poly 1) 0] (nth 1 (n_poly 1) 0 :: w_seg) n_sys); [cbn; lia|reflexivity| |apply Fp; lia|apply Fr; lia|apply ones_byte|exact E1].
    rewrite lookup_insert_ne by discriminate. reflexivity.
Qed.

Lemma bytes_check l : forallb (forallb (fun b => (0 <=? b) && (b <? 256))) l = true -> Forall (Forall is_byte) l.
Proof.
  intros H. rewrite forallb_forall in H. apply List.Forall_forall. intros bs Hb. specialize (H bs Hb). rewrite forallb_forall in H.
  apply List.Forall_forall. intros b Hin. specialize (H b Hin). apply andb_true_iff in H as [H1 H2]. apply Z.leb_le in H1. apply Z.ltb_lt in H2. now split.
Qed.
Lemma n_fits i : (i < 2)%nat -> msg_fits (n_bc i).
Proof.
  intros Hi v Ev. cbn in Ev. injection Ev as <-. split; [|split]; cbn [VSSCommitments].
  - two i; reflexivity.
  - apply fits_bytes. two i; reflexivity.
  - apply bytes_check. two i; vm_compute; reflexivity.
Qed.

Lemma n_run : exists net nd nd' key key', n_reach net /\ net !! 0%nat = Some nd /\ net !! 1%nat = Some nd' /\
  kg_Done (self (core nd)) = Some key /\ kg_Done (self (core nd')) = Some key'.
Proof.
  destruct n_started as (y0 & y1 & R & [F0 H0] & [F1 H1]).
  apply (n_step _ 0 (n_bc 1) (n_node2 0 y0)) in R; [|lia|reflexivity|eexists; split; reflexivity|now left|left|apply n_fits; lia|apply (n_deliver_bc 0); lia].
  apply (n_step _ 1 (n_bc 0) (n_node2 1 y1)) in R; [|lia|reflexivity|eexists; split; reflexivity|now left|left|apply n_fits; lia|apply (n_deliver_bc 1); lia].
  apply (n_step _ 0 (n_ucm 1) (n_node3 0 y0)) in R; [|lia|reflexivity|eexists; split; reflexivity|now right|right; left|exact I|apply (n_deliver_uc 0); lia].
  apply (n_step _ 1 (n_ucm 0) (n_node3 1 y1)) in R; [|lia|reflexivity|eexists; split; reflexivity|now right|right; left|exact I|apply (n_deliver_uc 1); lia].
  destruct (n_deliver_echo 0 y0 _ ltac:(lia) F0 H0) as (z0 & D0 & F0' & H0').
  destruct (n_deliver_echo 1 y1 _ ltac:(lia) F1 H1) as (z1 & D1 & F1' & H1').
  apply (n_step _ 0 (n_echo 1) (n_node4 0 z0)) in R; [|lia|reflexivity|eexists; split; reflexivity|now left|do 2 right; left|exact I|exact D0].
  apply (n_step _ 1 (n_echo 0) (n_node4 1 z1)) in R; [|lia|reflexivity|eexists; split; reflexivity|now left|do 2 right; left|exact I|exact D1].
  destruct (n_deliver_r2 0 z0 ltac:(lia) F0' H0') as (s0 & es0 & er0 & G0 & K0 & S0).
  destruct (n_deliver_r2 1 z1 ltac:(lia) F1' H1') as (s1 & es1 & er1 & G1 & K1 & S1).
  apply (n_step _ 0 (n_r2 1) (n_node5 0 s0)) in R; [|lia|reflexivity|eexists; split; reflexivity|now right|do 3 right; left|exact I|exact G0].
  apply (n_step _ 1 (n_r2 0) (n_node5 1 s1)) in R; [|lia|reflexivity|eexists; split; reflexivity|now right| |exact I|exact G1].
  - eexists _, _, _, _, _. split; [exact R|]. split; [apply n_net_at; lia|]. split; [apply n_net_at; lia|]. split; [exact K0|exact K1].
  - change (n_r2 0 ∈ sent s0). rewrite S0. do 3 right. left.
Qed.

Lemma brokered_keygen_agreement_witness : exists net nd nd' key key', n_reach net /\ net !! 0%nat = Some nd /\ net !! 1%nat = Some nd' /\
  kg_Done (self (core nd)) = Some key /\ kg_Done (self (core nd')) = Some key' /\
  ((kECDSAPub key = kECDSAPub key' /\ kBigXj key = kBigXj key' /\ kChainCode key = kChainCode key' /\ kPartyIDs key = kPartyIDs key' /\
    kT key = kT key' /\
    exists xi X, kXi key = Some xi /\ 0 < xi < 31 /\ nth_error (kBigXj key') 0 = Some X /\ ECPoint_Equals (Some (tpnt xi)) X = Ok true) \/
   exists pid v v', received (h := n_heap) (refs := n_refs) 0 nd pid v /\ received (h := n_heap) (refs := n_refs) 1 nd' pid v' /\
    sha_collides (echo_input (h := n_heap) pid v) (echo_input (h := n_heap) pid v')).
Proof.
  destruct n_run as (net & nd & nd' & key & key' & R & E & E' & K & K'). exists net, nd, nd', key, key'.
  split; [exact R|]. split; [exact E|]. split; [exact E'|]. split; [exact K|]. split; [exact K'|].
  exact (brokered_keygen_agreement (DL := toy_curve_log) eq_refl n_heap n_refs 1 curve_init n_params n_honest net 0 1 nd nd' key key'
    n_committee n_seat R ltac:(discriminate) E E' K K').
Defined.
